(* ===== verification/_CoqProject ===== *)
-Q . S2P
Prelude.v
CxxString.v
Utils.v
Sys.v
Os.v
Common.v
LockQueue.v
Json.v
Database.v
Store.v
ApiUtils.v
Gzip.v
Http.v
ClientUtils.v
Tests.v
Connect.v
Tcp.v
TimedRead.v
Threads.v
Worker.v
Promises.v
Pool.v
Rows.v
InMemory.v
Mysql.v
SqlTables.v
Location.v
ApiClient.v
Server.v
Answers.v
Typing.v
Polling.v
Client.v
ClientRun.v
System.v
Examples.v
EndToEnd.v
Start.v
MysqlServer.v
Scenarios.v
Stop.v
