(* ===== verification/Prelude.v ===== *)
(** * GeoChat: a verification development

    GeoChat is a chat server with a console client in C++.  The client
    writes HTTP requests with JSON bodies over TLS; the server reads them on
    its I/O threads, turns them into tasks in a queue, and worker threads
    execute the tasks against a storage and answer through the connection a
    task came from.  Polling clients are answered when their chats have
    messages that are newer than the last one they have seen.  This library
    models the program from its byte strings up to the two programs at the
    ends of a connection, and proves what each part promises the next.

    ** The parts, from the inside out

    - Prelude: byte strings with the escapes of C, machine integers as [Z]
      with their wrap-around, the monad [cxx] of a call that returns, throws
      or fails an assertion, tactics and the hint database [geochat].
      CxxString: the parts of the C and C++ libraries the sources use
      (character classes, searching, numbers, ordered sets of strings).
    - Utils, Sys, Os (common/utils.cpp, common/utils.hpp,
      common/sysutils.cpp): the string helpers; clocks, base64 and the
      readings of /proc; the helpers that call the system: users and the
      credentials of the process, files, processes and commands.
    - Common (common/common.hpp): commands, their resources, status codes.
    - LockQueue (common/lock_queue.hpp): the queue between the threads, with
      its interleavings.  Threads (common/io_thread.hpp, client/src/ui.cpp,
      client/src/event_worker.cpp): the loops of the threads.
    - Json (third_party/rapidjson-1.0.2): the reader, the writer and the
      accessors that the program calls.
    - Database (server/src/database.hpp, server/src/request.hpp): rows, tasks
      and the storage interface as the type class [AbstractConnection].
      Store: what a storage promises, as the class [ConnectionLaws] over an
      abstract database of maps and sets.  Rows: the lemmas both storages
      share.  InMemory (inmemory_dbconn.cpp) and Mysql (mysql_connection.cpp)
      are the two storages; SqlTables is a connector that shows that the
      laws assumed of MySQL can hold.
    - Worker (database_worker.cpp): one branch per command, as a program of
      accesses to the storage, proved against the laws, hence for both
      storages.  Promises: a program logic for these programs while other
      threads use the storage, and each branch proved in it.  Pool: the
      worker threads, the queue and the storage as a transition system.
      MysqlServer: what is particular to the storage the server runs on.
    - Gzip (net/client.cpp): the loop that inflates a compressed body.  Http
      (net/client.cpp, common/http.hpp): reading and writing on a socket and
      the machine that receives a message; the waits of the blocking reads
      are an interface, [BlockingReads].  Connect
      (net/async_connect.hpp, net/sync_connect.hpp) and Tcp (net/client.cpp,
      net/client.hpp): connecting, naming, closing and writing.  TimedRead:
      the blocking reads, their timers and what the handlers may touch.
    - ApiUtils (server/src/apiclient_utils): the bodies the server writes.
      ApiClient (server/src/apiclient.cpp): a connection of the server as a
      machine whose handlers give the calls they make.  Server (server.cpp):
      the connections, what is under way on them, and the worker composed.
      Stop (server.cpp, common/io_thread.hpp): the start of its threads, the
      signals and the wait for its end.  Answers: which calls a task makes on
      its connection, and that a call is the last thing it does.  Location
      (location_client.cpp): the lookup of a city, which the server takes as
      an argument that may throw, fail an assertion or never return.  Typing:
      the types of the parameters and of the tasks, on every run of the
      server.  Polling: what a connection asks for while its timer is under
      way.
    - ClientUtils (client/src/apiclient_utils): what a typed line means, the
      requests and the reading of the replies.  Client
      (client/src/client.cpp): the client as a machine.  ClientRun: the whole
      client program, its threads, handlers and two connections, as a machine
      of events.  Tests (tests/src/client_tests.cpp): the unit tests, run on
      the model.
    - EndToEnd: console, connections, server and storage put together, along
      one message.  System: a client program and the server running side by
      side, with a network between them.
      Start (server/src/main.cpp, client/src/main.cpp): from the options to
      the running program.
    - Examples, Scenarios: concrete runs of the worker and of the server.

    A definition has the name of the function or type it translates; the
    prefixes [mem_] and [my_] are the two storages, [do_] the branches of
    [processQueue].  Where C++ has an object, a definition takes its state
    and returns the new one; a handler of an asynchronous call returns the
    calls it makes, in order.

    ** What is shown

    - The whole way: a message typed on a console is on the screen of its
      receiver after the receiver's next poll, through both clients, two
      connections of the server, the worker and the storage
      ([typed_line_shown]).
    - The two programs together: whatever runs first on either side, and
      whatever the other connections of the server carry, a user who waits
      for the answer to a line is told the truth ([told_is_done]): when the
      answer has the status 200, the client reads it as the one to its last
      request, who asked is a user with that password, and what was asked for
      is in the database of the server and stays there.
    - The two ends agree: a command in the form of the help text is parsed
      into itself ([parse_render]), is written as its request
      ([typed_command_sent]), is received whatever follows it and however
      the network cuts it ([build_request_received],
      [asyncResponse_segments], [asyncResponse_total]), reaches the worker
      as it was made ([client_call_served]), and its answer is received
      ([server_response_received]) and read by the client
      ([login_answered], [polled_messages_shown]).  What the JSON writer
      writes the reader reads back ([parse_print]), and the reader ends on
      every text ([Parse_total]).
    - The storage: from the empty storage on, every sequence of calls moves
      the database by the steps of [db_step] and keeps it consistent, for
      the vectors ([in_memory_refines]) and for the SQL tables, where a
      refused registration leaves a chat and, on a server that stamps updated
      rows, a poll changes times ([mysql_refines]).  Any number of worker threads keep it so, whatever
      the order of their accesses ([pool_refines]); they lose no task and
      answer each as often as its command asks for ([pool_answers]), can
      always bring every task to its end ([pool_drains]), and when a client
      was answered with anything but an error, its request brought the
      password of a user and what it asked for is done and stays done
      ([pool_keeps_promises]).  The worker asks for the password before it
      touches anything ([auth_required]), and delivers: a message that was
      sent is in the next poll of its receiver ([sent_message_is_polled],
      [group_message_is_polled]).
    - The server composed: whatever its connections send and in whatever
      order their operations complete, the database stays consistent and
      positive answers are kept ([server_refines]); a connection that does
      not poll has one thing under way at most ([one_thing_under_way]), a
      polling one has not ([polls_overlap], [refused_polls_pile_up]); a
      signal ends the server exactly when it comes after the start of the
      last I/O thread ([stop_signal]); every task that is put is well typed
      and complete for its command ([tasks_typed]).
    - The threads and connections: tasks leave the queue in order
      ([queue_fifo]), typed lines reach the client in order
      ([typed_lines_delivered]), a connect that reports a success is
      usable ([http_connect_ok]) and a blocking one comes back
      ([sync_connect_ends]).  A blocking read that has to wait ends, in a
      bounded number of steps, with what was read or with the time-out, when
      another thread runs its service, and never when the caller is that
      thread, as it is in this program ([timed_read_ends]); the program never
      waits in one when it receives a message ([asyncResponse_never_waits]).
      Where the timer did not expire such a read gives what the reads
      without a timer give ([timed_reads_agree]).
    - The operating system: the server gives up its rights for good or does not go on
      ([privileges_dropped]), reads the list of processes
      ([processes_listed], [process_name]) and the output of a command
      ([execCmd_output]).  A server that accepts connections has given up its
      rights, has its threads and its port, and its user can read the key
      ([server_started]); the client starts exactly for a server that is
      named with a port ([client_started]).
    - The client program, on every run: what it writes is served as a call
      ([all_requests_served]), its first connection, once a connect, a
      handshake or a read failed, is being connected until it is up again
      ([client_reconnects]), answers are read as those of the last request
      when the user waits for them ([answers_attributed]).  It becomes deaf,
      for good, exactly when its only operation for polling is a write that
      fails ([deaf_client]), and it uses a destroyed object exactly when
      it replaces a connection in use ([client_dangles]).
    - What goes wrong: messages that are never delivered
      ([poll_loses_message], [mysql_long_message_lost]), a history that
      hides messages ([mysql_history_hidden]), failures of the database
      reported as something else ([outage_is_not_found],
      [mysql_createUser_not_atomic]), a body that stops the server
      ([parse_meta_aborts], [request_stops_server]), a lookup that never
      returns ([city_never_returns]) and what becomes of its request
      ([request_one_outcome]), answers the client attributes to the wrong
      command ([login_answer_overtaken], [refused_login_spoils_password]), a
      request that is executed again at each tick of a timer
      ([request_repeated]).

    ** Parameters

    Code that is not in the repository is an argument of the definitions, a
    type class with the laws the code relies on: [Crc32] (Boost), [StdSort]
    ([std::sort], which may order equal keys as it likes), [Zlib] with
    [ZlibLaws] (the calls of zlib: progress, and the ratio of its format),
    [Base64Digits], [SqlConnector] with [SqlLaws] (the MySQL connector and
    server; [StandardSql] is a condition on the installation, which the
    theorems that need it name), [Resolver] and [SocketNames] (Boost.Asio and the system),
    [LocationNetwork], [DoubleText] (the text of a fraction), [Unix] with
    [UnixLaws] (the system calls).  Each has an instance in the development.
    The option parser's result is the argument of the two [main]s.  The clock is the argument [now].

    ** Fuel

    [ParseValue] gets twice the length of the text plus two: every call
    consumes a byte or is followed by one that does, and [Parse_total] shows
    that it is enough.  The loop over the chunks of a message gets one unit
    for each byte that can still arrive and one more, and each round
    consumes a byte ([asyncResponse_total]).  The loop that inflates a body
    gets 1033 rounds for each byte and one more: a round takes a byte or
    writes one, and the format gives at most 1032 for each byte
    ([gzipInflate_ends]).  [split_loop] gets one more than
    the length of its line, of which each round drops a part
    ([split_loop_total]).  The reading loop of [Location] has no bound in the
    source: it takes any fuel, ends with the stream ([city_found]) and not
    otherwise ([city_never_returns]).

    ** Bounds

    [size_t], [uint64_t] and [time_t] have 64 bits, [int] and [unsigned] 32;
    additions that can wrap are written with [u64], [u32], [i64].  A
    theorem that depends on a range says so.  [time_fits] and its like in
    [ConnectionLaws] are what a storage can hold: everything in memory, the
    columns of mysql/init.sql in MySQL.

    ** Not modelled

    - The operating system's own behaviour: sockets below [read] and [write], the TLS
      records, the moment at which a timer expires (that it does is an
      event), the delivery of signals.
    - The methods of a storage are atomic, as the mutex that all its
      connections share makes them; the lookups that release it between two
      queries read what they would have read ([chats_read_later]).  The I/O
      threads are not interleaved access by access: a handler of a connection
      is one step, also where the members of an [ApiClient] are used by an
      I/O thread and a worker, or those of the [Client] by its I/O thread and
      the thread of the console.
    - Of the two programs together ([System]) the network is a model of our
      own: two streams of bytes, reliable and in order, for as long as no
      operation on the connection fails.  It stands for TCP and TLS, which
      are not in the repository.
    - Logging and the parsing of options (third_party/o2logger,
      third_party/libproperty), the choice of the I/O thread that serves a
      connection.
    - Of rapidjson: the in-situ and iterative parsers, other encodings, the
      output of fractions. *)

From Stdlib Require Export Strings.Ascii ZArith Lia Sorting.Sorted.
From Stdlib Require Strings.Byte.
From stdpp Require Export base tactics decidable option list list_numbers numbers strings sets gmap relations.

(** ** Byte strings

    A [std::string] is a list of bytes, each an [ascii].  String literals
    of scope [str] denote such lists and know the C escapes the sources
    use: [\r], [\n], [\t], [\0], [\\], and [\q] for the double quote. *)

Abbreviation str := (list ascii).

Definition str_unescape : list Byte.byte -> str :=
  fix go (l : list Byte.byte) : str :=
    match l with
    | [] => []
    | Byte.x5c :: Byte.x72 :: l' => "013"%char :: go l'
    | Byte.x5c :: Byte.x6e :: l' => "010"%char :: go l'
    | Byte.x5c :: Byte.x74 :: l' => "009"%char :: go l'
    | Byte.x5c :: Byte.x30 :: l' => "000"%char :: go l'
    | Byte.x5c :: Byte.x71 :: l' => "034"%char :: go l'
    | Byte.x5c :: Byte.x5c :: l' => "092"%char :: go l'
    | b :: l' => ascii_of_byte b :: go l'
    end.

Definition str_escape (s : str) : option (list Byte.byte) :=
  Some (List.flat_map (fun c =>
    match byte_of_ascii c with
    | Byte.x0d => [Byte.x5c; Byte.x72]
    | Byte.x0a => [Byte.x5c; Byte.x6e]
    | Byte.x09 => [Byte.x5c; Byte.x74]
    | Byte.x00 => [Byte.x5c; Byte.x30]
    | Byte.x22 => [Byte.x5c; Byte.x71]
    | Byte.x5c => [Byte.x5c; Byte.x5c]
    | b => [b]
    end) s).

Declare Scope str_scope.
Delimit Scope str_scope with str.
String Notation str str_unescape str_escape : str_scope.

#[global] Open Scope Z_scope.
#[global] Open Scope str_scope.

(** The value of a byte as an [unsigned char]. *)
Definition byte_val (c : ascii) : Z := Z.of_N (N_of_ascii c).

Definition NUL : ascii := "000"%char.
Definition CR : ascii := "013"%char.
Definition LF : ascii := "010"%char.
Definition SP : ascii := " "%char.
Definition QUOTE : ascii := "034"%char.
Definition BACKSLASH : ascii := "092"%char.

(** ** Machine integers

    A [uint32_t], [uint64_t], [size_t] (64 bits) is a [Z] in range; [wrap]
    writes out the reduction modulo a power of two and [swrap] the
    conversion to a two's complement signed type. *)

Definition wrap (w : Z) (z : Z) : Z := z mod 2 ^ w.
Definition swrap (w : Z) (z : Z) : Z :=
  let u := wrap w z in if u <? 2 ^ (w - 1) then u else u - 2 ^ w.

Abbreviation u16 := (wrap 16).
Abbreviation u32 := (wrap 32).
Abbreviation u64 := (wrap 64).
Abbreviation i32 := (swrap 32).
Abbreviation i64 := (swrap 64).

Definition in_u (w z : Z) : Prop := 0 <= z < 2 ^ w.
Definition in_s (w z : Z) : Prop := - 2 ^ (w - 1) <= z < 2 ^ (w - 1).

Lemma wrap_small w z : in_u w z -> wrap w z = z.
Proof. apply Z.mod_small. Qed.

Lemma wrap_range w z : 0 <= w -> in_u w (wrap w z).
Proof. intros. apply Z.mod_pos_bound. lia. Qed.

Lemma swrap_range w z : 0 < w -> in_s w (swrap w z).
Proof.
  intros Hw. unfold in_s, swrap.
  pose proof (wrap_range w z ltac:(lia)) as [H1 H2].
  assert (2 ^ w = 2 * 2 ^ (w - 1)) as Hp.
  { rewrite <- Z.pow_succ_r by lia. f_equal. lia. }
  destruct (Z.ltb_spec (wrap w z) (2 ^ (w - 1))); lia.
Qed.

(** ** Exceptions and assertion failures

    A C++ call returns, throws one of the standard exceptions, or fails an
    [assert] (the server is built without NDEBUG, see server/src/wscript),
    which stops the process. *)

Inductive exn :=
| invalid_argument
| out_of_range
| runtime_error (what : str).

Inductive cxx (A : Type) :=
| Ret (a : A)
| Throw (e : exn)
| AssertFail.
Arguments Ret {A} a.
Arguments Throw {A} e.
Arguments AssertFail {A}.

#[export] Instance exn_eq_dec : EqDecision exn.
Proof. solve_decision. Defined.

#[export] Instance cxx_eq_dec {A} `{!EqDecision A} : EqDecision (cxx A).
Proof. solve_decision. Defined.

#[export] Instance cxx_ret : MRet cxx := @Ret.
#[export] Instance cxx_bind : MBind cxx := fun A B f m =>
  match m with
  | Ret a => f a
  | Throw e => Throw e
  | AssertFail => AssertFail
  end.

(** [try { m } catch (const std::exception &) { h }]: an assertion failure
    is not an exception and is not caught. *)
Definition try_catch {A} (m : cxx A) (h : cxx A) : cxx A :=
  match m with Throw _ => h | _ => m end.

(** Calls that throw nothing, whatever else they do. *)
Class NoThrow {A} (m : cxx A) : Prop := no_throw e : m <> Throw e.

#[export] Instance no_throw_ret {A} (a : A) : NoThrow (mret a).
Proof. done. Qed.
#[export] Instance no_throw_assert {A} : NoThrow (@AssertFail A).
Proof. done. Qed.
#[export] Instance no_throw_bind {A B} (f : A -> cxx B) (m : cxx A) :
  NoThrow m -> (forall a, NoThrow (f a)) -> NoThrow (m ≫= f).
Proof. intros Hm Hf e. destruct m; simpl; [apply Hf|intros [= ->]; by apply (Hm e)|done]. Qed.

(** Follows the branches of a call to its ends. *)
Ltac nothrow :=
  repeat first [apply _ | simple apply no_throw_bind; [|intros ?] | case_match].

(** ** Tactics and hints shared by the components *)

Create HintDb geochat.

(** Splits every [if]/[match] of the goal, keeping the equations. *)
Ltac split_ifs :=
  repeat (case_match || case_decide || case_bool_decide); simplify_eq.

(** Turns boolean comparisons of the context into arithmetic facts. *)
Ltac zb :=
  repeat match goal with
  | H : (_ <? _) = true |- _ => apply Z.ltb_lt in H
  | H : (_ <? _) = false |- _ => apply Z.ltb_ge in H
  | H : (_ <=? _) = true |- _ => apply Z.leb_le in H
  | H : (_ <=? _) = false |- _ => apply Z.leb_gt in H
  | H : (_ =? _) = true |- _ => apply Z.eqb_eq in H
  | H : (_ =? _) = false |- _ => apply Z.eqb_neq in H
  | H : (_ && _)%bool = true |- _ => apply andb_true_iff in H as [? ?]
  | H : (_ || _)%bool = false |- _ => apply orb_false_iff in H as [? ?]
  | H : negb _ = true |- _ => apply negb_true_iff in H
  | H : negb _ = false |- _ => apply negb_false_iff in H
  end.

(** ** Facts about all 256 bytes, by enumeration *)

Definition all_bytes : list ascii := ascii_of_N <$> (N.of_nat <$> List.seq 0 256).

Lemma all_bytes_complete c : c ∈ all_bytes.
Proof.
  unfold all_bytes. rewrite <- (ascii_N_embedding c). apply list_elem_of_fmap.
  exists (N_of_ascii c). split; [done|]. apply list_elem_of_fmap.
  exists (N.to_nat (N_of_ascii c)). split; [lia|].
  apply list_elem_of_In, in_seq. pose proof (N_ascii_bounded c). lia.
Qed.

(** A boolean property of bytes holds of all when [forallb] says so. *)
Lemma byte_cases (P : ascii -> bool) :
  forallb P all_bytes = true -> forall c, P c = true.
Proof.
  intros H c. rewrite forallb_forall in H. apply H.
  apply list_elem_of_In, all_bytes_complete.
Qed.

(** Proves a decidable fact about the byte [c] of the goal by evaluation. *)
Ltac by_bytes P :=
  match goal with
  | c : ascii |- _ =>
      let H := fresh in
      pose proof (byte_cases P ltac:(vm_compute; reflexivity) c) as H;
      cbv beta in H; revert H;
      rewrite ?orb_true_iff, ?andb_true_iff, ?negb_true_iff, ?bool_decide_eq_true;
      intuition congruence
  end.

(** Membership of a byte in a fixed set of bytes. *)
Definition one_of (l : str) (c : ascii) : bool := bool_decide (c ∈ l).

Lemma byte_val_range c : 0 <= byte_val c < 256.
Proof. unfold byte_val. pose proof (N_ascii_bounded c). lia. Qed.

Lemma byte_val_inj c d : byte_val c = byte_val d -> c = d.
Proof.
  unfold byte_val. intros H.
  rewrite <- (ascii_N_embedding c), <- (ascii_N_embedding d). f_equal. lia.
Qed.

(** ** Lists *)

Lemma take_app_all {A} (l1 l2 : list A) n : n = length l1 -> take n (l1 ++ l2) = l1.
Proof. intros ->. apply take_app_length. Qed.

Lemma drop_app_all {A} (l1 l2 : list A) n : n = length l1 -> drop n (l1 ++ l2) = l2.
Proof. intros ->. apply drop_app_length. Qed.

(** [keep p l] is the longest prefix of [l] whose elements satisfy [p]. *)
Fixpoint keep {A} (p : A -> bool) (l : list A) : list A :=
  match l with
  | [] => []
  | x :: l' => if p x then x :: keep p l' else []
  end.

(** [skip p l] drops that prefix. *)
Fixpoint skip {A} (p : A -> bool) (l : list A) : list A :=
  match l with
  | [] => []
  | x :: l' => if p x then skip p l' else l
  end.

Section keep_skip.
Context {A : Type} (p : A -> bool).

Lemma keep_skip l : keep p l ++ skip p l = l.
Proof. induction l as [|x l IH]; simpl; [done|]. destruct (p x); simpl; congruence. Qed.

Lemma keep_all l : Forall (fun x => p x = true) (keep p l).
Proof. induction l as [|x l IH]; simpl; [constructor|]. destruct (p x) eqn:?; auto. Qed.

Lemma skip_app_all l1 l2 :
  Forall (fun x => p x = true) l1 -> skip p (l1 ++ l2) = skip p l2.
Proof. induction 1; simpl; [done|]. by rewrite H. Qed.

Lemma keep_app_all l1 l2 :
  Forall (fun x => p x = true) l1 -> keep p (l1 ++ l2) = l1 ++ keep p l2.
Proof. induction 1; simpl; [done|]. rewrite H. by f_equal. Qed.

Lemma skip_stop x l : p x = false -> skip p (x :: l) = x :: l.
Proof. intros H. simpl. by rewrite H. Qed.

Lemma skip_length l : (length (skip p l) <= length l)%nat.
Proof. induction l as [|x l IH]; simpl; [lia|]. destruct (p x); simpl; lia. Qed.

Lemma skip_none l : Forall (fun x => p x = false) l -> skip p l = l.
Proof. destruct 1 as [|x l Hx]; simpl; [done|]. by rewrite Hx. Qed.

Lemma keep_none l : Forall (fun x => p x = false) l -> keep p l = [].
Proof. destruct 1 as [|x l Hx]; simpl; [done|]. by rewrite Hx. Qed.

Lemma keep_id l : Forall (fun x => p x = true) l -> keep p l = l.
Proof. induction 1; simpl; [done|]. rewrite H. by f_equal. Qed.

Lemma skip_head l : match skip p l with [] => True | x :: _ => p x = false end.
Proof. induction l as [|x l IH]; simpl; [done|]. destruct (p x) eqn:?; auto. Qed.
End keep_skip.

#[export] Hint Resolve keep_all skip_length : geochat.


(** ** A list of rows as a map from their keys

    When several rows share a key the first one counts, as in the loops
    that look a row up. *)

Section index.
Context {A : Type} (key : A -> Z).

Definition index (l : list A) : gmap Z A := list_to_map ((fun x => (key x, x)) <$> l).

Lemma index_find l i : index l !! i = List.find (fun x => bool_decide (key x = i)) l.
Proof.
  unfold index. induction l as [|x l IH]; simpl; [apply lookup_empty|].
  case_bool_decide as H.
  - subst. apply lookup_insert_eq.
  - rewrite lookup_insert_ne by done. apply IH.
Qed.

Lemma index_Some l i x : index l !! i = Some x -> x ∈ l /\ key x = i.
Proof.
  rewrite index_find. intros [H1 H2]%find_some. apply bool_decide_eq_true in H2.
  by rewrite list_elem_of_In.
Qed.

Lemma index_None l i : index l !! i = None <-> i ∉ (key <$> l).
Proof.
  unfold index. rewrite <- not_elem_of_list_to_map, <- list_fmap_compose. done.
Qed.

Lemma index_elem l i x :
  NoDup (key <$> l) -> index l !! i = Some x <-> x ∈ l /\ key x = i.
Proof.
  intros Hd. split; [apply index_Some|]. intros [Hx <-]. unfold index.
  apply elem_of_list_to_map.
  - by rewrite <- list_fmap_compose.
  - apply list_elem_of_fmap. eauto.
Qed.

Lemma index_is_Some l i : is_Some (index l !! i) <-> i ∈ (key <$> l).
Proof.
  rewrite <- not_eq_None_Some, index_None. split; [apply dec_stable|tauto].
Qed.

Lemma index_snoc l x : key x ∉ (key <$> l) -> index (l ++ [x]) = <[key x := x]> (index l).
Proof.
  intros H. apply map_eq. intros i.
  destruct (decide (key x = i)) as [<-|Hi].
  - rewrite lookup_insert_eq. rewrite index_find.
    destruct (List.find _ (l ++ [x])) as [y|] eqn:E.
    + apply find_some in E as [[Hy|[->|[]]]%in_app_or Hk]; [|done].
      apply bool_decide_eq_true in Hk. destruct H. rewrite <- Hk. apply list_elem_of_fmap_2.
      by apply list_elem_of_In.
    + eapply find_none in E; [|apply in_or_app; right; by left].
      by rewrite bool_decide_eq_true_2 in E.
  - rewrite lookup_insert_ne by done. unfold index.
    rewrite fmap_app, list_to_map_app. simpl.
    rewrite lookup_union_l; [done|]. by rewrite lookup_insert_ne.
Qed.
End index.

Lemma NoDup_snoc {A} (l : list A) x : NoDup (l ++ [x]) <-> (x ∉ l) /\ NoDup l.
Proof.
  rewrite NoDup_app. split.
  - intros (H1 & H2 & _). split; [|done]. intros Hx. apply (H2 x Hx). by left.
  - intros [H1 H2]. split_and!; [done| |apply NoDup_singleton].
    intros y Hy ->%list_elem_of_singleton. done.
Qed.

Lemma NoDup_fmap_inj {A B} (f : A -> B) l x y :
  NoDup (f <$> l) -> x ∈ l -> y ∈ l -> f x = f y -> x = y.
Proof.
  intros Hd (i & Hi)%list_elem_of_lookup_1 (j & Hj)%list_elem_of_lookup_1 Hf.
  assert (i = j) as ->; [|by simplify_eq].
  eapply NoDup_lookup; [exact Hd| |]; rewrite list_lookup_fmap; [by rewrite Hi|by rewrite Hj, Hf].
Qed.

Lemma existsb_elem {A} (p : A -> bool) (l : list A) :
  existsb p l = true <-> exists x, x ∈ l /\ p x = true.
Proof. rewrite existsb_exists. by setoid_rewrite list_elem_of_In. Qed.

Lemma existsb_elem_false {A} (p : A -> bool) (l : list A) :
  existsb p l = false <-> forall x, x ∈ l -> p x = false.
Proof.
  rewrite <- not_true_iff_false, existsb_elem. split.
  - intros H x Hx. destruct (p x) eqn:E; [|done]. destruct H. eauto.
  - intros H (x & Hx & E). by rewrite H in E.
Qed.

Lemma singleton_of {A} (l : list A) x :
  NoDup l -> x ∈ l -> (forall y, y ∈ l -> y = x) -> l = [x].
Proof.
  intros Hd Hx Hall. destruct l as [|a [|b l]]; [by apply not_elem_of_nil in Hx| |].
  - f_equal. apply Hall. by left.
  - apply NoDup_cons in Hd as [Ha _]. destruct Ha.
    rewrite (Hall a), (Hall b) by (repeat constructor). by left.
Qed.

Lemma fmap_rev {A B} (f : A -> B) l : f <$> rev l = rev (f <$> l).
Proof. induction l as [|x l IH]; csimpl; [done|]. by rewrite fmap_app, IH. Qed.

#[export] Instance list_filter_proper {A} (p : A -> bool) :
  Proper ((≡ₚ) ==> (≡ₚ)) (List.filter p).
Proof.
  intros l l' H. induction H as [|x l l' H IH|x y l|l1 l2 l3 H1 IH1 H2 IH2]; simpl.
  - done.
  - destruct (p x); by rewrite IH.
  - destruct (p x), (p y); try done. apply perm_swap.
  - by rewrite IH1.
Qed.
