(* ===== verification/CxxString.v ===== *)
(** * The C and C++ standard library functions on strings the program uses

    Executable definitions of the parts of [<string>], [<cstring>],
    [<cctype>], [<algorithm>] and [std::set] that the sources call, in the
    default "C" locale, with the lemmas the components share about them.
    None of this is code of the repository. *)

From S2P Require Import Prelude.

(** ** Characters *)

Definition isspace (c : ascii) : bool :=
  let v := byte_val c in ((9 <=? v) && (v <=? 13)) || (v =? 32).
Definition isdigit (c : ascii) : bool :=
  let v := byte_val c in (48 <=? v) && (v <=? 57).
Definition isupper (c : ascii) : bool :=
  let v := byte_val c in (65 <=? v) && (v <=? 90).
Definition islower (c : ascii) : bool :=
  let v := byte_val c in (97 <=? v) && (v <=? 122).
Definition isalpha (c : ascii) : bool := isupper c || islower c.
Definition tolower (c : ascii) : ascii :=
  if isupper c then ascii_of_N (N_of_ascii c + 32) else c.
Definition toupper (c : ascii) : ascii :=
  if islower c then ascii_of_N (N_of_ascii c - 32) else c.

(** A character of [\w] in an ECMAScript regular expression. *)
Definition isword (c : ascii) : bool := isalpha c || isdigit c || bool_decide (c = "_"%char).

Lemma tolower_idem c : tolower (tolower c) = tolower c.
Proof.
  by_bytes (fun c => bool_decide (tolower (tolower c) = tolower c)).
Qed.

(** ** C strings *)

(** The character under a read position; past the end is the terminator. *)
Definition peek (s : str) : ascii := match s with [] => NUL | c :: _ => c end.

(** What a callee sees of [s.c_str()], [s.data()] or [GetString()]. *)
Definition c_str (s : str) : str := keep (fun c => negb (bool_decide (c = NUL))) s.

(** [strncmp(a, b, n) == 0]. *)
Fixpoint strncmp_eq (a b : str) (n : nat) : bool :=
  match n with
  | O => true
  | S n' =>
      if decide (peek a = peek b) then
        if decide (peek a = NUL) then true else strncmp_eq (tail a) (tail b) n'
      else false
  end.

(** [strcasecmp(a.c_str(), b.c_str()) == 0]. *)
Definition strcasecmp_eq (a b : str) : bool :=
  bool_decide (tolower <$> c_str a = tolower <$> c_str b).

Definition no_nul (s : str) : Prop := Forall (fun c => c <> NUL) s.

#[export] Instance no_nul_dec s : Decision (no_nul s) := _.

Lemma c_str_id s : no_nul s -> c_str s = s.
Proof.
  intros H. apply keep_id. eapply Forall_impl; [exact H|].
  intros c Hc. simpl. by rewrite bool_decide_eq_false_2.
Qed.

Lemma c_str_no_nul s : no_nul (c_str s).
Proof.
  eapply Forall_impl; [apply keep_all|].
  intros c Hc. simpl in Hc. by case_bool_decide.
Qed.

Lemma c_str_idem s : c_str (c_str s) = c_str s.
Proof. apply c_str_id, c_str_no_nul. Qed.

Lemma no_nul_app a b : no_nul (a ++ b) <-> no_nul a /\ no_nul b.
Proof. apply Forall_app. Qed.

Lemma strcasecmp_eq_refl a : strcasecmp_eq a a = true.
Proof. by apply bool_decide_eq_true_2. Qed.

(** Comparing [size] characters against a terminator-free prefix is the
    prefix test. *)
Fixpoint starts (p s : str) : bool :=
  match p, s with
  | [], _ => true
  | c :: p', d :: s' => bool_decide (c = d) && starts p' s'
  | _ :: _, [] => false
  end.

Lemma starts_spec p s : starts p s = true <-> exists t, s = p ++ t.
Proof.
  revert s. induction p as [|c p IH]; intros s; simpl.
  - split; [by exists s|done].
  - destruct s as [|d s]; simpl.
    + split; [done|]. intros [t Ht]. done.
    + rewrite andb_true_iff, bool_decide_eq_true, IH. split.
      * intros [-> [t ->]]. by exists t.
      * intros [t [= -> ->]]. eauto.
Qed.

Lemma starts_app p t : starts p (p ++ t) = true.
Proof. apply starts_spec. by exists t. Qed.

Lemma starts_length p s : starts p s = true -> (length p <= length s)%nat.
Proof. intros [t ->]%starts_spec. rewrite length_app. lia. Qed.

Lemma starts_ext p s t : starts p s = true -> starts p (s ++ t) = true.
Proof. intros [u ->]%starts_spec. rewrite <- app_assoc. apply starts_app. Qed.

Lemma starts_shrink p s t :
  (length p <= length s)%nat -> starts p (s ++ t) = starts p s.
Proof.
  revert s. induction p as [|c p IH]; intros [|d s] H; simpl in *; try done; try lia.
  by rewrite IH by lia.
Qed.

Lemma strncmp_eq_starts p s : no_nul p -> strncmp_eq s p (length p) = starts p s.
Proof.
  revert s. induction p as [|c p IH]; intros s Hp; simpl; [done|].
  inversion Hp as [|? ? Hc Hp']; subst. destruct s as [|d s]; simpl.
  - destruct (decide (NUL = c)) as [<-|]; done.
  - destruct (decide (d = c)) as [->|Hd].
    + destruct (decide (c = NUL)); [done|]. rewrite bool_decide_eq_true_2 by done. simpl. auto.
    + by rewrite bool_decide_eq_false_2 by congruence.
Qed.

(** ** Searching: [std::search], [find], [rfind] *)

(** First index of [s] at which [p] occurs: [std::search] and the scan of
    [std::string::find]. *)
Fixpoint search (p s : str) : option nat :=
  if starts p s then Some 0%nat
  else match s with [] => None | _ :: s' => S <$> search p s' end.

Definition find (s p : str) (pos : nat) : option nat :=
  if (pos <=? length s)%nat then Nat.add pos <$> search p (drop pos s) else None.

(** Last index at which [p] occurs. *)
Fixpoint rsearch (p s : str) : option nat :=
  match s with
  | [] => if starts p [] then Some 0%nat else None
  | _ :: s' =>
      match rsearch p s' with
      | Some i => Some (S i)
      | None => if starts p s then Some 0%nat else None
      end
  end.
Definition rfind (s p : str) : option nat := rsearch p s.

(** [s.substr(pos, n)], which throws when [pos] is past the end. *)
Definition sub (s : str) (pos n : nat) : str := take n (drop pos s).
Definition substr (s : str) (pos n : nat) : cxx str :=
  if (pos <=? length s)%nat then Ret (sub s pos n) else Throw out_of_range.

Definition occurs (p s : str) : Prop := exists a b, s = a ++ p ++ b.

Lemma search_Some p s i :
  search p s = Some i ->
  exists a b, s = a ++ p ++ b /\ length a = i.
Proof.
  revert i. induction s as [|c s IH]; intros i H; cbn [search] in H.
  - destruct (starts p []) eqn:E; simplify_eq.
    apply starts_spec in E as [t E]. by exists [], t.
  - destruct (starts p (c :: s)) eqn:E; simplify_eq.
    + apply starts_spec in E as [t E]. by exists [], t.
    + destruct (search p s) as [j|] eqn:F; simplify_eq/=.
      destruct (IH _ eq_refl) as (a & b & -> & <-). by exists (c :: a), b.
Qed.

(** The index found is the first: the pattern starts nowhere before. *)
Lemma search_first p s i j :
  search p s = Some i -> (j < i)%nat -> starts p (drop j s) = false.
Proof.
  revert i j. induction s as [|c s IH]; intros i j H Hj; cbn [search] in H.
  - destruct (starts p []); simplify_eq; lia.
  - destruct (starts p (c :: s)) eqn:E; simplify_eq; [lia|].
    destruct (search p s) as [k|] eqn:F; simplify_eq/=.
    destruct j as [|j]; [done|]. simpl. eapply IH; [done|lia].
Qed.

Lemma search_None p s : search p s = None <-> ~ occurs p s.
Proof.
  split.
  - intros H (a & b & ->). revert H. induction a as [|c a IH]; cbn [search app].
    + destruct (p ++ b) eqn:E; cbn [search]; rewrite <- E, starts_app; done.
    + destruct (starts p (c :: a ++ p ++ b)); [done|].
      destruct (search p (a ++ p ++ b)); [done|auto].
  - intros H. destruct (search p s) as [i|] eqn:E; [|done].
    destruct H. apply search_Some in E as (a & b & -> & _). by exists a, b.
Qed.

(** If the pattern starts at position [length a] and nowhere before, the
    scan finds that position. *)
Lemma search_intro p a b :
  (forall j, (j < length a)%nat -> starts p (drop j (a ++ p ++ b)) = false) ->
  search p (a ++ p ++ b) = Some (length a).
Proof.
  induction a as [|c a IH]; intros H.
  - simpl. destruct (p ++ b) eqn:E; cbn [search]; by rewrite <- E, starts_app.
  - cbn [search app]. pose proof (H 0%nat ltac:(simpl; lia)) as H0. simpl in H0.
    rewrite H0, IH; [done|]. intros j Hj. apply (H (S j)). simpl. lia.
Qed.

Lemma search_ext p s t i : search p s = Some i -> search p (s ++ t) = Some i.
Proof.
  intros H. destruct (search_Some _ _ _ H) as (a & b & -> & <-).
  rewrite <- !app_assoc. apply search_intro. intros j Hj.
  pose proof (search_first _ _ _ _ H Hj) as Hf.
  destruct (starts p (drop j (a ++ p ++ b ++ t))) eqn:E; [|done].
  rewrite <- Hf, <- E.
  replace (a ++ p ++ b ++ t) with ((a ++ p ++ b) ++ t) by by rewrite <- !app_assoc.
  rewrite (drop_app_le (a ++ p ++ b)) by (rewrite !length_app; lia).
  apply starts_shrink. rewrite length_drop, !length_app. lia.
Qed.

(** A pattern whose first byte is absent from [a] is first found after it. *)
Lemma search_skip c p a b :
  c ∉ a -> search (c :: p) (a ++ (c :: p) ++ b) = Some (length a).
Proof.
  intros Hc. apply search_intro. intros j Hj.
  destruct (lookup_lt_is_Some_2 a j Hj) as [d Hd].
  rewrite drop_app_le by lia. rewrite (drop_S _ _ _ Hd). cbn [starts app].
  rewrite bool_decide_eq_false_2; [done|].
  intros <-. apply Hc. by eapply list_elem_of_lookup_2.
Qed.

Lemma search_absent c p s : c ∉ s -> search (c :: p) s = None.
Proof.
  intros H. apply search_None. intros (a & b & ->). set_solver.
Qed.

Lemma search_lt p s i : search p s = Some i -> (i + length p <= length s)%nat.
Proof. intros (a & b & -> & <-)%search_Some. rewrite !length_app. lia. Qed.

(** Cutting a string at an occurrence of the pattern. *)
Lemma search_cut p s i :
  search p s = Some i -> take i s ++ p ++ drop (i + length p) s = s.
Proof.
  intros (a & b & -> & <-)%search_Some.
  rewrite take_app_length, (app_assoc a p b), drop_app_all by (by rewrite length_app).
  by rewrite app_assoc.
Qed.

Lemma find_0 s p : find s p 0 = search p s.
Proof. unfold find. simpl. rewrite drop_0. by destruct (search p s). Qed.

(** ** Decimal numbers: [std::to_string], [std::stoi], [std::stoul] *)

Definition digit (d : Z) : ascii := ascii_of_N (Z.to_N (48 + d)).

Fixpoint dec_go (fuel : nat) (n : Z) (acc : str) : str :=
  match fuel with
  | O => acc
  | S f =>
      let acc' := digit (n mod 10) :: acc in
      if n <? 10 then acc' else dec_go f (n / 10) acc'
  end.

(** Decimal digits of [n >= 0]; the fuel bounds the number of digits. *)
Definition dec (n : Z) : str := dec_go (S (Z.to_nat (Z.log2 n))) n [].

Definition to_string (n : Z) : str := if n <? 0 then "-" ++ dec (- n) else dec n.

(** The value of a digit in bases up to 16. *)
Definition digit_val (c : ascii) : Z :=
  let v := byte_val c in
  if isdigit c then v - 48 else if isupper c then v - 55 else v - 87.

Definition isxdigit (c : ascii) : bool :=
  let v := byte_val c in
  isdigit c || ((65 <=? v) && (v <=? 70)) || ((97 <=? v) && (v <=? 102)).

Definition base_digit (base : Z) (c : ascii) : bool :=
  if decide (base = 16) then isxdigit c else isdigit c.

Definition digits_val (base : Z) (l : str) : Z :=
  foldl (fun a c => base * a + digit_val c) 0 l.

(** Common part of [strtol] and [strtoul]: sign, magnitude, and the number
    of characters consumed; [None] when there are no digits.  Base 16
    accepts a [0x] prefix. *)
Definition strto (base : Z) (s : str) : option (bool * Z * nat) :=
  let s0 := c_str s in
  let s1 := skip isspace s0 in
  let neg := bool_decide (peek s1 = "-"%char) in
  let s2 := if neg || bool_decide (peek s1 = "+"%char) then tail s1 else s1 in
  let s3 := if bool_decide (base = 16) && bool_decide (peek s2 = "0"%char)
               && bool_decide (tolower (peek (tail s2)) = "x"%char)
               && isxdigit (peek (tail (tail s2)))
            then tail (tail s2) else s2 in
  let ds := keep (base_digit base) s3 in
  if decide (ds = []) then None
  else Some (neg, digits_val base ds, (length s0 - (length s3 - length ds))%nat).

(** [std::stoi(s, &pos)]. *)
Definition stoi_pos (s : str) : cxx (Z * nat) :=
  match strto 10 s with
  | None => Throw invalid_argument
  | Some (neg, v, n) =>
      let z := if neg : bool then - v else v in
      if decide (in_s 32 z) then Ret (z, n) else Throw out_of_range
  end.
Definition stoi (s : str) : cxx Z := '(z, _) ← stoi_pos s; mret z.

(** [std::stoul(s, &pos, base)]: a minus sign negates modulo 2^64. *)
Definition stoul_pos (base : Z) (s : str) : cxx (Z * nat) :=
  match strto base s with
  | None => Throw invalid_argument
  | Some (neg, v, n) =>
      if decide (in_u 64 v) then Ret (if neg : bool then u64 (- v) else v, n)
      else Throw out_of_range
  end.
Definition stoul (base : Z) (s : str) : cxx Z := '(z, _) ← stoul_pos base s; mret z.

#[export] Instance in_s_dec w z : Decision (in_s w z) := _.
#[export] Instance in_u_dec w z : Decision (in_u w z) := _.

Lemma digit_val_digit d : 0 <= d < 10 -> digit_val (digit d) = d /\ isdigit (digit d) = true.
Proof.
  intros H.
  assert (d = 0 \/ d = 1 \/ d = 2 \/ d = 3 \/ d = 4 \/ d = 5 \/ d = 6 \/ d = 7 \/ d = 8 \/ d = 9)
    as Hd by lia.
  destruct_or! Hd; subst d; done.
Qed.

Definition all_digits (l : str) : Prop := Forall (fun c => isdigit c = true) l.

Lemma dec_go_digits fuel n acc : all_digits acc -> 0 <= n -> all_digits (dec_go fuel n acc).
Proof.
  revert n acc. induction fuel as [|f IH]; intros n acc Ha Hn; simpl; [done|].
  assert (all_digits (digit (n mod 10) :: acc)).
  { constructor; [|done]. apply digit_val_digit. by apply Z.mod_pos_bound. }
  destruct (n <? 10); [done|]. apply IH; [done|]. by apply Z.div_pos.
Qed.

Lemma dec_digits n : 0 <= n -> all_digits (dec n).
Proof. intros. apply dec_go_digits; [constructor|done]. Qed.

Lemma digits_val_app base l1 l2 :
  digits_val base (l1 ++ l2) = base ^ Z.of_nat (length l2) * digits_val base l1 + digits_val base l2.
Proof.
  unfold digits_val. rewrite foldl_app.
  generalize (foldl (fun a c => base * a + digit_val c) 0 l1). clear l1.
  induction l2 as [|c l IH] using rev_ind; intros a; simpl; [lia|].
  rewrite !foldl_app, length_app, Nat2Z.inj_add. simpl.
  rewrite IH, Z.pow_add_r by lia. lia.
Qed.

Lemma digits_val_snoc base l c : digits_val base (l ++ [c]) = base * digits_val base l + digit_val c.
Proof. unfold digits_val. by rewrite foldl_app. Qed.

Lemma digits_val_cons base c l :
  digits_val base (c :: l) = digit_val c * base ^ Z.of_nat (length l) + digits_val base l.
Proof. change (c :: l) with ([c] ++ l). rewrite digits_val_app. unfold digits_val at 1. simpl foldl. lia. Qed.

Lemma dec_go_val fuel n acc :
  0 <= n < 2 ^ Z.of_nat fuel -> fuel <> 0%nat ->
  digits_val 10 (dec_go fuel n acc) = 10 ^ Z.of_nat (length acc) * n + digits_val 10 acc.
Proof.
  revert n acc. induction fuel as [|f IH]; intros n acc Hn Hf; [done|]. simpl.
  assert (digits_val 10 (digit (n mod 10) :: acc)
          = 10 ^ Z.of_nat (length acc) * (n mod 10) + digits_val 10 acc) as Hd.
  { change (digit (n mod 10) :: acc) with ([digit (n mod 10)] ++ acc).
    rewrite digits_val_app. unfold digits_val at 1. simpl.
    rewrite (proj1 (digit_val_digit (n mod 10) ltac:(by apply Z.mod_pos_bound))). lia. }
  destruct (Z.ltb_spec n 10).
  - rewrite Hd, Z.mod_small; lia.
  - rewrite IH.
    + rewrite Hd. cbn [length]. rewrite Nat2Z.inj_succ, Z.pow_succ_r by lia.
      pose proof (Z.div_mod n 10 ltac:(lia)). nia.
    + split; [by apply Z.div_pos; lia|]. apply Z.div_lt_upper_bound; [lia|].
      rewrite Nat2Z.inj_succ, Z.pow_succ_r in Hn by lia. lia.
    + intros ->. simpl in Hn. lia.
Qed.

Lemma dec_val n : 0 <= n -> digits_val 10 (dec n) = n.
Proof.
  intros H. unfold dec. rewrite dec_go_val; [unfold digits_val; simpl; lia| |done].
  split; [done|]. rewrite Nat2Z.inj_succ, Z2Nat.id by apply Z.log2_nonneg.
  destruct (Z.eq_dec n 0) as [->|]; [done|]. by apply Z.log2_spec; lia.
Qed.

Lemma dec_go_nonempty fuel n acc : dec_go (S fuel) n acc <> [].
Proof.
  revert n acc. induction fuel as [|f IH]; intros n acc; cbn [dec_go].
  - by destruct (n <? 10).
  - destruct (n <? 10); [done|]. apply IH.
Qed.

Lemma dec_nonempty n : dec n <> [].
Proof. apply dec_go_nonempty. Qed.

Lemma dec_inj n m : 0 <= n -> 0 <= m -> dec n = dec m -> n = m.
Proof. intros Hn Hm H. by rewrite <- (dec_val n), <- (dec_val m), H. Qed.

(** A byte that is no digit, sign, blank or terminator. *)
Lemma isdigit_props c :
  isdigit c = true ->
  isspace c = false /\ c <> NUL /\ c <> "-"%char /\ c <> "+"%char /\ c <> CR /\ c <> LF.
Proof.
  by_bytes (fun c => negb (isdigit c) || bool_decide (isspace c = false)
     && bool_decide (c <> NUL) && bool_decide (c <> "-"%char)
     && bool_decide (c <> "+"%char) && bool_decide (c <> CR) && bool_decide (c <> LF)).
Qed.

Lemma digits_no_nul l : all_digits l -> no_nul l.
Proof. intros H. eapply Forall_impl; [exact H|]. intros c Hc%isdigit_props. tauto. Qed.

(** The text [to_string] writes is read back by [stoi] and [stoul], up to
    the first byte that is no digit. *)
Lemma strto_dec n t :
  0 <= n -> isdigit (peek t) = false -> no_nul t ->
  strto 10 (dec n ++ t) = Some (false, n, length (dec n)).
Proof.
  intros Hn Ht Hz. pose proof (dec_digits n Hn) as Hd. pose proof (dec_nonempty n) as Hne.
  pose proof (dec_val n Hn) as Hv.
  unfold strto. rewrite c_str_id by (apply no_nul_app; split; [by apply digits_no_nul|done]).
  assert (keep (base_digit 10) (dec n ++ t) = dec n) as Hk.
  { rewrite keep_app_all by exact Hd. destruct t as [|x t]; simpl in *; [by rewrite app_nil_r|].
    change (base_digit 10 x) with (isdigit x). by rewrite Ht, app_nil_r. }
  destruct (dec n) as [|c l] eqn:E; [done|]. apply Forall_cons in Hd as [Hc _].
  apply isdigit_props in Hc as (Hs & _ & Hm & Hp & _).
  cbn [app skip]. rewrite Hs. cbn [peek].
  rewrite (bool_decide_eq_false_2 (c = "-"%char)), (bool_decide_eq_false_2 (c = "+"%char)) by done.
  cbn [orb andb]. rewrite (bool_decide_eq_false_2 (10 = 16)) by done. cbn [andb].
  cbn [app] in Hk. rewrite Hk. rewrite decide_False by done. rewrite Hv.
  repeat f_equal. cbn [length]. rewrite length_app. lia.
Qed.

Lemma stoi_to_string n :
  0 <= n < 2 ^ 31 -> stoi (to_string n) = Ret n.
Proof.
  intros H. unfold stoi, stoi_pos, to_string.
  replace (n <? 0) with false by (symmetry; apply Z.ltb_ge; lia).
  rewrite <- (app_nil_r (dec n)), strto_dec by (done || lia || constructor).
  rewrite decide_True; [done|]. unfold in_s. change (32 - 1) with 31. lia.
Qed.

Lemma stoul_to_string n :
  in_u 64 n -> stoul 10 (to_string n) = Ret n.
Proof.
  intros H. unfold stoul, stoul_pos, to_string. pose proof (proj1 H).
  replace (n <? 0) with false by (symmetry; apply Z.ltb_ge; lia).
  rewrite <- (app_nil_r (dec n)), strto_dec by (done || lia || constructor).
  by rewrite decide_True.
Qed.

Lemma to_string_nonneg n : 0 <= n -> to_string n = dec n.
Proof. intros H. unfold to_string. by rewrite (proj2 (Z.ltb_ge n 0)) by lia. Qed.

(** ** [std::set<std::string>]

    A set is its elements in increasing order of [std::less<std::string>],
    which compares bytes as [unsigned char]. *)

Fixpoint str_ltb (a b : str) : bool :=
  match a, b with
  | _, [] => false
  | [], _ :: _ => true
  | c :: a', d :: b' =>
      (byte_val c <? byte_val d) || (bool_decide (c = d) && str_ltb a' b')
  end.

Fixpoint set_insert (x : str) (l : list str) : list str :=
  match l with
  | [] => [x]
  | y :: l' =>
      if str_ltb x y then x :: l
      else if decide (x = y) then l
      else y :: set_insert x l'
  end.

Lemma set_insert_elem x y l : y ∈ set_insert x l <-> y = x \/ y ∈ l.
Proof.
  induction l as [|z l IH]; simpl; [set_solver|].
  destruct (str_ltb x z); [set_solver|]. destruct (decide (x = z)); set_solver.
Qed.

Definition str_lt (a b : str) : Prop := str_ltb a b = true.

Lemma str_lt_irrefl a : str_ltb a a = false.
Proof.
  induction a as [|c a IH]; simpl; [done|].
  by rewrite Z.ltb_irrefl, IH, andb_false_r.
Qed.

Lemma str_lt_trans a b c : str_lt a b -> str_lt b c -> str_lt a c.
Proof.
  unfold str_lt. revert b c. induction a as [|x a IH]; intros [|y b] [|z c] H1 H2; simpl in *; try done.
  rewrite orb_true_iff in H1, H2 |- *. rewrite andb_true_iff, bool_decide_eq_true, Z.ltb_lt in H1, H2 |- *.
  destruct H1 as [H1|[<- H1]], H2 as [H2|[<- H2]]; [left; lia|by left|by left|right; eauto].
Qed.

Lemma str_lt_total a b : str_lt a b \/ a = b \/ str_lt b a.
Proof.
  unfold str_lt. revert b. induction a as [|x a IH]; intros [|y b]; simpl; auto.
  destruct (Z.lt_trichotomy (byte_val x) (byte_val y)) as [H|[H|H]].
  - left. apply orb_true_iff. left. by apply Z.ltb_lt.
  - apply byte_val_inj in H as ->. rewrite bool_decide_eq_true_2, Z.ltb_irrefl by done. simpl.
    destruct (IH b) as [?|[->|?]]; auto.
  - right; right. apply orb_true_iff. left. by apply Z.ltb_lt.
Qed.

Lemma set_insert_sorted x l :
  StronglySorted str_lt l -> StronglySorted str_lt (set_insert x l).
Proof.
  induction 1 as [|y l Hs IH Hy]; simpl; [repeat constructor|].
  destruct (str_ltb x y) eqn:E.
  - constructor; [by constructor|]. constructor; [done|].
    eapply Forall_impl; [exact Hy|]. intros z. by apply str_lt_trans.
  - destruct (decide (x = y)); [by constructor|]. constructor; [done|].
    apply Forall_forall. intros z [->|Hz]%set_insert_elem.
    + destruct (str_lt_total x y) as [H|[H|H]]; unfold str_lt in *; congruence.
    + by eapply Forall_forall in Hy.
Qed.

#[export] Hint Resolve c_str_no_nul dec_digits dec_nonempty digits_no_nul : geochat.
