(* ===== verification/Utils.v ===== *)
(** * common/utils.cpp: string helpers shared by the client and the server

    [split] and [join], prefixes and suffixes, case and trimming, the
    quoting helper, paths, addresses and random identifiers.  Positions are
    [nat]; a loop of the source is a recursion on a fuel argument, and the
    fuel each caller gives is proved to be enough.  Not modelled here: the
    helpers that only call the operating system, the floating-point ones,
    and the base64 helpers, whose work is done in Boost. *)

From S2P Require Import Prelude CxxString.

Section Split.

(** The [while] loop of [split]: [prev] is [prev_pos], [parts] the parts
    found so far, [strs] the vector built so far.  [None] means that the
    fuel ran out. *)
Fixpoint split_loop (fuel : nat) (line delimiter : str) (max_parts : Z)
    (parts : Z) (prev : nat) (strs : list str) : option (list str * nat) :=
  match fuel with
  | O => None
  | S fuel' =>
      match find line delimiter prev with
      | None => Some (strs, prev)
      | Some pos =>
          let parts := parts + 1 in
          let strs := strs ++ [sub line prev (pos - prev)] in
          let prev := (pos + length delimiter)%nat in
          if decide (parts = max_parts - 1) then Some (strs, prev)
          else split_loop fuel' line delimiter max_parts parts prev strs
      end
  end.

Definition split_fuel (fuel : nat) (line delimiter : str) (max_parts : Z) : option (list str) :=
  '(strs, prev) ← split_loop fuel line delimiter max_parts 0 0 [];
  if (prev <=? length line)%nat then Some (strs ++ [drop prev line]) else Some strs.

(** Every call of the program has a non-empty delimiter, for which
    [S (length line)] rounds are enough (lemma [split_loop_total]). *)
Definition split_max (line delimiter : str) (max_parts : Z) : list str :=
  default [] (split_fuel (S (length line)) line delimiter max_parts).

Definition split (line delimiter : str) : list str := split_max line delimiter (-1).

Definition join (vec : list str) (connector : str) : str :=
  (foldl (fun '(ss, first) it =>
            ((if first : bool then ss else ss ++ connector) ++ it, false))
         ([], true) vec).1.
End Split.

Definition starts_with (s predicate : str) : bool :=
  strncmp_eq s predicate (length predicate).

Definition ends_with (s predicate : str) : bool :=
  if (length s <? length predicate)%nat then false
  else strncmp_eq (drop (length s - length predicate) s) predicate (length predicate).

Definition lowercased (s : str) : str := tolower <$> s.

Definition ltrim (s : str) : str := skip isspace s.
Definition rtrim (s : str) : str := rev (skip isspace (rev s)).
Definition trim (s : str) : str := rtrim (ltrim s).
Definition ltrimmed (s : str) : str := ltrim s.
Definition rtrimmed (s : str) : str := rtrim s.
Definition trimmed (s : str) : str := trim s.

(** The loop of [dequoted] between the positions [beg] and [end]; [out] is
    the stream written so far. *)
Fixpoint dequoted_loop (fuel : nat) (s : str) (beg end_ : nat) (out : str) : option str :=
  match fuel with
  | O => None
  | S fuel' =>
      if (beg <? end_)%nat then
        match find s [BACKSLASH] beg with
        | Some i =>
            if (end_ <=? i + 1)%nat then
              dequoted_loop fuel' s end_ end_ (out ++ sub s beg (end_ - beg))
            else
              let out := out ++ sub s beg (i - beg) in
              let c := peek (drop (i + 1) s) in
              if decide (c = BACKSLASH) then dequoted_loop fuel' s (i + 2) end_ (out ++ [BACKSLASH])
              else if decide (c = QUOTE) then dequoted_loop fuel' s (i + 2) end_ (out ++ [QUOTE])
              else dequoted_loop fuel' s (i + 1) end_ (out ++ [BACKSLASH])
        | None => dequoted_loop fuel' s end_ end_ (out ++ sub s beg (end_ - beg))
        end
      else Some out
  end.

Definition dequoted (s : str) : str :=
  match s with
  | [] => s
  | c :: _ =>
      let end_ := length s in
      if decide (c = QUOTE) then
        if (end_ <? 2)%nat || negb (bool_decide (last s = Some QUOTE)) then s
        else default s (dequoted_loop (S (S end_)) s 1 (end_ - 1) [])
      else default s (dequoted_loop (S (S end_)) s 0 end_ [])
  end.

Definition filename (path : str) : str :=
  match rfind path "/" with
  | None => path
  | Some pos => drop (pos + 1) path
  end.

Definition filepath (filename : str) : str :=
  match rfind filename "/" with
  | None => filename
  | Some pos => take pos filename
  end.

(** [dir.back()] of an empty string is undefined behaviour: [None]. *)
Definition concat_dir_file (dir file : str) : option str :=
  match last dir with
  | None => None
  | Some c => if decide (c = "/"%char) then Some (dir ++ file) else Some (dir ++ "/" ++ file)
  end.

Definition int2ipv4 (ip : Z) : str :=
  to_string (Z.land ip 255) ++ "." ++
  to_string (Z.shiftr (Z.land ip 65280) 8) ++ "." ++
  to_string (Z.shiftr (Z.land ip 16711680) 16) ++ "." ++
  to_string (Z.shiftr (Z.land ip 4278190080) 24).

Definition alphanum : str :=
  "0123456789ABCDEFGHIJKLMNOPQRSTUVWXYZabcdefghijklmnopqrstuvwxyz".

(** [rand] lists the results of the successive calls of [rand()]. *)
Definition gen_random (rand : list Z) (len : nat) : str :=
  (fun r => nth (Z.to_nat (r mod Z.of_nat (length alphanum))) alphanum NUL) <$> take len rand.

Definition host_from_link (link : str) : str * Z :=
  let shema := "//" : str in
  match find link shema 0 with
  | None => ([], -1)
  | Some pos1 =>
      let p := (pos1 + length shema)%nat in
      let host :=
        match find link "/" p with
        | None => drop p link
        | Some pos2 => sub link p (pos2 - pos1 - length shema)
        end in
      let parts := split host ":" in
      match parts with
      | [_] => (host, -1)
      | [h; pt] => match stoi pt with Ret port => (h, port) | _ => ([], -1) end
      | _ => ([], -1)
      end
  end.

(** [boost::crc_32_type], of which nothing is assumed. *)
Class Crc32 := boost_crc_32 : str -> Z.

(** The checksum as an [int]. *)
Definition crc32 `{Crc32} (data : str) : Z := i32 (boost_crc_32 data).

(** ** [split]: the loop computes the pieces between delimiters *)

(** Reference meaning of [split] with no limit, by the first occurrence of
    the delimiter. *)
Inductive Pieces (d : str) : str -> list str -> Prop :=
| Pieces_last s : search d s = None -> Pieces d s [s]
| Pieces_more s i l :
    search d s = Some i -> Pieces d (drop (i + length d) s) l -> Pieces d s (take i s :: l).

Lemma Pieces_det d s l1 l2 : Pieces d s l1 -> Pieces d s l2 -> l1 = l2.
Proof.
  intros H. revert l2. induction H; inversion 1; subst; simplify_eq; try done.
  f_equal. auto.
Qed.

Lemma find_from s p prev :
  (prev <= length s)%nat -> find s p prev = Nat.add prev <$> search p (drop prev s).
Proof. intros H. unfold find. by rewrite (proj2 (Nat.leb_le _ _) H). Qed.

Lemma sub_drop s prev i : sub s prev ((prev + i) - prev) = take i (drop prev s).
Proof. unfold sub. f_equal. lia. Qed.

Lemma split_loop_pieces fuel line d parts prev strs :
  d <> [] -> (prev <= length line)%nat -> (length line - prev < fuel)%nat -> 0 <= parts ->
  exists strs' prev' l,
    split_loop fuel line d (-1) parts prev strs = Some (strs', prev') /\
    (prev' <= length line)%nat /\
    Pieces d (drop prev line) l /\ strs' ++ [drop prev' line] = strs ++ l.
Proof.
  intros Hd. revert parts prev strs. induction fuel as [|f IH]; intros parts prev strs Hp Hf Hz; [lia|].
  cbn [split_loop]. rewrite find_from by done.
  destruct (search d (drop prev line)) as [i|] eqn:E; cbn [fmap option_fmap option_map].
  - pose proof (search_lt _ _ _ E) as Hi. rewrite length_drop in Hi.
    assert (0 < length d)%nat by (destruct d; [done|simpl; lia]).
    rewrite decide_False by lia. rewrite sub_drop.
    destruct (IH (parts + 1) (prev + i + length d)%nat (strs ++ [take i (drop prev line)]))
      as (strs' & prev' & l & -> & ? & HP & Heq); [lia|lia|lia|].
    exists strs', prev', (take i (drop prev line) :: l). split_and!; [done|done| |].
    + apply Pieces_more; [done|]. rewrite drop_drop. by rewrite Nat.add_assoc.
    + rewrite Heq, <- app_assoc. done.
  - exists strs, prev, [drop prev line]. split_and!; [done|done|by apply Pieces_last|done].
Qed.

Lemma split_Pieces line d : d <> [] -> Pieces d line (split line d).
Proof.
  intros Hd. unfold split, split_max, split_fuel.
  destruct (split_loop_pieces (S (length line)) line d 0 0 [])
    as (strs' & prev' & l & E & Hle & HP & Heq); [done|lia|lia|lia|].
  rewrite E. cbn. rewrite (proj2 (Nat.leb_le _ _) Hle). simpl. rewrite Heq. by rewrite drop_0 in HP.
Qed.

Lemma split_none s d : d <> [] -> search d s = None -> split s d = [s].
Proof. intros Hd H. eapply Pieces_det; [by apply split_Pieces|by apply Pieces_last]. Qed.

Lemma split_some s d i :
  d <> [] -> search d s = Some i -> split s d = take i s :: split (drop (i + length d) s) d.
Proof.
  intros Hd H. eapply Pieces_det; [by apply split_Pieces|].
  apply Pieces_more; [done|by apply split_Pieces].
Qed.

(** A first piece without the delimiter's first byte is cut off cleanly. *)
Lemma split_app c d a b :
  c ∉ a -> split (a ++ (c :: d) ++ b) (c :: d) = a :: split b (c :: d).
Proof.
  intros Hc. rewrite (split_some _ _ (length a)); [|done|by apply search_skip].
  f_equal; [by apply take_app_all|]. f_equal.
  rewrite app_assoc. apply drop_app_all. by rewrite length_app.
Qed.

Lemma split_absent c d s : c ∉ s -> split s (c :: d) = [s].
Proof. intros H. apply split_none; [done|by apply search_absent]. Qed.

Lemma join_from vec c ss :
  (foldl (fun '(ss, first) it => ((if first : bool then ss else ss ++ c) ++ it, false))
         (ss, false) vec).1 = ss ++ List.concat ((fun it : str => c ++ it) <$> vec).
Proof.
  revert ss. induction vec as [|x vec IH]; intros ss; simpl; [by rewrite app_nil_r|].
  rewrite IH. by rewrite <- !app_assoc.
Qed.

Lemma join_cons x vec c : join (x :: vec) c = x ++ List.concat ((fun it : str => c ++ it) <$> vec).
Proof. unfold join. simpl. apply join_from. Qed.

Lemma join_cons2 x y vec c : join (x :: y :: vec) c = x ++ c ++ join (y :: vec) c.
Proof. rewrite !join_cons. simpl. by rewrite <- app_assoc. Qed.

Lemma split_nonempty s d : d <> [] -> split s d <> [].
Proof. intros Hd. pose proof (split_Pieces s d Hd) as H. by inversion H. Qed.

(** Joining the pieces of [split] with the delimiter gives the
    line back, whatever the line: no byte is lost or invented. *)
Theorem split_join line d : d <> [] -> join (split line d) d = line.
Proof.
  intros Hd. pose proof (split_Pieces line d Hd) as H. revert H.
  generalize (split line d) as l. induction 1 as [s H|s i l H HP IH].
  - done.
  - inversion HP; subst; rewrite join_cons2, IH; by apply search_cut.
Qed.

Lemma split_join_witness : join (split "a, b, , c" ", ") ", " = "a, b, , c".
Proof. apply split_join. discriminate. Defined.

Lemma take_search_absent d s i : d <> [] -> search d s = Some i -> search d (take i s) = None.
Proof.
  intros Hd H. apply search_None. intros (a & b & E).
  assert (length a < i)%nat as Hlt.
  { pose proof (search_lt _ _ _ H). pose proof (f_equal length E) as Hl.
    rewrite length_take, !length_app in Hl. destruct d; [done|]. simpl in *. lia. }
  pose proof (search_first _ _ _ _ H Hlt) as Hf.
  rewrite <- (take_drop i s), E, <- app_assoc, drop_app_all in Hf by done.
  rewrite <- app_assoc, starts_app in Hf. done.
Qed.

(** The pieces [split] returns contain no delimiter: the cut is
    complete. *)
Theorem split_pieces_free line d :
  d <> [] -> Forall (fun piece => find piece d 0 = None) (split line d).
Proof.
  intros Hd. pose proof (split_Pieces line d Hd) as H. revert H.
  generalize (split line d) as l. induction 1 as [s H|s i l H HP IH]; constructor; try done.
  - by rewrite find_0.
  - rewrite find_0. by apply take_search_absent.
Qed.

Lemma split_pieces_free_witness :
  Forall (fun piece => find piece "::" 0 = None) (split "a::b:::c" "::").
Proof. apply split_pieces_free. discriminate. Defined.

(** ** Prefixes, suffixes, trimming, paths *)

Lemma starts_with_spec s p : no_nul p -> starts_with s p = true <-> exists t, s = p ++ t.
Proof. intros H. unfold starts_with. by rewrite strncmp_eq_starts, starts_spec. Qed.

Lemma ends_with_spec s p : no_nul p -> ends_with s p = true <-> exists t, s = t ++ p.
Proof.
  intros H. unfold ends_with. destruct (Nat.ltb_spec (length s) (length p)) as [Hl|Hl].
  - split; [done|]. intros [t ->]. rewrite length_app in Hl. lia.
  - rewrite strncmp_eq_starts, starts_spec by done. split.
    + intros [t E]. exists (take (length s - length p) s).
      pose proof (f_equal length E) as El. rewrite length_drop, length_app in El.
      assert (t = []) as -> by (apply nil_length_inv; lia). rewrite app_nil_r in E.
      rewrite <- (take_drop (length s - length p) s) at 1. by rewrite E.
    + intros [t ->]. exists []. rewrite app_nil_r. apply drop_app_all. rewrite length_app. lia.
Qed.

Definition spaces (s : str) : Prop := Forall (fun c => isspace c = true) s.

Lemma ltrim_spec s : exists a, spaces a /\ s = a ++ ltrim s.
Proof. exists (keep isspace s). split; [apply keep_all|]. by rewrite <- (keep_skip isspace s) at 1. Qed.

Lemma rtrim_spec s : exists b, spaces b /\ s = rtrim s ++ b.
Proof.
  exists (rev (keep isspace (rev s))). split.
  - unfold spaces. rewrite Forall_forall. intros c Hc.
    rewrite list_elem_of_In, <- in_rev, <- list_elem_of_In in Hc.
    by apply (proj1 (Forall_forall _ _) (keep_all isspace (rev s))).
  - unfold rtrim. by rewrite <- rev_app_distr, keep_skip, rev_involutive.
Qed.

Lemma rtrim_last s c : last (rtrim s) = Some c -> isspace c = false.
Proof.
  unfold rtrim. pose proof (skip_head isspace (rev s)) as H.
  destruct (skip isspace (rev s)) as [|x l]; simpl; [done|]. rewrite last_snoc. by intros [= ->].
Qed.

(** [trimmed] removes exactly the white space at both ends: what is
    left neither starts nor ends with a blank. *)
Theorem trimmed_spec s :
  (exists a b, spaces a /\ spaces b /\ s = a ++ trimmed s ++ b) /\
  (forall c, head (trimmed s) = Some c -> isspace c = false) /\
  (forall c, last (trimmed s) = Some c -> isspace c = false).
Proof.
  unfold trimmed, trim. destruct (ltrim_spec s) as (a & Ha & Es).
  destruct (rtrim_spec (ltrim s)) as (b & Hb & El). split_and!.
  - exists a, b. split_and!; [done|done|]. by rewrite <- El.
  - intros c Hc. pose proof (skip_head isspace s) as H. unfold ltrim in *.
    rewrite El in H. destruct (rtrim (skip isspace s)); by simplify_eq/=.
  - apply rtrim_last.
Qed.

Lemma rsearch_Some p s i :
  rsearch p s = Some i -> exists a b, s = a ++ p ++ b /\ length a = i.
Proof.
  revert i. induction s as [|c s IH]; intros i H; cbn [rsearch] in H.
  - destruct (starts p []) eqn:E; simplify_eq.
    apply starts_spec in E as [t E]. by exists [], t.
  - destruct (rsearch p s) as [j|] eqn:F; simplify_eq.
    + destruct (IH _ eq_refl) as (a & b & -> & <-). by exists (c :: a), b.
    + destruct (starts p (c :: s)) eqn:E; simplify_eq.
      apply starts_spec in E as [t E]. by exists [], t.
Qed.

Lemma rsearch_None p s : rsearch p s = None -> search p s = None.
Proof.
  induction s as [|c s IH]; cbn [rsearch search]; [by destruct (starts p [])|].
  destruct (rsearch p s); [done|]. destruct (starts p (c :: s)); [done|]. by rewrite IH.
Qed.

Lemma rsearch_last p s i j :
  rsearch p s = Some i -> (i < j <= length s)%nat -> starts p (drop j s) = false.
Proof.
  revert i j. induction s as [|c s IH]; intros i j H Hj; cbn [rsearch length] in *; [lia|].
  destruct j as [|j]; [lia|]. cbn [drop].
  destruct (rsearch p s) as [k|] eqn:F; simplify_eq.
  - eapply IH; [done|lia].
  - destruct (starts p (drop j s)) eqn:E; [|done]. apply starts_spec in E as [t E].
    apply rsearch_None, search_None in F. destruct F.
    exists (take j s), t. by rewrite <- E, take_drop.
Qed.

(** [filepath] and [filename] cut a path at its last slash. *)
Theorem filepath_filename path :
  (path = filepath path ++ "/" ++ filename path /\ "/"%char ∉ filename path) \/
  (("/"%char ∉ path) /\ filepath path = path /\ filename path = path).
Proof.
  unfold filepath, filename, rfind. destruct (rsearch "/" path) as [i|] eqn:E.
  - left. pose proof (rsearch_last _ _ _ (S i) E) as Hl.
    destruct (rsearch_Some _ _ _ E) as (a & b & -> & <-).
    rewrite take_app_length, (app_assoc a "/" b), drop_app_all by (rewrite length_app; simpl; lia).
    split; [by rewrite <- app_assoc|]. intros (k & Hk)%list_elem_of_lookup.
    pose proof (rsearch_last _ _ _ (length a + 1 + k) E) as Hf.
    rewrite !length_app in Hf. pose proof (lookup_lt_Some _ _ _ Hk).
    cbn [length] in Hf. specialize (Hf ltac:(lia)).
    rewrite <- drop_drop, (app_assoc a "/" b), drop_app_all in Hf
      by (rewrite length_app; simpl; lia).
    by rewrite (drop_S _ _ _ Hk) in Hf.
  - right. split_and!; try done. intros Hin. apply rsearch_None, search_None in E.
    apply list_elem_of_split in Hin as (a & b & ->). destruct E. by exists a, b.
Qed.

Lemma find_after a p b :
  find (a ++ b) p (length a) = Nat.add (length a) <$> search p b.
Proof. rewrite find_from by (rewrite length_app; lia). by rewrite drop_app_all. Qed.

(** ** [dequoted] inverts quoting *)

(** The quoting [dequoted] undoes: backslashes and quotes are escaped. *)
Definition special (c : ascii) : bool := bool_decide (c = BACKSLASH \/ c = QUOTE).
Fixpoint escaped (s : str) : str :=
  match s with
  | [] => []
  | c :: s' => (if special c then [BACKSLASH; c] else [c]) ++ escaped s'
  end.
Definition quoted (s : str) : str := [QUOTE] ++ escaped s ++ [QUOTE].

Lemma escaped_plain a b :
  Forall (fun c => negb (special c) = true) a -> escaped (a ++ b) = a ++ escaped b.
Proof. induction 1 as [|c a Hc Ha IH]; simpl; [done|]. apply negb_true_iff in Hc. by rewrite Hc, IH. Qed.

(** Every string is a run of plain bytes, or such a run followed by a
    special byte and another string of this shape. *)
Inductive Chunks : str -> Prop :=
| Chunk_end a : Forall (fun c => negb (special c) = true) a -> Chunks a
| Chunk_more a c s :
    Forall (fun c => negb (special c) = true) a -> special c = true -> Chunks s ->
    Chunks (a ++ c :: s).

Lemma chunks s : Chunks s.
Proof.
  induction s as [|x s IH]; [by apply Chunk_end|]. destruct (special x) eqn:E.
  - by apply (Chunk_more []).
  - inversion IH as [a H1|a c s' H1 H2 H3]; subst.
    + apply Chunk_end. constructor; [by rewrite E|done].
    + apply (Chunk_more (x :: a)); [|done|done]. constructor; [by rewrite E|done].
Qed.

Lemma plain_no_backslash a : Forall (fun c => negb (special c) = true) a -> BACKSLASH ∉ a.
Proof. intros H Hin. by apply (proj1 (Forall_forall _ _) H) in Hin. Qed.

Lemma dequoted_loop_end fuel s e out : dequoted_loop (S fuel) s e e out = Some out.
Proof. cbn [dequoted_loop]. by rewrite Nat.ltb_irrefl. Qed.

Lemma dequoted_loop_plain fuel pre a out :
  BACKSLASH ∉ a ->
  dequoted_loop (S (S fuel)) (pre ++ a ++ [QUOTE]) (length pre) (length pre + length a) out
  = Some (out ++ a).
Proof.
  intros Ha. cbn [dequoted_loop]. rewrite find_after.
  rewrite (search_absent BACKSLASH [] (a ++ [QUOTE])) by set_solver.
  cbn [fmap option_fmap option_map]. rewrite Nat.ltb_irrefl.
  destruct (Nat.ltb_spec (length pre) (length pre + length a)) as [Hl|Hl].
  - unfold sub. rewrite drop_app_all by done. by rewrite take_app_all by lia.
  - assert (a = []) as -> by (apply nil_length_inv; lia). by rewrite app_nil_r.
Qed.

Lemma dequoted_loop_escape fuel pre a c t e out :
  BACKSLASH ∉ a -> special c = true -> (length pre + length a + 1 < e)%nat ->
  dequoted_loop (S fuel) (pre ++ a ++ [BACKSLASH; c] ++ t) (length pre) e out
  = dequoted_loop fuel ((pre ++ a ++ [BACKSLASH; c]) ++ t) (length (pre ++ a ++ [BACKSLASH; c])) e
      (out ++ a ++ [c]).
Proof.
  intros Ha Hc He. cbn [dequoted_loop]. rewrite (proj2 (Nat.ltb_lt _ _)) by lia.
  change ([BACKSLASH; c] ++ t) with ([BACKSLASH] ++ c :: t).
  rewrite find_after. rewrite (search_skip BACKSLASH [] a) by done.
  cbn [fmap option_fmap option_map]. rewrite (proj2 (Nat.leb_gt _ _)) by lia.
  rewrite sub_drop. rewrite (drop_app_all pre _ (length pre)), (take_app_all a) by done.
  replace (length pre + length a + 1)%nat with (length ((pre ++ a) ++ [BACKSLASH]))
    by (rewrite !length_app; simpl; lia).
  replace (length pre + length a + 2)%nat with (length (pre ++ a ++ [BACKSLASH; c]))
    by (rewrite !length_app; simpl; lia).
  assert (pre ++ a ++ [BACKSLASH] ++ c :: t = ((pre ++ a) ++ [BACKSLASH]) ++ c :: t) as ->
    by by rewrite <- !app_assoc.
  rewrite drop_app_all by done. cbn [peek].
  assert ((pre ++ a ++ [BACKSLASH; c]) ++ t = ((pre ++ a) ++ [BACKSLASH]) ++ c :: t) as ->
    by by rewrite <- !app_assoc.
  unfold special in Hc. apply bool_decide_eq_true_1 in Hc as [-> | ->].
  - rewrite decide_True by done. by rewrite <- (app_assoc out).
  - rewrite decide_False by discriminate. rewrite decide_True by done. by rewrite <- (app_assoc out).
Qed.

Lemma dequoted_loop_ok fuel pre s out :
  (S (length s) < fuel)%nat ->
  dequoted_loop fuel (pre ++ escaped s ++ [QUOTE]) (length pre) (length pre + length (escaped s)) out
  = Some (out ++ s).
Proof.
  pose proof (chunks s) as Hs. revert fuel pre out.
  induction Hs as [a Ha|a c s Ha Hc Hs IH]; intros fuel pre out Hf.
  - destruct fuel as [|[|fuel]]; [lia|lia|].
    pose proof (escaped_plain a [] Ha) as E. simpl in E. rewrite !app_nil_r in E. rewrite E.
    apply dequoted_loop_plain. by apply plain_no_backslash.
  - destruct fuel as [|fuel]; [lia|]. rewrite length_app in Hf. simpl in Hf.
    rewrite escaped_plain by done. cbn [escaped]. rewrite Hc.
    rewrite <- (app_assoc a), <- (app_assoc [BACKSLASH; c]).
    rewrite dequoted_loop_escape;
      [|by apply plain_no_backslash|done|rewrite !length_app; simpl; lia].
    replace (length pre + length (a ++ [BACKSLASH; c] ++ escaped s))%nat
      with (length (pre ++ a ++ [BACKSLASH; c]) + length (escaped s))%nat
      by (rewrite !length_app; lia).
    rewrite IH by lia. f_equal. by rewrite <- !app_assoc.
Qed.

(** [dequoted] gives back a text that was put in quotes with its quotes
    and backslashes escaped. *)
Theorem dequoted_quoted s : dequoted (quoted s) = s.
Proof.
  assert (last (quoted s) = Some QUOTE) as Hl
    by (unfold quoted; rewrite app_assoc; apply last_snoc).
  assert (length (quoted s) = S (S (length (escaped s)))) as Hn
    by (unfold quoted; rewrite !length_app; simpl; lia).
  assert (length s <= length (escaped s))%nat as Hs.
  { clear. induction s as [|c s IH]; [done|]. cbn [escaped]. destruct (special c); simpl; lia. }
  unfold dequoted. destruct (quoted s) as [|c l] eqn:E; [done|]. injection E as <- <-.
  rewrite decide_True, Hl, Hn, bool_decide_eq_true_2 by done. cbn [negb orb Nat.ltb Nat.leb].
  pose proof (dequoted_loop_ok (S (S (S (S (length (escaped s)))))) [QUOTE] s [] ltac:(lia)) as H.
  cbn [length app Nat.add] in H. rewrite Nat.sub_1_r. cbn [Nat.pred]. by rewrite H.
Qed.

Lemma to_string_free c n : 0 <= n -> isdigit c = false -> c ∉ to_string n.
Proof.
  intros Hn Hc Hin. rewrite to_string_nonneg in Hin by done.
  pose proof (proj1 (Forall_forall _ _) (dec_digits n Hn) c Hin). simpl in *. congruence.
Qed.

Lemma host_from_link_cut scheme authority path :
  "/"%char ∉ scheme -> "/"%char ∉ authority ->
  host_from_link (scheme ++ "//" ++ authority ++ "/" ++ path) =
  match split authority ":" with
  | [_] => (authority, -1)
  | [h; pt] => match stoi pt with Ret port => (h, port) | _ => ([], -1) end
  | _ => ([], -1)
  end.
Proof.
  intros Hs Ha. unfold host_from_link. rewrite find_0.
  rewrite (search_skip "/"%char "/" scheme) by done.
  replace (length scheme + length ("//" : str))%nat with (length (scheme ++ "//"))
    by (rewrite length_app; done).
  rewrite (app_assoc scheme "//"). rewrite find_after.
  rewrite (search_skip "/"%char [] authority path) by done.
  cbn [fmap option_fmap option_map]. unfold sub.
  rewrite drop_app_all by done. rewrite take_app_all; [done|].
  rewrite length_app. change (length ("//" : str)) with 2%nat. lia.
Qed.

(** The address of a link written as scheme, host and port comes back
    from [host_from_link], whatever the path after it. *)
Theorem host_from_link_ok scheme host port path :
  "/"%char ∉ scheme -> "/"%char ∉ host -> ":"%char ∉ host -> 0 <= port < 2 ^ 31 ->
  host_from_link (scheme ++ "//" ++ host ++ ":" ++ to_string port ++ "/" ++ path) = (host, port).
Proof.
  intros Hs Hh Hc Hp.
  replace (host ++ ":" ++ to_string port ++ "/" ++ path)
    with ((host ++ ":" ++ to_string port) ++ "/" ++ path) by by rewrite <- !app_assoc.
  rewrite host_from_link_cut; [|done|].
  - rewrite split_app by done. rewrite split_absent by (by apply to_string_free; [lia|]).
    by rewrite stoi_to_string.
  - pose proof (to_string_free "/"%char port ltac:(lia) eq_refl). set_solver.
Qed.

Lemma host_from_link_ok_witness :
  host_from_link ("https:" ++ "//" ++ "geo.chat" ++ ":" ++ to_string 7788 ++ "/" ++ "v1/idle")
  = ("geo.chat", 7788).
Proof. apply host_from_link_ok; [vm_compute; set_solver..|lia]. Defined.
