(* ===== verification/Sys.v ===== *)
(** * Clocks, base64 and the use of the processor: common/utils.hpp, common/utils.cpp, common/sysutils.cpp

    [PerfTimer], the millisecond clock, [to_base64], and the readings of
    /proc that [BackendUtils::resourceUsage] turns into percentages.  What
    the system answers (the clock, the two files of /proc, the number of
    processors) and Boost's iterator over groups of six bits are parameters;
    the arithmetic is that of the C++ types, [double] as binary64. *)

From Stdlib Require Import Floats.SpecFloat.
From S2P Require Import Prelude CxxString.

(** ** Clocks *)

Record mtime_t := mkMtime { sec : Z; msec : Z }.

(** [count] is what [system_clock] gives, in milliseconds: an [int64_t] that
    is divided as such and then converted. *)
Definition ms (count : Z) : mtime_t := mkMtime (u64 (Z.quot count 1000)) (u64 (Z.rem count 1000)).
Definition show_mtime (t : mtime_t) : str := to_string (sec t) ++ "." ++ to_string (msec t).

Record timeval := mkTimeval { tv_sec : Z; tv_usec : Z }.
Record PerfTimer := mkPerfTimer { _timer : Z; _start : timeval }.

Definition PerfTimer_reset (now : timeval) : PerfTimer := mkPerfTimer 0 now.
Definition PerfTimer_update (now : timeval) (t : PerfTimer) : PerfTimer :=
  mkPerfTimer
    (i64 (_timer t + i64 (i64 (tv_sec now - tv_sec (_start t)) * 1000000) + i64 (tv_usec now - tv_usec (_start t))))
    (_start t).
Definition PerfTimer_ms (now : timeval) (t : PerfTimer) : Z * PerfTimer :=
  let t := PerfTimer_update now t in (u64 (Z.quot (_timer t) 1000), t).
Definition PerfTimer_sec (now : timeval) (t : PerfTimer) : Z * PerfTimer :=
  let t := PerfTimer_update now t in (u64 (Z.quot (_timer t) 1000000), t).

Definition usec (v : timeval) : Z := tv_sec v * 1000000 + tv_usec v.

(** A time as [gettimeofday] gives it, in this century or the next. *)
Definition plausible (v : timeval) : Prop := 0 <= tv_sec v < 2 ^ 40 /\ 0 <= tv_usec v < 1000000.

Lemma swrap_small w z : 0 < w -> in_s w z -> swrap w z = z.
Proof.
  intros Hw [H1 H2]. unfold swrap, wrap.
  assert (2 ^ w = 2 * 2 ^ (w - 1)) as Hp by (rewrite <- Z.pow_succ_r by lia; f_equal; lia).
  destruct (Z.ltb_spec (z mod 2 ^ w) (2 ^ (w - 1))) as [Hl|Hl].
  - destruct (decide (0 <= z)); [rewrite Z.mod_small by lia; done|].
    replace z with ((z + 2 ^ w) + (-1) * 2 ^ w) in Hl by lia. rewrite Z.mod_add, Z.mod_small in Hl by lia. lia.
  - destruct (decide (0 <= z)); [rewrite Z.mod_small in Hl by lia; lia|].
    replace z with ((z + 2 ^ w) + (-1) * 2 ^ w) at 1 by lia. rewrite Z.mod_add, Z.mod_small by lia. lia.
Qed.

Lemma PerfTimer_update_ok now t :
  plausible now -> plausible (_start t) -> in_s 62 (_timer t) ->
  _timer (PerfTimer_update now t) = _timer t + (usec now - usec (_start t)) /\ _start (PerfTimer_update now t) = _start t.
Proof.
  intros [Hs Hu] [Hs0 Hu0] [Ht1 Ht2]. split; [|done]. unfold PerfTimer_update, usec. simpl in *.
  set (ds := tv_sec now - tv_sec (_start t)). set (du := tv_usec now - tv_usec (_start t)).
  assert (- 2 ^ 40 < ds < 2 ^ 40 /\ - 1000000 < du < 1000000) as [Hds Hdu] by (unfold ds, du; lia).
  rewrite (swrap_small 64 ds) by (unfold in_s; lia). rewrite (swrap_small 64 (ds * 1000000)) by (unfold in_s; lia).
  rewrite (swrap_small 64 du) by (unfold in_s; lia). rewrite swrap_small by (unfold in_s; lia). unfold ds, du. lia.
Qed.

(** The timer counts the time up to its first reading again at every later
    reading: the second of two readings is the sum of both times since the
    start, not the time since the start. *)
Theorem second_reading_counts_twice start t1 t2 :
  plausible start -> plausible t1 -> plausible t2 -> usec start <= usec t1 -> usec start <= usec t2 ->
  let '(m1, timer) := PerfTimer_ms t1 (PerfTimer_reset start) in
  let '(m2, _) := PerfTimer_ms t2 timer in
  m1 = (usec t1 - usec start) / 1000 /\
  m2 = ((usec t1 - usec start) + (usec t2 - usec start)) / 1000.
Proof.
  intros H0 H1 H2 Hle1 Hle2. unfold PerfTimer_ms. cbv zeta.
  assert (0 <= usec t1 - usec start < 2 ^ 61 /\ 0 <= usec t2 - usec start < 2 ^ 61) as [Hb1 Hb2].
  { destruct H0, H1, H2. unfold usec in *. lia. }
  pose proof (PerfTimer_update_ok t1 (PerfTimer_reset start) H1 H0 ltac:(split; simpl; lia)) as [E1 S1].
  set (timer := PerfTimer_update t1 (PerfTimer_reset start)) in *.
  change (_timer (PerfTimer_reset start)) with 0 in E1. change (_start (PerfTimer_reset start)) with start in E1, S1.
  pose proof (PerfTimer_update_ok t2 timer H2 ltac:(by rewrite S1) ltac:(rewrite E1; split; lia)) as [E2 _].
  rewrite S1, E1 in E2. rewrite E2, E1. rewrite Z.add_0_l, !Z.quot_div_nonneg by lia.
  split; apply wrap_small; split; try (apply Z.div_pos; lia); apply Z.div_lt_upper_bound; lia.
Qed.

Lemma second_reading_counts_twice_witness :
  (PerfTimer_ms (mkTimeval 102 0) (PerfTimer_ms (mkTimeval 101 0) (PerfTimer_reset (mkTimeval 100 0))).2).1 = 3000.
Proof.
  pose proof (second_reading_counts_twice (mkTimeval 100 0) (mkTimeval 101 0) (mkTimeval 102 0)) as H.
  apply H; unfold plausible, usec; simpl; lia.
Defined.

(** ** Base64 *)

(** [base64_from_binary<transform_width<_, 6, 8>>]: a digit for each group of
    six bits, the last group filled up. *)
Class Base64Digits := {
  base64_digits : str -> str;
  base64_digits_length : forall s, Z.of_nat (length (base64_digits s)) = (8 * Z.of_nat (length s) + 5) / 6 }.

(** Both overloads: [writePaddChars] is an [unsigned int]. *)
Definition to_base64 `{Base64Digits} (s : str) : str :=
  let writePaddChars := u32 (u64 (3 - Z.of_nat (length s) mod 3) mod 3) in
  base64_digits s ++ replicate (Z.to_nat writePaddChars) "="%char.

(** The text is four characters for each group of three bytes, the last
    group filled up: a multiple of four, as base64 asks for. *)
Theorem to_base64_length `{Base64Digits} s :
  Z.of_nat (length (to_base64 s)) = 4 * ((Z.of_nat (length s) + 2) / 3).
Proof.
  unfold to_base64. rewrite length_app, length_replicate, Nat2Z.inj_add, base64_digits_length.
  set (n := Z.of_nat (length s)). assert (0 <= n) by lia.
  pose proof (Z.div_mod n 3 ltac:(lia)) as Hd. pose proof (Z.mod_pos_bound n 3 ltac:(lia)) as Hm.
  set (q := n / 3) in *. set (r := n mod 3) in *.
  rewrite (wrap_small 64) by (split; lia).
  pose proof (Z.mod_pos_bound (3 - r) 3 ltac:(lia)) as Hp. rewrite (wrap_small 32) by (split; lia).
  rewrite Z2Nat.id by lia.
  assert (r = 0 \/ r = 1 \/ r = 2) as [E|[E|E]] by lia; rewrite E in *; rewrite Hd.
  - replace (8 * (3 * q + 0) + 5) with (5 + (4 * q) * 6) by lia. replace (3 * q + 0 + 2) with (2 + q * 3) by lia.
    rewrite !Z.div_add by lia. change (5 / 6) with 0. change (2 / 3) with 0. change ((3 - 0) mod 3) with 0. lia.
  - replace (8 * (3 * q + 1) + 5) with (13 + (4 * q) * 6) by lia. replace (3 * q + 1 + 2) with (3 + q * 3) by lia.
    rewrite !Z.div_add by lia. change (13 / 6) with 2. change (3 / 3) with 1. change ((3 - 1) mod 3) with 2. lia.
  - replace (8 * (3 * q + 2) + 5) with (21 + (4 * q) * 6) by lia. replace (3 * q + 2 + 2) with (4 + q * 3) by lia.
    rewrite !Z.div_add by lia. change (21 / 6) with 3. change (4 / 3) with 1. change ((3 - 2) mod 3) with 1. lia.
Qed.

(** ** The use of the processor (common/sysutils.cpp) *)

Definition contains_only_numbers (item : str) : bool := forallb isdigit (c_str item).

Record pstat := mkPstat {
  utime_ticks : Z; cutime_ticks : Z; stime_ticks : Z; cstime_ticks : Z;
  vsize : Z; rss : Z; cpu_total_time : Z }.
Definition pstat_zero : pstat := mkPstat 0 0 0 0 0 0 0.

(** What [fscanf] reads from /proc/<pid>/stat, in the order of the format
    (utime, stime, cutime, cstime, vsize, rss), and the ten counters of the
    first line of /proc/stat; [None] when a file cannot be read. *)
Record ProcFiles := mkProc {
  proc_pid_stat : option (Z * Z * Z * Z * Z * Z);
  proc_stat : option (list Z);
  pagesize : Z }.

(** The [for] loop over the counters; unsigned additions wrap. *)
Definition total (cpu_time : list Z) : Z := foldl (fun t c => u64 (t + c)) 0 cpu_time.

(** The return value, and the record: what was stored before a failure
    stays. *)
Definition get_usage (p : ProcFiles) (result : pstat) : Z * pstat :=
  match proc_pid_stat p with
  | None => (-1, result)
  | Some (ut, st, cut, cst, vs, r) =>
      let result := mkPstat ut cut st cst vs (u64 (r * pagesize p)) 0 in
      match proc_stat p with
      | None => (-1, result)
      | Some cpu_time => (0, mkPstat ut cut st cst vs (u64 (r * pagesize p)) (total cpu_time))
      end
  end.

(** [double]: binary64 numbers. *)
Definition double_of (z : Z) : spec_float := binary_normalize 53 1024 z 0 false.
Definition percent (ticks total : Z) : spec_float :=
  SFmul 53 1024 (double_of 100) (SFdiv 53 1024 (double_of ticks) (double_of total)).

(** [std::trunc] and [std::floor]. *)
Definition trunc (d : spec_float) : spec_float :=
  match d with
  | S754_finite s m e =>
      if 0 <=? e then d
      else binary_normalize 53 1024 (if s then - (Z.pos m / 2 ^ (- e)) else Z.pos m / 2 ^ (- e)) 0 s
  | _ => d
  end.
Definition floor (d : spec_float) : spec_float :=
  match d with
  | S754_finite s m e =>
      if 0 <=? e then d else binary_normalize 53 1024 ((if s then Z.neg m else Z.pos m) / 2 ^ (- e)) 0 s
  | _ => d
  end.

(** The assertion compares [n] with the size of the table as unsigned
    numbers, so that a negative [n] fails it too. *)
Definition truncate_double (d : spec_float) (n : Z) : cxx spec_float :=
  if u64 n <? 8 then
    let power_of_ten := double_of (10 ^ n) in
    Ret (SFdiv 53 1024 (trunc (SFmul 53 1024 d power_of_ten)) power_of_ten)
  else AssertFail.

Definition round_double (d : spec_float) (n : Z) : cxx spec_float :=
  if u64 n <? 8 then
    let power_of_ten := double_of (10 ^ n) in
    Ret (SFdiv 53 1024 (floor (SFadd 53 1024 (SFmul 53 1024 d power_of_ten) (SFdiv 53 1024 (double_of 1) (double_of 2)))) power_of_ten)
  else AssertFail.

(** A whole number is left as it is. *)
Example whole_number_kept : truncate_double (double_of 17) 2 = Ret (double_of 17) /\ round_double (double_of (-17)) 2 = Ret (double_of (-17)).
Proof. vm_compute. by split. Qed.

(** 0.29 times 100 is a little less than 29. *)
Example truncated_too_far :
  truncate_double (SFdiv 53 1024 (double_of 29) (double_of 100)) 2 = Ret (SFdiv 53 1024 (double_of 28) (double_of 100)).
Proof. vm_compute. reflexivity. Qed.

(** The differences are taken in [unsigned long]. *)
Definition calc_cpu_usage_pct (cur last : pstat) : spec_float * spec_float :=
  let total_time_diff := u64 (cpu_total_time cur - cpu_total_time last) in
  (percent (u64 (u64 (utime_ticks cur + cutime_ticks cur) - u64 (utime_ticks last + cutime_ticks last))) total_time_diff,
   percent (u64 (u64 (stime_ticks cur + cstime_ticks cur) - u64 (stime_ticks last + cstime_ticks last))) total_time_diff).

(** The [static] variables of [resourceUsage]. *)
Record UsageState := mkUsageState { inited : Z; num_processors : Z; last_usage : pstat }.
Definition UsageState_init : UsageState := mkUsageState 0 0 pstat_zero.

Record Usage := mkUsage {
  virtual_mem : Z; res_mem : Z; sys_cpu : spec_float; user_cpu : spec_float; cpu : spec_float }.

(** [None] is the return value -1, which leaves the out parameters alone.
    In a later call the local record is not initialised; nothing of it is
    read when [get_usage] fails. *)
Definition resourceUsage (online : Z) (p : ProcFiles) (s : UsageState) : option Usage * UsageState :=
  if decide (inited s = 0) then
    (None, mkUsageState 1 online (get_usage p (last_usage s)).2)
  else
    let '(failed, cur_usage) := get_usage p pstat_zero in
    if decide (failed <> 0) then (None, s)
    else
      let '(ucpu_usage, scpu_usage) := calc_cpu_usage_pct cur_usage (last_usage s) in
      let n := double_of (num_processors s) in
      (Some (mkUsage (vsize cur_usage) (rss cur_usage) (SFmul 53 1024 n scpu_usage) (SFmul 53 1024 n ucpu_usage)
         (SFmul 53 1024 n (SFadd 53 1024 ucpu_usage scpu_usage))),
       mkUsageState (inited s) (num_processors s) cur_usage).

(** A later reading fails exactly when a file cannot be read, and then
    forgets nothing; one that succeeds is compared with the last successful
    one and takes its place. *)
Lemma resourceUsage_later online p s :
  inited s <> 0 ->
  match resourceUsage online p s with
  | (None, s') => s' = s /\ (proc_pid_stat p = None \/ proc_stat p = None)
  | (Some u, s') => last_usage s' = (get_usage p pstat_zero).2 /\ virtual_mem u = vsize (last_usage s') /\
      inited s' = inited s /\ num_processors s' = num_processors s
  end.
Proof.
  intros Hi. unfold resourceUsage. rewrite decide_False by done. unfold get_usage.
  destruct (proc_pid_stat p) as [[[[[[ut st] cut] cst] vs] r]|]; [|simpl; auto].
  destruct (proc_stat p) as [cpu_time|]; [|simpl; auto]. done.
Qed.

(** Two readings within one tick of the clock: the percentage is 0 / 0. *)
Example same_tick : calc_cpu_usage_pct (mkPstat 5 0 3 0 0 0 70) (mkPstat 5 0 3 0 0 0 70) = (S754_nan, S754_nan).
Proof. vm_compute. reflexivity. Qed.

(** [total] is the sum of the counters while that fits. *)
Lemma total_sum cpu_time :
  Forall (fun c => 0 <= c) cpu_time -> foldr Z.add 0 cpu_time < 2 ^ 64 -> total cpu_time = foldr Z.add 0 cpu_time.
Proof.
  unfold total. intros Hpos Hlt.
  assert (forall t, 0 <= t -> t + foldr Z.add 0 cpu_time < 2 ^ 64 ->
    foldl (fun t c => u64 (t + c)) t cpu_time = t + foldr Z.add 0 cpu_time) as H; [|by rewrite H].
  clear Hlt. induction Hpos as [|c l Hc Hl IH]; intros t Ht Hlt; simpl in *; [lia|].
  assert (0 <= foldr Z.add 0 l) by (clear - Hl; induction Hl; simpl; lia).
  rewrite wrap_small by (split; lia). rewrite IH by lia. lia.
Qed.
