(* ===== verification/Os.v ===== *)
(** * The helpers that call the system: common/utils.cpp, common/sysutils.cpp

    Users, groups and the credentials of the process, files, directories,
    the list of processes and the output of a command.  The system is a
    parameter: a state [W] with the calls the code makes and, for the
    credentials, what POSIX says of them.  A helper is a function of that
    state, which gives a value or an exception, and the state after it.
    A buffer that is written or read past its end has no result. *)

From S2P Require Import Prelude CxxString Utils Sys.

(** ** The system *)

(** [struct passwd], and the user and group ids of a process: real, effective
    and saved, with the supplementary groups. *)
Record passwd := mkPasswd { pw_uid : Z; pw_gid : Z; pw_dir : str }.
Record Creds := mkCreds { ruid : Z; euid : Z; suid : Z; rgid : Z; egid : Z; sgid : Z; groups : list Z }.

#[export] Instance Creds_eq_dec : EqDecision Creds.
Proof. solve_decision. Defined.

Definition with_uids (r e s : Z) (c : Creds) : Creds := mkCreds r e s (rgid c) (egid c) (sgid c) (groups c).
Definition with_gids (r e s : Z) (c : Creds) : Creds := mkCreds (ruid c) (euid c) (suid c) r e s (groups c).
Definition with_groups (l : list Z) (c : Creds) : Creds := mkCreds (ruid c) (euid c) (suid c) (rgid c) (egid c) (sgid c) l.

(** What [readdir] gives of an entry: its name and whether it is a directory. *)
Record dirent := mkDirent { d_name : str; d_is_dir : bool }.

(** How the output of a command ends, when its bytes are read. *)
Inductive stream_end := AtEof | AtError.

Class Unix (W : Type) := {
  creds : W -> Creds;
  getpwnam : str -> W -> option passwd;
  getpwuid : Z -> W -> option passwd;
  getgrnam : str -> W -> option Z;
  (** 0 for success, and the state after the call *)
  initgroups : str -> Z -> W -> Z * W;
  setgid : Z -> W -> Z * W;
  setegid : Z -> W -> Z * W;
  setuid : Z -> W -> Z * W;
  seteuid : Z -> W -> Z * W;
  chown : str -> Z -> Z -> W -> Z * W;
  (** [strerror(errno)] *)
  errno_message : W -> str;
  (** the bytes of a file that can be opened for reading *)
  file_bytes : str -> W -> option str;
  dir_entries : str -> W -> option (list dirent);
  is_directory : str -> W -> cxx bool;
  (** modification time and size *)
  stat : str -> W -> option (Z * Z);
  hostname : Z -> W -> option str;
  popen : str -> W -> option (str * stream_end) }.

(** ** Helpers as functions of the system *)

Definition sys (W A : Type) : Type := W -> cxx A * W.

#[export] Instance sys_ret W : MRet (sys W) := fun A a w => (Ret a, w).
#[export] Instance sys_bind W : MBind (sys W) := fun A B f m w =>
  match m w with
  | (Ret a, w') => f a w'
  | (Throw e, w') => (Throw e, w')
  | (AssertFail, w') => (AssertFail, w')
  end.

Section helpers.
Context {W : Type} `{Unix W}.

Definition asks {A} (f : W -> A) : sys W A := fun w => (Ret (f w), w).
Definition throws {A} (e : exn) : sys W A := fun w => (Throw e, w).
Definition calls (f : W -> Z * W) : sys W Z := fun w => let '(r, w') := f w in (Ret r, w').

(** ** Users and privileges *)

Definition do_chown (file_path user_name group_name : str) : sys W unit :=
  pwd ← asks (getpwnam user_name);
  match pwd with
  | None => throws (runtime_error "Failed to get uid")
  | Some pwd =>
      grp ← asks (getgrnam group_name);
      match grp with
      | None => throws (runtime_error "Failed to get gid")
      | Some gid =>
          r ← calls (chown file_path (pw_uid pwd) gid);
          if decide (r = -1) then throws (runtime_error "chown fail") else mret tt
      end
  end.

(** A call that must succeed; the text has the reason. *)
Definition must (in_username what : str) (call : W -> Z * W) : sys W unit :=
  r ← calls call;
  if decide (r <> 0) then
    e ← asks errno_message;
    throws (runtime_error ("couldn't change to: " ++ in_username ++ what ++ e))
  else mret tt.

(** The test of the real ids at its beginning has an empty body. *)
Definition change_process_privileges (in_username : str) : sys W unit :=
  pw ← asks (getpwnam in_username);
  match pw with
  | None => throws (runtime_error ("couldn't find user uid: " ++ in_username))
  | Some pw =>
      must in_username (" (initgroups(" ++ in_username ++ ", " ++ to_string (pw_gid pw) ++ ")): ")
        (initgroups in_username (pw_gid pw)) ;;
      must in_username ", setgid: " (setgid (pw_gid pw)) ;;
      must in_username ", setegid: " (setegid (pw_gid pw)) ;;
      must in_username ", setuid: " (setuid (pw_uid pw)) ;;
      must in_username ", seteuid: " (seteuid (pw_uid pw))
  end.

Definition get_home_dir : sys W str :=
  uid ← asks (fun w => euid (creds w));
  pw ← asks (getpwuid uid);
  mret (match pw with None => [] | Some pw => pw_dir pw end).

(** ** Files and directories *)

Definition file_exist (path : str) : sys W bool := asks (fun w => bool_decide (is_Some (file_bytes (c_str path) w))).

Definition is_dir (path : str) : sys W bool := fun w => (is_directory path w, w).

Definition listdir (path : str) : sys W (list str) :=
  d ← asks (dir_entries (c_str path));
  match d with
  | None => throws (runtime_error (c_str (path ++ ": Failed to open directory")))
  | Some d => mret (List.filter (fun name => negb (bool_decide (name = ".")) && negb (bool_decide (name = ".."))) (d_name <$> d))
  end.

Definition read_file (path : str) : sys W str :=
  if decide (path = []) then throws (runtime_error "path is empty")
  else
    ifs ← asks (file_bytes (c_str path));
    match ifs with
    | None => e ← asks errno_message; throws (runtime_error ("cannot open file: " ++ path ++ ", errno: " ++ e))
    | Some content => mret content
    end.

Definition file_mtime (filename : str) : sys W Z :=
  st ← asks (stat (c_str filename));
  match st with
  | None => throws (runtime_error ("error gettings file stat: " ++ filename))
  | Some (mtime, _) => mret mtime
  end.

Definition file_size (filename : str) : sys W Z :=
  st ← asks (stat (c_str filename));
  match st with
  | None => throws (runtime_error ("error gettings file stat: " ++ filename))
  | Some (_, size) => mret (u64 size)
  end.

(** [HOST_NAME_MAX] is 64. *)
Definition my_hostname : sys W str :=
  host_name ← asks (hostname 64);
  match host_name with
  | None | Some [] => e ← asks errno_message; throws (runtime_error ("error get hostname: " ++ e))
  | Some name => mret name
  end.

(** ** Processes *)

(** [None]: the buffer has no terminator, and the text goes on behind it.
    [junk] is what the bytes of the buffer are that nothing was written to. *)
Definition process_name_by_pid (junk : str) (pid : Z) (w : W) : option str :=
  let name := "/proc/" ++ to_string pid ++ "/cmdline" in
  let buffer := take 1024 (name ++ [NUL] ++ junk) in
  let buffer :=
    match file_bytes name w with
    | None => buffer
    | Some content =>
        let data := take 1024 content in
        let data := if decide (last data = Some LF) then take (length data - 1) data ++ [NUL] else data in
        data ++ drop (length data) buffer
    end in
  if decide (NUL ∈ buffer) then Some (c_str buffer) else None.

Record ProcessPropertie := mkProcess { pr_name : str; pr_pid : Z }.

(** [fscanf] with ["%s"]: the bytes up to the next white space; [None] at the
    end of the file. *)
Definition scan_word (content : str) : option str :=
  match keep (fun c => negb (isspace c)) (skip isspace content) with [] => None | word => Some word end.

(** [atoi] of a directory's name, which has digits only; of a number that
    does not fit it is not defined, and 0 stands for that. *)
Definition atoi (s : str) : Z := match stoi s with Ret z => z | _ => 0 end.

(** One round of the loop: what it appends.  The outer [None] is a word that
    does not fit the 1024 bytes of [name]. *)
Definition process_entry (w : W) (dir : dirent) : option (list ProcessPropertie) :=
  if negb (d_is_dir dir) || negb (contains_only_numbers (d_name dir)) then Some []
  else
    match file_bytes ("/proc/" ++ d_name dir ++ "/cmdline") w with
    | None => Some []
    | Some content =>
        match scan_word content with
        | None => Some []
        | Some word =>
            if decide (1024 <= length word)%nat then None
            else Some [mkProcess (c_str word) (atoi (d_name dir))]
        end
    end.

Fixpoint process_entries (w : W) (dirs : list dirent) : option (list ProcessPropertie) :=
  match dirs with
  | [] => Some []
  | dir :: dirs => p ← process_entry w dir; ps ← process_entries w dirs; Some (p ++ ps)
  end.

Definition processList (w : W) : option (list ProcessPropertie) :=
  match dir_entries "/proc/" w with
  | None => Some []
  | Some dirs => process_entries w dirs
  end.

(** ** The output of a command *)

(** What [fgets] with room for [n] characters takes, and what is left. *)
Fixpoint fgets (n : nat) (s : str) : str * str :=
  match n, s with
  | S n, c :: s =>
      if decide (c = LF) then ([c], s)
      else let '(line, rest) := fgets n s in (c :: line, rest)
  | _, _ => ([], s)
  end.

(** The [while] loop.  [fgets] stops at a line, at a full buffer, or where
    the bytes end; at the end of the file [feof] holds from then on, at an
    error it does not. *)
Fixpoint exec_loop (fuel : nat) (out : str) (e : stream_end) (result : str) : option str :=
  match fuel with
  | O => None
  | S fuel =>
      let '(line, rest) := fgets 127 out in
      if bool_decide (length line = 127%nat) || bool_decide (last line = Some LF) then
        exec_loop fuel rest e (result ++ c_str line)
      else
        match e with
        | AtEof => Some (result ++ c_str line)
        | AtError => exec_loop fuel [] AtError result
        end
  end.

Definition execCmd (fuel : nat) (cmd : str) (w : W) : option (cxx str) :=
  match popen cmd w with
  | None => Some (Throw (runtime_error "popen() failed!"))
  | Some (out, e) => Ret <$> exec_loop fuel out e []
  end.
End helpers.

(** ** What POSIX says of the credentials *)

Class UnixLaws (W : Type) `{Unix W} := {
  law_initgroups : forall name g w, (initgroups name g w).1 = 0 ->
    euid (creds w) = 0 /\ exists l, creds (initgroups name g w).2 = with_groups l (creds w);
  law_setgid : forall g w, (setgid g w).1 = 0 ->
    creds (setgid g w).2 =
      if decide (euid (creds w) = 0) then with_gids g g g (creds w)
      else with_gids (rgid (creds w)) g (sgid (creds w)) (creds w);
  law_setegid : forall g w, (setegid g w).1 = 0 ->
    creds (setegid g w).2 = with_gids (rgid (creds w)) g (sgid (creds w)) (creds w);
  law_setuid : forall u w, (setuid u w).1 = 0 ->
    creds (setuid u w).2 =
      if decide (euid (creds w) = 0) then with_uids u u u (creds w)
      else with_uids (ruid (creds w)) u (suid (creds w)) (creds w);
  law_seteuid : forall u w, (seteuid u w).1 = 0 ->
    creds (seteuid u w).2 = with_uids (ruid (creds w)) u (suid (creds w)) (creds w);
  (** without privileges only the real and the saved id can be taken *)
  law_setuid_denied : forall u w, euid (creds w) <> 0 -> u <> ruid (creds w) -> u <> suid (creds w) ->
    (setuid u w).1 <> 0;
  law_seteuid_denied : forall u w, euid (creds w) <> 0 -> u <> ruid (creds w) -> u <> suid (creds w) ->
    (seteuid u w).1 <> 0;
  (** a call that fails changes nothing *)
  law_setuid_failed : forall u w, (setuid u w).1 <> 0 -> creds (setuid u w).2 = creds w;
  law_seteuid_failed : forall u w, (seteuid u w).1 <> 0 -> creds (seteuid u w).2 = creds w }.

Section privileges.
Context {W : Type} `{UnixLaws W}.

(** The calls by which a process may try to change its user. *)
Inductive id_call (w : W) : W -> Prop :=
| by_setuid u : id_call w (setuid u w).2
| by_seteuid u : id_call w (seteuid u w).2.

(** The process belongs to one user who is not root. *)
Definition belongs_to (u : Z) (c : Creds) : Prop := u <> 0 /\ ruid c = u /\ euid c = u /\ suid c = u.

Lemma id_call_kept u w w' : belongs_to u (creds w) -> id_call w w' -> belongs_to u (creds w').
Proof.
  intros (Hu & Hr & He & Hs) [v|v].
  - destruct (decide ((setuid v w).1 = 0)) as [E|E]; [|by rewrite law_setuid_failed].
    assert (v = u) as ->.
    { destruct (decide (v = u)) as [|Hn]; [done|]. exfalso. apply (law_setuid_denied v w); congruence. }
    rewrite law_setuid by done. rewrite decide_False by congruence. by split_and!.
  - destruct (decide ((seteuid v w).1 = 0)) as [E|E]; [|by rewrite law_seteuid_failed].
    assert (v = u) as ->.
    { destruct (decide (v = u)) as [|Hn]; [done|]. exfalso. apply (law_seteuid_denied v w); congruence. }
    rewrite law_seteuid by done. by split_and!.
Qed.

Lemma must_ok name what call (w w' : W) : must name what call w = (Ret tt, w') -> (call w).1 = 0 /\ w' = (call w).2.
Proof.
  unfold must, calls, mbind, sys_bind. destruct (call w) as [r w1]. simpl.
  case_decide; [discriminate|]. intros [= <-]. by split.
Qed.

Lemma sys_bind_ok {A B} (m : sys W A) (f : A -> sys W B) w b w' :
  (m ≫= f) w = (Ret b, w') -> exists a w1, m w = (Ret a, w1) /\ f a w1 = (Ret b, w').
Proof. unfold mbind, sys_bind. destruct (m w) as [[a| |] w1]; try discriminate. eauto. Qed.

Lemma privileges_dropped_at name w w' :
  change_process_privileges name w = (Ret tt, w') ->
  euid (creds w) = 0 /\
  exists pw l, getpwnam name w = Some pw /\
    creds w' = mkCreds (pw_uid pw) (pw_uid pw) (pw_uid pw) (pw_gid pw) (pw_gid pw) (pw_gid pw) l.
Proof.
  intros E. unfold change_process_privileges in E. apply sys_bind_ok in E as (pw & w0 & [= <- <-] & E).
  destruct (getpwnam name w) as [pw|] eqn:Hpw; [|discriminate E].
  apply sys_bind_ok in E as ([] & w1 & [R1 ->]%must_ok & E). apply sys_bind_ok in E as ([] & w2 & [R2 ->]%must_ok & E).
  apply sys_bind_ok in E as ([] & w3 & [R3 ->]%must_ok & E). apply sys_bind_ok in E as ([] & w4 & [R4 ->]%must_ok & E).
  apply must_ok in E as [R5 ->].
  apply law_initgroups in R1 as (Hroot & l & C1). apply law_setgid in R2 as C2. apply law_setegid in R3 as C3.
  apply law_setuid in R4 as C4. apply law_seteuid in R5 as C5. split; [done|]. exists pw, l. split; [done|].
  rewrite C1 in C2. cbn in C2. rewrite decide_True in C2 by done. rewrite C2 in C3. cbn in C3.
  rewrite C3 in C4. cbn in C4. rewrite decide_True in C4 by done. rewrite C4 in C5. exact C5.
Qed.

(** C27: when [change_process_privileges] comes back without an exception, the
    process was privileged, and its real, effective and saved ids are those
    of the named user and of its group; unless that user is root, no
    sequence of [setuid] and [seteuid] brings the privileges back.  In a
    process that is not privileged it always throws. *)
Theorem privileges_dropped name w :
  (forall w', change_process_privileges name w = (Ret tt, w') ->
     exists pw l, getpwnam name w = Some pw /\
       creds w' = mkCreds (pw_uid pw) (pw_uid pw) (pw_uid pw) (pw_gid pw) (pw_gid pw) (pw_gid pw) l /\
       (pw_uid pw <> 0 -> forall w2, rtc id_call w' w2 -> euid (creds w2) <> 0)) /\
  (euid (creds w) <> 0 -> (change_process_privileges name w).1 <> Ret tt).
Proof.
  split.
  - intros w' E. destruct (privileges_dropped_at name w w' E) as (_ & pw & l & Hpw & Hc). exists pw, l. split_and!; [done|done|].
    intros Hu w2 Hr. assert (belongs_to (pw_uid pw) (creds w')) as Hb by (rewrite Hc; by split_and!). clear E Hc.
    enough (belongs_to (pw_uid pw) (creds w2)) as (? & _ & -> & _) by done.
    induction Hr; [done|]. eauto using id_call_kept.
  - intros Hu Hret. destruct (change_process_privileges name w) as [r w'] eqn:E. simpl in Hret. subst r.
    by apply privileges_dropped_at in E as [? _].
Qed.
End privileges.

(** ** A process with its user database *)

Record Process := mkProcess_ {
  p_creds : Creds;
  p_users : list (str * passwd);
  (** with the only user who may read it, besides root *)
  p_files : list (str * (option Z * str));
  p_proc : list dirent;
  p_command : option (str * stream_end) }.

Definition set_creds (c : Creds) (p : Process) : Process := mkProcess_ c (p_users p) (p_files p) (p_proc p) (p_command p).

(** The instance of the calls on ids and files; the others fail. *)
Definition on_creds (ok : Creds -> bool) (f : Creds -> Creds) (p : Process) : Z * Process :=
  if ok (p_creds p) then (0, set_creds (f (p_creds p)) p) else (-1, p).

Definition root (c : Creds) : bool := bool_decide (euid c = 0).
Definition may_take (u : Z) (c : Creds) : bool := bool_decide (euid c = 0 \/ u = ruid c \/ u = suid c).
Definition may_take_group (g : Z) (c : Creds) : bool := bool_decide (euid c = 0 \/ g = rgid c \/ g = sgid c).

#[export] Instance Process_Unix : Unix Process := {|
  creds := p_creds;
  getpwnam name p := snd <$> List.find (fun e => bool_decide (e.1 = name)) (p_users p);
  getpwuid uid p := snd <$> List.find (fun e => bool_decide (pw_uid e.2 = uid)) (p_users p);
  getgrnam _ _ := None;
  initgroups _ g := on_creds root (with_groups [g]);
  setgid g := on_creds (may_take_group g)
    (fun c => if decide (euid c = 0) then with_gids g g g c else with_gids (rgid c) g (sgid c) c);
  setegid g := on_creds (may_take_group g) (fun c => with_gids (rgid c) g (sgid c) c);
  setuid u := on_creds (may_take u)
    (fun c => if decide (euid c = 0) then with_uids u u u c else with_uids (ruid c) u (suid c) c);
  seteuid u := on_creds (may_take u) (fun c => with_uids (ruid c) u (suid c) c);
  chown _ _ _ p := (-1, p);
  errno_message _ := "Operation not permitted";
  file_bytes name p :=
    match List.find (fun e => bool_decide (e.1 = name)) (p_files p) with
    | Some (_, (owner, bytes)) =>
        if decide (owner = None \/ euid (p_creds p) = 0 \/ owner = Some (euid (p_creds p))) then Some bytes else None
    | None => None
    end;
  dir_entries _ p := Some (p_proc p);
  is_directory _ _ := Ret false; stat _ _ := None; hostname _ _ := None;
  popen _ p := p_command p |}.

Lemma on_creds_ok ok f p : (on_creds ok f p).1 = 0 -> p_creds (on_creds ok f p).2 = f (p_creds p) /\ ok (p_creds p) = true.
Proof. unfold on_creds. by destruct (ok (p_creds p)). Qed.

Lemma on_creds_failed ok f p : (on_creds ok f p).1 <> 0 -> p_creds (on_creds ok f p).2 = p_creds p.
Proof. unfold on_creds. by destruct (ok (p_creds p)). Qed.

#[export] Instance Process_UnixLaws : UnixLaws Process.
Proof.
  split; cbn.
  - intros name g w [-> Hr%bool_decide_eq_true]%on_creds_ok. eauto.
  - by intros g w [-> _]%on_creds_ok.
  - by intros g w [-> _]%on_creds_ok.
  - by intros u w [-> _]%on_creds_ok.
  - by intros u w [-> _]%on_creds_ok.
  - intros u w ? ? ? [_ Hm%bool_decide_eq_true]%on_creds_ok. tauto.
  - intros u w ? ? ? [_ Hm%bool_decide_eq_true]%on_creds_ok. tauto.
  - intros u w. apply on_creds_failed.
  - intros u w. apply on_creds_failed.
Qed.

Definition www : passwd := mkPasswd 33 33 "/var/www".
Definition as_root : Process := mkProcess_ (mkCreds 0 0 0 0 0 0 [0]) [("www" : str, www)] [] [] None.
Definition dropped : Process := (change_process_privileges "www" as_root).2.

Lemma privileges_dropped_witness :
  (change_process_privileges "www" as_root).1 = Ret tt /\
  (forall w2, rtc id_call dropped w2 -> euid (creds w2) <> 0) /\ (change_process_privileges "www" dropped).1 <> Ret tt.
Proof.
  split; [vm_compute; reflexivity|]. split.
  - destruct (proj1 (privileges_dropped "www" as_root) dropped) as (pw & l & Hpw & _ & Hd); [vm_compute; reflexivity|].
    apply Hd. vm_compute in Hpw. injection Hpw as <-. discriminate.
  - apply (proj2 (privileges_dropped "www" dropped)). by vm_compute.
Defined.

(** ** Names of processes *)

Section processes.
Context {W : Type} `{Unix W}.

Definition cmdline (pid : Z) : str := "/proc/" ++ to_string pid ++ "/cmdline".

Lemma c_str_cut a b : no_nul a -> c_str (a ++ NUL :: b) = a.
Proof. intros Ha. unfold c_str. induction Ha as [|c a Hc Ha IH]; simpl; [done|]. rewrite bool_decide_eq_false_2 by done. simpl. by rewrite IH. Qed.

Lemma cmdline_no_nul pid : 0 <= pid -> no_nul (cmdline pid).
Proof.
  intros Hp. unfold cmdline. rewrite to_string_nonneg by done.
  apply no_nul_app. split; [apply (bool_decide_unpack _); vm_compute; exact I|].
  apply no_nul_app. split; [by apply digits_no_nul, dec_digits|apply (bool_decide_unpack _); vm_compute; exact I].
Qed.

(** The bytes that the read leaves in the buffer: a line feed at the end is
    replaced. *)
Lemma data_cut arg rest :
  (length arg < 1024)%nat ->
  exists rest', (let data := take 1024 (arg ++ NUL :: rest) in
    if decide (last data = Some LF) then take (length data - 1) data ++ [NUL] else data) = arg ++ NUL :: rest'.
Proof.
  intros Hl. rewrite take_app_ge by lia. set (t := take (1024 - length arg) (NUL :: rest)).
  assert (exists t', t = NUL :: t') as [t' ->].
  { unfold t. destruct (1024 - length arg)%nat eqn:E; [lia|]. by eexists. }
  cbv zeta. case_decide as Hlast; [|by eexists].
  rewrite last_app in Hlast. destruct t' as [|c t'] using rev_ind; [discriminate Hlast|]. clear IHt'.
  rewrite length_app. simpl. rewrite length_app. simpl.
  replace (length arg + S (length t' + 1) - 1)%nat with (length (arg ++ NUL :: t'))%nat by (rewrite length_app; simpl; lia).
  replace (arg ++ NUL :: t' ++ [c]) with ((arg ++ NUL :: t') ++ [c]) by by rewrite <- app_assoc.
  rewrite take_app_length. eexists. by rewrite <- app_assoc.
Qed.

(** The name of a process is its first argument; of a process that is
    gone, or one of the kernel, whose command line is empty, it is the path
    of the file that was looked for. *)
Theorem process_name junk pid w :
  0 <= pid -> (length (cmdline pid) < 1024)%nat ->
  (forall arg rest, file_bytes (cmdline pid) w = Some (arg ++ NUL :: rest) -> no_nul arg -> (length arg < 1024)%nat ->
     process_name_by_pid junk pid w = Some arg) /\
  (file_bytes (cmdline pid) w = None \/ file_bytes (cmdline pid) w = Some [] ->
     process_name_by_pid junk pid w = Some (cmdline pid)).
Proof.
  intros Hp Hl. unfold process_name_by_pid. fold (cmdline pid). split.
  - intros arg rest -> Ha Hal. cbv zeta. destruct (data_cut arg rest Hal) as [rest' E]. cbv zeta in E. rewrite E.
    rewrite <- app_assoc. simpl. rewrite decide_True by (apply elem_of_app; right; by left). by rewrite c_str_cut.
  - intros E. assert (exists t, take 1024 (cmdline pid ++ [NUL] ++ junk) = cmdline pid ++ NUL :: t) as [t Ht].
    { rewrite take_app_ge by lia. destruct (1024 - length (cmdline pid))%nat eqn:E'; [lia|]. by eexists. }
    assert (forall r, (if decide (NUL ∈ cmdline pid ++ NUL :: t) then Some (c_str (cmdline pid ++ NUL :: t)) else None) = r ->
      r = Some (cmdline pid)) as Hend.
    { intros r <-. rewrite decide_True by (apply elem_of_app; right; by left). by rewrite c_str_cut by by apply cmdline_no_nul. }
    apply Hend. destruct E as [E|E]; rewrite E; cbv zeta; [by rewrite Ht|].
    change (take 1024 []) with (@nil ascii). rewrite (decide_False (P := last (@nil ascii) = Some LF)) by done.
    cbn [app length drop]. by rewrite <- Ht.
Qed.

(** ** What [processList] lists *)

(** A process that is listed has a directory of digits and a command line
    with a word, and is listed under that word up to its first terminator. *)
Definition listed (w : W) (dir : dirent) (p : ProcessPropertie) : Prop :=
  d_is_dir dir = true /\ contains_only_numbers (d_name dir) = true /\
  exists content word, file_bytes ("/proc/" ++ d_name dir ++ "/cmdline") w = Some content /\
    scan_word content = Some word /\ p = mkProcess (c_str word) (atoi (d_name dir)).

(** A word that runs over the buffer. *)
Definition overflows (w : W) (dir : dirent) : Prop :=
  d_is_dir dir = true /\ contains_only_numbers (d_name dir) = true /\
  exists content word, file_bytes ("/proc/" ++ d_name dir ++ "/cmdline") w = Some content /\
    scan_word content = Some word /\ (1024 <= length word)%nat.

Lemma process_entry_cases w dir :
  (process_entry w dir = None /\ overflows w dir) \/
  (exists ps, process_entry w dir = Some ps /\ ~ overflows w dir /\ forall p, p ∈ ps <-> listed w dir p).
Proof.
  unfold process_entry, overflows, listed.
  destruct (d_is_dir dir); simpl.
  2:{ right. exists []. split_and!; [done|by intros [? _]|]. intros p. split; [by intros ?%not_elem_of_nil|by intros [? _]]. }
  destruct (contains_only_numbers (d_name dir)); simpl.
  2:{ right. exists []. split_and!; [done|by intros (_ & ? & _)|]. intros p. split; [by intros ?%not_elem_of_nil|by intros (_ & ? & _)]. }
  destruct (file_bytes _ w) as [content|] eqn:E.
  2:{ right. exists []. split_and!; [done|by intros (_ & _ & ? & ? & ? & _)|]. intros p.
      split; [by intros ?%not_elem_of_nil|by intros (_ & _ & ? & ? & ? & _)]. }
  destruct (scan_word content) as [word|] eqn:Ew.
  2:{ right. exists []. split_and!; [done|intros (_ & _ & c & ? & [= <-] & ? & _); congruence|]. intros p.
      split; [by intros ?%not_elem_of_nil|intros (_ & _ & c & ? & [= <-] & ? & _); congruence]. }
  case_decide as Hl.
  - left. split; [done|]. split_and!; [done|done|]. by exists content, word.
  - right. eexists. split; [done|]. split.
    + intros (_ & _ & c & wd & [= <-] & Hw & Hlen). congruence.
    + intros p. rewrite list_elem_of_singleton. split.
      * intros ->. split_and!; [done|done|]. by exists content, word.
      * intros (_ & _ & c & wd & [= <-] & Hw & ->). congruence.
Qed.

(** The processes that are listed are those with a command line, under its
    first word; but a process whose command line has 1024 bytes without a
    blank, its arguments and their terminators together, makes the list
    overrun its buffer. *)
Theorem processes_listed w dirs :
  dir_entries "/proc/" w = Some dirs ->
  (processList w = None <-> exists dir, dir ∈ dirs /\ overflows w dir) /\
  (forall ps, processList w = Some ps -> forall p, p ∈ ps <-> exists dir, dir ∈ dirs /\ listed w dir p).
Proof.
  intros E. unfold processList. rewrite E. clear E. induction dirs as [|dir dirs [IHn IHs]]; simpl.
  - split; [split; [done|]|].
    + intros (dir & ?%not_elem_of_nil & _). done.
    + intros ps [= <-] p. split; [by intros ?%not_elem_of_nil|]. intros (dir & ?%not_elem_of_nil & _). done.
  - destruct (process_entry_cases w dir) as [[-> Ho]|(ps & -> & Hno & Hps)]; simpl.
    + split; [|done]. split; [|done]. intros _. exists dir. split; [by left|done].
    + destruct (process_entries w dirs) as [ps'|] eqn:E'; simpl.
      * split.
        { split; [done|]. intros (d & [-> | Hd]%elem_of_cons & Hov); [done|].
          enough (Some ps' = None) by done. apply IHn. eauto. }
        intros l [= <-] p. rewrite elem_of_app, Hps, (IHs ps' eq_refl p). split.
        { intros [?|(d & ? & ?)]; [exists dir; split; [by left|done]|exists d; split; [by right|done]]. }
        { intros (d & [-> | Hd]%elem_of_cons & Hl); [by left|right; eauto]. }
      * split; [|done]. split; [|done]. intros _. destruct (proj1 IHn eq_refl) as (d & ? & ?).
        exists d. split; [by right|done].
Qed.

(** ** The output of a command *)

Lemma fgets_app n s : (fgets n s).1 ++ (fgets n s).2 = s.
Proof.
  revert s. induction n as [|n IH]; intros [|c s]; simpl; try done. case_decide; [done|].
  specialize (IH s). destruct (fgets n s). simpl in *. by rewrite IH.
Qed.

Lemma fgets_rest n s :
  (length (fgets n s).1 < n)%nat -> last (fgets n s).1 <> Some LF -> (fgets n s).2 = [].
Proof.
  revert s. induction n as [|n IH]; intros [|c s]; simpl; try done; [lia|]. case_decide as Hc; [by subst|].
  specialize (IH s). destruct (fgets n s) as [line rest]. simpl in *. intros Hl Hlast. apply IH; [lia|].
  destruct line; [done|]. exact Hlast.
Qed.

Lemma fgets_length n s : (length (fgets n s).1 <= n)%nat.
Proof.
  revert s. induction n as [|n IH]; intros [|c s]; simpl; try lia. case_decide; simpl; [lia|].
  specialize (IH s). destruct (fgets n s). simpl in *. lia.
Qed.

Lemma exec_loop_reads fuel out result :
  (length out < fuel)%nat -> no_nul out -> exec_loop fuel out AtEof result = Some (result ++ out).
Proof.
  revert out result. induction fuel as [|fuel IH]; intros out result Hl Hn; [lia|]. cbn [exec_loop].
  pose proof (fgets_app 127 out) as Happ. pose proof (fgets_rest 127 out) as Hrest. pose proof (fgets_length 127 out) as Hle.
  destruct (fgets 127 out) as [line rest]. cbn [fst snd] in *. subst out. apply no_nul_app in Hn as [Hn1 Hn2].
  destruct (_ || _) eqn:Hfull.
  - assert (line <> []) as Hne by by intros ->.
    rewrite length_app in Hl. destruct line as [|c line]; [done|]. simpl in Hl.
    rewrite IH by (done || lia). rewrite c_str_id by done. by rewrite <- app_assoc.
  - apply orb_false_iff in Hfull as [H1%bool_decide_eq_false H2%bool_decide_eq_false].
    rewrite Hrest, app_nil_r, c_str_id by (done || lia). done.
Qed.

Lemma exec_loop_stuck fuel out result : exec_loop fuel out AtError result = None.
Proof.
  revert out result. induction fuel as [|fuel IH]; intros out result; [done|]. cbn [exec_loop].
  destruct (fgets 127 out) as [line rest]. destruct (_ || _); apply IH.
Qed.

(** The output of a command is returned as it was written, when it has no
    terminators and can be read to its end; and when reading it fails the
    loop never ends, because [feof] does not tell an error. *)
Theorem execCmd_output cmd w out e :
  popen cmd w = Some (out, e) ->
  (e = AtEof -> no_nul out -> execCmd (S (length out)) cmd w = Some (Ret out)) /\
  (e = AtError -> forall fuel, execCmd fuel cmd w = None).
Proof.
  intros E. unfold execCmd. rewrite E. split.
  - intros -> Hn. by rewrite exec_loop_reads by (done || lia).
  - intros -> fuel. by rewrite exec_loop_stuck.
Qed.
End processes.

(** ** A shell and a thread of the kernel *)

Definition two_processes : Process :=
  mkProcess_ (mkCreds 7 7 7 7 7 7 []) [] [("/proc/7/cmdline" : str, (None, ("bash" : str) ++ [NUL] ++ "-l" ++ [NUL])); ("/proc/2/cmdline" : str, (None, []))]
    [mkDirent "." true; mkDirent "7" true; mkDirent "2" true; mkDirent "uptime" false] (Some ("7 pts/0" : str, AtEof)).

Lemma process_name_witness :
  process_name_by_pid [] 7 two_processes = Some ("bash" : str) /\
  process_name_by_pid [] 2 two_processes = Some ("/proc/2/cmdline" : str).
Proof.
  split.
  - apply (proj1 (process_name [] 7 two_processes ltac:(lia) ltac:(vm_compute; lia)) "bash" (("-l" : str) ++ [NUL]));
      [vm_compute; reflexivity|by repeat constructor|vm_compute; lia].
  - apply (proj2 (process_name [] 2 two_processes ltac:(lia) ltac:(vm_compute; lia))). right. vm_compute. reflexivity.
Defined.

Lemma processes_listed_witness :
  exists ps, processList two_processes = Some ps /\ mkProcess "bash" 7 ∈ ps.
Proof.
  destruct (processes_listed (H := Process_Unix) two_processes (p_proc two_processes) eq_refl) as [_ Hps].
  eexists. split; [vm_compute; reflexivity|].
  apply (Hps [mkProcess "bash" 7]); [vm_compute; reflexivity|].
  exists (mkDirent "7" true). split; [right; by left|]. split_and!; [done|done|].
  eexists _, _. split_and!; vm_compute; reflexivity.
Defined.

Lemma execCmd_output_witness : execCmd 8 "ps" two_processes = Some (Ret ("7 pts/0" : str)).
Proof.
  apply (execCmd_output "ps" two_processes "7 pts/0" AtEof); [vm_compute; reflexivity|done|].
  apply (bool_decide_unpack _). vm_compute. exact I.
Defined.
