(* ===== verification/Common.v ===== *)
(** * common/common.hpp: commands and status codes of the API

    The commands the client and the server exchange, the resource each is
    sent to, and the status codes of error replies. *)

From S2P Require Import Prelude.

Inductive cmd_t :=
| MESSAGE_SEND | MESSAGE_SEND_CHAT
| USER_CREATE | USER_LOGIN | USER_HISTORY | USER_STATUS
| GET_LOCATIONS | CHAT_WITH_LOCATION
| CHAT_CREATE | CHAT_HISTORY | CHAT_STATUS | CHAT_ADDUSER
| MESSAGE_RECENT | IDLE
| CMD_LAST.

#[export] Instance cmd_t_eq_dec : EqDecision cmd_t.
Proof. solve_decision. Defined.

Definition all_cmds : list cmd_t :=
  [MESSAGE_SEND; MESSAGE_SEND_CHAT; USER_CREATE; USER_LOGIN; USER_HISTORY; USER_STATUS;
   GET_LOCATIONS; CHAT_WITH_LOCATION; CHAT_CREATE; CHAT_HISTORY; CHAT_STATUS; CHAT_ADDUSER;
   MESSAGE_RECENT; IDLE; CMD_LAST].

(** The enumerators are numbered from 1 in the order of the declaration. *)
Definition cmd_code (c : cmd_t) : Z :=
  match c with
  | MESSAGE_SEND => 1 | MESSAGE_SEND_CHAT => 2
  | USER_CREATE => 3 | USER_LOGIN => 4 | USER_HISTORY => 5 | USER_STATUS => 6
  | GET_LOCATIONS => 7 | CHAT_WITH_LOCATION => 8
  | CHAT_CREATE => 9 | CHAT_HISTORY => 10 | CHAT_STATUS => 11 | CHAT_ADDUSER => 12
  | MESSAGE_RECENT => 13 | IDLE => 14
  | CMD_LAST => 15
  end.

Definition cmd2string (c : cmd_t) : str :=
  match c with
  | MESSAGE_SEND => "/v1/message/send"
  | MESSAGE_SEND_CHAT => "/v1/message/sendchat"
  | USER_CREATE => "/v1/user/create"
  | USER_LOGIN => "/v1/user/login"
  | CHAT_CREATE => "/v1/chat/create"
  | USER_HISTORY => "/v1/user/history"
  | CHAT_HISTORY => "/v1/group/history"
  | USER_STATUS => "/v1/user/status"
  | CHAT_STATUS => "/v1/chat/status"
  | CHAT_ADDUSER => "/v1/chat/adduser"
  | MESSAGE_RECENT => "/v1/message/recent"
  | IDLE => "/v1/idle"
  | CMD_LAST => "undefined_cmd"
  | GET_LOCATIONS => "/v1/locations"
  | CHAT_WITH_LOCATION => "/v1/locations/users"
  end.

Inductive ApiStatusCode :=
| ERR_NONE | ERR_BAD_REQUEST | ERR_INTERNAL | ERR_NOT_FOUND | ERR_CONSTRAINT.

#[export] Instance ApiStatusCode_eq_dec : EqDecision ApiStatusCode.
Proof. solve_decision. Defined.

Definition status_code (c : ApiStatusCode) : Z :=
  match c with
  | ERR_NONE => 0 | ERR_BAD_REQUEST => 1 | ERR_INTERNAL => 2
  | ERR_NOT_FOUND => 3 | ERR_CONSTRAINT => 4
  end.

Lemma cmd_code_inj c1 c2 : cmd_code c1 = cmd_code c2 -> c1 = c2.
Proof. by destruct c1, c2. Qed.

Lemma cmd2string_inj c1 c2 : cmd2string c1 = cmd2string c2 -> c1 = c2.
Proof. by destruct c1, c2. Qed.
