(* ===== verification/LockQueue.v ===== *)
(** * common/lock_queue.hpp: the queue between the I/O and the worker threads

    [Queue<T>] wraps a [std::queue] with a mutex that every method holds
    from its first to its last statement, so a method is one atomic step on
    the contents.  The contents are a list, front first.  A transition
    system interleaves the calls of any number of threads, and its
    invariant says what the queue guarantees them. *)

From S2P Require Import Prelude.

Section Queue.
Context {T : Type}.

(** The member [m_Queue]. *)
Record Queue := mkQueue { m_Queue : list T }.

Definition push (q : Queue) (t : T) : Queue := mkQueue (m_Queue q ++ [t]).

(** [pop] and [front] of an empty [std::queue] are undefined: [None]. *)
Definition pop (q : Queue) : option Queue :=
  match m_Queue q with [] => None | _ :: l => Some (mkQueue l) end.
Definition front (q : Queue) : option T := head (m_Queue q).

Definition size (q : Queue) : Z := Z.of_nat (length (m_Queue q)).

(** [bool getTask(T &t)]: the task, or [None] for [false]. *)
Definition getTask (q : Queue) : option T * Queue :=
  match m_Queue q with
  | [] => (None, q)
  | t :: l => (Some t, mkQueue l)
  end.

(** The [while (n--)] loop of the batch version on the queue contents and
    the output vector. *)
Fixpoint getTasks_loop (n : nat) (l : list T) (out : list T) : list T * list T :=
  match n with
  | O => (l, out)
  | S n' =>
      match l with
      | [] => (l, out)           (* unreachable: the loop leaves on an empty queue *)
      | t :: l' =>
          let out := out ++ [t] in
          match l' with
          | [] => (l', out)
          | _ => getTasks_loop n' l' out
          end
      end
  end.

(** [bool getTask(std::vector<T> &t, size_t n)], appending to [t]. *)
Definition getTasks (q : Queue) (t : list T) (n : nat) : bool * list T * Queue :=
  match m_Queue q with
  | [] => (false, t, q)
  | l => let '(l', out) := getTasks_loop n l t in (true, out, mkQueue l')
  end.

Lemma getTasks_loop_spec n l out :
  getTasks_loop n l out = (drop n l, out ++ take n l).
Proof.
  revert l out. induction n as [|n IH]; intros l out; simpl.
  - by rewrite drop_0, app_nil_r.
  - destruct l as [|t [|t' l]]; simpl.
    + by rewrite app_nil_r.
    + by rewrite drop_nil, take_nil.
    + rewrite IH. by rewrite <- app_assoc.
Qed.

(** The batch [getTask] moves exactly the [min n size] oldest tasks, in
    order, behind the tasks already in the vector, and answers [false] only
    for an empty queue. *)
Theorem getTasks_spec q t n :
  getTasks q t n =
    (negb (bool_decide (m_Queue q = [])), t ++ take n (m_Queue q), mkQueue (drop n (m_Queue q))).
Proof.
  unfold getTasks. destruct q as [[|x l]]; simpl.
  - by rewrite take_nil, drop_nil, app_nil_r.
  - rewrite getTasks_loop_spec. done.
Qed.

(** ** Interleaved calls

    [pushed] and [taken] are the histories of the values pushed and of the
    values any thread got, in the order of the critical sections. *)

Record state := mkState { queue : Queue; pushed : list T; taken : list T }.

Inductive step : state -> state -> Prop :=
| step_push s t :
    step s (mkState (push (queue s) t) (pushed s ++ [t]) (taken s))
| step_getTask s t q' :
    getTask (queue s) = (Some t, q') ->
    step s (mkState q' (pushed s) (taken s ++ [t]))
| step_getTask_empty s q' :
    getTask (queue s) = (None, q') ->
    step s (mkState q' (pushed s) (taken s))
| step_getTasks s b n out q' :
    getTasks (queue s) [] n = (b, out, q') ->
    step s (mkState q' (pushed s) (taken s ++ out)).

Definition init : state := mkState (mkQueue []) [] [].

Lemma step_invariant s s' :
  step s s' -> taken s ++ m_Queue (queue s) = pushed s ->
  taken s' ++ m_Queue (queue s') = pushed s'.
Proof.
  destruct 1 as [s t|s t q' H|s q' H|s b n out q' H]; simpl; intros <-.
  - by rewrite app_assoc.
  - unfold getTask in H. destruct (m_Queue (queue s)) eqn:E; simplify_eq/=.
    by rewrite <- app_assoc.
  - unfold getTask in H. destruct (m_Queue (queue s)) eqn:E; simplify_eq/=. by rewrite E.
  - rewrite getTasks_spec in H. simplify_eq/=. by rewrite <- app_assoc, take_drop.
Qed.

(** Whatever the interleaving of pushes and gets, the tasks handed out so
    far followed by those still queued are the tasks pushed, in order: each
    task is delivered at most once, none is lost, and none overtakes
    another. *)
Theorem queue_fifo s :
  rtc step init s -> taken s ++ m_Queue (queue s) = pushed s.
Proof.
  intros H. remember init as s0 eqn:E.
  assert (taken s0 ++ m_Queue (queue s0) = pushed s0) as H0 by by subst.
  clear E. induction H as [|s0 s1 s2 H12 _ IH]; [done|].
  apply IH. by eapply step_invariant.
Qed.

End Queue.
Arguments Queue : clear implicits.
Arguments state : clear implicits.

(** Two tasks pushed, one taken. *)
Lemma queue_fifo_witness :
  let s := mkState (mkQueue [2]) [1; 2] [1] in
  rtc step init s /\ taken s ++ m_Queue (queue s) = pushed s.
Proof.
  intros s. assert (rtc step init s) as H.
  { eapply rtc_l; [apply (step_push _ 1)|]. eapply rtc_l; [apply (step_push _ 2)|].
    eapply rtc_l; [by eapply (step_getTask _ 1)|]. apply rtc_refl. }
  split; [exact H|]. exact (queue_fifo s H).
Defined.
