(* ===== verification/Json.v ===== *)
(** * third_party/rapidjson-1.0.2: the JSON reader, writer and values

    The part of RapidJSON the client and the server use, from the headers
    kept in the repository: [Writer<StringBuffer>] as a machine over its
    output, level stack and root flag; [GenericReader::Parse] with the
    default flags building a [Document]; and the accessors of a value, whose
    type assertions stop the process.  A double is its significand and
    power of ten before [StrtodNormalPrecision] scales it: no caller looks
    at the value of a double. *)

From Stdlib Require Import Floats.SpecFloat.
From S2P Require Import Prelude CxxString.

(** ** Values (document.h) *)

#[warnings="-register-all"]
Inductive json :=
| JNull
| JBool (b : bool)
| JNum (z : Z)                                   (* the integer types *)
| JDouble (minus : bool) (d : spec_float) (p : Z)  (* d * 10^p *)
| JString (s : str)
| JArray (l : list json)
| JObject (l : list (str * json)).

(** The type flags of an integer follow from its value alone. *)
Definition IsObject (v : json) : bool := match v with JObject _ => true | _ => false end.
Definition IsArray (v : json) : bool := match v with JArray _ => true | _ => false end.
Definition IsString (v : json) : bool := match v with JString _ => true | _ => false end.
Definition IsUint (v : json) : bool := match v with JNum z => bool_decide (in_u 32 z) | _ => false end.
Definition IsUint64 (v : json) : bool := match v with JNum z => bool_decide (in_u 64 z) | _ => false end.

Definition GetUint (v : json) : cxx Z :=
  match v with JNum z => if IsUint v then Ret z else AssertFail | _ => AssertFail end.
Definition GetUint64 (v : json) : cxx Z :=
  match v with JNum z => if IsUint64 v then Ret z else AssertFail | _ => AssertFail end.

(** Every caller reads the [const Ch*] as a C string. *)
Definition GetString (v : json) : cxx str :=
  match v with JString s => Ret (c_str s) | _ => AssertFail end.

(** The first member with the name; [None] is [MemberEnd()]. *)
Definition FindMember (v : json) (name : str) : cxx (option json) :=
  match v with
  | JObject l => Ret (snd <$> List.find (fun m => bool_decide (c_str name = m.1)) l)
  | _ => AssertFail
  end.

(** ** Writer (writer.h) *)

Record Level := mkLevel { valueCount : Z; inArray : bool }.

Record Writer := mkWriter {
  os_ : str;
  level_stack_ : list Level;        (* top first *)
  hasRoot_ : bool }.

Definition Writer_init : Writer := mkWriter [] [] false.

Definition Put (s : str) (w : Writer) : Writer := mkWriter (os_ w ++ s) (level_stack_ w) (hasRoot_ w).

(** [Prefix]: the separator before a value, and the count of the level. *)
Definition Prefix (is_string : bool) (w : Writer) : cxx Writer :=
  match level_stack_ w with
  | level :: rest =>
      let sep : str :=
        if 0 <? valueCount level then
          if inArray level then ","
          else if valueCount level mod 2 =? 0 then "," else ":"
        else [] in
      if negb (inArray level) && (valueCount level mod 2 =? 0) && negb is_string then AssertFail
      else Ret (mkWriter (os_ w ++ sep) (mkLevel (valueCount level + 1) (inArray level) :: rest) (hasRoot_ w))
  | [] => if hasRoot_ w then AssertFail else Ret (mkWriter (os_ w) [] true)
  end.

Definition hexDigit (n : Z) : ascii :=
  if n <? 10 then ascii_of_N (Z.to_N (48 + n)) else ascii_of_N (Z.to_N (55 + n)).

(** The table [escape] of [WriteString]: [None] is 0. *)
Definition write_escape (c : ascii) : option ascii :=
  let v := byte_val c in
  if v =? 8 then Some "b"%char else if v =? 9 then Some "t"%char else if v =? 10 then Some "n"%char
  else if v =? 12 then Some "f"%char else if v =? 13 then Some "r"%char
  else if v <? 32 then Some "u"%char
  else if decide (c = QUOTE) then Some QUOTE
  else if decide (c = BACKSLASH) then Some BACKSLASH
  else None.

(** One round of the loop of [WriteString]: UTF-8 to UTF-8 copies a byte. *)
Definition write_char (c : ascii) : str :=
  match write_escape c with
  | Some e =>
      BACKSLASH :: e ::
        (if decide (e = "u"%char)
         then ["0"%char; "0"%char; hexDigit (Z.shiftr (byte_val c) 4); hexDigit (Z.land (byte_val c) 15)]
         else [])
  | None => [c]
  end.

Definition WriteString (s : str) : str := [QUOTE] ++ flat_map write_char s ++ [QUOTE].

(** The calls the program makes on a writer.  A [String] or [Key] of a
    [const Ch*] is one of [c_str], since it is measured with [StrLen]. *)
Inductive call :=
| StartObject | EndObject | StartArray | EndArray
| Key (s : str) | String (s : str) | Uint64 (z : Z) | Int64 (z : Z) | Null | Bool (b : bool).

(** [EndObject] and [EndArray]: the assertions on the level stack. *)
Definition pop_level (want_array : bool) (w : Writer) : cxx Writer :=
  match level_stack_ w with
  | level :: rest =>
      if Bool.eqb (inArray level) want_array then Ret (mkWriter (os_ w) rest (hasRoot_ w)) else AssertFail
  | [] => AssertFail
  end.

Definition push_level (array : bool) (w : Writer) : Writer :=
  mkWriter (os_ w) (mkLevel 0 array :: level_stack_ w) (hasRoot_ w).

Definition writer_call (c : call) (w : Writer) : cxx Writer :=
  match c with
  | StartObject => w ← Prefix false w; mret (Put "{" (push_level false w))
  | EndObject => w ← pop_level false w; mret (Put "}" w)
  | StartArray => w ← Prefix false w; mret (Put "[" (push_level true w))
  | EndArray => w ← pop_level true w; mret (Put "]" w)
  | Key s | String s => w ← Prefix true w; mret (Put (WriteString s) w)
  | Uint64 z => w ← Prefix false w; mret (Put (dec z) w)
  | Int64 z => w ← Prefix false w; mret (Put (to_string z) w)
  | Null => w ← Prefix false w; mret (Put "null" w)
  | Bool b => w ← Prefix false w; mret (Put (if b then "true" else "false") w)
  end.

Fixpoint writer_calls (cs : list call) (w : Writer) : cxx Writer :=
  match cs with
  | [] => Ret w
  | c :: cs => w ← writer_call c w; writer_calls cs w
  end.

(** What [buffer.GetString()] holds after the calls on a new writer. *)
Definition write (cs : list call) : cxx str := w ← writer_calls cs Writer_init; mret (os_ w).

(** The library asserts, it throws nothing. *)
#[export] Instance writer_call_no_throw c w : NoThrow (writer_call c w).
Proof. destruct c; unfold writer_call, Prefix, pop_level; nothrow. Qed.
#[export] Instance write_no_throw cs : NoThrow (write cs).
Proof.
  apply no_throw_bind; [|apply _]. generalize Writer_init.
  induction cs as [|c cs IH]; intros w; [by apply no_throw_ret|]. apply no_throw_bind; apply _.
Qed.
#[export] Instance GetUint64_no_throw v : NoThrow (GetUint64 v).
Proof. unfold GetUint64. nothrow; done. Qed.
#[export] Instance GetString_no_throw v : NoThrow (GetString v).
Proof. by destruct v. Qed.
#[export] Instance FindMember_no_throw v name : NoThrow (FindMember v name).
Proof. by destruct v. Qed.

(** ** Reader (reader.h) *)

Inductive ParseErrorCode :=
| kParseErrorDocumentEmpty
| kParseErrorDocumentRootNotSingular
| kParseErrorValueInvalid
| kParseErrorObjectMissName
| kParseErrorObjectMissColon
| kParseErrorObjectMissCommaOrCurlyBracket
| kParseErrorArrayMissCommaOrSquareBracket
| kParseErrorStringUnicodeEscapeInvalidHex
| kParseErrorStringUnicodeSurrogateInvalid
| kParseErrorStringEscapeInvalid
| kParseErrorStringMissQuotationMark
| kParseErrorNumberTooBig
| kParseErrorNumberMissFraction
| kParseErrorNumberMissExponent.

(** A parsing function returns what it parsed and the rest of the input, or
    the error; [POutOfFuel] is excluded for the fuel of [Parse]. *)
Inductive pres (A : Type) :=
| POk (a : A)
| PErr (code : ParseErrorCode)
| POutOfFuel.
Arguments POk {A} a.
Arguments PErr {A} code.
Arguments POutOfFuel {A}.

#[export] Instance pres_ret : MRet pres := @POk.
#[export] Instance pres_bind : MBind pres := fun A B f m =>
  match m with POk a => f a | PErr e => PErr e | POutOfFuel => POutOfFuel end.

Definition is_ws (c : ascii) : bool :=
  bool_decide (c = SP) || bool_decide (c = LF) || bool_decide (c = CR) || bool_decide (c = "009"%char).
Definition SkipWhitespace (s : str) : str := skip is_ws s.

(** [ParseHex4], with the number of digits left. *)
Fixpoint ParseHex4_loop (n : nat) (s : str) (codepoint : Z) : pres (Z * str) :=
  match n with
  | O => POk (codepoint, s)
  | S n' =>
      let c := peek s in
      if isxdigit c then ParseHex4_loop n' (tail s) (Z.shiftl codepoint 4 + digit_val c)
      else PErr kParseErrorStringUnicodeEscapeInvalidHex
  end.
Definition ParseHex4 (s : str) : pres (Z * str) := ParseHex4_loop 4 s 0.

Definition byte_of (z : Z) : ascii := ascii_of_N (Z.to_N (Z.land z 255)).

(** [UTF8::Encode] (encodings.h). *)
Definition Encode (codepoint : Z) : str :=
  if codepoint <=? 127 then [byte_of codepoint]
  else if codepoint <=? 2047 then
    [byte_of (Z.lor 192 (Z.land (Z.shiftr codepoint 6) 255)); byte_of (Z.lor 128 (Z.land codepoint 63))]
  else if codepoint <=? 65535 then
    [byte_of (Z.lor 224 (Z.land (Z.shiftr codepoint 12) 255));
     byte_of (Z.lor 128 (Z.land (Z.shiftr codepoint 6) 63)); byte_of (Z.lor 128 (Z.land codepoint 63))]
  else
    [byte_of (Z.lor 240 (Z.land (Z.shiftr codepoint 18) 255));
     byte_of (Z.lor 128 (Z.land (Z.shiftr codepoint 12) 63));
     byte_of (Z.lor 128 (Z.land (Z.shiftr codepoint 6) 63)); byte_of (Z.lor 128 (Z.land codepoint 63))].

(** The table [escape] of [ParseStringToStream]. *)
Definition read_escape (e : ascii) : option ascii :=
  if decide (e = QUOTE) then Some QUOTE
  else if decide (e = "/"%char) then Some "/"%char
  else if decide (e = BACKSLASH) then Some BACKSLASH
  else if decide (e = "b"%char) then Some "008"%char
  else if decide (e = "f"%char) then Some "012"%char
  else if decide (e = "n"%char) then Some LF
  else if decide (e = "r"%char) then Some CR
  else if decide (e = "t"%char) then Some "009"%char
  else None.

(** The code point after [\u], a surrogate pair included. *)
Definition ParseUnicode (s : str) : pres (Z * str) :=
  '(codepoint, s) ← ParseHex4 s;
  if (55296 <=? codepoint) && (codepoint <=? 56319) then
    if decide (peek s = BACKSLASH /\ peek (tail s) = "u"%char) then
      '(codepoint2, s) ← ParseHex4 (tail (tail s));
      if (codepoint2 <? 56320) || (57343 <? codepoint2) then PErr kParseErrorStringUnicodeSurrogateInvalid
      else POk (Z.lor (Z.shiftl (codepoint - 55296) 10) (codepoint2 - 56320) + 65536, s)
    else PErr kParseErrorStringUnicodeSurrogateInvalid
  else POk (codepoint, s).

(** The loop of [ParseStringToStream], after the opening quote. *)
Fixpoint ParseString_loop (fuel : nat) (s out : str) : pres (str * str) :=
  match fuel with
  | O => POutOfFuel
  | S fuel' =>
      let c := peek s in
      if decide (c = BACKSLASH) then
        let e := peek (tail s) in
        let rest := tail (tail s) in
        match read_escape e with
        | Some x => ParseString_loop fuel' rest (out ++ [x])
        | None =>
            if decide (e = "u"%char) then
              '(codepoint, rest) ← ParseUnicode rest;
              ParseString_loop fuel' rest (out ++ Encode codepoint)
            else PErr kParseErrorStringEscapeInvalid
        end
      else if decide (c = QUOTE) then POk (out, tail s)
      else if decide (c = NUL) then PErr kParseErrorStringMissQuotationMark
      else if byte_val c <? 32 then PErr kParseErrorStringEscapeInvalid
      else ParseString_loop fuel' (tail s) (out ++ [c])
  end.
Definition ParseString (s : str) : pres (str * str) := ParseString_loop (S (length s)) (tail s) [].

(** ** Numbers *)

Definition digit_of (c : ascii) : Z := byte_val c - 48.

(** [d = i64] and the arithmetic on doubles: IEEE binary64, to nearest. *)
Definition double_of (z : Z) : spec_float := binary_normalize 53 1024 z 0 false.
Definition d10 (d : spec_float) (c : ascii) : spec_float :=
  SFadd 53 1024 (SFmul 53 1024 d (double_of 10)) (double_of (digit_of c)).
(** The constant 1.7976931348623157e307. *)
Definition DBL_MAX_10 : spec_float := binary_normalize 53 1024 7205759403792793 968 false.

(** The integer loops: digits are added while the result stays below the
    limit, whose last digit is [last]; the flag tells a break at the limit. *)
Fixpoint int_loop (lim : Z) (last : ascii) (s : str) (i sig : Z) : Z * Z * bool * str :=
  match s with
  | c :: s' =>
      if isdigit c then
        if (lim <=? i) && (negb (i =? lim) || (byte_val last <? byte_val c)) then (i, sig, true, s)
        else int_loop lim last s' (i * 10 + digit_of c) (sig + 1)
      else (i, sig, false, s)
  | [] => (i, sig, false, s)
  end.

(** The rest of an integer too big for 64 bits. *)
Fixpoint big_loop (s : str) (d : spec_float) : pres (spec_float * str) :=
  match s with
  | c :: s' =>
      if isdigit c then
        if SFleb DBL_MAX_10 d then PErr kParseErrorNumberTooBig else big_loop s' (d10 d c)
      else POk (d, s)
  | [] => POk (d, s)
  end.

(** The two loops over the fraction. *)
Fixpoint frac_loop (s : str) (i64 expFrac sig : Z) : Z * Z * Z * str :=
  match s with
  | c :: s' =>
      if isdigit c && (i64 <=? 9007199254740991) then
        let i64 := i64 * 10 + digit_of c in
        frac_loop s' i64 (expFrac - 1) (if i64 =? 0 then sig else sig + 1)
      else (i64, expFrac, sig, s)
  | [] => (i64, expFrac, sig, s)
  end.

Fixpoint frac_double_loop (s : str) (d : spec_float) (expFrac sig : Z) : spec_float * Z * str :=
  match s with
  | c :: s' =>
      if isdigit c then
        if sig <? 17 then
          let d := d10 d c in
          frac_double_loop s' d (expFrac - 1) (if SFltb (S754_zero false) d then sig + 1 else sig)
        else frac_double_loop s' d expFrac sig
      else (d, expFrac, s)
  | [] => (d, expFrac, s)
  end.

(** The exponent after its sign and first digit. *)
Fixpoint exp_minus_loop (s : str) (exp : Z) : Z * str :=
  match s with
  | c :: s' =>
      if isdigit c then
        let exp := exp * 10 + digit_of c in
        if 214748364 <=? exp then (exp, skip isdigit s') else exp_minus_loop s' exp
      else (exp, s)
  | [] => (exp, s)
  end.

Fixpoint exp_plus_loop (maxExp : Z) (s : str) (exp : Z) : pres (Z * str) :=
  match s with
  | c :: s' =>
      if isdigit c then
        let exp := exp * 10 + digit_of c in
        if maxExp <? exp then PErr kParseErrorNumberTooBig else exp_plus_loop maxExp s' exp
      else POk (exp, s)
  | [] => POk (exp, s)
  end.

(** The significand read so far: the integer, and the double once
    [useDouble] is set. *)
Definition parse_frac (s : str) (i sig : Z) (d : option spec_float)
    : pres (option spec_float * Z * str) :=
  if decide (peek s = "."%char) then
    let s := tail s in
    if isdigit (peek s) then
      let '(d, expFrac, sig, s) :=
        match d with
        | Some d => (d, 0, sig, s)
        | None => let '(i64, expFrac, sig, s) := frac_loop s i 0 sig in (double_of i64, expFrac, sig, s)
        end in
      let '(d, expFrac, s) := frac_double_loop s d expFrac sig in
      POk (Some d, expFrac, s)
    else PErr kParseErrorNumberMissFraction
  else POk (d, 0, s).

Definition parse_exp (s : str) (i : Z) (d : option spec_float) (expFrac : Z)
    : pres (option spec_float * Z * str) :=
  if decide (peek s = "e"%char \/ peek s = "E"%char) then
    let d := default (double_of i) d in
    let s := tail s in
    let expMinus := bool_decide (peek s = "-"%char) in
    let s := if expMinus || bool_decide (peek s = "+"%char) then tail s else s in
    if isdigit (peek s) then
      let exp := digit_of (peek s) in
      if expMinus then
        let '(exp, s) := exp_minus_loop (tail s) exp in POk (Some d, - exp, s)
      else
        '(exp, s) ← exp_plus_loop (308 - expFrac) (tail s) exp; POk (Some d, exp, s)
    else PErr kParseErrorNumberMissExponent
  else POk (d, 0, s).

(** The integer part, in 32 bits and then in 64, from a digit on; the flag
    is [useDouble]. *)
Definition parse_int (minus : bool) (s : str) : Z * Z * bool * str :=
  let c := peek s in
  let '(i, sig, use64bit, s) :=
    if decide (c = "0"%char) then (0, 0, false, tail s)
    else if minus then int_loop 214748364 "8" (tail s) (digit_of c) 0
    else int_loop 429496729 "5" (tail s) (digit_of c) 0 in
  if use64bit then
    if minus then int_loop 922337203685477580 "8" s i sig
    else int_loop 1844674407370955161 "5" s i sig
  else (i, sig, false, s).

(** What follows the integer part, and the event. *)
Definition parse_rest (minus : bool) (i sig : Z) (useDouble : bool) (s : str) : pres (json * str) :=
  '(d, s) ← (if useDouble then '(d, s) ← big_loop s (double_of i); POk (Some d, s) else POk (None, s));
  '(d, expFrac, s) ← parse_frac s i sig d;
  '(d, exp, s) ← parse_exp s i d expFrac;
  match d with
  | Some d => POk (JDouble minus d (exp + expFrac), s)
  | None => POk (JNum (if minus then - i else i), s)
  end.

Definition ParseNumber (s : str) : pres (json * str) :=
  let minus := bool_decide (peek s = "-"%char) in
  let s := if minus then tail s else s in
  if isdigit (peek s) then
    let '(i, sig, useDouble, s) := parse_int minus s in
    parse_rest minus i sig useDouble s
  else PErr kParseErrorValueInvalid.

(** ** Values *)

(** [ParseNull], [ParseTrue], [ParseFalse]. *)
Definition ParseLiteral (word : str) (v : json) (s : str) : pres (json * str) :=
  if starts word s then POk (v, drop (length word) s) else PErr kParseErrorValueInvalid.

(** [ParseValue] with the loops of [ParseObject] and [ParseArray], which
    are entered after the opening bracket and white space. *)
Fixpoint ParseValue (fuel : nat) (s : str) : pres (json * str) :=
  match fuel with
  | O => POutOfFuel
  | S fuel' =>
      let c := peek s in
      if decide (c = "n"%char) then ParseLiteral "null" JNull s
      else if decide (c = "t"%char) then ParseLiteral "true" (JBool true) s
      else if decide (c = "f"%char) then ParseLiteral "false" (JBool false) s
      else if decide (c = QUOTE) then '(v, s) ← ParseString s; POk (JString v, s)
      else if decide (c = "{"%char) then
        let s := SkipWhitespace (tail s) in
        if decide (peek s = "}"%char) then POk (JObject [], tail s)
        else '(l, s) ← ParseObject_loop fuel' s; POk (JObject l, s)
      else if decide (c = "["%char) then
        let s := SkipWhitespace (tail s) in
        if decide (peek s = "]"%char) then POk (JArray [], tail s)
        else '(l, s) ← ParseArray_loop fuel' s; POk (JArray l, s)
      else ParseNumber s
  end
with ParseObject_loop (fuel : nat) (s : str) : pres (list (str * json) * str) :=
  match fuel with
  | O => POutOfFuel
  | S fuel' =>
      if decide (peek s = QUOTE) then
        '(name, s) ← ParseString s;
        let s := SkipWhitespace s in
        if decide (peek s = ":"%char) then
          '(v, s) ← ParseValue fuel' (SkipWhitespace (tail s));
          let s := SkipWhitespace s in
          if decide (peek s = ","%char) then
            '(l, s) ← ParseObject_loop fuel' (SkipWhitespace (tail s)); POk ((name, v) :: l, s)
          else if decide (peek s = "}"%char) then POk ([(name, v)], tail s)
          else PErr kParseErrorObjectMissCommaOrCurlyBracket
        else PErr kParseErrorObjectMissColon
      else PErr kParseErrorObjectMissName
  end
with ParseArray_loop (fuel : nat) (s : str) : pres (list json * str) :=
  match fuel with
  | O => POutOfFuel
  | S fuel' =>
      '(v, s) ← ParseValue fuel' s;
      let s := SkipWhitespace s in
      if decide (peek s = ","%char) then
        '(l, s) ← ParseArray_loop fuel' (SkipWhitespace (tail s)); POk (v :: l, s)
      else if decide (peek s = "]"%char) then POk ([v], tail s)
      else PErr kParseErrorArrayMissCommaOrSquareBracket
  end.

(** [GenericReader::Parse] on a [const Ch*] (kParseDefaultFlags). *)
Definition Parse (text : str) : pres json :=
  let s := SkipWhitespace (c_str text) in
  if decide (peek s = NUL) then PErr kParseErrorDocumentEmpty
  else
    '(v, s) ← ParseValue (2 * length s + 2) s;
    if decide (peek (SkipWhitespace s) = NUL) then POk v
    else PErr kParseErrorDocumentRootNotSingular.

(** [document.Parse(text)]: the value, or [HasParseError()]. *)
Definition parse_document (text : str) : option json :=
  match Parse text with POk v => Some v | _ => None end.

(** ** Induction on values *)

Section json_ind.
Context (P : json -> Prop).
Context (HNull : P JNull) (HBool : forall b, P (JBool b)) (HNum : forall z, P (JNum z)).
Context (HDouble : forall m d p, P (JDouble m d p)) (HString : forall s, P (JString s)).
Context (HArray : forall l, Forall P l -> P (JArray l)).
Context (HObject : forall l, Forall (fun kv => P kv.2) l -> P (JObject l)).

Fixpoint json_nested_ind (v : json) : P v :=
  match v with
  | JNull => HNull
  | JBool b => HBool b
  | JNum z => HNum z
  | JDouble m d p => HDouble m d p
  | JString s => HString s
  | JArray l =>
      HArray l ((fix go l : Forall P l :=
        match l with
        | [] => Forall_nil_2 _
        | v :: l' => Forall_cons_2 _ v l' (json_nested_ind v) (go l')
        end) l)
  | JObject l =>
      HObject l ((fix go l : Forall (fun kv => P kv.2) l :=
        match l with
        | [] => Forall_nil_2 _
        | kv :: l' => Forall_cons_2 _ kv l' (json_nested_ind kv.2) (go l')
        end) l)
  end.
End json_ind.

(** ** The text of a value, and the calls that write it *)

(** A value whose numbers are integers of 64 bits. *)
Fixpoint printable (v : json) : Prop :=
  match v with
  | JNum z => - 2 ^ 63 <= z < 2 ^ 64
  | JDouble _ _ _ => False
  | JArray l => (fix go l := match l with [] => True | v :: l' => printable v /\ go l' end) l
  | JObject l => (fix go l := match l with [] => True | (k, v) :: l' => printable v /\ go l' end) l
  | _ => True
  end.

Lemma printable_array l : printable (JArray l) <-> Forall printable l.
Proof.
  induction l as [|v l IH]; [split; done || constructor|].
  rewrite Forall_cons, <- IH. done.
Qed.

Lemma printable_object l : printable (JObject l) <-> Forall (fun kv => printable kv.2) l.
Proof.
  induction l as [|[k v] l IH]; [split; done || constructor|].
  rewrite Forall_cons, <- IH. done.
Qed.

Section print_list.
Context {A : Type} (item : A -> str).
(** Items with commas between them; [first] is true before the first one. *)
Fixpoint commas (first : bool) (l : list A) : str :=
  match l with
  | [] => []
  | x :: l' => (if first then [] else ",") ++ item x ++ commas false l'
  end.
End print_list.

Fixpoint print (v : json) : str :=
  match v with
  | JNull => "null"
  | JBool b => if b then "true" else "false"
  | JNum z => to_string z
  | JDouble _ _ _ => []
  | JString s => WriteString s
  | JArray l => "[" ++ commas print true l ++ "]"
  | JObject l => "{" ++ commas (fun '(k, v) => WriteString k ++ ":" ++ print v) true l ++ "}"
  end.
Definition print_member : str * json -> str := fun '(k, v) => WriteString k ++ ":" ++ print v.

Fixpoint dom_calls (v : json) : list call :=
  match v with
  | JNull => [Null]
  | JBool b => [Bool b]
  | JNum z => [if z <? 0 then Int64 z else Uint64 z]
  | JDouble _ _ _ => []
  | JString s => [String s]
  | JArray l => StartArray :: flat_map dom_calls l ++ [EndArray]
  | JObject l => StartObject :: flat_map (fun '(k, v) => Key k :: dom_calls v) l ++ [EndObject]
  end.

Lemma writer_calls_app cs1 cs2 w :
  writer_calls (cs1 ++ cs2) w = (w ← writer_calls cs1 w; writer_calls cs2 w).
Proof.
  revert w. induction cs1 as [|c cs1 IH]; intros w; simpl; [done|].
  destruct (writer_call c w); simpl; [apply IH|done|done].
Qed.

Definition is_string (v : json) : bool := match v with JString _ => true | _ => false end.

Definition separator (first : bool) (w : Writer) : str := if first then [] else ",".

(** Writing a value where one is expected appends its text. *)
Definition writes_value (v : json) : Prop := forall w w1,
  Prefix (is_string v) w = Ret w1 -> writer_calls (dom_calls v) w = Ret (Put (print v) w1).

Lemma Put_app s1 s2 w : Put s2 (Put s1 w) = Put (s1 ++ s2) w.
Proof. unfold Put. simpl. by rewrite app_assoc. Qed.

Lemma writes_elements l n os rest r :
  Forall writes_value l -> 0 <= n ->
  writer_calls (flat_map dom_calls l) (mkWriter os (mkLevel n true :: rest) r) =
    Ret (mkWriter (os ++ commas print (n =? 0) l) (mkLevel (n + Z.of_nat (length l)) true :: rest) r).
Proof.
  intros Hl. revert n os. induction Hl as [|v l Hv Hl IH]; intros n os Hn; simpl.
  - by rewrite app_nil_r, Z.add_0_r.
  - rewrite writer_calls_app.
    erewrite (Hv _ _); [|unfold Prefix; simpl; reflexivity].
    simpl. unfold Put. simpl. rewrite IH by lia. do 2 f_equal.
    + rewrite (proj2 (Z.eqb_neq (n + 1) 0)) by lia. rewrite <- !app_assoc. f_equal. f_equal.
      destruct (Z.ltb_spec 0 n), (Z.eqb_spec n 0); try lia; done.
    + f_equal. f_equal. lia.
Qed.

Lemma writes_members l n os rest r :
  Forall (fun kv => writes_value kv.2) l -> 0 <= n -> n mod 2 = 0 ->
  writer_calls (flat_map (fun '(k, v) => Key k :: dom_calls v) l) (mkWriter os (mkLevel n false :: rest) r) =
    Ret (mkWriter (os ++ commas print_member (n =? 0) l) (mkLevel (n + 2 * Z.of_nat (length l)) false :: rest) r).
Proof.
  intros Hl. revert n os. induction Hl as [|[k v] l Hv Hl IH]; intros n os Hn Hm; cbn [flat_map commas length].
  - simpl. by rewrite app_nil_r, Z.add_0_r.
  - cbn [app writer_calls writer_call]. unfold Prefix at 1. simpl level_stack_. simpl.
    rewrite Hm. simpl.
    rewrite writer_calls_app.
    assert ((n + 1) mod 2 = 1) as Hm1 by (rewrite Z.add_mod, Hm by lia; done).
    erewrite (Hv _ _); [|unfold Prefix; simpl; rewrite Hm1; simpl; reflexivity].
    simpl. unfold Put. simpl.
    rewrite (proj2 (Z.ltb_lt 0 (n + 1))) by lia.
    rewrite IH by (try lia; rewrite Z.add_mod, Hm1 by lia; done). do 2 f_equal.
    + rewrite (proj2 (Z.eqb_neq (n + 1 + 1) 0)) by lia.
      change (print_member (k, v)) with (WriteString k ++ ":" ++ print v). rewrite <- !app_assoc. f_equal.
      destruct (Z.ltb_spec 0 n), (Z.eqb_spec n 0); try lia;
        unfold WriteString; simpl; by rewrite <- !app_assoc.
    + f_equal. f_equal. lia.
Qed.

Lemma writes_all v : printable v -> writes_value v.
Proof.
  induction v as [| | z | | | l IH | l IH] using json_nested_ind; intros Hp w w1 Hw; simpl in Hw.
  - simpl. by rewrite Hw.
  - simpl. by rewrite Hw.
  - cbn [dom_calls]. unfold print, to_string. destruct (Z.ltb_spec z 0); cbn [writer_calls writer_call];
      rewrite Hw; simpl; [|done].
    unfold to_string. by rewrite (proj2 (Z.ltb_lt z 0)) by done.
  - done.
  - simpl. by rewrite Hw.
  - apply printable_array in Hp. cbn [dom_calls writer_calls writer_call]. rewrite Hw. simpl.
    rewrite writer_calls_app. unfold push_level, Put. simpl. rewrite writes_elements; [|by decompose_Forall; eauto|done].
    simpl. f_equal. unfold Put. simpl. by rewrite <- !app_assoc.
  - apply printable_object in Hp. cbn [dom_calls writer_calls writer_call]. rewrite Hw. simpl.
    rewrite writer_calls_app. unfold push_level, Put. simpl. rewrite writes_members; [|by decompose_Forall; eauto|done..].
    simpl. f_equal. unfold Put. simpl. by rewrite <- !app_assoc.
Qed.

(** A value written call by call through the [Writer] comes out as its
    JSON text, and no assertion of the writer fails. *)
Theorem write_dom_calls v : printable v -> write (dom_calls v) = Ret (print v).
Proof.
  intros Hp. unfold write.
  rewrite (writes_all v Hp Writer_init (mkWriter [] [] true)) by done. done.
Qed.

(** ** Reading back strings *)

Lemma peek_app_ne s t : s <> [] -> peek (s ++ t) = peek s.
Proof. by destruct s. Qed.

(** The reader undoes the escape of every byte. *)
Definition escape_ok (c : ascii) : bool :=
  match write_char c with
  | [d] => bool_decide (d = c) && bool_decide (c <> BACKSLASH) && bool_decide (c <> QUOTE)
             && bool_decide (c <> NUL) && negb (byte_val c <? 32)
  | [b; e] => bool_decide (b = BACKSLASH) && bool_decide (read_escape e = Some c)
  | [b; e; x1; x2; x3; x4] =>
      bool_decide (b = BACKSLASH) && bool_decide (e = "u"%char) &&
      bool_decide (read_escape e = None) && isxdigit x1 && isxdigit x2 && isxdigit x3 && isxdigit x4 &&
      (let cp := digits_val 16 [x1; x2; x3; x4] in
       bool_decide (Encode cp = [c]) && (cp <? 55296))
  | _ => false
  end.

Lemma escape_ok_all c : escape_ok c = true.
Proof. apply byte_cases. vm_compute. reflexivity. Qed.

Lemma ParseHex4_digits x1 x2 x3 x4 t :
  isxdigit x1 = true -> isxdigit x2 = true -> isxdigit x3 = true -> isxdigit x4 = true ->
  ParseHex4 (x1 :: x2 :: x3 :: x4 :: t) = POk (digits_val 16 [x1; x2; x3; x4], t).
Proof.
  intros H1 H2 H3 H4. unfold ParseHex4. cbn [ParseHex4_loop peek tail]. rewrite H1, H2, H3, H4.
  unfold digits_val. cbn [foldl]. rewrite !Z.shiftl_mul_pow2 by lia. change (2 ^ 4) with 16.
  do 2 f_equal. lia.
Qed.

Lemma ParseString_loop_char fuel c t out :
  ParseString_loop (S fuel) (write_char c ++ t) out = ParseString_loop fuel t (out ++ [c]).
Proof.
  pose proof (escape_ok_all c) as H. unfold escape_ok in H.
  destruct (write_char c) as [|b [|e [|x1 [|x2 [|x3 [|x4 [|]]]]]]] eqn:E; try done.
  - rewrite !andb_true_iff, !bool_decide_eq_true, negb_true_iff in H. destruct H as [[[[-> H1] H2] H3] H4].
    cbn [app ParseString_loop peek tail].
    by rewrite !decide_False, H4 by done.
  - rewrite andb_true_iff, !bool_decide_eq_true in H. destruct H as [-> H].
    cbn [app ParseString_loop peek tail]. rewrite decide_True, H by done. done.
  - rewrite !andb_true_iff, !bool_decide_eq_true in H.
    destruct H as [[[[[[[-> ->] H] H1] H2] H3] H4] [Hc Hlt]].
    cbn [app ParseString_loop peek tail]. rewrite decide_True, H, decide_True by done.
    unfold ParseUnicode. rewrite ParseHex4_digits by done. cbn [mbind pres_bind].
    apply Z.ltb_lt in Hlt. rewrite (proj2 (Z.leb_gt 55296 _)) by done. cbn [andb mbind pres_bind].
    by rewrite Hc.
Qed.

Lemma write_char_length c : (1 <= length (write_char c))%nat.
Proof. unfold write_char. destruct (write_escape c); simpl; lia. Qed.

Lemma ParseString_loop_text fuel s t out :
  (length (flat_map write_char s) < fuel)%nat ->
  ParseString_loop fuel (flat_map write_char s ++ QUOTE :: t) out = POk (out ++ s, t).
Proof.
  revert fuel out. induction s as [|c s IH]; intros fuel out Hf; cbn [flat_map] in *.
  - destruct fuel as [|fuel]; [simpl in Hf; lia|]. cbn [app ParseString_loop peek tail].
    rewrite decide_False by done. by rewrite decide_True, app_nil_r.
  - rewrite length_app in Hf. pose proof (write_char_length c).
    destruct fuel as [|fuel]; [lia|]. rewrite <- app_assoc, ParseString_loop_char, IH by lia.
    by rewrite <- app_assoc.
Qed.

Lemma ParseString_text s t : ParseString (WriteString s ++ t) = POk (s, t).
Proof.
  unfold ParseString, WriteString. cbn [app tail]. rewrite <- app_assoc. cbn [app].
  apply ParseString_loop_text. simpl. rewrite !length_app. simpl. lia.
Qed.

(** ** Reading back integers *)

Lemma digit_of_val c : isdigit c = true -> digit_of c = digit_val c /\ 0 <= digit_of c <= 9.
Proof.
  intros H. unfold digit_of, digit_val. rewrite H. split; [done|].
  unfold isdigit in H. apply andb_true_iff in H as [H1 H2]. zb. lia.
Qed.

Lemma digits_val_nonneg l : all_digits l -> 0 <= digits_val 10 l < 10 ^ Z.of_nat (length l).
Proof.
  induction l as [|c l IH] using rev_ind; intros H; [unfold digits_val; simpl; lia|].
  apply Forall_app in H as [Hl Hc]. apply Forall_singleton, digit_of_val in Hc as [Hv Hc].
  rewrite digits_val_snoc, length_app, Nat2Z.inj_add, Z.pow_add_r, <- Hv by lia.
  specialize (IH Hl). simpl length. change (10 ^ Z.of_nat 1) with 10. lia.
Qed.

(** An integer loop takes the digits while the limit allows, and all of
    them when the number is within the limit. *)
Lemma int_loop_digits lim last ds t i sig :
  all_digits ds -> isdigit (peek t) = false -> isdigit last = true -> 0 <= i -> 0 <= lim ->
  exists p q, ds = p ++ q /\
    int_loop lim last (ds ++ t) i sig =
      (i * 10 ^ Z.of_nat (length p) + digits_val 10 p, sig + Z.of_nat (length p),
       negb (bool_decide (q = [])), q ++ t) /\
    (i * 10 ^ Z.of_nat (length ds) + digits_val 10 ds <= 10 * lim + digit_of last -> q = []).
Proof.
  intros Hds Ht Hlast Hi Hlim. revert i sig Hi. induction Hds as [|c ds Hc Hds IH]; intros i sig Hi.
  - exists [], []. split_and!; [done| |done]. simpl.
    replace (i * 10 ^ Z.of_nat 0 + digits_val 10 []) with i by (unfold digits_val; simpl; lia).
    rewrite Z.add_0_r. destruct t as [|d t]; [done|]. simpl in Ht |- *. by rewrite Ht.
  - cbn [app int_loop]. rewrite Hc. pose proof (digit_of_val c Hc) as [Hv Hcr].
    destruct ((lim <=? i) && (negb (i =? lim) || (byte_val last <? byte_val c))) eqn:E.
    + exists [], (c :: ds). split_and!; [done| |].
      * simpl. replace (i * 10 ^ Z.of_nat 0 + digits_val 10 []) with i by (unfold digits_val; simpl; lia).
        by rewrite Z.add_0_r.
      * intros Hle. exfalso. apply andb_true_iff in E as [E1 E2]. zb.
        pose proof (digits_val_nonneg ds Hds).
        assert (10 * lim + digit_of last < 10 * i + digit_of c).
        { apply orb_true_iff in E2 as [E2|E2]; zb; unfold digit_of in *; [|lia].
          pose proof (digit_of_val last Hlast) as [_ Hl]. unfold digit_of in Hl. lia. }
        rewrite digits_val_cons, <- Hv in Hle. simpl length in Hle.
        rewrite Nat2Z.inj_succ, Z.pow_succ_r in Hle by lia.
        assert (0 < 10 ^ Z.of_nat (length ds)) by (apply Z.pow_pos_nonneg; lia). nia.
    + destruct (IH (i * 10 + digit_of c) (sig + 1) ltac:(lia)) as (p & q & -> & -> & Hq).
      exists (c :: p), q. split_and!; [done| |].
      * rewrite digits_val_cons, <- Hv. simpl length. rewrite Nat2Z.inj_succ, Z.pow_succ_r by lia.
        do 3 f_equal; lia.
      * intros Hle. apply Hq. simpl length in Hle.
        rewrite digits_val_cons, <- Hv, Nat2Z.inj_succ, Z.pow_succ_r in Hle by lia. lia.
Qed.

(** The first digit of a positive number is not 0. *)
Lemma dec_go_head fuel n acc :
  0 < n < 2 ^ Z.of_nat fuel -> fuel <> 0%nat -> peek (dec_go fuel n acc) <> "0"%char.
Proof.
  revert n acc. induction fuel as [|f IH]; intros n acc Hn Hf; [done|]. cbn [dec_go].
  rewrite Nat2Z.inj_succ, Z.pow_succ_r in Hn by lia.
  destruct (Z.ltb_spec n 10).
  - rewrite Z.mod_small by lia. cbn [peek].
    assert (n = 1 \/ n = 2 \/ n = 3 \/ n = 4 \/ n = 5 \/ n = 6 \/ n = 7 \/ n = 8 \/ n = 9) as Hd by lia.
    destruct_or! Hd; subst n; done.
  - pose proof (Z.div_str_pos n 10 ltac:(lia)). pose proof (Z.div_lt_upper_bound n 10 (2 ^ Z.of_nat f) ltac:(lia) ltac:(lia)).
    apply IH; [lia|]. intros ->. change (2 ^ Z.of_nat 0) with 1 in Hn. lia.
Qed.

Lemma dec_head n : 0 < n -> peek (dec n) <> "0"%char.
Proof.
  intros H. apply dec_go_head; [|done]. rewrite Nat2Z.inj_succ, Z2Nat.id by apply Z.log2_nonneg.
  pose proof (Z.log2_spec n H). lia.
Qed.

(** What may follow a number: the rest of the text does not extend it. *)
Definition stops (t : str) : bool :=
  let c := peek t in
  negb (isdigit c) && bool_decide (c <> "."%char) && bool_decide (c <> "e"%char) && bool_decide (c <> "E"%char).

Lemma parse_rest_int (minus : bool) t n sig :
  stops t = true -> parse_rest minus n sig false t = POk (JNum (if minus then - n else n), t).
Proof.
  unfold stops. rewrite !andb_true_iff, !bool_decide_eq_true. intros [[[_ H1] H2] H3].
  unfold parse_rest, parse_frac. cbn [mbind pres_bind]. rewrite decide_False by done. cbn [mbind pres_bind].
  unfold parse_exp. rewrite decide_False by tauto. done.
Qed.

(** The two loops one after the other. *)
Lemma int_loops_digits lim1 lim2 last ds t i :
  all_digits ds -> isdigit (peek t) = false -> isdigit last = true -> 0 <= i -> 0 <= lim1 -> 0 <= lim2 ->
  i * 10 ^ Z.of_nat (length ds) + digits_val 10 ds <= 10 * lim2 + digit_of last ->
  exists sig,
    (let '(j, sig, use64bit, s) := int_loop lim1 last (ds ++ t) i 0 in
     if use64bit then int_loop lim2 last s j sig else (j, sig, false, s)) =
    (i * 10 ^ Z.of_nat (length ds) + digits_val 10 ds, sig, false, t).
Proof.
  intros Hds Ht Hlast Hi H1 H2 Hle.
  destruct (int_loop_digits lim1 last ds t i 0) as (p & q & -> & -> & _); try done.
  apply Forall_app in Hds as [Hp Hq]. pose proof (digits_val_nonneg p Hp) as Hpos.
  rewrite digits_val_app, length_app, Nat2Z.inj_add, Z.pow_add_r in Hle |- * by lia.
  set (j := i * 10 ^ Z.of_nat (length p) + digits_val 10 p) in *.
  assert (0 <= j) by (unfold j; nia).
  assert (i * (10 ^ Z.of_nat (length p) * 10 ^ Z.of_nat (length q)) +
    (10 ^ Z.of_nat (length q) * digits_val 10 p + digits_val 10 q) =
    j * 10 ^ Z.of_nat (length q) + digits_val 10 q) as Hj by (unfold j; lia).
  rewrite Hj in Hle |- *. case_bool_decide as Hq0; simpl negb; cbv iota.
  - subst q. exists (0 + Z.of_nat (length p)). do 3 f_equal. unfold digits_val. simpl. lia.
  - destruct (int_loop_digits lim2 last q t j (0 + Z.of_nat (length p))) as (p2 & q2 & E2 & -> & Hend); try done.
    rewrite (Hend Hle), app_nil_r in *. subst p2. eauto.
Qed.

Lemma parse_int_dec (minus : bool) n t :
  0 <= n <= (if minus then 2 ^ 63 else 2 ^ 64 - 1) -> isdigit (peek t) = false ->
  exists sig, parse_int minus (dec n ++ t) = (n, sig, false, t).
Proof.
  intros Hn Ht. pose proof (dec_digits n (proj1 Hn)) as Hd. pose proof (dec_val n (proj1 Hn)) as Hv.
  destruct (dec n) as [|c ds] eqn:E; [by destruct (dec_nonempty n)|].
  apply Forall_cons in Hd as [Hc Hds]. pose proof (digit_of_val c Hc) as [Hcv Hcr].
  rewrite digits_val_cons, <- Hcv in Hv. unfold parse_int. cbn [app peek tail].
  destruct (decide (c = "0"%char)) as [->|Hc0].
  - assert (n = 0) as ->.
    { destruct (decide (n = 0)) as [|Hne]; [done|]. destruct (dec_head n ltac:(lia)). by rewrite E. }
    assert (ds = []) as -> by (by injection E). by exists 0.
  - destruct minus.
    + destruct (int_loops_digits 214748364 922337203685477580 "8" ds t (digit_of c)) as [sig ->];
        [done..|lia|lia|lia|change (digit_of "8") with 8; lia|]. exists sig. by rewrite Hv.
    + destruct (int_loops_digits 429496729 1844674407370955161 "5" ds t (digit_of c)) as [sig ->];
        [done..|lia|lia|lia|change (digit_of "5") with 5; lia|]. exists sig. by rewrite Hv.
Qed.

Lemma ParseNumber_text (minus : bool) n t :
  0 <= n <= (if minus then 2 ^ 63 else 2 ^ 64 - 1) -> stops t = true ->
  ParseNumber ((if minus then "-" else []) ++ dec n ++ t) = POk (JNum (if minus then - n else n), t).
Proof.
  intros Hn Ht. pose proof (dec_digits n (proj1 Hn)) as Hd.
  assert (isdigit (peek (dec n ++ t)) = true /\ peek (dec n ++ t) <> "-"%char) as [Hp Hm].
  { pose proof (dec_nonempty n). destruct (dec n) as [|c ds]; [done|].
    apply Forall_cons in Hd as [Hc _]. destruct (isdigit_props c Hc) as (_ & _ & ? & _). done. }
  pose proof Ht as Hst. unfold stops in Hst. rewrite !andb_true_iff, negb_true_iff in Hst.
  destruct (parse_int_dec minus n t Hn) as [sig Hi]; [tauto|].
  unfold ParseNumber. set (s0 := (if minus then "-" else []) ++ dec n ++ t).
  assert (bool_decide (peek s0 = "-"%char) = minus) as ->.
  { unfold s0. destruct minus; [done|]. by apply bool_decide_eq_false_2. }
  assert ((if minus then tail s0 else s0) = dec n ++ t) as -> by by destruct minus.
  rewrite Hp, Hi. by apply parse_rest_int.
Qed.

(** ** Reading back values *)

(** The bytes a value starts with, and those the reader expects. *)
Definition opens (c : ascii) : bool := one_of "{[\q-ntf" c || isdigit c.
Definition punct (c : ascii) : bool := opens c || one_of "}],:" c.

Lemma punct_not_ws c : punct c = true -> is_ws c = false.
Proof. by_bytes (fun c => negb (punct c) || bool_decide (is_ws c = false)). Qed.

Lemma opens_not_ws c : opens c = true -> is_ws c = false /\ c <> "]"%char /\ c <> NUL.
Proof.
  by_bytes (fun c => negb (opens c) || bool_decide (is_ws c = false) && bool_decide (c <> "]"%char) && bool_decide (c <> NUL)).
Qed.

Lemma print_head v : printable v -> exists c s, print v = c :: s /\ opens c = true.
Proof.
  destruct v as [|[]|z| | | |]; intros Hp; simpl; try (eexists _, _; split; reflexivity); try done.
  unfold to_string. destruct (Z.ltb_spec z 0); [eexists _, _; split; reflexivity|].
  pose proof (dec_digits z H) as Hd. pose proof (dec_nonempty z).
  destruct (dec z) as [|c s]; [done|]. apply Forall_cons in Hd as [Hc _].
  eexists _, _. split; [done|]. unfold opens. by rewrite Hc, orb_true_r.
Qed.

Lemma skip_ws_value v t : printable v -> SkipWhitespace (print v ++ t) = print v ++ t.
Proof. intros (c & s & -> & Ho)%print_head. apply skip_stop. by apply opens_not_ws. Qed.

Lemma skip_ws_punct c t : punct c = true -> SkipWhitespace (c :: t) = c :: t.
Proof. intros H. by apply skip_stop, punct_not_ws. Qed.

Lemma skip_ws_string k t : SkipWhitespace (WriteString k ++ t) = WriteString k ++ t.
Proof. by apply (skip_ws_punct QUOTE). Qed.

Definition reads_value (v : json) : Prop := forall fuel t,
  (2 * length (print v) + 1 <= fuel)%nat -> stops t = true -> ParseValue fuel (print v ++ t) = POk (v, t).

Lemma print_length v : printable v -> (1 <= length (print v))%nat.
Proof. intros (c & s & -> & _)%print_head. simpl. lia. Qed.

Lemma ParseArray_loop_eq fuel s :
  ParseArray_loop (S fuel) s =
    ('(v, s) ← ParseValue fuel s;
     let s := SkipWhitespace s in
     if decide (peek s = ","%char) then
       '(l, s) ← ParseArray_loop fuel (SkipWhitespace (tail s)); POk (v :: l, s)
     else if decide (peek s = "]"%char) then POk ([v], tail s)
     else PErr kParseErrorArrayMissCommaOrSquareBracket).
Proof. done. Qed.

Lemma reads_elements l : forall fuel v t,
  Forall printable (v :: l) -> Forall reads_value (v :: l) ->
  (2 * length (commas print true (v :: l)) + 2 <= fuel)%nat ->
  ParseArray_loop fuel (commas print true (v :: l) ++ "]" ++ t) = POk (v :: l, t).
Proof.
  induction l as [|w l IH]; intros fuel v t Hp Hr Hf;
    apply Forall_cons in Hp as [Hpv Hp], Hr as [Hv Hr]; (destruct fuel as [|fuel]; [lia|]);
    rewrite ParseArray_loop_eq.
  - cbn [commas app] in *. rewrite app_nil_r in *.
    rewrite (Hv fuel) by (done || lia). cbn [mbind pres_bind].
    cbv zeta. cbn [app]. rewrite skip_ws_punct by done. done.
  - change (commas print true (v :: w :: l)) with (print v ++ "," ++ commas print true (w :: l)) in *.
    rewrite !length_app in Hf. simpl (length ",") in Hf. rewrite <- !app_assoc.
    rewrite (Hv fuel) by (done || lia). cbn [mbind pres_bind]. cbv zeta. cbn [app].
    rewrite skip_ws_punct by done. cbn [peek tail]. rewrite decide_True by done.
    change ("]"%char :: t) with ("]" ++ t).
    assert (SkipWhitespace (commas print true (w :: l) ++ "]" ++ t) = commas print true (w :: l) ++ "]" ++ t) as ->.
    { cbn [commas app]. rewrite <- app_assoc. apply skip_ws_value. by apply Forall_cons in Hp as [? _]. }
    rewrite IH by (done || lia). done.
Qed.

(** One member up to its value. *)
Lemma ParseObject_loop_member fuel k s :
  SkipWhitespace s = s ->
  ParseObject_loop (S fuel) (WriteString k ++ ":" ++ s) =
    ('(v, s) ← ParseValue fuel s;
     let s := SkipWhitespace s in
     if decide (peek s = ","%char) then
       '(l, s) ← ParseObject_loop fuel (SkipWhitespace (tail s)); POk ((k, v) :: l, s)
     else if decide (peek s = "}"%char) then POk ([(k, v)], tail s)
     else PErr kParseErrorObjectMissCommaOrCurlyBracket).
Proof.
  intros Hs. cbn [ParseObject_loop]. change (peek (WriteString k ++ ":" ++ s)) with QUOTE.
  rewrite decide_True by done. rewrite ParseString_text. cbn [mbind pres_bind]. cbv zeta. cbn [app].
  rewrite skip_ws_punct by done. cbn [peek tail]. rewrite decide_True by done. by rewrite Hs.
Qed.

Lemma reads_members l : forall fuel kv t,
  Forall (fun kv => printable kv.2) (kv :: l) -> Forall (fun kv => reads_value kv.2) (kv :: l) ->
  (2 * length (commas print_member true (kv :: l)) + 2 <= fuel)%nat ->
  ParseObject_loop fuel (commas print_member true (kv :: l) ++ "}" ++ t) = POk (kv :: l, t).
Proof.
  induction l as [|kw l IH]; intros fuel [k v] t Hp Hr Hf;
    apply Forall_cons in Hp as [Hpv Hp], Hr as [Hv Hr]; simpl in Hpv, Hv; (destruct fuel as [|fuel]; [lia|]).
  - change (commas print_member true [(k, v)]) with ((WriteString k ++ ":" ++ print v) ++ []) in *.
    rewrite app_nil_r, !length_app in *. simpl (length ":") in Hf. rewrite <- !app_assoc.
    rewrite ParseObject_loop_member by by apply skip_ws_value.
    rewrite (Hv fuel) by (done || lia). cbn [mbind pres_bind]. cbv zeta. cbn [app].
    rewrite skip_ws_punct by done. done.
  - change (commas print_member true ((k, v) :: kw :: l)) with
      ((WriteString k ++ ":" ++ print v) ++ "," ++ commas print_member true (kw :: l)) in *.
    rewrite !length_app in Hf. simpl (length ",") in Hf. simpl (length ":") in Hf. rewrite <- !app_assoc.
    rewrite ParseObject_loop_member by by apply skip_ws_value.
    rewrite (Hv fuel) by (done || lia). cbn [mbind pres_bind]. cbv zeta. cbn [app].
    rewrite skip_ws_punct by done. cbn [peek tail]. rewrite decide_True by done.
    change ("}"%char :: t) with ("}" ++ t).
    assert (SkipWhitespace (commas print_member true (kw :: l) ++ "}" ++ t) = commas print_member true (kw :: l) ++ "}" ++ t) as ->.
    { destruct kw as [k' v']. cbn [commas print_member app]. rewrite <- !app_assoc. apply skip_ws_string. }
    rewrite IH by (done || lia). done.
Qed.

Lemma ParseValue_number fuel c s :
  c = "-"%char \/ isdigit c = true -> ParseValue (S fuel) (c :: s) = ParseNumber (c :: s).
Proof.
  intros Hc. cbn [ParseValue peek]. cbv zeta. cbn [app].
  rewrite !decide_False; [done|..]; intros ->; by destruct Hc.
Qed.

Lemma reads_number z : printable (JNum z) -> reads_value (JNum z).
Proof.
  intros Hp fuel t Hf Ht. destruct fuel as [|fuel]; [lia|]. simpl in Hp. simpl print. unfold to_string in *.
  destruct (Z.ltb_spec z 0).
  - rewrite <- app_assoc. cbn [app]. rewrite ParseValue_number by by left.
    pose proof (ParseNumber_text true (- z) t ltac:(lia) Ht) as E. cbn [app] in E. rewrite E. do 3 f_equal. lia.
  - pose proof (ParseNumber_text false z t ltac:(lia) Ht) as E. cbn [app] in E. rewrite <- E.
    pose proof (dec_digits z ltac:(lia)) as Hd. pose proof (dec_nonempty z).
    destruct (dec z) as [|c ds]; [done|]. apply Forall_cons in Hd as [Hc _].
    apply ParseValue_number. by right.
Qed.

Lemma reads_array l : Forall printable l -> Forall reads_value l -> reads_value (JArray l).
Proof.
  intros Hp Hr fuel t Hf Ht. destruct fuel as [|fuel]; [lia|].
  cbn [print] in *. rewrite <- !app_assoc. rewrite !length_app in Hf. simpl (length "[") in Hf. simpl (length "]") in Hf.
  cbn [app ParseValue peek tail]. cbv zeta. rewrite !decide_False, decide_True by done.
  destruct l as [|v l]; [done|].
  assert (SkipWhitespace (commas print true (v :: l) ++ "]"%char :: t) = commas print true (v :: l) ++ "]" ++ t) as ->.
  { cbn [commas app]. rewrite <- app_assoc. apply skip_ws_value. by apply Forall_cons in Hp as [? _]. }
  rewrite decide_False.
  - by rewrite (reads_elements l fuel) by (done || lia).
  - apply Forall_cons in Hp as [(c & s & E & Ho)%print_head _]. cbn [commas app]. rewrite E. simpl.
    by apply opens_not_ws.
Qed.

Lemma reads_object l :
  Forall (fun kv => printable kv.2) l -> Forall (fun kv => reads_value kv.2) l -> reads_value (JObject l).
Proof.
  intros Hp Hr fuel t Hf Ht. destruct fuel as [|fuel]; [lia|].
  change (print (JObject l)) with ("{" ++ commas print_member true l ++ "}") in *.
  rewrite <- !app_assoc. rewrite !length_app in Hf. simpl (length "{") in Hf. simpl (length "}") in Hf.
  cbn [app ParseValue peek tail]. cbv zeta. rewrite !decide_False, decide_True by done.
  destruct l as [|[k v] l]; [done|].
  assert (SkipWhitespace (commas print_member true ((k, v) :: l) ++ "}"%char :: t) = commas print_member true ((k, v) :: l) ++ "}" ++ t) as ->.
  { cbn [commas print_member app]. rewrite <- !app_assoc. apply skip_ws_string. }
  rewrite decide_False by done.
  by rewrite (reads_members l fuel) by (done || lia).
Qed.

Lemma Forall_apply {A} (P Q : A -> Prop) l : Forall (fun x => P x -> Q x) l -> Forall P l -> Forall Q l.
Proof. induction 1; intros Hl; inversion Hl; constructor; auto. Qed.

Lemma reads_all v : printable v -> reads_value v.
Proof.
  induction v as [|[]| z | | s | l IH | l IH] using json_nested_ind; intros Hp;
    try (intros [|fuel] t Hf Ht; [lia|done]).
  - by apply reads_number.
  - intros [|fuel] t Hf Ht; [lia|]. change (print (JString s)) with (WriteString s).
    change (ParseValue (S fuel) (WriteString s ++ t)) with ('(v, s) ← ParseString (WriteString s ++ t); POk (JString v, s)).
    by rewrite ParseString_text.
  - apply printable_array in Hp. apply reads_array; [done|]. by eapply Forall_apply.
  - apply printable_object in Hp. apply reads_object; [done|].
    eapply Forall_apply; [|exact Hp]. exact IH.
Qed.


Definition char_clean (c : ascii) : bool := bool_decide (no_nul (write_char c)).

Lemma write_char_no_nul c : no_nul (write_char c).
Proof.
  apply (bool_decide_eq_true (no_nul (write_char c))). change (char_clean c = true).
  apply byte_cases. vm_compute. reflexivity.
Qed.

Lemma WriteString_no_nul s : no_nul (WriteString s).
Proof.
  unfold WriteString. apply no_nul_app. split; [by repeat constructor|].
  apply no_nul_app. split; [|by repeat constructor].
  induction s as [|c s IH]; [constructor|]. apply no_nul_app. split; [apply write_char_no_nul|done].
Qed.

Lemma commas_no_nul {A} (item : A -> str) first l :
  Forall (fun x => no_nul (item x)) l -> no_nul (commas item first l).
Proof.
  intros Hl. revert first. induction Hl; intros first; [constructor|]. cbn [commas].
  apply no_nul_app. split; [by destruct first; repeat constructor|]. by apply no_nul_app.
Qed.

Lemma print_no_nul v : printable v -> no_nul (print v).
Proof.
  induction v as [|[]| z | | s | l IH | l IH] using json_nested_ind; intros Hp;
    try by (repeat constructor).
  - simpl. unfold to_string. destruct (Z.ltb_spec z 0).
    + apply no_nul_app. split; [by repeat constructor|]. apply digits_no_nul, dec_digits. lia.
    + by apply digits_no_nul, dec_digits.
  - apply WriteString_no_nul.
  - apply printable_array in Hp. cbn [print].
    apply no_nul_app. split; [by repeat constructor|]. apply no_nul_app. split; [|by repeat constructor].
    apply commas_no_nul. by eapply Forall_apply.
  - apply printable_object in Hp. change (print (JObject l)) with ("{" ++ commas print_member true l ++ "}").
    apply no_nul_app. split; [by repeat constructor|]. apply no_nul_app. split; [|by repeat constructor].
    apply commas_no_nul. pose proof (Forall_apply _ _ _ IH Hp) as H.
    eapply Forall_impl; [exact H|]. intros [k v] Hv. unfold print_member.
    apply no_nul_app. split; [apply WriteString_no_nul|]. apply no_nul_app. by split; [repeat constructor|].
Qed.

(** ** The fuel of the reader is enough *)

(** A parsing function does not run out of fuel, and leaves less input
    than it got. *)
Definition consumes {A} (n : nat) (m : pres (A * str)) : Prop :=
  match m with POk (_, s) => (length s < n)%nat | PErr _ => True | POutOfFuel => False end.

Lemma consumes_bind {A B} (m : pres (A * str)) (f : A -> str -> pres (B * str)) n k :
  consumes n m -> (forall a s, (length s < n)%nat -> consumes k (f a s)) ->
  consumes k ('(a, s) ← m; f a s).
Proof. destruct m as [[a s]| |]; simpl; auto. Qed.

Lemma consumes_weaken {A} (m : pres (A * str)) n k : consumes n m -> (n <= k)%nat -> consumes k m.
Proof. destruct m as [[a s]| |]; simpl; auto. lia. Qed.

Lemma tail_length (s : str) : length (tail s) = (length s - 1)%nat.
Proof. destruct s; simpl; lia. Qed.

Lemma skip_ws_length s : (length (SkipWhitespace s) <= length s)%nat.
Proof. apply skip_length. Qed.

(** A position whose byte is no terminator is inside the input. *)
Lemma peek_length (s : str) c : peek s = c -> c <> NUL -> (1 <= length s)%nat.
Proof. destruct s; simpl; [by intros ->|lia]. Qed.

Lemma ParseHex4_consumes s : consumes (S (length s)) (ParseHex4 s).
Proof.
  unfold ParseHex4. generalize 0. generalize 4%nat. intros n. revert s.
  induction n as [|n IH]; intros s z; simpl; [lia|].
  destruct (isxdigit (peek s)); [|done]. eapply consumes_weaken; [apply IH|]. rewrite tail_length. lia.
Qed.

Lemma ParseUnicode_consumes s : consumes (S (length s)) (ParseUnicode s).
Proof.
  unfold ParseUnicode. eapply consumes_bind; [apply ParseHex4_consumes|]. intros cp s1 H1. cbv beta.
  destruct ((55296 <=? cp) && (cp <=? 56319)); [|simpl; lia].
  case_decide; [|done].
  eapply consumes_bind; [apply ParseHex4_consumes|]. intros cp2 s2 H2. rewrite !tail_length in H2. cbv beta.
  destruct ((cp2 <? 56320) || (57343 <? cp2)); simpl; [done|lia].
Qed.

Lemma ParseString_loop_consumes fuel s out :
  (length s < fuel)%nat -> consumes (S (length s)) (ParseString_loop fuel s out).
Proof.
  revert s out. induction fuel as [|fuel IH]; intros s out Hf; [lia|]. cbn [ParseString_loop]. cbv zeta.
  case_decide as Hc.
  - assert (1 <= length s)%nat by (by eapply peek_length).
    destruct (read_escape (peek (tail s))).
    + eapply consumes_weaken; [apply IH|]; rewrite !tail_length; lia.
    + case_decide; [|done].
      eapply consumes_bind; [apply ParseUnicode_consumes|]. intros cp s1 H1. rewrite !tail_length in H1.
      eapply consumes_weaken; [apply IH|]; lia.
  - case_decide as Hq; [simpl; rewrite tail_length; lia|].
    case_decide as Hn; [done|].
    assert (1 <= length s)%nat by (by eapply peek_length).
    destruct (byte_val (peek s) <? 32); [done|].
    eapply consumes_weaken; [apply IH|]; rewrite tail_length; lia.
Qed.

Lemma ParseString_consumes s : peek s = QUOTE -> consumes (length s) (ParseString s).
Proof.
  intros H. pose proof (peek_length _ _ H ltac:(done)). unfold ParseString.
  eapply consumes_weaken; [apply ParseString_loop_consumes|]; rewrite tail_length; lia.
Qed.

(** The loops of [ParseNumber] only skip input. *)
Lemma int_loop_length lim last s i sig : (length (int_loop lim last s i sig).2 <= length s)%nat.
Proof.
  revert i sig. induction s as [|c s IH]; intros i sig; simpl; [lia|].
  destruct (isdigit c); simpl; [|lia]. destruct (_ && _); simpl; [lia|]. etrans; [apply IH|lia].
Qed.

Lemma big_loop_consumes s d : consumes (S (length s)) (big_loop s d).
Proof.
  revert d. induction s as [|c s IH]; intros d; simpl; [lia|].
  destruct (isdigit c); simpl; [|lia]. destruct (SFleb _ _); [done|].
  eapply consumes_weaken; [apply IH|lia].
Qed.

Lemma frac_loop_length s i e g : (length (frac_loop s i e g).2 <= length s)%nat.
Proof.
  revert i e g. induction s as [|c s IH]; intros i e g; simpl; [lia|].
  destruct (_ && _); simpl; [|lia]. etrans; [apply IH|lia].
Qed.

Lemma frac_double_loop_length s d e g : (length (frac_double_loop s d e g).2 <= length s)%nat.
Proof.
  revert d e g. induction s as [|c s IH]; intros d e g; simpl; [lia|].
  destruct (isdigit c); simpl; [|lia]. destruct (g <? 17); (etrans; [apply IH|lia]).
Qed.

Lemma exp_minus_loop_length s e : (length (exp_minus_loop s e).2 <= length s)%nat.
Proof.
  revert e. induction s as [|c s IH]; intros e; simpl; [lia|].
  destruct (isdigit c); simpl; [|lia]. destruct (_ <=? _); simpl; [|etrans; [apply IH|lia]].
  pose proof (skip_length isdigit s). lia.
Qed.

Lemma exp_plus_loop_consumes m s e : consumes (S (length s)) (exp_plus_loop m s e).
Proof.
  revert e. induction s as [|c s IH]; intros e; simpl; [lia|].
  destruct (isdigit c); simpl; [|lia]. destruct (_ <? _); [done|].
  eapply consumes_weaken; [apply IH|lia].
Qed.

Lemma parse_frac_consumes s i sig d : consumes (S (length s)) (parse_frac s i sig d).
Proof.
  unfold parse_frac. case_decide; [|simpl; lia]. cbv zeta.
  destruct (isdigit (peek (tail s))); [|done].
  assert (forall d' e g s', (length s' <= length s)%nat ->
    consumes (S (length s)) (let '(d, expFrac, s) := frac_double_loop s' d' e g in POk (Some d, expFrac, s))) as Hd.
  { intros d' e g s' Hs. pose proof (frac_double_loop_length s' d' e g).
    destruct (frac_double_loop s' d' e g) as [[? ?] ?]; simpl in *. lia. }
  destruct d as [d|].
  - apply Hd. rewrite tail_length. lia.
  - pose proof (frac_loop_length (tail s) i 0 sig) as Hl. rewrite tail_length in Hl.
    destruct (frac_loop (tail s) i 0 sig) as [[[? ?] ?] ?]; simpl in *. apply Hd. lia.
Qed.

Lemma parse_exp_consumes s i d e : consumes (S (length s)) (parse_exp s i d e).
Proof.
  unfold parse_exp. case_decide; [|simpl; lia]. cbv zeta.
  set (s1 := if _ || _ then tail (tail s) else tail s).
  assert (length s1 <= length s)%nat by (unfold s1; destruct (_ || _); rewrite !tail_length; lia).
  destruct (isdigit (peek s1)); [|done].
  destruct (bool_decide _).
  - pose proof (exp_minus_loop_length (tail s1) (digit_of (peek s1))) as Hl. rewrite tail_length in Hl.
    destruct (exp_minus_loop _ _) as [? ?]; simpl in *. lia.
  - eapply consumes_bind; [apply exp_plus_loop_consumes|]. intros a s2 Hs2. rewrite tail_length in Hs2. simpl. lia.
Qed.

Lemma parse_int_length minus s : (1 <= length s)%nat -> (length (parse_int minus s).2 < length s)%nat.
Proof.
  intros Hs. unfold parse_int. cbv zeta.
  assert (length ((if decide (peek s = "0"%char) then (0, 0, false, tail s)
    else if minus then int_loop 214748364 "8" (tail s) (digit_of (peek s)) 0
    else int_loop 429496729 "5" (tail s) (digit_of (peek s)) 0)%Z).2 < length s)%nat as Hl.
  { case_decide; [simpl; rewrite tail_length; lia|].
    destruct minus; (eapply Nat.le_lt_trans; [apply int_loop_length|rewrite tail_length; lia]). }
  destruct (if decide _ then _ else _) as [[[i sig] b] s']. simpl in Hl.
  destruct b; [|done]. destruct minus; (eapply Nat.le_lt_trans; [apply int_loop_length|done]).
Qed.

Lemma parse_rest_consumes minus i sig ud s : consumes (S (length s)) (parse_rest minus i sig ud s).
Proof.
  unfold parse_rest. eapply (consumes_bind _ _ (S (length s))).
  - destruct ud; [|simpl; lia]. eapply consumes_bind; [apply big_loop_consumes|]. intros d s' H. exact H.
  - intros d s1 H1.
    pose proof (parse_frac_consumes s1 i sig d) as H2. destruct (parse_frac s1 i sig d) as [[[d2 e2] s2]| |]; try done.
    simpl in H2 |- *.
    pose proof (parse_exp_consumes s2 i d2 e2) as H3. destruct (parse_exp s2 i d2 e2) as [[[d3 e3] s3]| |]; try done.
    simpl in H3 |- *. destruct d3; simpl; lia.
Qed.

Lemma ParseNumber_consumes s : consumes (length s) (ParseNumber s).
Proof.
  unfold ParseNumber. cbv zeta. set (s1 := if _ : bool then tail s else s).
  assert (length s1 <= length s)%nat by (unfold s1; destruct (bool_decide _); rewrite ?tail_length; lia).
  destruct (isdigit (peek s1)) eqn:E; [|done].
  assert (1 <= length s1)%nat by (destruct s1; [done|simpl; lia]).
  pose proof (parse_int_length (bool_decide (peek s = "-"%char)) s1 ltac:(done)) as Hl.
  destruct (parse_int _ s1) as [[[i sig] ud] s2]. simpl in Hl.
  eapply consumes_weaken; [apply parse_rest_consumes|lia].
Qed.

Lemma ParseLiteral_consumes c w v s : consumes (length s) (ParseLiteral (c :: w) v s).
Proof.
  unfold ParseLiteral. destruct (starts (c :: w) s) eqn:E; [|done].
  apply starts_spec in E as [t ->]. rewrite drop_app_length. simpl. rewrite length_app. lia.
Qed.

Lemma Parse_consumes fuel :
  (forall s, (2 * length s + 1 <= fuel)%nat -> consumes (length s) (ParseValue fuel s)) /\
  (forall s, (2 * length s + 2 <= fuel)%nat -> consumes (length s) (ParseObject_loop fuel s)) /\
  (forall s, (2 * length s + 2 <= fuel)%nat -> consumes (length s) (ParseArray_loop fuel s)).
Proof.
  induction fuel as [|fuel (IHv & IHo & IHa)]; [split_and!; intros; lia|].
  assert (forall s, (length (SkipWhitespace (tail s)) <= length s - 1)%nat) as Hst.
  { intros s. pose proof (skip_ws_length (tail s)). rewrite tail_length in *. lia. }
  split_and!; intros s Hf.
  - cbn [ParseValue]. cbv zeta. do 3 (case_decide; [apply ParseLiteral_consumes|]).
    case_decide as Hq; [eapply consumes_bind; [by apply ParseString_consumes|done]|].
    case_decide as Ho; [|case_decide as Ha; [|apply ParseNumber_consumes]].
    + pose proof (peek_length _ _ Ho ltac:(done)). specialize (Hst s).
      case_decide; [simpl; rewrite tail_length; lia|].
      eapply consumes_bind; [apply IHo; lia|]. intros l s' Hs'. simpl. lia.
    + pose proof (peek_length _ _ Ha ltac:(done)). specialize (Hst s).
      case_decide; [simpl; rewrite tail_length; lia|].
      eapply consumes_bind; [apply IHa; lia|]. intros l s' Hs'. simpl. lia.
  - cbn [ParseObject_loop]. case_decide as Hq; [|done].
    eapply consumes_bind; [by apply ParseString_consumes|]. intros name s1 Hs1. cbv beta zeta.
    pose proof (skip_ws_length s1). case_decide as Hc; [|done].
    pose proof (Hst (SkipWhitespace s1)).
    eapply consumes_bind; [apply IHv; lia|]. intros v s2 Hs2. cbv beta zeta.
    pose proof (skip_ws_length s2). pose proof (Hst (SkipWhitespace s2)).
    case_decide; [eapply consumes_bind; [apply IHo; lia|]; intros l s3 Hs3; simpl; lia|].
    case_decide; [simpl; rewrite tail_length; lia|done].
  - cbn [ParseArray_loop].
    eapply consumes_bind; [apply IHv; lia|]. intros v s2 Hs2. cbv beta zeta.
    pose proof (skip_ws_length s2). pose proof (Hst (SkipWhitespace s2)).
    case_decide; [eapply consumes_bind; [apply IHa; lia|]; intros l s3 Hs3; simpl; lia|].
    case_decide; [simpl; rewrite tail_length; lia|done].
Qed.

(** C40: the reader returns a value or an error for every text: the loops
    and the recursion of the parser end, because each step consumes input. *)
Theorem Parse_total text : Parse text <> POutOfFuel.
Proof.
  unfold Parse. cbv zeta. set (s := SkipWhitespace (c_str text)). case_decide; [done|].
  destruct (Parse_consumes (2 * length s + 2)) as (Hv & _ & _).
  specialize (Hv s ltac:(lia)). destruct (ParseValue _ s) as [[v s']| |]; simpl in *; [|done..].
  by case_decide.
Qed.

Lemma parse_printed v : printable v -> parse_document (print v) = Some v.
Proof.
  intros Hp. unfold parse_document, Parse. rewrite c_str_id by by apply print_no_nul.
  pose proof (skip_ws_value v [] Hp) as Hs. rewrite app_nil_r in Hs.
  pose proof (reads_all v Hp (2 * length (print v) + 2)%nat [] ltac:(lia) eq_refl) as Hr. rewrite app_nil_r in Hr.
  cbv zeta. rewrite Hs. rewrite decide_False.
  - by rewrite Hr.
  - destruct (print_head v Hp) as (c & s & -> & Ho). by apply opens_not_ws.
Qed.

(** C33: a value the program writes is read back unchanged: strings of any
    bytes, with the escapes of quotes, backslashes and control characters,
    integers of 64 bits, nested arrays and objects. *)
Theorem parse_print v : printable v -> parse_document (print v) = Some v.
Proof. apply parse_printed. Qed.

Definition sample_json : json :=
  JObject [("name", JString "a \q quoted\\ \r\n text \0"); ("ids", JArray [JNum 18446744073709551615; JNum (-20)]);
           ("nested", JObject [("ok", JBool true); ("none", JNull); ("empty", JArray [])])].

Lemma write_dom_calls_witness :
  write (dom_calls sample_json) =
    Ret "{\qname\q:\qa \\\q quoted\\\\ \\r\\n text \\u0000\q,\qids\q:[18446744073709551615,-20],\qnested\q:{\qok\q:true,\qnone\q:null,\qempty\q:[]}}".
Proof. rewrite (write_dom_calls sample_json); [vm_compute; reflexivity|simpl; lia]. Defined.

Lemma parse_print_witness : parse_document (print sample_json) = Some sample_json.
Proof. apply (parse_print sample_json). simpl. lia. Defined.

(** ** Members of an object that is written out *)

Lemma FindMember_nil name : FindMember (JObject []) name = Ret None.
Proof. done. Qed.

Lemma FindMember_hit name k v l :
  bool_decide (c_str name = k) = true -> FindMember (JObject ((k, v) :: l)) name = Ret (Some v).
Proof. intros H. unfold FindMember. cbn [List.find fst]. by rewrite H. Qed.

Lemma FindMember_skip name k v l :
  bool_decide (c_str name = k) = false -> FindMember (JObject ((k, v) :: l)) name = FindMember (JObject l) name.
Proof. intros H. unfold FindMember. cbn [List.find fst]. by rewrite H. Qed.

(** Looks up every literal name of the goal among the literal keys. *)
Ltac find_members :=
  repeat first
    [ rewrite FindMember_hit by (vm_compute; reflexivity)
    | rewrite FindMember_skip by (vm_compute; reflexivity)
    | rewrite FindMember_nil ];
  cbn [mbind cxx_bind mret cxx_ret].

Lemma GetUint64_num z : in_u 64 z -> GetUint64 (JNum z) = Ret z.
Proof. intros H. unfold GetUint64, IsUint64. by rewrite bool_decide_eq_true_2. Qed.

Lemma GetString_c_str s : GetString (JString (c_str s)) = Ret (c_str s).
Proof. unfold GetString. by rewrite c_str_idem. Qed.
