(* ===== verification/Database.v ===== *)
(** * server/src/database.hpp: the data of the server and the storage interface

    The rows of the database, the request parameters of
    server/src/request.hpp, and the interface [AbstractConnection] between
    the workers and a storage, as a type class.  A connection is a state
    [S] (what the storage holds), and a method is a state transformer:
    also the methods C++ declares [const], because the in-memory storage is
    a static object behind them and reading messages marks them as read. *)

From S2P Require Import Prelude Common.

(** ** Rows *)

Inductive flags_t := UNREAD | READ | ANSWERED.
Definition flags_code (f : flags_t) : Z := match f with UNREAD => 0 | READ => 1 | ANSWERED => 4 end.

Record Chat := mkChat { c_id : Z; c_name : str }.

Record User := mkUser {
  u_id : Z;
  u_self_chat_id : Z;
  u_name : str;
  u_password : str;
  u_stpath : str;
  u_ip : str;
  u_city : str;
  u_heartbit : Z }.

Record Chatuser := mkChatuser { cu_chatid : Z; cu_uid : Z }.

Record Message := mkMessage {
  m_flags : flags_t;
  m_user_from : Z;
  m_chat_to : Z;
  m_ts : Z;
  m_message : str }.

(** The default constructors [Chat()] and [User()], whose id 0 stands for
    "not found". *)
Definition Chat_empty : Chat := mkChat 0 [].
Definition User_empty : User := mkUser 0 0 [] [] [] [] [] 0.

(** [db::Message(user_from, chat_to, msg)]: unread, with time 0. *)
Definition Message_new (user_from chat_to : Z) (msg : str) : Message :=
  mkMessage UNREAD user_from chat_to 0 msg.
Definition set_m_ts (ts : Z) (m : Message) : Message :=
  mkMessage (m_flags m) (m_user_from m) (m_chat_to m) ts (m_message m).
Definition set_m_flags (f : flags_t) (m : Message) : Message :=
  mkMessage f (m_user_from m) (m_chat_to m) (m_ts m) (m_message m).
Definition set_heartbit (ts : Z) (u : User) : User :=
  mkUser (u_id u) (u_self_chat_id u) (u_name u) (u_password u) (u_stpath u) (u_ip u) (u_city u) ts.

(** [ts] is a [time_t], [max_count] a [uint32_t]; 0 means no limit. *)
Record get_msg_opt_t := mkOpt { o_ts : Z; o_max_count : Z }.
Definition get_msg_opt_default : get_msg_opt_t := mkOpt 0 3.

#[export] Instance flags_t_eq_dec : EqDecision flags_t.
Proof. solve_decision. Defined.
#[export] Instance Chat_eq_dec : EqDecision Chat.
Proof. solve_decision. Defined.
#[export] Instance User_eq_dec : EqDecision User.
Proof. solve_decision. Defined.
#[export] Instance Chatuser_eq_dec : EqDecision Chatuser.
Proof. solve_decision. Defined.
#[export] Instance Message_eq_dec : EqDecision Message.
Proof. solve_decision. Defined.

(** ** Requests (server/src/request.hpp) and tasks *)

Record chat_params := mkChatParams { chat_name : str; chat_adduser : str }.

Record Params := mkParams {
  p_uid : Z;
  p_ts : Z;
  p_count : Z;
  p_message : str;
  p_to_user : str;
  p_user : str;
  p_password : str;
  p_ip_address : str;
  p_city : str;
  p_chat : chat_params }.

Definition Params_default : Params := mkParams 0 0 0 [] [] [] [] [] [] (mkChatParams [] []).

Definition set_p_uid v p := mkParams v (p_ts p) (p_count p) (p_message p) (p_to_user p) (p_user p) (p_password p) (p_ip_address p) (p_city p) (p_chat p).
Definition set_p_ts v p := mkParams (p_uid p) v (p_count p) (p_message p) (p_to_user p) (p_user p) (p_password p) (p_ip_address p) (p_city p) (p_chat p).
Definition set_p_count v p := mkParams (p_uid p) (p_ts p) v (p_message p) (p_to_user p) (p_user p) (p_password p) (p_ip_address p) (p_city p) (p_chat p).
Definition set_p_message v p := mkParams (p_uid p) (p_ts p) (p_count p) v (p_to_user p) (p_user p) (p_password p) (p_ip_address p) (p_city p) (p_chat p).
Definition set_p_to_user v p := mkParams (p_uid p) (p_ts p) (p_count p) (p_message p) v (p_user p) (p_password p) (p_ip_address p) (p_city p) (p_chat p).
Definition set_p_user v p := mkParams (p_uid p) (p_ts p) (p_count p) (p_message p) (p_to_user p) v (p_password p) (p_ip_address p) (p_city p) (p_chat p).
Definition set_p_password v p := mkParams (p_uid p) (p_ts p) (p_count p) (p_message p) (p_to_user p) (p_user p) v (p_ip_address p) (p_city p) (p_chat p).
Definition set_p_city v p := mkParams (p_uid p) (p_ts p) (p_count p) (p_message p) (p_to_user p) (p_user p) (p_password p) (p_ip_address p) v (p_chat p).
Definition set_p_chat_name v p := mkParams (p_uid p) (p_ts p) (p_count p) (p_message p) (p_to_user p) (p_user p) (p_password p) (p_ip_address p) (p_city p) (mkChatParams v (chat_adduser (p_chat p))).
Definition set_p_chat_adduser v p := mkParams (p_uid p) (p_ts p) (p_count p) (p_message p) (p_to_user p) (p_user p) (p_password p) (p_ip_address p) (p_city p) (mkChatParams (chat_name (p_chat p)) v).

(** [db::Task]: its client is the connection the task came from and is
    added where the tasks of several connections meet. *)
Record Task := mkTask {
  t_ping : bool;
  t_cmd : cmd_t;
  t_request : Params;
  t_storage : str }.

(** ** The storage interface *)

Class AbstractConnection (S : Type) := {
  updateUserHeartBit : User -> Z -> S -> S;
  createUser : forall (name pass stpath ip city : str), S -> User * S;
  createChat : forall (name : str) (uid : Z), S -> Chat * S;
  lookupUserByName : str -> S -> list User;
  lookupUserById : Z -> S -> User;
  lookupUserByCity : str -> S -> list User;
  lookupChatsForUserId : Z -> S -> list Chat;
  lookupChatByName : str -> S -> list Chat;
  lookupChatById : Z -> S -> Chat;
  lookupUsersForChatId : Z -> S -> list User;
  addUserToChat : Chat -> User -> S -> S;
  saveMessage : Message -> S -> S;
  getMessages : Z -> get_msg_opt_t -> S -> list Message * S;
  selectMessages : (Message -> bool) -> get_msg_opt_t -> S -> list Message;
  getAllDistinctLocations : S -> list str;
  getAllUsersFromLocation : str -> S -> list str
}.
