(* ===== verification/Store.v ===== *)
(** * What a storage promises: an abstract database and its laws

    [DB] is the database of the server as sets and maps: the users and the
    chats by id, the pairs (chat, user) of the group members, and the log of
    the messages, oldest first.  [ConnectionLaws] states what each method of
    [AbstractConnection] (server/src/database.hpp) does to it.  The theorems
    about the worker are proved from these laws; the file InMemory
    discharges them for the in-memory storage. *)

From S2P Require Import Prelude CxxString Common Database.

Record DB := mkDB {
  db_users : gmap Z User;
  db_chats : gmap Z Chat;
  db_members : gset (Z * Z);
  db_log : list Message }.

Definition DB_empty : DB := mkDB ∅ ∅ ∅ [].

(** ** Reading the log from the newest message on *)

(** At most [k] elements when there is a limit. *)
Definition take_opt {A} (k : option nat) (l : list A) : list A :=
  match k with Some n => take n l | None => l end.

(** The limit of the options; 0 is none. *)
Definition limit (opt : get_msg_opt_t) : option nat :=
  if decide (o_max_count opt = 0) then None else Some (Z.to_nat (o_max_count opt)).

(** The newest messages that satisfy [pred], newest first. *)
Definition newest (pred : Message -> bool) (k : option nat) (log : list Message) : list Message :=
  take_opt k (List.filter pred (rev log)).

(** Flags the messages [newest] returns as read; [l] is newest first. *)
Fixpoint mark_read (pred : Message -> bool) (k : option nat) (l : list Message) : list Message :=
  match k, l with
  | Some O, _ => l
  | _, [] => []
  | _, m :: l' =>
      if pred m then set_m_flags READ m :: mark_read pred (Nat.pred <$> k) l'
      else m :: mark_read pred k l'
  end.

Lemma take_opt_fmap {A B} (f : A -> B) k l : f <$> take_opt k l = take_opt k (f <$> l).
Proof. destruct k; [|done]. simpl. by rewrite fmap_take. Qed.

(** What [getMessages] looks for. *)
Definition wanted (chatid : Z) (ts : Z) (m : Message) : bool :=
  bool_decide (m_chat_to m = chatid) && (ts <? m_ts m).

(** ** Laws *)

Definition set_db_users v d := mkDB v (db_chats d) (db_members d) (db_log d).
Definition set_db_members v d := mkDB (db_users d) (db_chats d) v (db_log d).
Definition set_db_log v d := mkDB (db_users d) (db_chats d) (db_members d) v.

Definition user_named (name : str) (d : DB) : Prop :=
  map_Exists (fun _ u => u_name u = name) (db_users d).
Definition chat_named (name : str) (d : DB) : Prop :=
  map_Exists (fun _ c => c_name c = name) (db_chats d).

(** The database after a user with its own chat was added. *)
Definition add_user (u : User) (d : DB) : DB :=
  mkDB (<[u_id u := u]> (db_users d)) (<[u_self_chat_id u := mkChat (u_self_chat_id u) (u_name u)]> (db_chats d))
    ({[(u_self_chat_id u, u_id u)]} ∪ db_members d) (db_log d).

Definition add_chat (c : Chat) (uid : Z) (d : DB) : DB :=
  mkDB (db_users d) (<[c_id c := c]> (db_chats d))
    ((if 0 <? uid then {[(c_id c, uid)]} else ∅) ∪ db_members d) (db_log d).

(** Consistency of the database: ids are the keys and are not 0, a name
    belongs to one user, every user is a member of its own chat, and
    members are known chats and users. *)
Record consistent (d : DB) : Prop := {
  con_user_key : forall i u, db_users d !! i = Some u -> u_id u = i /\ 0 < i;
  con_chat_key : forall i c, db_chats d !! i = Some c -> c_id c = i /\ 0 < i;
  con_names : forall i j u v, db_users d !! i = Some u -> db_users d !! j = Some v ->
    u_name u = u_name v -> i = j;
  con_self : forall i u, db_users d !! i = Some u -> (u_self_chat_id u, i) ∈ db_members d;
  con_self_inj : forall i j u v, db_users d !! i = Some u -> db_users d !! j = Some v ->
    u_self_chat_id u = u_self_chat_id v -> i = j;
  con_members : forall c i, (c, i) ∈ db_members d -> is_Some (db_chats d !! c) /\ is_Some (db_users d !! i) }.

Class ConnectionLaws (S : Type) `{AbstractConnection S} := {
  view : S -> DB;
  (** the representation invariant of the storage *)
  valid : S -> Prop;
  (** the rows the storage has room for: the values fit their columns and
      there are ids left *)
  user_fits : forall (name pass stpath ip city : str), S -> Prop;
  chat_fits : str -> S -> Prop;
  text_fits : str -> Prop;
  (** the times it can store, and those it can compare with *)
  time_fits : Z -> Prop;
  since_fits : Z -> Prop;
  valid_consistent : forall s, valid s -> consistent (view s);

  law_updateUserHeartBit : forall u ts s, valid s -> time_fits ts ->
    valid (updateUserHeartBit u ts s) /\
    view (updateUserHeartBit u ts s) = set_db_users (alter (set_heartbit ts) (u_id u) (db_users (view s))) (view s);
  law_createUser_dup : forall name pass stpath ip city s, valid s ->
    user_named name (view s) -> createUser name pass stpath ip city s = (User_empty, s);
  (** the stored row may already have a heartbit *)
  law_createUser_new : forall name pass stpath ip city s, valid s -> user_fits name pass stpath ip city s ->
    ~ user_named name (view s) ->
    exists id chat h s', let u := mkUser id chat name pass stpath ip city 0 in
      createUser name pass stpath ip city s = (u, s') /\ valid s' /\
      0 < id /\ 0 < chat /\ db_users (view s) !! id = None /\ db_chats (view s) !! chat = None /\
      view s' = add_user (set_heartbit h u) (view s);
  law_createChat_dup : forall name uid s, valid s ->
    chat_named name (view s) -> createChat name uid s = (Chat_empty, s);
  law_createChat_new : forall name uid s, valid s -> chat_fits name s ->
    ~ chat_named name (view s) -> is_Some (db_users (view s) !! uid) ->
    exists chat s',
      createChat name uid s = (mkChat chat name, s') /\ valid s' /\
      0 < chat /\ db_chats (view s) !! chat = None /\ view s' = add_chat (mkChat chat name) uid (view s);
  law_lookupUserById : forall id s, valid s ->
    lookupUserById id s = default User_empty (db_users (view s) !! id);
  law_lookupUserByName : forall name s u, valid s ->
    u ∈ lookupUserByName name s <-> db_users (view s) !! u_id u = Some u /\ u_name u = name;
  law_lookupUserByName_nodup : forall name s, valid s -> NoDup (lookupUserByName name s);
  law_lookupChatById : forall id s, valid s ->
    lookupChatById id s = default Chat_empty (db_chats (view s) !! id);
  law_lookupChatByName : forall name s c, valid s ->
    c ∈ lookupChatByName name s <-> db_chats (view s) !! c_id c = Some c /\ c_name c = name;
  law_lookupChatByName_nodup : forall name s, valid s -> NoDup (lookupChatByName name s);
  law_lookupChatsForUserId : forall uid s c, valid s ->
    c ∈ lookupChatsForUserId uid s <-> (c_id c, uid) ∈ db_members (view s) /\ db_chats (view s) !! c_id c = Some c;
  law_lookupChatsForUserId_nodup : forall uid s, valid s -> NoDup (c_id <$> lookupChatsForUserId uid s);
  law_addUserToChat : forall c u s, valid s ->
    db_chats (view s) !! c_id c = Some c -> is_Some (db_users (view s) !! u_id u) ->
    valid (addUserToChat c u s) /\
    view (addUserToChat c u s) = set_db_members ({[(c_id c, u_id u)]} ∪ db_members (view s)) (view s);
  law_saveMessage : forall m s, valid s ->
    is_Some (db_users (view s) !! m_user_from m) -> is_Some (db_chats (view s) !! m_chat_to m) ->
    time_fits (m_ts m) -> text_fits (m_message m) ->
    valid (saveMessage m s) /\ view (saveMessage m s) = set_db_log (db_log (view s) ++ [m]) (view s);
  law_getMessages : forall chatid opt s, valid s -> since_fits (o_ts opt) -> 0 <= o_max_count opt ->
    let pred := wanted chatid (o_ts opt) in
    (getMessages chatid opt s).1 = newest pred (limit opt) (db_log (view s)) /\
    valid (getMessages chatid opt s).2 /\
    view (getMessages chatid opt s).2 =
      set_db_log (rev (mark_read pred (limit opt) (rev (db_log (view s))))) (view s);
  (** the oldest messages may be left out of account *)
  law_selectMessages : forall pred opt s, valid s -> 0 <= o_max_count opt ->
    exists old, selectMessages pred opt s = newest pred (limit opt) (drop old (db_log (view s)));
  law_getAllDistinctLocations : forall s, valid s ->
    StronglySorted str_lt (getAllDistinctLocations s) /\
    forall c, c ∈ getAllDistinctLocations s <-> map_Exists (fun _ u => u_city u = c) (db_users (view s))
}.

(** The part of the log [selectMessages] looks through: the whole of it in
    memory, the latest messages up to the limit in MySQL. *)
Class Scan (S : Type) `{ConnectionLaws S} := {
  scan : get_msg_opt_t -> list Message -> list Message;
  scan_suffix : forall opt log, exists old, scan opt log = drop old log;
  scan_select : forall pred opt s, valid s -> 0 <= o_max_count opt ->
    selectMessages pred opt s = newest pred (limit opt) (scan opt (db_log (view s))) }.

Lemma scan_elem {S : Type} `{Scan S} opt log m : m ∈ scan opt log -> m ∈ log.
Proof.
  destruct (scan_suffix opt log) as [old ->]. intros Hm.
  rewrite <- (take_drop old log). apply elem_of_app. by right.
Qed.

(** ** Facts about the log *)

Lemma mark_read_length pred k l : length (mark_read pred k l) = length l.
Proof.
  revert k. induction l as [|m l IH]; intros [[|k]|]; simpl; try done;
    destruct (pred m); simpl; by rewrite IH.
Qed.

(** Marking changes flags only. *)
Lemma mark_read_same {A} (f : Message -> A) pred k l :
  (forall m, f (set_m_flags READ m) = f m) -> f <$> mark_read pred k l = f <$> l.
Proof.
  intros Hf. revert k. induction l as [|m l IH]; intros [[|k]|]; simpl; try done;
    destruct (pred m); simpl; by rewrite ?Hf, IH.
Qed.

Lemma newest_elem pred k log m : m ∈ newest pred k log -> pred m = true /\ m ∈ log.
Proof.
  unfold newest. intros H.
  assert (m ∈ List.filter pred (rev log)) as Hm.
  { destruct k as [k|]; simpl in H; [|done]. apply elem_of_take in H as (i & Hi & _). by eapply list_elem_of_lookup_2. }
  apply list_elem_of_In, filter_In in Hm as [Hm ?]. split; [done|].
  apply list_elem_of_In. by rewrite in_rev.
Qed.

Lemma newest_length pred n log : (length (newest pred (Some n) log) <= n)%nat.
Proof. unfold newest. simpl. rewrite length_take. lia. Qed.

(** Without a limit, every matching message is returned. *)
Lemma newest_all pred log m : m ∈ newest pred None log <-> pred m = true /\ m ∈ log.
Proof.
  unfold newest. simpl. rewrite !list_elem_of_In, filter_In, <- in_rev. tauto.
Qed.

(** ** The abstract database as a transition system *)

Inductive db_step (d : DB) : DB -> Prop :=
| ds_heartbit i ts :
    db_step d (set_db_users (alter (set_heartbit ts) i (db_users d)) d)
| ds_user u :
    ~ user_named (u_name u) d -> 0 < u_id u -> 0 < u_self_chat_id u ->
    db_users d !! u_id u = None -> db_chats d !! u_self_chat_id u = None ->
    db_step d (add_user u d)
| ds_chat c uid :
    ~ chat_named (c_name c) d -> 0 < c_id c -> db_chats d !! c_id c = None ->
    is_Some (db_users d !! uid) ->
    db_step d (add_chat c uid d)
| ds_member c uid :
    is_Some (db_chats d !! c) -> is_Some (db_users d !! uid) ->
    db_step d (set_db_members ({[(c, uid)]} ∪ db_members d) d)
| ds_save m : db_step d (set_db_log (db_log d ++ [m]) d)
| ds_read pred k : db_step d (set_db_log (rev (mark_read pred k (rev (db_log d)))) d).

(** ** The calls of a client of the interface

    The workers create a chat and add a member only for a user they looked
    up; reading needs no condition. *)

Section calls.
Context {S : Type} `{ConnectionLaws S}.

Inductive conn_call (s : S) : S -> Prop :=
| call_heartbit u ts : time_fits ts -> conn_call s (updateUserHeartBit u ts s)
| call_createUser name pass stpath ip city :
    user_fits name pass stpath ip city s -> conn_call s (createUser name pass stpath ip city s).2
| call_createChat name uid :
    chat_fits name s -> is_Some (db_users (view s) !! uid) -> conn_call s (createChat name uid s).2
| call_addUserToChat c u :
    db_chats (view s) !! c_id c = Some c -> is_Some (db_users (view s) !! u_id u) ->
    conn_call s (addUserToChat c u s)
| call_saveMessage m :
    is_Some (db_users (view s) !! m_user_from m) -> is_Some (db_chats (view s) !! m_chat_to m) ->
    time_fits (m_ts m) -> text_fits (m_message m) -> conn_call s (saveMessage m s)
| call_getMessages chatid opt : since_fits (o_ts opt) -> 0 <= o_max_count opt -> conn_call s (getMessages chatid opt s).2.

Lemma user_named_dec name d : Decision (user_named name d).
Proof. unfold user_named. apply _. Defined.

Lemma chat_named_dec name d : Decision (chat_named name d).
Proof. unfold chat_named. apply _. Defined.

(** Every call is at most one step of the abstract database. *)
Lemma conn_call_refines s s' :
  valid s -> conn_call s s' -> valid s' /\ (view s' = view s \/ db_step (view s) (view s')).
Proof.
  intros V [u ts Ht|name pass stpath ip city Hf|name uid Hf Hu|c u Hc Hu|m Hu Hc Ht Hf|chatid opt Ht Hm]; simpl.
  - destruct (law_updateUserHeartBit u ts s V Ht) as [? ->]. split; [done|]. right. constructor.
  - destruct (user_named_dec name (view s)) as [Hn|Hn].
    + rewrite law_createUser_dup by done. by split; [|left].
    + destruct (law_createUser_new name pass stpath ip city s V Hf Hn)
        as (id & chat & h & s2 & -> & ? & ? & ? & ? & ? & Hv).
      split; [done|]. simpl. rewrite Hv. right. by constructor.
  - destruct (chat_named_dec name (view s)) as [Hn|Hn].
    + rewrite law_createChat_dup by done. by split; [|left].
    + destruct (law_createChat_new name uid s V Hf Hn Hu) as (chat & s2 & -> & ? & ? & ? & Hv).
      split; [done|]. simpl. rewrite Hv. right. by constructor.
  - destruct (law_addUserToChat c u s V Hc Hu) as [? ->]. split; [done|]. right. by constructor.
  - destruct (law_saveMessage m s V Hu Hc Ht Hf) as [? ->]. split; [done|]. right. constructor.
  - destruct (law_getMessages chatid opt s V Ht Hm) as (_ & ? & ->). split; [done|]. right. constructor.
Qed.

Lemma conn_calls_refine s s' :
  valid s -> rtc conn_call s s' -> valid s' /\ rtc db_step (view s) (view s').
Proof.
  intros V Hr. induction Hr as [s|s1 s2 s3 Hc _ IH]; [by split|].
  destruct (conn_call_refines _ _ V Hc) as [V2 Hstep]. destruct (IH V2) as [V3 Hrest].
  split; [done|]. destruct Hstep as [<-|]; [done|by eapply rtc_l].
Qed.
End calls.

(** ** Every step keeps the database consistent *)

Lemma consistent_empty : consistent DB_empty.
Proof.
  split; simpl; intros *; rewrite ?lookup_empty; by try intros ?%elem_of_empty.
Qed.

Lemma consistent_add_user u d :
  consistent d -> ~ user_named (u_name u) d -> 0 < u_id u -> 0 < u_self_chat_id u ->
  db_users d !! u_id u = None -> db_chats d !! u_self_chat_id u = None ->
  consistent (add_user u d).
Proof.
  intros C Hn Hi Hc Hu Hch.
  assert (forall i v, db_users d !! i = Some v -> u_self_chat_id v <> u_self_chat_id u) as Hself.
  { intros i v Hv E. pose proof (con_self _ C _ _ Hv) as Hm.
    apply (con_members _ C) in Hm as [[c Hm] _]. congruence. }
  assert (forall i v, db_users d !! i = Some v -> u_name v <> u_name u) as Hname.
  { intros i v Hv E. apply Hn. by exists i, v. }
  split; simpl.
  - intros i v [[<- <-]|[_ Hv]]%lookup_insert_Some; [done|by apply C].
  - intros i v [[<- <-]|[_ Hv]]%lookup_insert_Some; [done|by apply C].
  - intros i j v w [[<- <-]|[_ Hv]]%lookup_insert_Some [[<- <-]|[_ Hw]]%lookup_insert_Some E; [done|..].
    + by destruct (Hname _ _ Hw).
    + by destruct (Hname _ _ Hv).
    + by eapply (con_names _ C).
  - intros i v [[<- <-]|[_ Hv]]%lookup_insert_Some; [set_solver|].
    pose proof (con_self _ C _ _ Hv). set_solver.
  - intros i j v w [[<- <-]|[_ Hv]]%lookup_insert_Some [[<- <-]|[_ Hw]]%lookup_insert_Some E; [done|..].
    + by destruct (Hself _ _ Hw).
    + by destruct (Hself _ _ Hv).
    + by eapply (con_self_inj _ C).
  - intros c i [[= -> ->]%elem_of_singleton|[H1 H2]%(con_members _ C)]%elem_of_union.
    + rewrite !lookup_insert_eq. eauto.
    + rewrite !lookup_insert_is_Some'. eauto.
Qed.

Lemma consistent_heartbit i ts d :
  consistent d -> consistent (set_db_users (alter (set_heartbit ts) i (db_users d)) d).
Proof.
  intros C.
  assert (forall j u, alter (set_heartbit ts) i (db_users d) !! j = Some u ->
    exists v, db_users d !! j = Some v /\ u_id v = u_id u /\ u_name v = u_name u /\ u_self_chat_id v = u_self_chat_id u)
    as Hal.
  { intros j u [(-> & v & Hv & ->)|[_ Hu]]%lookup_alter_Some; eauto. }
  split; simpl.
  - intros j u (v & Hv & <- & _)%Hal. by apply C.
  - apply C.
  - intros j k u v (u' & Hu & _ & <- & _)%Hal (v' & Hv & _ & <- & _)%Hal. by apply (con_names _ C).
  - intros j u (u' & Hu & _ & _ & <-)%Hal. by apply (con_self _ C).
  - intros j k u v (u' & Hu & _ & _ & <-)%Hal (v' & Hv & _ & _ & <-)%Hal. by apply (con_self_inj _ C).
  - intros c j [H1 H2]%(con_members _ C). by rewrite lookup_alter_is_Some.
Qed.

Lemma consistent_add_chat c uid d :
  consistent d -> 0 < c_id c -> is_Some (db_users d !! uid) -> consistent (add_chat c uid d).
Proof.
  intros C Hc Hu. split; simpl; try apply C.
  - intros i v [[<- <-]|[_ Hv]]%lookup_insert_Some; [done|by apply C].
  - intros i u Hi. pose proof (con_self _ C _ _ Hi). set_solver.
  - intros x i [H|[H1 H2]%(con_members _ C)]%elem_of_union.
    + destruct (0 <? uid); [|set_solver]. apply elem_of_singleton in H as [= -> ->].
      rewrite lookup_insert_eq. eauto.
    + rewrite lookup_insert_is_Some'. eauto.
Qed.

Lemma consistent_step d d' : consistent d -> db_step d d' -> consistent d'.
Proof.
  intros C [].
  - by apply consistent_heartbit.
  - by apply consistent_add_user.
  - by apply consistent_add_chat.
  - destruct C. split; simpl; try done; intros; set_solver.
  - by destruct C.
  - by destruct C.
Qed.

Lemma consistent_steps d d' : consistent d -> rtc db_step d d' -> consistent d'.
Proof. intros C Hr. induction Hr; [done|]. eauto using consistent_step. Qed.

(** ** The database only grows

    Rows of users and chats, members and messages stay; only the heartbit of
    a user and the flags of a message change. *)

Definition unflag (m : Message) : Message := set_m_flags UNREAD m.

Definition same_user (u v : User) : Prop := set_heartbit 0 u = set_heartbit 0 v.

(** [m] is in the log, whatever its flags. *)
Definition stored (m : Message) (d : DB) : Prop := unflag m ∈ unflag <$> db_log d.

Record grows (d d' : DB) : Prop := {
  grows_users : forall i u, db_users d !! i = Some u -> exists v, db_users d' !! i = Some v /\ same_user u v;
  grows_chats : forall i c, db_chats d !! i = Some c -> db_chats d' !! i = Some c;
  grows_members : db_members d ⊆ db_members d';
  grows_stored : forall m, stored m d -> stored m d' }.

#[export] Instance grows_preorder : PreOrder grows.
Proof.
  split.
  - intros d. split; try done. intros i u Hu. by exists u.
  - intros d1 d2 d3 H1 H2. split.
    + intros i u (v & Hv & E1)%(grows_users _ _ H1). apply (grows_users _ _ H2) in Hv as (w & Hw & E2).
      exists w. split; [done|]. by etrans.
    + intros i c Hc. by apply (grows_chats _ _ H2), (grows_chats _ _ H1).
    + etrans; [apply (grows_members _ _ H1)|apply (grows_members _ _ H2)].
    + intros m Hm. by apply (grows_stored _ _ H2), (grows_stored _ _ H1).
Qed.

Lemma db_step_grows d d' : db_step d d' -> grows d d'.
Proof.
  destruct 1 as [i ts|u Hn Hi Hc Hu Hch|c uid Hn Hc Hch Hu|c uid Hc Hu|m|pred k]; split; simpl; try done;
    try (intros j v Hv; by exists v).
  - intros j v Hv. destruct (decide (i = j)) as [->|Hij].
    + rewrite lookup_alter_eq, Hv. by eexists.
    + rewrite lookup_alter_ne by done. by exists v.
  - intros j v Hv. rewrite lookup_insert_ne by congruence. by exists v.
  - intros j v Hv. rewrite lookup_insert_ne by congruence. done.
  - set_solver.
  - intros j v Hv. rewrite lookup_insert_ne by congruence. done.
  - set_solver.
  - set_solver.
  - intros x Hx. unfold stored in *. simpl. rewrite fmap_app. apply elem_of_app. by left.
  - intros x Hx. unfold stored in *. simpl. by rewrite fmap_rev, mark_read_same, <- fmap_rev, rev_involutive.
Qed.

Lemma db_steps_grow d d' : rtc db_step d d' -> grows d d'.
Proof. induction 1; [done|]. etrans; [by apply db_step_grows|done]. Qed.

Lemma conn_calls_grow {S : Type} `{ConnectionLaws S} (s s' : S) : valid s -> rtc conn_call s s' -> grows (view s) (view s').
Proof. intros V Hr. by apply db_steps_grow, conn_calls_refine. Qed.
