(* ===== verification/ApiUtils.v ===== *)
(** * server/src/apiclient_utils.cpp: password policy and reply bodies

    The JSON bodies the server sends, as the calls on the writer the code
    makes; [now] is the result of [time(NULL)]; and the line of a request in
    the log. *)

From S2P Require Import Prelude CxxString Json Common Database.

(** [apiclient_utils::Message]. *)
Record ApiMessage := mkApiMessage { a_ts : Z; a_from : str; a_to : str; a_msg : str }.

#[export] Instance ApiMessage_eq_dec : EqDecision ApiMessage.
Proof. solve_decision. Defined.

(** The regular expression is matched in full: every byte is of the class. *)
Definition password_check (password : str) (min_len : Z) : bool :=
  if Z.of_nat (length password) <? min_len then false
  else forallb isword password.

Definition make_api_error (api_code : ApiStatusCode) (desc : str) : cxx str :=
  write
    [StartObject;
     Key "status"; Uint64 (status_code api_code);
     Key "error"; String (c_str desc);
     EndObject].

Definition ok_body_cmd (command : cmd_t) (now : Z) : cxx str :=
  write
    [StartObject;
     Key "cmd"; Uint64 (cmd_code command);
     Key "server_ts"; Uint64 (u64 now);
     EndObject].

Definition ok_body_user (user : User) (now : Z) : cxx str :=
  write
    [StartObject;
     Key "id"; Uint64 (u_id user);
     Key "chatid"; Uint64 (u_self_chat_id user);
     Key "heartbit"; Uint64 (u64 (u_heartbit user));
     Key "name"; String (c_str (u_name user));
     Key "server_ts"; Uint64 (u64 now);
     EndObject].

Definition ok_body_chat (chat : Chat) (now : Z) : cxx str :=
  write
    [StartObject;
     Key "chatid"; Uint64 (c_id chat);
     Key "name"; String (c_str (c_name chat));
     Key "server_ts"; Uint64 (u64 now);
     EndObject].

Definition msg_calls (msg : ApiMessage) : list call :=
  [StartObject;
   Key "from"; String (c_str (a_from msg));
   Key "to"; String (c_str (a_to msg));
   Key "message"; String (c_str (a_msg msg));
   Key "ts"; Uint64 (a_ts msg);
   EndObject].

Definition ok_body_msgs (msgs : list ApiMessage) (now : Z) : cxx str :=
  write
    ([StartObject;
      Key "server_ts"; Uint64 (u64 now);
      Key "msgs"; StartArray] ++
     flat_map msg_calls msgs ++
     [EndArray; EndObject]).

Definition item_calls (key item : str) : list call :=
  if (0 <? length item)%nat
  then [StartObject; Key (c_str key); String (c_str item); EndObject]
  else [].

Definition ok_body_items (key : str) (items : list str) (now : Z) : cxx str :=
  write
    ([StartObject;
      Key "server_ts"; Uint64 (u64 now);
      Key (c_str (key ++ "s")); StartArray] ++
     flat_map (item_calls key) items ++
     [EndArray; EndObject]).

(** ** The values the bodies denote *)

Definition error_json (api_code : ApiStatusCode) (desc : str) : json :=
  JObject [("status", JNum (status_code api_code)); ("error", JString (c_str desc))].

Definition cmd_json (command : cmd_t) (now : Z) : json :=
  JObject [("cmd", JNum (cmd_code command)); ("server_ts", JNum now)].

Definition user_json (user : User) (now : Z) : json :=
  JObject [("id", JNum (u_id user)); ("chatid", JNum (u_self_chat_id user));
           ("heartbit", JNum (u_heartbit user)); ("name", JString (c_str (u_name user)));
           ("server_ts", JNum now)].

Definition chat_json (chat : Chat) (now : Z) : json :=
  JObject [("chatid", JNum (c_id chat)); ("name", JString (c_str (c_name chat))); ("server_ts", JNum now)].

Definition msg_json (msg : ApiMessage) : json :=
  JObject [("from", JString (c_str (a_from msg))); ("to", JString (c_str (a_to msg)));
           ("message", JString (c_str (a_msg msg))); ("ts", JNum (a_ts msg))].

Definition msgs_json (msgs : list ApiMessage) (now : Z) : json :=
  JObject [("server_ts", JNum now); ("msgs", JArray (msg_json <$> msgs))].

Definition items_json (key : str) (items : list str) (now : Z) : json :=
  JObject [("server_ts", JNum now);
           (c_str (key ++ "s"), JArray ((fun item => JObject [(c_str key, JString (c_str item))]) <$>
                                          filter (fun item => item <> []) items))].

(** Unfolds [dom_calls] where every sign is known. *)
Lemma dom_calls_num z : 0 <= z -> dom_calls (JNum z) = [Uint64 z].
Proof. intros H. simpl. by rewrite (proj2 (Z.ltb_ge z 0)). Qed.

Lemma in_u64_nonneg z : in_u 64 z -> 0 <= z.
Proof. by intros []. Qed.
#[export] Hint Resolve in_u64_nonneg : geochat.

Lemma printable_num z : in_u 64 z -> printable (JNum z).
Proof. unfold in_u. simpl. lia. Qed.

Lemma flat_map_fmap {A B C} (f : A -> B) (g : B -> list C) l :
  flat_map g (f <$> l) = flat_map (fun x => g (f x)) l.
Proof. induction l as [|x l IH]; csimpl; [done|]. by rewrite IH. Qed.

Lemma flat_map_ext_Forall {A B} (P : A -> Prop) (f g : A -> list B) l :
  (forall x, P x -> f x = g x) -> Forall P l -> flat_map f l = flat_map g l.
Proof. intros H. induction 1; simpl; [done|]. by rewrite H, IHForall. Qed.

(** ** The bodies are the texts of those values *)

Lemma status_code_range c : in_u 64 (status_code c).
Proof. by destruct c. Qed.

Lemma cmd_code_range c : in_u 64 (cmd_code c).
Proof. by destruct c. Qed.

(** A body that makes the calls of a value is its text. *)
Lemma write_is cs v : printable v -> cs = dom_calls v -> write cs = Ret (print v).
Proof. intros Hp ->. by apply write_dom_calls. Qed.

(** An object whose members are strings and numbers in range. *)
Ltac printable_fields :=
  apply printable_object;
  repeat (apply Forall_cons_2; [first [exact I | apply printable_num; done]|]); apply Forall_nil_2.

Lemma make_api_error_ok api_code desc :
  make_api_error api_code desc = Ret (print (error_json api_code desc)).
Proof.
  apply write_is; [by destruct api_code|]. unfold error_json.
  cbn [dom_calls flat_map]. by destruct api_code.
Qed.

Lemma ok_body_cmd_ok command now : in_u 64 now -> ok_body_cmd command now = Ret (print (cmd_json command now)).
Proof.
  intros Hn. unfold ok_body_cmd. rewrite wrap_small by done. apply write_is.
  - pose proof (cmd_code_range command). printable_fields.
  - unfold cmd_json. cbn [dom_calls flat_map]. destruct Hn as [Hn _].
    rewrite (proj2 (Z.ltb_ge now 0)) by done. by destruct command.
Qed.

Definition user_in_range (u : User) : Prop :=
  in_u 64 (u_id u) /\ in_u 64 (u_self_chat_id u) /\ in_u 64 (u_heartbit u).

Lemma ok_body_user_ok u now :
  user_in_range u -> in_u 64 now -> ok_body_user u now = Ret (print (user_json u now)).
Proof.
  intros (H1 & H2 & H3) Hn. unfold ok_body_user. rewrite !wrap_small by done. apply write_is.
  - printable_fields.
  - unfold user_json. cbn [dom_calls flat_map].
    rewrite !(proj2 (Z.ltb_ge _ 0)) by auto with geochat. done.
Qed.

Lemma ok_body_chat_ok c now :
  in_u 64 (c_id c) -> in_u 64 now -> ok_body_chat c now = Ret (print (chat_json c now)).
Proof.
  intros H1 Hn. unfold ok_body_chat. rewrite !wrap_small by done. apply write_is.
  - printable_fields.
  - unfold chat_json. cbn [dom_calls flat_map].
    rewrite !(proj2 (Z.ltb_ge _ 0)) by auto with geochat. done.
Qed.

Lemma msg_calls_ok m : in_u 64 (a_ts m) -> msg_calls m = dom_calls (msg_json m).
Proof.
  intros H. unfold msg_json. cbn [dom_calls flat_map].
  by rewrite (proj2 (Z.ltb_ge _ 0)) by auto with geochat.
Qed.

Lemma msgs_json_printable msgs now :
  Forall (fun m => in_u 64 (a_ts m)) msgs -> in_u 64 now -> printable (msgs_json msgs now).
Proof.
  intros H Hn. apply printable_object. constructor; [by apply printable_num|].
  constructor; [|constructor]. apply printable_array, Forall_fmap. eapply Forall_impl; [exact H|].
  intros m Hm. printable_fields.
Qed.

Lemma ok_body_msgs_ok msgs now :
  Forall (fun m => in_u 64 (a_ts m)) msgs -> in_u 64 now ->
  ok_body_msgs msgs now = Ret (print (msgs_json msgs now)).
Proof.
  intros H Hn. unfold ok_body_msgs. rewrite wrap_small by done.
  apply write_is; [by apply msgs_json_printable|].
  change (dom_calls (msgs_json msgs now)) with
    (StartObject :: ((Key "server_ts" :: dom_calls (JNum now)) ++
       (Key "msgs" :: StartArray :: flat_map dom_calls (msg_json <$> msgs) ++ [EndArray]) ++ []) ++ [EndObject]).
  rewrite dom_calls_num, flat_map_fmap by auto with geochat.
  rewrite <- (flat_map_ext_Forall _ msg_calls (fun m => dom_calls (msg_json m)) msgs msg_calls_ok H).
  simpl. rewrite app_nil_r. by rewrite <- !app_assoc.
Qed.

Lemma item_calls_ok key items :
  flat_map (item_calls key) items =
  flat_map dom_calls ((fun item => JObject [(c_str key, JString (c_str item))]) <$> filter (fun item => item <> []) items).
Proof.
  induction items as [|x l IH]; [done|]. cbn [flat_map]. rewrite filter_cons. unfold item_calls at 1.
  destruct x as [|c x]; [rewrite decide_False by (by intros [])|rewrite decide_True by done].
  - exact IH.
  - csimpl. rewrite IH. done.
Qed.

Lemma items_json_printable key items now : in_u 64 now -> printable (items_json key items now).
Proof.
  intros Hn. apply printable_object. constructor; [by apply printable_num|].
  constructor; [|constructor]. apply printable_array, Forall_fmap, Forall_true. intros x. by split.
Qed.

Lemma ok_body_items_ok key items now :
  in_u 64 now -> ok_body_items key items now = Ret (print (items_json key items now)).
Proof.
  intros Hn. unfold ok_body_items. rewrite wrap_small by done.
  apply write_is; [by apply items_json_printable|].
  rewrite item_calls_ok.
  set (vs := (fun item => JObject [(c_str key, JString (c_str item))]) <$> filter (fun item => item <> []) items).
  change (dom_calls (items_json key items now)) with
    (StartObject :: ((Key "server_ts" :: dom_calls (JNum now)) ++
       (Key (c_str (key ++ "s")) :: StartArray :: flat_map dom_calls vs ++ [EndArray]) ++ []) ++ [EndObject]).
  rewrite dom_calls_num by auto with geochat. simpl. rewrite app_nil_r. by rewrite <- !app_assoc.
Qed.

(** ** A flat object is always written *)

Definition is_scalar (c : call) : Prop := match c with String _ | Uint64 _ => True | _ => False end.
Definition flat_object (fields : list (str * call)) : list call :=
  StartObject :: flat_map (fun f => [Key f.1; f.2]) fields ++ [EndObject].

Lemma write_fields fields n os r :
  Forall (fun f => is_scalar f.2) fields -> 0 <= n -> n mod 2 = 0 ->
  exists os' m, writer_calls (flat_map (fun f => [Key f.1; f.2]) fields) (mkWriter os [mkLevel n false] r) =
    Ret (mkWriter os' [mkLevel m false] r).
Proof.
  intros Hf. revert n os. induction Hf as [|[k c] fields Hc Hf IH]; intros n os Hn Hm; [by eexists _, _|].
  assert ((n + 1) mod 2 = 1) as Hm1 by (rewrite Z.add_mod, Hm by lia; done).
  assert ((n + 1 + 1) mod 2 = 0) as Hm2 by (rewrite Z.add_mod, Hm1 by lia; done).
  assert (exists os1, writer_calls [Key k; c] (mkWriter os [mkLevel n false] r) =
    Ret (mkWriter os1 [mkLevel (n + 1 + 1) false] r)) as [os1 H1].
  { cbn [writer_calls writer_call]. unfold Prefix at 1. cbn [level_stack_ valueCount inArray negb]. rewrite Hm.
    cbn [andb negb Z.eqb mbind cxx_bind mret cxx_ret]. unfold Put. cbn [os_ level_stack_ hasRoot_].
    destruct c; try done; cbn [writer_call]; unfold Prefix; cbn [level_stack_ valueCount inArray negb]; rewrite Hm1;
      cbn [andb negb Z.eqb mbind cxx_bind mret cxx_ret]; by eexists. }
  cbn [flat_map]. rewrite writer_calls_app. cbn [fst snd]. rewrite H1. cbn [mbind cxx_bind]. apply IH; [lia|done].
Qed.

Lemma write_flat_object fields :
  Forall (fun f => is_scalar f.2) fields -> exists body, write (flat_object fields) = Ret body.
Proof.
  intros Hf. unfold write, flat_object. cbn [writer_calls writer_call Prefix level_stack_ Writer_init hasRoot_ mbind cxx_bind mret cxx_ret].
  rewrite writer_calls_app.
  destruct (write_fields fields 0 "{" true Hf) as (os' & m & E); [lia|done|].
  change (Put "{" (push_level false (mkWriter (os_ Writer_init) [] true))) with (mkWriter "{" [mkLevel 0 false] true).
  rewrite E. by eexists.
Qed.

Lemma ok_body_user_total u now : exists body, ok_body_user u now = Ret body.
Proof.
  apply (write_flat_object
    [("id", Uint64 (u_id u)); ("chatid", Uint64 (u_self_chat_id u)); ("heartbit", Uint64 (u64 (u_heartbit u)));
     ("name", String (c_str (u_name u))); ("server_ts", Uint64 (u64 now))]).
  repeat constructor.
Qed.

Lemma ok_body_chat_total c now : exists body, ok_body_chat c now = Ret body.
Proof.
  apply (write_flat_object
    [("chatid", Uint64 (c_id c)); ("name", String (c_str (c_name c))); ("server_ts", Uint64 (u64 now))]).
  repeat constructor.
Qed.

(** Whether an assertion fails does not depend on the numbers written. *)
Definition same_kind (c c' : call) : Prop := match c, c' with Uint64 _, Uint64 _ => True | _, _ => c = c' end.
Definition same_place (w w' : Writer) : Prop := level_stack_ w = level_stack_ w' /\ hasRoot_ w = hasRoot_ w'.

Lemma writer_call_kind c c' w v w1 :
  same_kind c c' -> same_place w v -> writer_call c w = Ret w1 ->
  exists v1, writer_call c' v = Ret v1 /\ same_place w1 v1.
Proof.
  destruct w as [os stack r], v as [os2 stack2 r2]. intros Hk [E1 E2]. simpl in E1, E2. subst stack2 r2.
  destruct c, c'; try discriminate Hk; try injection Hk as <-; cbn [writer_call]; unfold Prefix, pop_level; cbn [level_stack_ hasRoot_];
    destruct stack as [|[n a] stack]; cbn [valueCount inArray];
    repeat (case_match; cbn [mbind cxx_bind]; try discriminate);
    intros [= <-]; eexists; by split.
Qed.

Lemma writer_calls_kind cs cs' w v w1 :
  Forall2 same_kind cs cs' -> same_place w v -> writer_calls cs w = Ret w1 -> exists v1, writer_calls cs' v = Ret v1.
Proof.
  intros Hcs. revert w v. induction Hcs as [|c c' cs cs' Hc _ IH]; intros w v Hw; [by eexists|]. cbn [writer_calls].
  destruct (writer_call c w) as [w2| |] eqn:E; try discriminate.
  destruct (writer_call_kind _ _ _ _ _ Hc Hw E) as (v2 & -> & Hv). by apply IH.
Qed.

Lemma ok_body_msgs_total msgs now : exists body, ok_body_msgs msgs now = Ret body.
Proof.
  set (zeroed := (fun m => mkApiMessage 0 (a_from m) (a_to m) (a_msg m)) <$> msgs).
  assert (exists body, ok_body_msgs zeroed now = Ret body) as [body Hz].
  { pose proof (wrap_range 64 now ltac:(lia)) as Hn. eexists. unfold ok_body_msgs.
    rewrite <- (wrap_small 64 (u64 now)) by done. apply ok_body_msgs_ok; [|done].
    by apply Forall_fmap, Forall_true. }
  unfold ok_body_msgs, write in *.
  destruct (writer_calls _ Writer_init) as [w| |] eqn:E in Hz; try discriminate.
  apply (writer_calls_kind _ ([StartObject; Key "server_ts"; Uint64 (u64 now); Key "msgs"; StartArray] ++
    flat_map msg_calls msgs ++ [EndArray; EndObject]) _ Writer_init) in E as [v ->]; [by eexists|..|done].
  apply Forall2_app; [by repeat constructor|]. apply Forall2_app; [|by repeat constructor].
  subst zeroed. clear. induction msgs as [|m msgs IH]; [constructor|].
  cbn [fmap list_fmap flat_map msg_calls app]. repeat (constructor; [done|]). exact IH.
Qed.

(** The body of a message list is written without failing an assertion
    of the writer, whatever bytes the names and texts hold, and is read back
    as the messages in order, each with its time, cut at a terminator only. *)
Theorem ok_body_msgs_roundtrip msgs now :
  Forall (fun m => in_u 64 (a_ts m)) msgs -> in_u 64 now ->
  exists body, ok_body_msgs msgs now = Ret body /\ parse_document body = Some (msgs_json msgs now).
Proof.
  intros H Hn. eexists. split; [by apply ok_body_msgs_ok|]. by apply parse_printed, msgs_json_printable.
Qed.

Lemma ok_body_msgs_roundtrip_witness :
  exists body, ok_body_msgs [mkApiMessage 5 "al\qice" "bob" "line\n"] 9 = Ret body /\
    parse_document body = Some (msgs_json [mkApiMessage 5 "al\qice" "bob" "line\n"] 9).
Proof. apply (ok_body_msgs_roundtrip [mkApiMessage 5 "al\qice" "bob" "line\n"] 9); [by repeat constructor|done]. Defined.

(** ** The line of a request in the log *)

Inductive log_line := loge (parts : list str) | logi (parts : list str).

(** [t] is the time of the line. *)
Definition log_task_done (t : Z) (error sessid remote_address method resource : str)
    (http_code total_req_processing_ms : Z) : log_line :=
  let ss := "[" ++ sessid ++ "] " ++ "[" ++ remote_address ++ "] [" ++ to_string t ++ "] [" ++
            method ++ "] " ++ resource ++ " [" ++ to_string http_code ++ "] [" ++ to_string total_req_processing_ms ++ "ms]" in
  if decide (error <> []) then loge [ss; " e: error write response to client - " ++ error]
  else logi [ss].
