(* ===== verification/Gzip.v ===== *)
(** * Compressed bodies: gzipInflate of net/client.cpp

    The function gives the whole body to zlib and calls [inflate] until it
    returns something else than [Z_OK]; before a call it makes room in its
    buffer when the output has reached the end of it.  zlib is a parameter,
    with what its manual says of [inflate] as the class [ZlibLaws]; the loop
    and the buffer are the code's.  The theorems say that the loop ends, that
    nothing is written outside the buffer, and what the function returns. *)

From S2P Require Import Prelude.

(** ** zlib *)

Definition Z_OK : Z := 0.
Definition Z_STREAM_END : Z := 1.
Definition Z_BUF_ERROR : Z := -5.

(** [inflateInit2] with the input, its status and the state zlib keeps
    behind [strm.state]; [inflate] with that state, the input not yet taken
    and the room for output: its status, how many bytes it took, what it
    wrote at [next_out], and the state then; the status of [inflateEnd]. *)
Class Zlib := {
  z_state : Type;
  inflateInit2 : str -> Z * z_state;
  inflate : z_state -> str -> nat -> Z * nat * str * z_state;
  inflateEnd : z_state -> Z }.

(** The fields of a [z_stream] that the code looks at, and the length of the
    input taken. *)
Record z_stream `{Zlib} := mkStream {
  next_in : str;
  total_in : nat;
  total_out : nat;
  strm_state : z_state
}.
#[global] Arguments mkStream {_} next_in total_in total_out strm_state.

Section calls.
Context `{Zlib}.

(** A call of [inflate] on a stream: the status, the bytes written, and the
    stream with its counters advanced. *)
Definition call_inflate (avail_out : nat) (strm : z_stream) : Z * str * z_stream :=
  let '(status, taken, data, st) := inflate (strm_state strm) (next_in strm) avail_out in
  (status, data,
   mkStream (drop taken (next_in strm)) (total_in strm + taken) (total_out strm + length data) st).

(** The streams that come from [inflateInit2] by calls of [inflate]. *)
Inductive inflating (input : str) : z_stream -> Prop :=
| inflating_init st :
    inflateInit2 input = (Z_OK, st) -> inflating input (mkStream input 0 0 st)
| inflating_call strm avail_out :
    inflating input strm -> inflating input (call_inflate avail_out strm).2.
End calls.

(** zlib.h on [inflate]: it takes from the input that is there and writes
    into the room that is there; [Z_OK] says that there was progress, "more
    input processed or more output produced", and [Z_BUF_ERROR] that there
    was none.  The deflate format gives at most 1032 bytes for each byte of
    input (zlib_tech, "maximum compression factor"). *)
Class ZlibLaws `{Zlib} : Prop := {
  inflate_takes st input avail_out status taken data st' :
    inflate st input avail_out = (status, taken, data, st') ->
    (taken <= length input)%nat /\ (length data <= avail_out)%nat;
  inflate_progress st input avail_out taken data st' :
    inflate st input avail_out = (Z_OK, taken, data, st') -> (0 < taken + length data)%nat;
  inflate_ratio input strm :
    inflating input strm -> (total_out strm <= 1032 * total_in strm)%nat }.

(** ** The function *)

Section gzip.
Context `{Zlib}.

(** Bytes written into a buffer from a place on. *)
Definition write_at (i : nat) (data buffer : str) : str :=
  take i buffer ++ data ++ drop (i + length data) buffer.

(** The [do] loop: the last status, the buffer and the stream; [None] stands
    for a loop that has run out of fuel.  [avail_out] is an [unsigned]. *)
Fixpoint inflate_loop (fuel : nat) (half_length : nat) (buffer : str) (strm : z_stream)
  : option (Z * str * z_stream) :=
  match fuel with
  | O => None
  | S fuel' =>
      let buffer :=
        if (length buffer <=? total_out strm)%nat then resize (length buffer + half_length) NUL buffer
        else buffer in
      let avail_out := Z.to_nat (u32 (Z.of_nat (length buffer) - Z.of_nat (total_out strm))) in
      let '(status, data, strm') := call_inflate avail_out strm in
      let buffer := write_at (total_out strm) data buffer in
      if decide (status = Z_OK) then inflate_loop fuel' half_length buffer strm'
      else Some (status, buffer, strm')
  end.

Definition inflate_fuel (input : str) : nat := S (1033 * length input).

(** [None]: the loop does not end; [Some None]: the function returns false.
    [avail_in] is an [unsigned]. *)
Definition gzipInflate (compressedBytes : str) : option (option str) :=
  if decide (compressedBytes = []) then Some (Some [])
  else
    let input := take (Z.to_nat (u32 (Z.of_nat (length compressedBytes)))) compressedBytes in
    match inflateInit2 input with
    | (init, st) =>
        if decide (init = Z_OK) then
          let half_length := (length compressedBytes / 2)%nat in
          match inflate_loop (inflate_fuel input) half_length (replicate (half_length * 3) NUL)
                  (mkStream input 0 0 st) with
          | None => None
          | Some (status, buffer, strm) =>
              if bool_decide (inflateEnd (strm_state strm) <> Z_OK) && bool_decide (status <> Z_STREAM_END)
              then Some None
              else Some (Some (take (total_out strm) buffer))
          end
        else Some None
    end.

(** ** The loop *)

Context `{!ZlibLaws}.

Lemma inflating_input input strm :
  inflating input strm -> (total_in strm + length (next_in strm) = length input)%nat.
Proof.
  induction 1 as [st Hi|strm avail_out _ IH]; [done|]. unfold call_inflate.
  destruct (inflate _ _ _) as [[[status taken] data] st] eqn:E. apply inflate_takes in E as [Ht _].
  cbn. rewrite length_drop. lia.
Qed.

(** What is left to do: input to take and output that can still come. *)
Definition inflate_measure (input : str) (strm : z_stream) : nat :=
  length (next_in strm) + (1032 * length input - total_out strm).

(** A call that returns [Z_OK] brings the stream closer to its end. *)
Lemma inflate_measure_ok input strm avail_out data strm' :
  inflating input strm -> call_inflate avail_out strm = (Z_OK, data, strm') ->
  (inflate_measure input strm' < inflate_measure input strm)%nat.
Proof.
  intros Hi E. assert (inflating input strm') as Hi' by by apply (inflating_call _ _ avail_out) in Hi; rewrite E in Hi.
  pose proof (inflate_ratio _ _ Hi') as Hr. pose proof (inflating_input _ _ Hi') as Hn'.
  unfold call_inflate in E. destruct (inflate _ _ _) as [[[status taken] d] st] eqn:F.
  injection E as -> -> <-. pose proof (inflate_takes _ _ _ _ _ _ _ F) as [Ht _].
  pose proof (inflate_progress _ _ _ _ _ _ F). unfold inflate_measure. cbn in *. rewrite length_drop in *. lia.
Qed.

(** What is in the buffer is in place: there is room for what was written. *)
Lemma write_at_spec i data buffer :
  (i + length data <= length buffer)%nat ->
  length (write_at i data buffer) = length buffer /\
  take (i + length data) (write_at i data buffer) = take i buffer ++ data.
Proof.
  intros Hi. unfold write_at. rewrite !length_app, length_take, length_drop. split; [lia|].
  rewrite app_assoc. apply take_app_length'. rewrite length_app, length_take. lia.
Qed.

Lemma take_resize i n (buffer : str) : (i <= length buffer)%nat -> (i <= n)%nat -> take i (resize n NUL buffer) = take i buffer.
Proof.
  intros Hi Hn. rewrite resize_spec, take_app_le by (rewrite length_take; lia). by rewrite take_take, Nat.min_l.
Qed.

(** [outputs strm strm' out]: the calls from [strm] to [strm'] wrote [out]. *)
Inductive outputs : z_stream -> z_stream -> str -> Prop :=
| outputs_nil strm : outputs strm strm []
| outputs_call strm avail_out status data strm1 strm2 out :
    call_inflate avail_out strm = (status, data, strm1) -> outputs strm1 strm2 out ->
    outputs strm strm2 (data ++ out).

(** The loop ends; all that [inflate] wrote went into the buffer, and is
    there at the end, piece after piece. *)
Lemma inflate_loop_ends input fuel half_length buffer strm :
  inflating input strm -> (total_out strm <= length buffer)%nat -> (inflate_measure input strm < fuel)%nat ->
  exists status buffer' strm' out,
    inflate_loop fuel half_length buffer strm = Some (status, buffer', strm') /\ status <> Z_OK /\
    inflating input strm' /\ outputs strm strm' out /\
    (total_out strm' <= length buffer')%nat /\
    take (total_out strm') buffer' = take (total_out strm) buffer ++ out.
Proof.
  revert buffer strm. induction fuel as [|fuel IH]; intros buffer strm Hi Hb Hf; [lia|]. cbn [inflate_loop].
  set (b := if (length buffer <=? total_out strm)%nat then _ else buffer).
  assert (total_out strm <= length b /\ take (total_out strm) b = take (total_out strm) buffer)%nat as [Hb' Et].
  { unfold b. destruct (Nat.leb_spec (length buffer) (total_out strm)); [|done].
    split; [rewrite length_resize; lia|apply take_resize; lia]. }
  clearbody b. cbv zeta. set (avail_out := Z.to_nat _).
  assert (avail_out <= length b - total_out strm)%nat as Ha.
  { unfold avail_out, wrap. pose proof (Z.mod_le (Z.of_nat (length b) - Z.of_nat (total_out strm)) (2 ^ 32)). lia. }
  clearbody avail_out. destruct (call_inflate avail_out strm) as [[status data] strm1] eqn:E.
  assert (inflating input strm1) as Hi1 by by apply (inflating_call _ _ avail_out) in Hi; rewrite E in Hi.
  assert (total_out strm1 = total_out strm + length data /\ length data <= avail_out)%nat as [Eo Hd].
  { unfold call_inflate in E. destruct (inflate _ _ _) as [[[s taken] d] st] eqn:F.
    apply inflate_takes in F as [_ F]. by injection E as <- <- <-. }
  destruct (write_at_spec (total_out strm) data b ltac:(lia)) as [Hl Hw]. rewrite <- Eo in Hw.
  case_decide as Hs.
  - subst status. pose proof (inflate_measure_ok _ _ _ _ _ Hi E).
    destruct (IH (write_at (total_out strm) data b) strm1 Hi1) as (s & b' & strm' & out & -> & ? & ? & ? & ? & Ht); [lia..|].
    exists s, b', strm', (data ++ out). split_and!; try done; [by econstructor|].
    by rewrite Ht, Hw, Et, <- app_assoc.
  - exists status, (write_at (total_out strm) data b), strm1, data. split_and!; try done; [|lia|by rewrite Hw, Et].
    rewrite <- (app_nil_r data) at 1. econstructor; [done|constructor].
Qed.

(** The function on a text that is not empty: the loop ends, and what it
    gives is all that [inflate] wrote, whatever its last status was, unless
    [inflateEnd] fails as well. *)
Lemma gzipInflate_spec c compressedBytes :
  let bytes := c :: compressedBytes in
  let input := take (Z.to_nat (u32 (Z.of_nat (length bytes)))) bytes in
  match inflateInit2 input with
  | (init, st) =>
      if decide (init = Z_OK) then
        exists strm out, outputs (mkStream input 0 0 st) strm out /\
          ((gzipInflate bytes = Some None /\ inflateEnd (strm_state strm) <> Z_OK) \/
           gzipInflate bytes = Some (Some out))
      else gzipInflate bytes = Some None
  end.
Proof.
  intros bytes input. unfold gzipInflate. rewrite decide_False by done. fold input.
  destruct (inflateInit2 input) as [init st] eqn:E. case_decide as Hi; [subst init|done].
  destruct (inflate_loop_ends input (inflate_fuel input) (length bytes / 2)
    (replicate (length bytes / 2 * 3) NUL) (mkStream input 0 0 st)) as
    (status & b & strm & out & -> & _ & _ & Ho & Hb & ->).
  - by constructor.
  - cbn. lia.
  - unfold inflate_measure, inflate_fuel. cbn [next_in total_out]. lia.
  - exists strm, out. split; [done|]. case_match eqn:F; [left|by right]. split; [done|].
    by apply andb_true_iff in F as [F%bool_decide_eq_true _].
Qed.

Lemma gzipInflate_ends compressedBytes : is_Some (gzipInflate compressedBytes).
Proof.
  destruct compressedBytes as [|c bytes]; [by eexists|].
  pose proof (gzipInflate_spec c bytes) as Hg. cbv zeta in Hg.
  destruct (inflateInit2 _) as [init st]. case_decide; [|by rewrite Hg].
  destruct Hg as (strm & out & _ & [[-> _]| ->]); by eexists.
Qed.

(** A body of one byte has a buffer without room: whatever zlib says of it,
    there is no output, and unless [inflateInit2] or [inflateEnd] fails the
    function returns true. *)
Lemma gzipInflate_one_byte c out : gzipInflate [c] = Some (Some out) -> out = [].
Proof.
  unfold gzipInflate. rewrite decide_False by done. change (length [c] / 2)%nat with 0%nat.
  change (Z.to_nat (u32 (Z.of_nat (length [c])))) with 1%nat. cbn [take Nat.mul replicate].
  destruct (inflateInit2 [c]) as [init st]. case_decide; [|done].
  enough (forall fuel strm, total_out strm = 0%nat ->
    match inflate_loop fuel 0 [] strm with Some (_, _, s) => total_out s = 0%nat | None => True end) as Hl.
  { specialize (Hl (inflate_fuel [c]) (mkStream [c] 0 0 st) eq_refl).
    destruct (inflate_loop _ _ _ _) as [[[status b] strm]|]; [|done]. rewrite Hl. case_match; [done|].
    by intros [= <-]. }
  intros fuel. induction fuel as [|fuel IH]; intros strm Ht; cbn [inflate_loop]; [done|].
  rewrite Ht. cbn [length Nat.leb Nat.add resize replicate]. change (Z.to_nat (u32 (Z.of_nat 0 - Z.of_nat 0))) with 0%nat.
  unfold call_inflate. destruct (inflate _ _ _) as [[[s taken] data] st'] eqn:E.
  apply inflate_takes in E as [_ E]. destruct data; [|cbn in E; lia]. cbn.
  case_decide; [apply IH|]; cbn; lia.
Qed.
End gzip.

(** ** A zlib

    It gives each byte of its input three times, an output larger than the
    first buffer, and shows that a library can have the laws. *)

Definition triple (c : ascii) : str := [c; c; c].

Definition inflate_tripled (pending input : str) (avail_out : nat) : Z * nat * str * str :=
  match pending, input with
  | [], [] => (Z_STREAM_END, 0%nat, [], [])
  | [], c :: _ => (Z_OK, 1%nat, take avail_out (triple c), drop avail_out (triple c))
  | _, _ =>
      (if decide (avail_out = 0%nat) then Z_BUF_ERROR else Z_OK, 0%nat, take avail_out pending, drop avail_out pending)
  end.

Definition tripling : Zlib := {|
  z_state := str;
  inflateInit2 := fun input => (Z_OK, []);
  inflate := inflate_tripled;
  inflateEnd := fun _ => Z_OK |}.

Lemma tripling_laws : @ZlibLaws tripling.
Proof.
  split; cbn.
  - intros st input avail_out status taken data st'. unfold inflate_tripled.
    destruct st, input; intros [= <- <- <- <-]; rewrite ?length_take; simpl; split; lia.
  - intros st input avail_out taken data st'. unfold inflate_tripled.
    destruct st as [|a st], input as [|b input]; [done| |..].
    + intros [= <- <- <-]. lia.
    + case_decide; intros [= <- <- <-]. rewrite length_take. simpl. lia.
    + case_decide; intros [= <- <- <-]. rewrite length_take. simpl. lia.
  - intros input strm Hi.
    enough (total_out strm + length (strm_state strm : str) <= 3 * total_in strm)%nat by lia.
    induction Hi as [st E|strm avail_out _ IH]; [injection E as <-; cbn; lia|].
    unfold call_inflate. cbn. unfold inflate_tripled.
    destruct strm as [input' ti to st]. cbn in *. destruct st as [|a st], input' as [|b input']; cbn -[triple take drop];
      rewrite ?length_take, ?length_drop; unfold triple; cbn [length] in *; lia.
Qed.

(** A library that cannot be initialised. *)
Definition no_zlib : Zlib := {|
  z_state := unit;
  inflateInit2 := fun _ => (Z_BUF_ERROR, tt);
  inflate := fun _ _ _ => (Z_BUF_ERROR, 0%nat, [], tt);
  inflateEnd := fun _ => Z_OK |}.

Lemma no_zlib_laws : @ZlibLaws no_zlib.
Proof.
  split; cbn.
  - intros st input avail_out status taken data st' [= <- <- <- <-]. cbn. lia.
  - done.
  - intros input strm Hi. induction Hi; cbn; [done|lia].
Qed.

(** The buffer grows from 3 bytes to 6 on the way. *)
Example tripled : @gzipInflate tripling "ab" = Some (Some "aaabbb").
Proof. by vm_compute. Qed.
