(* ===== verification/Http.v ===== *)
(** * Messages over a TCP connection: net/client.cpp, common/http.hpp

    [Socket] is what [BasicTcpClient] keeps of a connection: the bytes
    already buffered, the last response read, the segments the network is
    going to bring, and the error that ends them (end of file, a reset, a
    time-out).  [asyncResponse] is [AsyncHttpClient::asyncResponse] with the
    handlers it chains: head, body by [Content-Length], or body by chunks.

    The handlers call [read] and [read_until], which wait when the buffer is
    short of what they want; the waits are an interface, [BlockingReads].

    The theorems say that what is received depends on the bytes of the
    connection only, not on the segments they come in; that receiving ends,
    throws nothing and never waits, whatever the peer sends; and that a
    message with a [Content-Length] is received as it was sent, the bytes
    after it left for the next one. *)

From S2P Require Import Prelude CxxString Utils Gzip.

Definition CRLF : str := "\r\n".

(** [ConnectionError::code], when it is set. *)
Inductive conn_error := net_error (message : str) | protocol_error.

#[export] Instance conn_error_eq_dec : EqDecision conn_error.
Proof. solve_decision. Defined.

(** ** BasicTcpClient *)

Record Socket := mkSocket {
  m_Streambuf : str;
  m_Response : str;
  net : list str;
  net_end : str
}.

(** A condition of [asyncRead]: whether the bytes read so far are enough. *)
Definition contains_t (delimiter : str) (buf : str) : bool :=
  match search delimiter buf with Some _ => true | None => false end.

Definition at_least (size : Z) (buf : str) : bool := size <=? Z.of_nat (length buf).

(** It is not used; in spite of its name it takes all there is: how far the
    match goes, and whether there is one. *)
Definition exactly_t (size : Z) (buf : str) : nat * bool :=
  if size <=? Z.of_nat (length buf) then (length buf, true) else (0%nat, false).

(** [async_read_until]: test the buffer; while the condition fails, append
    the next segment. *)
Fixpoint await (condition : str -> bool) (buf : str) (segments : list str) : bool * str * list str :=
  if condition buf then (true, buf, segments)
  else match segments with
       | [] => (false, buf, [])
       | seg :: segments' => await condition (buf ++ seg) segments'
       end.

Definition asyncRead (condition : str -> bool) (s : Socket) : option conn_error * Socket :=
  let '(ok, buf, segments) := await condition (m_Streambuf s) (net s) in
  (if ok : bool then None else Some (net_error (net_end s)),
   mkSocket buf (m_Response s) segments (net_end s)).

Definition read_failed (s : Socket) : exn := runtime_error ("read failed: " ++ net_end s).

Definition read_from_buffer (s : Socket) (delimiter : str) (bytes : nat) : Socket :=
  mkSocket (drop bytes (m_Streambuf s)) (take (bytes - length delimiter) (m_Streambuf s))
    (net s) (net_end s).

(** The waits of [read_until] and of [read], when what they want is not in
    the buffer: for a delimiter; for so many bytes, with the rest of the
    buffer and the bytes that were there. *)
Class BlockingReads := {
  block_until : str -> Socket -> cxx (nat * Socket);
  block_read : nat -> str -> str -> Socket -> cxx (nat * Socket) }.

(** The wait of [read_until] for the delimiter.  The code waits on a private
    [io_service] for the read or for a timer; a timer that fires first is one
    more way for the connection to end, with another text ([TimedRead]). *)
Definition read_until_wait (delimiter : str) (s : Socket) : cxx (nat * Socket) :=
  match asyncRead (contains_t delimiter) s with
  | (Some _, _) => Throw (read_failed s)
  | (None, s') =>
      match search delimiter (m_Streambuf s') with
      | Some pos =>
          let bytes := (pos + length delimiter)%nat in
          Ret (bytes, read_from_buffer s' delimiter bytes)
      | None => Throw (read_failed s)
      end
  end.

(** The result is the count the function returns, and the new state. *)
Definition read_until `{BlockingReads} (delimiter : str) (s : Socket) : cxx (nat * Socket) :=
  match (if decide (m_Streambuf s = []) then None else search delimiter (m_Streambuf s)) with
  | Some pos =>
      let response := take pos (m_Streambuf s) in
      Ret (length response,
           mkSocket (drop (pos + length delimiter) (m_Streambuf s)) response (net s) (net_end s))
  | None => block_until delimiter s
  end.

(** [async_read] with [transfer_exactly]: takes the bytes asked for from the
    segments and leaves the rest of the last one. *)
Fixpoint transfer_exactly (n : nat) (segments : list str) : option (str * list str) :=
  match segments with
  | [] => if decide (n = 0%nat) then Some ([], []) else None
  | seg :: segments' =>
      if (n <=? length seg)%nat then Some (take n seg, drop n seg :: segments')
      else '(data, rest) ← transfer_exactly (n - length seg) segments'; Some (seg ++ data, rest)
  end.

(** The wait of [read] for the bytes that are missing. *)
Definition read_wait (need_bytes : nat) (buf resp : str) (s : Socket) : cxx (nat * Socket) :=
  match transfer_exactly (need_bytes - length resp) (net s) with
  | None => Throw (read_failed s)
  | Some (data, segments) => Ret (need_bytes, mkSocket buf (resp ++ data) segments (net_end s))
  end.

Definition read `{BlockingReads} (need_bytes : nat) (s : Socket) : cxx (nat * Socket) :=
  let already_in_stream := Nat.min need_bytes (length (m_Streambuf s)) in
  let resp := take already_in_stream (m_Streambuf s) in
  let buf := drop already_in_stream (m_Streambuf s) in
  if decide (already_in_stream = need_bytes) then
    Ret (need_bytes, mkSocket buf resp (net s) (net_end s))
  else block_read need_bytes buf resp s.

#[export] Instance waits : BlockingReads := {| block_until := read_until_wait; block_read := read_wait |}.

(** [write]: [write_some] takes at most as many bytes as it is given;
    [accepts] lists how many it takes each time, [None] for an error. *)
Fixpoint write_loop (accepts : list (option nat)) (s : str) (bytes : nat) (sent : str)
  : option (str * bool) :=
  if (length s <=? bytes)%nat then Some (sent, true)
  else match accepts with
       | [] => None
       | None :: _ => Some (sent, false)
       | Some w :: accepts' =>
           let data := take w (drop bytes s) in
           write_loop accepts' s (bytes + length data) (sent ++ data)
       end.

(** ** HttpReply *)

Abbreviation headers_t := (list (str * str)).

Record HttpReply := mkReply {
  _status : Z;
  _headers : str;
  _body : str;
  _method : str;
  _resource : str;
  _parsedHeaders : headers_t
}.

#[export] Instance HttpReply_eq_dec : EqDecision HttpReply.
Proof. solve_decision. Defined.

Definition no_reply : HttpReply := mkReply 0 [] [] [] [] [].

(** [_parsedHeaders] is a map whose keys compare without case; assigning to
    a key that is there keeps its first spelling. *)
Fixpoint headers_set (key value : str) (m : headers_t) : headers_t :=
  match m with
  | [] => [(key, value)]
  | (k, v) :: m' =>
      if strcasecmp_eq k key then (k, value) :: m' else (k, v) :: headers_set key value m'
  end.

Definition headers_find (header : str) (m : headers_t) : option (str * str) :=
  List.find (fun kv => strcasecmp_eq kv.1 header) m.

Definition hasHeader (r : HttpReply) (header : str) : bool :=
  match headers_find header (_parsedHeaders r) with Some _ => true | None => false end.

Definition getHeader (r : HttpReply) (header : str) : str :=
  match headers_find header (_parsedHeaders r) with Some (_, v) => v | None => "" end.

(** [None] where the function returns false and leaves the map alone. *)
Definition parseHeaderLine (line : str) (parsed_headers : headers_t) : option headers_t :=
  match search ":" line with
  | None | Some O => None
  | Some pos =>
      let key := take pos line in
      if decide (pos = length line - 1)%nat then Some (headers_set key "" parsed_headers)
      else
        let value := skip isspace (drop (S pos) line) in
        Some (headers_set key value parsed_headers)
  end.

Fixpoint parseHeaderLines (lines : list str) (parsed_headers : headers_t) : headers_t :=
  match lines with
  | [] => parsed_headers
  | line :: lines' =>
      parseHeaderLines lines'
        (match parseHeaderLine line parsed_headers with Some m => m | None => parsed_headers end)
  end.

(** ** AsyncHttpClient *)

(** How the body of a message with a good head is framed. *)
Inductive framing := Length (body_len : Z) | Chunked | No_body.

Definition set_headers (headers : str) (r : HttpReply) : HttpReply :=
  mkReply (_status r) headers (_body r) (_method r) (_resource r) (_parsedHeaders r).
Definition set_status (status : Z) (r : HttpReply) : HttpReply :=
  mkReply status (_headers r) (_body r) (_method r) (_resource r) (_parsedHeaders r).
Definition set_request (method resource : str) (r : HttpReply) : HttpReply :=
  mkReply (_status r) (_headers r) (_body r) method resource (_parsedHeaders r).
Definition set_parsed (m : headers_t) (r : HttpReply) : HttpReply :=
  mkReply (_status r) (_headers r) (_body r) (_method r) (_resource r) m.
Definition set_body (body : str) (r : HttpReply) : HttpReply :=
  mkReply (_status r) (_headers r) body (_method r) (_resource r) (_parsedHeaders r).

(** The part of [handleHeaders] between reading the head and reading the
    body; [None] is a protocol error. *)
Definition parse_head (headers : str) : HttpReply * option framing :=
  let reply := set_headers headers no_reply in
  match split headers CRLF with
  | [] => (reply, None)
  | first :: lines =>
      if decide (first = []) then (reply, None)
      else match split first " " with
      | p0 :: p1 :: _ =>
          let lc := lowercased p0 in
          let started :=
            if starts_with lc "http/" then
              match stoi p1 with Ret status => Some (set_status status reply) | _ => None end
            else Some (set_request lc p1 reply) in
          match started with
          | None => (reply, None)
          | Some r =>
              let r := set_parsed (parseHeaderLines lines []) r in
              if hasHeader r "Content-Length" then
                match stoul 10 (getHeader r "Content-Length") with
                | Ret body_len => (r, Some (Length body_len))
                | _ => (r, None)
                end
              else if decide (getHeader r "Transfer-Encoding" = ("chunked" : str)) then
                (r, Some Chunked)
              else (r, Some No_body)
          end
      | _ => (reply, None)
      end
  end.

Section client.
Context `{Zlib} `{BlockingReads}.

(** What the handler of the caller is given, and the connection then. *)
Abbreviation result := (option conn_error * HttpReply * Socket)%type.

(** [None] stands for a loop that has run out of fuel. *)
Abbreviation answer := (option (cxx result)).

Definition processReply (reply : HttpReply) (s : Socket) : answer :=
  let content_zipped := hasHeader reply "Content-Encoding" &&
    contains_t "gzip" (getHeader reply "Content-Encoding") in
  if content_zipped && negb (bool_decide (_body reply = [])) then
    match gzipInflate (_body reply) with
    | None => None
    | Some None => Some (Ret (Some protocol_error, reply, s))
    | Some (Some r) => Some (Ret (None, set_body r reply, s))
    end
  else Some (Ret (None, reply, s)).

(** [substr(0, n)] of a string that may be shorter. *)
Definition first_bytes (n : Z) (s : str) : str := take (Z.to_nat (Z.min n (Z.of_nat (length s)))) s.

Definition processChunk (startProcessChunk : option conn_error -> HttpReply -> Socket -> answer)
    (error : option conn_error) (chunk_size : Z) (reply : HttpReply) (s : Socket) : answer :=
  match error with
  | Some _ => Some (Ret (error, reply, s))
  | None =>
      match read (Z.to_nat (u64 (chunk_size + 2))) s with
      | Throw e => Some (Throw e)
      | AssertFail => Some AssertFail
      | Ret (_, s1) =>
          let reply := set_body (_body reply ++ first_bytes chunk_size (m_Response s1)) reply in
          if decide (chunk_size = 0) then processReply reply s1
          else let '(read_error, s2) := asyncRead (contains_t CRLF) s1 in
               startProcessChunk read_error reply s2
      end
  end.

Fixpoint startProcessChunk (fuel : nat) (error : option conn_error) (reply : HttpReply) (s : Socket)
  : answer :=
  match fuel with
  | O => None
  | S fuel' =>
      match error with
      | Some _ => Some (Ret (error, no_reply, s))
      | None =>
          match read_until CRLF s with
          | Throw e => Some (Throw e)
          | AssertFail => Some AssertFail
          | Ret (_, s1) =>
              let chunk_size_string := m_Response s1 in
              match stoul_pos 16 chunk_size_string with
              | Throw _ => Some (Ret (Some protocol_error, reply, s1))
              | AssertFail => Some AssertFail
              | Ret (chunk_size, parsed) =>
                  if decide (parsed = length chunk_size_string) then
                    let '(read_error, s2) := asyncRead (at_least (u64 (chunk_size + 2))) s1 in
                    processChunk (startProcessChunk fuel') read_error chunk_size reply s2
                  else Some (Ret (Some protocol_error, reply, s1))
              end
          end
      end
  end.

Definition stream (s : Socket) : str := m_Streambuf s ++ List.concat (net s).

Definition handleHeaders (error : option conn_error) (s : Socket) : answer :=
  match error with
  | Some _ => Some (Ret (error, no_reply, s))
  | None =>
      match read_until "\r\n\r\n" s with
      | Throw e => Some (Throw e)
      | AssertFail => Some AssertFail
      | Ret (_, s1) =>
          match parse_head (m_Response s1) with
          | (reply, None) => Some (Ret (Some protocol_error, reply, s1))
          | (reply, Some (Length body_len)) =>
              match asyncRead (at_least body_len) s1 with
              | (Some e, s2) => Some (Ret (Some e, reply, s2))
              | (None, s2) =>
                  match read (Z.to_nat body_len) s2 with
                  | Throw e => Some (Throw e)
                  | AssertFail => Some AssertFail
                  | Ret (_, s3) => processReply (set_body (m_Response s3) reply) s3
                  end
              end
          | (reply, Some Chunked) =>
              let '(read_error, s2) := asyncRead (contains_t CRLF) s1 in
              startProcessChunk (S (length (stream s2))) read_error reply s2
          | (reply, Some No_body) => Some (Ret (None, reply, s1))
          end
      end
  end.

Definition asyncResponse (s : Socket) : answer :=
  let '(read_error, s1) := asyncRead (contains_t "\r\n\r\n") s in handleHeaders read_error s1.
End client.

(** ** Connections that bring the same bytes

    Two connections are equivalent when the bytes still to be received are
    the same, however they are cut into segments. *)

#[export] Instance socket_equiv : Equiv Socket := fun s1 s2 =>
  stream s1 = stream s2 /\ m_Response s1 = m_Response s2 /\ net_end s1 = net_end s2.

#[export] Instance socket_equivalence : Equivalence (≡@{Socket}).
Proof. split; unfold equiv, socket_equiv; [intros s|intros s t|intros s t u]; naive_solver congruence. Qed.

#[export] Instance stream_proper : Proper ((≡) ==> (=)) stream.
Proof. by intros s t (H & _). Qed.
#[export] Instance net_end_proper : Proper ((≡) ==> (=)) net_end.
Proof. by intros s t (_ & _ & H). Qed.
#[export] Instance m_Response_proper : Proper ((≡) ==> (=)) m_Response.
Proof. by intros s t (_ & H & _). Qed.

(** More bytes do not make a condition of [asyncRead] false. *)
Class Monotone (c : str -> bool) := monotone s t : c s = true -> c (s ++ t) = true.

#[export] Instance contains_t_monotone d : Monotone (contains_t d).
Proof.
  intros s t. unfold contains_t. destruct (search d s) eqn:E; [|done]. by rewrite (search_ext _ _ _ _ E).
Qed.

#[export] Instance at_least_monotone n : Monotone (at_least n).
Proof. intros s t. unfold at_least. rewrite length_app, !Z.leb_le. lia. Qed.

Lemma await_spec c buf segs ok buf' segs' :
  Monotone c -> await c buf segs = (ok, buf', segs') ->
  ok = c (buf ++ List.concat segs) /\ buf' ++ List.concat segs' = buf ++ List.concat segs /\
  (ok = true -> c buf' = true).
Proof.
  intros Hc. revert buf. induction segs as [|seg segs IH]; intros buf; cbn [await List.concat].
  - rewrite app_nil_r. destruct (c buf) eqn:E; intros [= <- <- <-]; by rewrite app_nil_r.
  - destruct (c buf) eqn:E.
    + intros [= <- <- <-]. split_and!; [|done|done]. symmetry. by apply monotone.
    + rewrite (app_assoc buf). apply IH.
Qed.

Lemma asyncRead_spec c s e s' :
  Monotone c -> asyncRead c s = (e, s') ->
  e = (if c (stream s) then None else Some (net_error (net_end s))) /\ s' ≡ s /\
  (e = None -> c (m_Streambuf s') = true).
Proof.
  intros Hc. unfold asyncRead. destruct (await _ _ _) as [[ok buf] segs] eqn:E.
  apply await_spec in E as (Hok & Hs & Hb); [|done]. intros [= <- <-].
  split_and!; [by subst ok|by split|]. destruct ok; naive_solver.
Qed.

Lemma asyncRead_cases c s :
  Monotone c -> exists s', s' ≡ s /\
  ((c (stream s) = true /\ asyncRead c s = (None, s') /\ c (m_Streambuf s') = true) \/
   (c (stream s) = false /\ asyncRead c s = (Some (net_error (net_end s)), s'))).
Proof.
  intros Hc. destruct (asyncRead c s) as [e s'] eqn:E.
  apply asyncRead_spec in E as (-> & Hs & Hb); [|done]. exists s'. split; [done|].
  destruct (c (stream s)); auto.
Qed.

Lemma search_buf d s i :
  search d (m_Streambuf s) = Some i -> search d (stream s) = Some i.
Proof. apply search_ext. Qed.

(** What cutting [n] bytes off the buffer does to the stream. *)
Lemma buf_cut s n :
  (n <= length (m_Streambuf s))%nat ->
  drop n (m_Streambuf s) ++ List.concat (net s) = drop n (stream s) /\
  take n (m_Streambuf s) = take n (stream s).
Proof. intros Hn. unfold stream. by rewrite drop_app_le, take_app_le. Qed.

(** [read_until] takes the bytes before the first delimiter, and the
    delimiter, off the stream; it throws when there is none. *)
Lemma read_until_spec d s :
  match search d (stream s) with
  | Some i => exists n s', read_until d s = Ret (n, s') /\ m_Response s' = take i (stream s) /\
      stream s' = drop (i + length d) (stream s) /\ net_end s' = net_end s
  | None => read_until d s = Throw (read_failed s)
  end.
Proof.
  unfold read_until. cbn [block_until waits]. unfold read_until_wait.
  destruct (if decide (m_Streambuf s = []) then None else search d (m_Streambuf s)) as [i|] eqn:E.
  - assert (search d (m_Streambuf s) = Some i) as F by by case_decide.
    rewrite (search_buf _ _ _ F). pose proof (search_lt _ _ _ F).
    eexists _, _. split; [done|]. simpl. unfold stream at 2. simpl.
    destruct (buf_cut s i ltac:(lia)), (buf_cut s (i + length d) ltac:(lia)). done.
  - clear E. destruct (asyncRead_cases (contains_t d) s _) as (t & Ht & [(Hc & -> & Hb)|(Hc & ->)]).
    + unfold contains_t in Hb. destruct (search d (m_Streambuf t)) as [i|] eqn:F; [|done].
      pose proof (search_buf _ _ _ F) as G. rewrite Ht in G. rewrite G.
      pose proof (search_lt _ _ _ F).
      eexists _, _. split; [done|]. simpl. unfold stream at 2. simpl. rewrite <- Ht.
      replace (i + length d - length d)%nat with i by lia.
      destruct (buf_cut t i ltac:(lia)), (buf_cut t (i + length d) ltac:(lia)). done.
    + unfold contains_t in Hc. by destruct (search d (stream s)).
Qed.

Lemma transfer_exactly_spec n segs :
  if (n <=? length (List.concat segs))%nat then
    exists rest, transfer_exactly n segs = Some (take n (List.concat segs), rest) /\
      List.concat rest = drop n (List.concat segs)
  else transfer_exactly n segs = None.
Proof.
  revert n. induction segs as [|seg segs IH]; intros n; cbn [transfer_exactly List.concat].
  - destruct n; simpl; [|done]. by eexists.
  - rewrite length_app. destruct (Nat.leb_spec n (length seg)) as [Hn|Hn].
    + rewrite (proj2 (Nat.leb_le _ _)) by lia. eexists. split.
      * by rewrite take_app_le.
      * simpl. by rewrite drop_app_le.
    + specialize (IH (n - length seg)%nat).
      replace (n <=? length seg + length (List.concat segs))%nat
        with (n - length seg <=? length (List.concat segs))%nat
        by (destruct (Nat.leb_spec (n - length seg) (length (List.concat segs)));
            destruct (Nat.leb_spec n (length seg + length (List.concat segs))); lia).
      destruct (n - length seg <=? length (List.concat segs))%nat.
      * destruct IH as (rest & -> & Hr). simpl. eexists. split.
        -- rewrite take_app_ge by lia. done.
        -- by rewrite drop_app_ge by lia.
      * by rewrite IH.
Qed.

(** [read] takes so many bytes off the stream, or throws. *)
Lemma read_spec n s :
  if (n <=? length (stream s))%nat then
    exists s', read n s = Ret (n, s') /\ m_Response s' = take n (stream s) /\
      stream s' = drop n (stream s) /\ net_end s' = net_end s
  else read n s = Throw (read_failed s).
Proof.
  unfold read. case_decide as Hd.
  - destruct (buf_cut s n ltac:(lia)) as [E1 E2]. unfold stream at 1. rewrite length_app.
    rewrite (proj2 (Nat.leb_le _ _)) by lia. rewrite Hd.
    eexists. split; [done|]. by split_and!.
  - replace (Nat.min n (length (m_Streambuf s))) with (length (m_Streambuf s)) by lia.
    cbn [block_read waits]. unfold read_wait. rewrite firstn_all, skipn_all.
    pose proof (transfer_exactly_spec (n - length (m_Streambuf s)) (net s)) as H.
    unfold stream at 1. rewrite length_app.
    replace (n <=? length (m_Streambuf s) + length (List.concat (net s)))%nat
      with (n - length (m_Streambuf s) <=? length (List.concat (net s)))%nat
      by (destruct (Nat.leb_spec (n - length (m_Streambuf s)) (length (List.concat (net s))));
          destruct (Nat.leb_spec n (length (m_Streambuf s) + length (List.concat (net s)))); lia).
    destruct (_ <=? _)%nat.
    + destruct H as (rest & -> & Hr). eexists. split; [done|]. unfold stream. simpl.
      rewrite take_app_ge, drop_app_ge by lia. done.
    + by rewrite H.
Qed.

(** ** What is received does not depend on the segments *)

Definition answer_equiv (a b : option (cxx (option conn_error * HttpReply * Socket))) : Prop :=
  match a, b with
  | Some (Ret (e, r, s)), Some (Ret (e', r', s')) => e = e' /\ r = r' /\ s ≡ s'
  | Some (Throw e), Some (Throw e') => e = e'
  | Some AssertFail, Some AssertFail => True
  | None, None => True
  | _, _ => False
  end.
#[export] Instance answer_equiv_equiv : Equiv (option (cxx (option conn_error * HttpReply * Socket))) :=
  answer_equiv.

(** The outcome of [read] and [read_until], the count returned left out:
    [read_until] counts the delimiter when it had to wait, and does not
    when the buffer held it already. *)
Definition step_equiv (a b : cxx (nat * Socket)) : Prop :=
  match a, b with
  | Ret (_, s), Ret (_, s') => s ≡ s'
  | Throw e, Throw e' => e = e'
  | AssertFail, AssertFail => True
  | _, _ => False
  end.

#[export] Instance read_until_proper d : Proper ((≡) ==> step_equiv) (read_until d).
Proof.
  intros s t Hst. pose proof (read_until_spec d s) as Hs. pose proof (read_until_spec d t) as Ht.
  rewrite (stream_proper _ _ Hst) in Hs. destruct (search d (stream t)) as [i|].
  - destruct Hs as (n & s' & -> & ?), Ht as (m & t' & -> & ?).
    destruct_and!. destruct Hst as (? & ? & ?). simpl. unfold equiv, socket_equiv. split_and!; congruence.
  - rewrite Hs, Ht. simpl. unfold read_failed. by rewrite Hst.
Qed.

#[export] Instance read_proper n : Proper ((≡) ==> step_equiv) (read n).
Proof.
  intros s t Hst. pose proof (read_spec n s) as Hs. pose proof (read_spec n t) as Ht.
  rewrite (stream_proper _ _ Hst) in Hs. destruct (_ <=? _)%nat.
  - destruct Hs as (s' & -> & ?), Ht as (t' & -> & ?).
    destruct_and!. destruct Hst as (? & ? & ?). simpl. unfold equiv, socket_equiv. split_and!; congruence.
  - rewrite Hs, Ht. simpl. unfold read_failed. by rewrite Hst.
Qed.

#[export] Instance asyncRead_proper c :
  Monotone c -> Proper ((≡) ==> prod_relation (=) (≡)) (asyncRead c).
Proof.
  intros Hc s t Hst. destruct (asyncRead c s) as [e s'] eqn:Es, (asyncRead c t) as [e' t'] eqn:Et.
  apply asyncRead_spec in Es as (-> & Hs & _), Et as (-> & Ht & _); [|done..].
  split; cbn [fst snd]; [by rewrite (stream_proper _ _ Hst), (net_end_proper _ _ Hst)|]. by rewrite Hs, Ht.
Qed.

(** Runs two equivalent steps and names the equivalence of their results. *)
Ltac both H :=
  match type of H with
  | step_equiv ?a ?b => destruct a as [[?cnt ?s]| |], b as [[?cnt ?s]| |]; simpl in H; try done
  | prod_relation _ _ ?a ?b => destruct a as [? ?], b as [? ?]; destruct H as [?Heq H]; cbn [fst snd] in *; subst
  end.

Section chunking.
Context `{Zlib}.

#[local] Instance processReply_proper r : Proper ((≡) ==> (≡)) (processReply r).
Proof. intros s t Hst. unfold processReply. repeat case_match; solve [exact I | by split_and!]. Qed.

#[local] Instance processChunk_proper k e n r :
  (forall e' r', Proper ((≡) ==> (≡)) (k e' r')) -> Proper ((≡) ==> (≡)) (processChunk k e n r).
Proof.
  intros Hk s t Hst. unfold processChunk. destruct e; [by split_and!|].
  pose proof (read_proper (Z.to_nat (u64 (n + 2))) s t Hst) as Hr. both Hr.
  rewrite (m_Response_proper _ _ Hr). case_decide; [by apply processReply_proper|].
  pose proof (asyncRead_proper (contains_t CRLF) _ _ _ Hr) as Ha. both Ha. by apply Hk.
Qed.

#[local] Instance startProcessChunk_proper fuel e r : Proper ((≡) ==> (≡)) (startProcessChunk fuel e r).
Proof.
  revert e r. induction fuel as [|fuel IH]; intros e r s t Hst; simpl; [done|].
  destruct e; [by split_and!|].
  pose proof (read_until_proper CRLF s t Hst) as Hr. both Hr. rewrite (m_Response_proper _ _ Hr).
  destruct (stoul_pos 16 _) as [[size parsed]| |]; [|by split_and!|done].
  case_decide; [|by split_and!].
  pose proof (asyncRead_proper (at_least (u64 (size + 2))) _ _ _ Hr) as Ha. both Ha.
  by apply processChunk_proper.
Qed.

#[local] Instance handleHeaders_proper e : Proper ((≡) ==> (≡)) (handleHeaders e).
Proof.
  intros s t Hst. unfold handleHeaders. destruct e; [by split_and!|].
  pose proof (read_until_proper "\r\n\r\n" s t Hst) as Hr. both Hr. rewrite (m_Response_proper _ _ Hr).
  destruct (parse_head _) as [reply [[len| |]|]]; try by split_and!.
  - pose proof (asyncRead_proper (at_least len) _ _ _ Hr) as Ha. both Ha. case_match; [by split_and!|].
    pose proof (read_proper (Z.to_nat len) _ _ Ha) as Hb. both Hb.
    rewrite (m_Response_proper _ _ Hb). by apply processReply_proper.
  - pose proof (asyncRead_proper (contains_t CRLF) _ _ _ Hr) as Ha. both Ha. rewrite (stream_proper _ _ Ha).
    by apply startProcessChunk_proper.
Qed.

(** C20: what [asyncResponse] receives depends only on the bytes the
    connection brings and on how it ends, never on how the network cuts them
    into segments nor on what was already buffered: same error, same message,
    same bytes left for the next one. *)
Theorem asyncResponse_segments s t : s ≡ t -> asyncResponse s ≡ asyncResponse t.
Proof.
  intros Hst. unfold asyncResponse.
  pose proof (asyncRead_proper (contains_t "\r\n\r\n") _ _ _ Hst) as Ha. both Ha.
  by apply handleHeaders_proper.
Qed.
End chunking.

(** ** Receiving ends, and throws nothing *)

(** [s'] is what is left of [s] when a prefix of the stream was taken. *)
Definition rest_of (s s' : Socket) : Prop :=
  (exists taken, stream s = taken ++ stream s') /\ net_end s' = net_end s.

#[export] Instance rest_of_preorder : PreOrder rest_of.
Proof.
  split.
  - intros s. split; [by exists []|done].
  - intros s t u [[a Ha] ?] [[b Hb] ?]. split; [|congruence]. exists (a ++ b). by rewrite <- app_assoc, <- Hb.
Qed.

Lemma rest_of_equiv s s' : s' ≡ s -> rest_of s s'.
Proof. intros (H1 & _ & H2). split; [exists []; by rewrite H1|done]. Qed.

Lemma rest_of_length s s' : rest_of s s' -> (length (stream s') <= length (stream s))%nat.
Proof. intros [[a ->] _]. rewrite length_app. lia. Qed.

(** A [read] that has waited for its bytes takes them. *)
Lemma read_waited n s :
  at_least (Z.of_nat n) (stream s) = true ->
  exists s', read n s = Ret (n, s') /\ rest_of s s' /\ m_Response s' = take n (stream s) /\
    stream s' = drop n (stream s).
Proof.
  unfold at_least. rewrite Z.leb_le. intros Hn. pose proof (read_spec n s) as Hr.
  rewrite (proj2 (Nat.leb_le _ _)) in Hr by lia. destruct Hr as (s' & E & H1 & H2 & H3).
  exists s'. split_and!; try done. split; [|done]. exists (take n (stream s)). by rewrite H2, take_drop.
Qed.

(** The same of [read_until]; at least the delimiter is taken. *)
Lemma read_until_waited d s :
  contains_t d (stream s) = true ->
  exists n s', read_until d s = Ret (n, s') /\ rest_of s s' /\
    (length (stream s') + length d <= length (stream s))%nat.
Proof.
  unfold contains_t. pose proof (read_until_spec d s) as Hr.
  destruct (search d (stream s)) as [i|] eqn:E; [|done]. intros _.
  destruct Hr as (n & s' & Er & H1 & H2 & H3). exists n, s'. split; [done|].
  pose proof (search_lt _ _ _ E). split.
  - split; [|done]. exists (take (i + length d) (stream s)). by rewrite H2, take_drop.
  - rewrite H2, length_drop. lia.
Qed.

Section total.
Context `{Zlib} {laws : ZlibLaws}.

(** The answer is a message or an error, and the connection is left at a
    later point of its stream. *)
Definition answered (s : Socket) (a : option (cxx (option conn_error * HttpReply * Socket))) : Prop :=
  exists e r s', a = Some (Ret (e, r, s')) /\ rest_of s s'.

Lemma answered_trans s t a : rest_of s t -> answered t a -> answered s a.
Proof. intros Hst (e & r & s' & -> & Hr). exists e, r, s'. split; [done|]. by etrans. Qed.

Lemma answered_ret e r s : answered s (Some (Ret (e, r, s))).
Proof. by exists e, r, s. Qed.

#[local] Hint Resolve answered_ret : core.

Lemma processReply_answered r s : answered s (processReply r s).
Proof.
  unfold processReply. case_match; [|auto]. destruct (gzipInflate_ends (_body r)) as [g ->]. destruct g; auto.
Qed.

Lemma startProcessChunk_answered fuel e r s :
  (length (stream s) < fuel)%nat -> (e = None -> contains_t CRLF (stream s) = true) ->
  answered s (startProcessChunk fuel e r s).
Proof.
  revert e r s. induction fuel as [|fuel IH]; intros e r s Hf He; [lia|].
  cbn [startProcessChunk]. destruct e; [auto|].
  destruct (read_until_waited CRLF s (He eq_refl)) as (n & s1 & -> & Hs1 & Hl). change (length CRLF) with 2%nat in Hl.
  apply (answered_trans _ s1); [done|].
  destruct (stoul_pos 16 (m_Response s1)) as [[size parsed]|x|] eqn:Es;
    [|auto|unfold stoul_pos in Es; repeat case_match; done].
  case_decide; [|auto].
  destruct (asyncRead_cases (at_least (u64 (size + 2))) s1 _) as (s2 & H2 & [(Hc & -> & _)|(_ & ->)]);
    [|apply (answered_trans _ s2); [by apply rest_of_equiv|]; simpl; auto].
  apply (answered_trans _ s2); [by apply rest_of_equiv|]. unfold processChunk.
  pose proof (wrap_range 64 (size + 2) ltac:(lia)) as [Hw _].
  destruct (read_waited (Z.to_nat (u64 (size + 2))) s2) as (s3 & -> & H3 & _).
  { rewrite H2, Z2Nat.id; done. }
  apply (answered_trans _ s3); [done|]. case_decide; [apply processReply_answered|].
  destruct (asyncRead_cases (contains_t CRLF) s3 _) as (s4 & H4 & Hcases).
  pose proof (rest_of_length _ _ H3). assert (stream s4 = stream s3) as E4 by by rewrite H4.
  assert (stream s2 = stream s1) as E2 by by rewrite H2.
  destruct Hcases as [(Hc4 & -> & _)|(Hc4 & ->)];
    (apply (answered_trans _ s4); [by apply rest_of_equiv|]);
    (apply IH; [rewrite E4; rewrite E2 in *; lia|]); [|done]. by rewrite E4.
Qed.

(** C19: whatever the peer sends, [asyncResponse] gives its handler a
    message or an error: none of the reads it makes throws, the chunk loop
    ends within the length of the stream, the loop that inflates a
    compressed body ends (of zlib what its manual says is used,
    [ZlibLaws]), and what was consumed is a prefix of the stream. *)
Theorem asyncResponse_total s : answered s (asyncResponse s).
Proof.
  unfold asyncResponse, handleHeaders.
  destruct (asyncRead_cases (contains_t "\r\n\r\n") s _) as (s1 & H1 & [(Hc & -> & _)|(_ & ->)]);
    (apply (answered_trans _ s1); [by apply rest_of_equiv|]); [|auto].
  rewrite <- H1 in Hc. destruct (read_until_waited _ _ Hc) as (n & s2 & -> & H2 & _).
  apply (answered_trans _ s2); [done|].
  destruct (parse_head _) as [reply [[len| |]|]]; try by auto.
  - destruct (asyncRead_cases (at_least len) s2 _) as (s3 & H3 & [(Hl & -> & _)|(_ & ->)]);
      (apply (answered_trans _ s3); [by apply rest_of_equiv|]); [|auto].
    destruct (read_waited (Z.to_nat len) s3) as (s4 & -> & H4 & _).
    { rewrite H3. unfold at_least in *. rewrite Z.leb_le in *. lia. }
    apply (answered_trans _ s4); [done|]. apply processReply_answered.
  - destruct (asyncRead_cases (contains_t CRLF) s2 _) as (s3 & H3 & Hcases).
    assert (stream s3 = stream s2) as E3 by by rewrite H3.
    destruct Hcases as [(Hc3 & -> & _)|(_ & ->)];
      (apply (answered_trans _ s3); [by apply rest_of_equiv|]);
      (apply startProcessChunk_answered; [lia|]); [|done]. by rewrite E3.
Qed.
End total.

(** ** The handlers never wait

    A handler reads what its [asyncRead] has waited for: [read] and
    [read_until] find it in the buffer, and it does not matter what they
    would do otherwise. *)

Lemma read_until_buffered (W1 W2 : BlockingReads) d s :
  d <> [] -> contains_t d (m_Streambuf s) = true -> @read_until W1 d s = @read_until W2 d s.
Proof.
  unfold read_until, contains_t. intros Hd Hc. case_decide as Hb; [|by case_match].
  rewrite Hb in Hc. by destruct d.
Qed.

Lemma read_buffered (W1 W2 : BlockingReads) n s :
  at_least (Z.of_nat n) (m_Streambuf s) = true -> @read W1 n s = @read W2 n s.
Proof. unfold read, at_least. rewrite Z.leb_le. intros Hn. by rewrite !decide_True by lia. Qed.

Section never_waits.
Context `{Zlib} (W1 W2 : BlockingReads).

Lemma processChunk_waitless k1 k2 e size r s :
  (e = None -> at_least (u64 (size + 2)) (m_Streambuf s) = true) ->
  (forall e r s, (e = None -> contains_t CRLF (m_Streambuf s) = true) -> k1 e r s = k2 e r s) ->
  @processChunk _ W1 k1 e size r s = @processChunk _ W2 k2 e size r s.
Proof.
  intros He Hk. unfold processChunk. destruct e; [done|].
  rewrite (read_buffered W1 W2) by (rewrite Z2Nat.id; [by apply He|by apply (wrap_range 64)]).
  destruct (read _ s) as [[n s1]| |]; [|done..]. case_decide; [done|].
  destruct (asyncRead (contains_t CRLF) s1) as [e2 s2] eqn:E. apply Hk.
  by apply asyncRead_spec in E as (_ & _ & E); [|apply _].
Qed.

Lemma startProcessChunk_waitless fuel e r s :
  (e = None -> contains_t CRLF (m_Streambuf s) = true) ->
  @startProcessChunk _ W1 fuel e r s = @startProcessChunk _ W2 fuel e r s.
Proof.
  revert e r s. induction fuel as [|fuel IH]; intros e r s He; cbn [startProcessChunk]; [done|].
  destruct e; [done|]. rewrite (read_until_buffered W1 W2) by (done || by apply He).
  destruct (read_until CRLF s) as [[n s1]| |]; [|done..].
  destruct (stoul_pos 16 _) as [[size parsed]| |]; [|done..]. case_decide; [|done].
  destruct (asyncRead (at_least _) s1) as [e2 s2] eqn:E.
  apply asyncRead_spec in E as (_ & _ & E); [|apply _]. by apply processChunk_waitless.
Qed.

(** C30: receiving a message never waits in the blocking reads, whatever the
    peer sends: with any two [BlockingReads] in the place of the waits of
    [read] and [read_until] the answer is the same.  The handlers run on the
    only thread of their service, where such a wait would not end. *)
Theorem asyncResponse_never_waits s : @asyncResponse _ W1 s = @asyncResponse _ W2 s.
Proof.
  unfold asyncResponse, handleHeaders. destruct (asyncRead _ s) as [e s1] eqn:E.
  apply asyncRead_spec in E as (_ & _ & E); [|apply _]. destruct e; [done|].
  rewrite (read_until_buffered W1 W2) by (done || by apply E).
  destruct (read_until _ s1) as [[n s2]| |]; [|done..].
  destruct (parse_head _) as [reply [[len| |]|]]; [| |done..].
  - destruct (asyncRead (at_least len) s2) as [e3 s3] eqn:E3.
    apply asyncRead_spec in E3 as (_ & _ & E3); [|apply _]. destruct e3; [done|].
    rewrite (read_buffered W1 W2); [done|]. specialize (E3 eq_refl). unfold at_least in *. rewrite Z.leb_le in *. lia.
  - destruct (asyncRead (contains_t CRLF) s2) as [e3 s3] eqn:E3.
    apply asyncRead_spec in E3 as (_ & _ & E3); [|apply _]. by apply startProcessChunk_waitless.
Qed.
End never_waits.

(** ** A message with a [Content-Length] is received as it was sent *)

Definition header_line (kv : str * str) : str := kv.1 ++ ": " ++ kv.2.

Definition head_lines (start : str) (hs : headers_t) : list str := start :: (header_line <$> hs).

(** A first line, headers and body as the programs of the repository write them. *)
Definition message (start : str) (hs : headers_t) (body : str) : str :=
  join (head_lines start hs) CRLF ++ "\r\n\r\n" ++ body.

Definition good_line (l : str) : Prop := l <> [] /\ CR ∉ l.

Definition good_header (kv : str * str) : Prop :=
  kv.1 <> [] /\ (":"%char ∉ kv.1) /\ kv.2 <> [] /\ isspace (peek kv.2) = false.

Lemma search_past c p a b :
  c ∉ a -> search (c :: p) (a ++ b) = Nat.add (length a) <$> search (c :: p) b.
Proof.
  induction a as [|x a IH]; intros Hc; [cbn [app]; by destruct (search (c :: p) b)|].
  apply not_elem_of_cons in Hc as [Hx Ha].
  cbn [app search starts]. rewrite bool_decide_eq_false_2 by done. cbn [andb].
  rewrite IH by done. by destruct (search (c :: p) b).
Qed.

Lemma head_end lines b :
  lines <> [] -> Forall good_line lines ->
  search "\r\n\r\n" (join lines CRLF ++ "\r\n\r\n" ++ b) = Some (length (join lines CRLF)).
Proof.
  intros Hn H. induction H as [|l lines [Hl Hc] Hls IH]; [done|]. destruct lines as [|l' lines].
  - rewrite join_cons. simpl List.concat. rewrite app_nil_r. by apply search_skip.
  - rewrite join_cons2, <- !app_assoc.
    set (tl := join (l' :: lines) CRLF ++ "\r\n\r\n" ++ b) in *.
    apply Forall_inv in Hls as [Hl' Hc'].
    assert (starts "\r\n" tl = false) as Hs.
    { unfold tl. rewrite join_cons. destruct l' as [|x l']; [done|]. cbn [app starts].
      rewrite bool_decide_eq_false_2; [done|]. intros <-. apply Hc'. left. }
    change ("\r\n\r\n" : str) with (CR :: "\n\r\n"). rewrite search_past by done.
    change (CR :: "\n\r\n") with ("\r\n\r\n" : str).
    assert (search "\r\n\r\n" (CRLF ++ tl) = S <$> (S <$> search "\r\n\r\n" tl)) as ->.
    { change (search "\r\n\r\n" (CRLF ++ tl)) with
        (if starts "\r\n" tl then Some 0%nat else S <$> (S <$> search "\r\n\r\n" tl)).
      by rewrite Hs. }
    rewrite IH by done. rewrite !length_app. simpl. done.
Qed.

Lemma split_lines lines :
  lines <> [] -> Forall (fun l => CR ∉ l) lines -> split (join lines CRLF) CRLF = lines.
Proof.
  intros Hn H. induction H as [|l lines Hl Hls IH]; [done|]. destruct lines as [|l' lines].
  - rewrite join_cons. simpl List.concat. rewrite app_nil_r. by apply split_absent.
  - rewrite join_cons2. unfold CRLF in *. rewrite (split_app CR "\n" l) by done. f_equal. by apply IH.
Qed.

Lemma parseHeaderLine_ok kv m :
  good_header kv -> parseHeaderLine (header_line kv) m = Some (headers_set kv.1 kv.2 m).
Proof.
  destruct kv as [k v]. intros (Hk & Hc & Hv & Hs). cbn [fst snd] in *. unfold parseHeaderLine, header_line.
  cbn [fst snd]. change (": " ++ v) with ((":" : str) ++ SP :: v).
  change (":" : str) with [":"%char]. rewrite search_skip by done.
  destruct (length k) as [|n] eqn:El; [by destruct k|]. rewrite <- El.
  rewrite decide_False by (rewrite !length_app; destruct v; simpl in *; [done|lia]).
  rewrite take_app_length, (app_assoc k), drop_app_all by (rewrite length_app; simpl; lia).
  destruct v as [|x v]; [done|]. cbn [skip peek] in *.
  change (isspace SP) with true. cbn match. by rewrite Hs.
Qed.

Lemma parseHeaderLines_ok hs m :
  Forall good_header hs ->
  parseHeaderLines (header_line <$> hs) m = foldl (fun m kv => headers_set kv.1 kv.2 m) m hs.
Proof.
  intros H. revert m. induction H as [|kv hs Hkv Hhs IH]; intros m; csimpl; [done|].
  by rewrite parseHeaderLine_ok, IH.
Qed.

(** The parsing of a head made of such lines. *)
Lemma parse_head_lines start hs p0 p1 ps :
  Forall good_line (head_lines start hs) -> Forall good_header hs -> split start " " = p0 :: p1 :: ps ->
  parse_head (join (head_lines start hs) CRLF) =
  (let reply := set_headers (join (head_lines start hs) CRLF) no_reply in
   let lc := lowercased p0 in
   match (if starts_with lc "http/" then
            match stoi p1 with Ret status => Some (set_status status reply) | _ => None end
          else Some (set_request lc p1 reply)) with
   | None => (reply, None)
   | Some r =>
       let r := set_parsed (foldl (fun m kv => headers_set kv.1 kv.2 m) [] hs) r in
       if hasHeader r "Content-Length" then
         match stoul 10 (getHeader r "Content-Length") with
         | Ret body_len => (r, Some (Length body_len))
         | _ => (r, None)
         end
       else if decide (getHeader r "Transfer-Encoding" = ("chunked" : str)) then (r, Some Chunked)
       else (r, Some No_body)
   end).
Proof.
  intros Hl Hh Hs. unfold parse_head. rewrite split_lines.
  - unfold head_lines. rewrite decide_False by (apply Forall_inv in Hl; apply Hl).
    rewrite Hs, parseHeaderLines_ok by done. done.
  - done.
  - eapply Forall_impl; [exact Hl|]. by intros l [_ H].
Qed.

Section received.
Context `{Zlib}.

Lemma asyncResponse_message s start hs body rest reply :
  stream s = message start hs body ++ rest ->
  Forall good_line (head_lines start hs) ->
  parse_head (join (head_lines start hs) CRLF) = (reply, Some (Length (Z.of_nat (length body)))) ->
  hasHeader reply "Content-Encoding" = false ->
  exists s', asyncResponse s = Some (Ret (None, set_body body reply, s')) /\
    stream s' = rest /\ net_end s' = net_end s.
Proof.
  intros Hs Hg Hp Hz. unfold message in Hs. rewrite <- !app_assoc in Hs.
  pose proof (head_end (head_lines start hs) (body ++ rest) ltac:(done) Hg) as Hh. rewrite <- Hs in Hh.
  unfold asyncResponse, handleHeaders.
  destruct (asyncRead_cases (contains_t "\r\n\r\n") s _) as (s1 & H1 & Hc).
  destruct Hc as [(_ & -> & _)|(Hc & _)]; [|by unfold contains_t in Hc; rewrite Hh in Hc].
  pose proof (read_until_spec "\r\n\r\n" s1) as Hr. rewrite (stream_proper _ _ H1), Hh in Hr.
  destruct Hr as (n & s2 & -> & -> & E2 & N2). rewrite Hs in E2 |- *.
  rewrite take_app_length, Hp. change (length ("\r\n\r\n" : str)) with 4%nat in E2.
  rewrite (app_assoc (join _ _)), drop_app_all in E2 by (rewrite length_app; done).
  destruct (asyncRead_cases (at_least (Z.of_nat (length body))) s2 _) as (s3 & H3 & Hc).
  destruct Hc as [(_ & -> & _)|(Hc & _)].
  2: { unfold at_least in Hc. rewrite E2, length_app in Hc. zb. lia. }
  destruct (read_waited (Z.to_nat (Z.of_nat (length body))) s3) as (s4 & -> & [_ N4] & E4 & F4).
  { rewrite H3, E2. unfold at_least. rewrite length_app. apply Z.leb_le. lia. }
  rewrite (stream_proper _ _ H3), E2, Nat2Z.id in *.
  rewrite take_app_length in E4. rewrite drop_app_length in F4.
  exists s4. unfold processReply. rewrite E4. change (hasHeader (set_body body reply) "Content-Encoding")
    with (hasHeader reply "Content-Encoding"). rewrite Hz. split_and!; [done|done|].
  by rewrite N4, (net_end_proper _ _ H3), N2, (net_end_proper _ _ H1).
Qed.
End received.

(** ** A chunked body is received as the concatenation of its chunks *)

(** [chunked_body wire body]: the bytes [wire] are a chunked encoding of
    [body]; [size] is any text [std::stoul] reads as the size in base 16. *)
Inductive chunked_body : str -> str -> Prop :=
| Last_chunk size :
    stoul_pos 16 size = Ret (0, length size) -> CR ∉ size ->
    chunked_body (size ++ CRLF ++ CRLF) []
| More_chunk size data wire body :
    stoul_pos 16 size = Ret (Z.of_nat (length data), length size) -> CR ∉ size ->
    data <> [] -> Z.of_nat (length data) + 2 < 2 ^ 64 -> chunked_body wire body ->
    chunked_body (size ++ CRLF ++ data ++ CRLF ++ wire) (data ++ body).

(** The waits of the code, when what they wait for is in the stream. *)
Lemma waited c s : Monotone c -> c (stream s) = true -> exists s', asyncRead c s = (None, s') /\ s' ≡ s.
Proof.
  intros Hc Ht. destruct (asyncRead_cases c s Hc) as (s' & Hs & [(_ & E & _)|(E & _)]); [by exists s'|].
  by rewrite Ht in E.
Qed.

Lemma read_line s line tl :
  stream s = line ++ CRLF ++ tl -> CR ∉ line ->
  contains_t CRLF (stream s) = true /\
  exists n s', read_until CRLF s = Ret (n, s') /\ m_Response s' = line /\ stream s' = tl /\ net_end s' = net_end s.
Proof.
  intros Hs Hc. assert (search CRLF (stream s) = Some (length line)) as Hf by (rewrite Hs; by apply search_skip).
  split; [unfold contains_t; by rewrite Hf|].
  pose proof (read_until_spec CRLF s) as Hr. rewrite Hf, Hs, take_app_length, app_assoc, drop_app_all in Hr
    by (rewrite length_app; done).
  done.
Qed.

Section chunked.
Context `{Zlib}.

Lemma set_body_twice a b r : set_body a (set_body b r) = set_body a r.
Proof. done. Qed.

Lemma processReply_plain r s :
  hasHeader r "Content-Encoding" = false -> processReply r s = Some (Ret (None, r, s)).
Proof. intros Hz. unfold processReply. by rewrite Hz. Qed.

(** One round: the size line and the data of a chunk are taken. *)
Lemma startProcessChunk_step fuel r s size data tl :
  stream s = size ++ CRLF ++ data ++ CRLF ++ tl -> CR ∉ size ->
  stoul_pos 16 size = Ret (Z.of_nat (length data), length size) -> Z.of_nat (length data) + 2 < 2 ^ 64 ->
  exists s', stream s' = tl /\ net_end s' = net_end s /\
    startProcessChunk (S fuel) None r s =
    (let r' := set_body (_body r ++ data) r in
     if decide (Z.of_nat (length data) = 0) then processReply r' s'
     else let '(read_error, s2) := asyncRead (contains_t CRLF) s' in startProcessChunk fuel read_error r' s2).
Proof.
  intros Hs Hc Hz Hl. destruct (read_line s size _ Hs Hc) as (_ & n & s1 & E1 & R1 & S1 & N1).
  set (m := u64 (Z.of_nat (length data) + 2)).
  assert (m = Z.of_nat (length data) + 2) as Em by (apply wrap_small; unfold in_u; lia).
  destruct (waited (at_least m) s1 _) as (s2 & E2 & Q2).
  { rewrite S1, Em. unfold at_least, CRLF. rewrite !length_app. apply Z.leb_le. simpl. lia. }
  destruct (read_waited (Z.to_nat m) s2) as (s3 & E3 & [_ N3] & R3 & S3).
  { rewrite (stream_proper _ _ Q2), S1, Em. unfold at_least, CRLF. rewrite !length_app. apply Z.leb_le. simpl. lia. }
  assert (Z.to_nat m = length (data ++ CRLF)) as Lm by (rewrite Em, length_app; unfold CRLF; simpl; lia).
  rewrite (stream_proper _ _ Q2), S1, (app_assoc data), Lm in R3, S3.
  rewrite take_app_length in R3. rewrite drop_app_length in S3.
  exists s3. split_and!; [done|by rewrite N3, (net_end_proper _ _ Q2), N1|].
  cbn [startProcessChunk]. rewrite E1. cbn match. rewrite R1, Hz, decide_True by done. fold m. rewrite E2.
  unfold processChunk. fold m. rewrite E3, R3. unfold first_bytes.
  rewrite (take_app_all data) by (rewrite length_app; lia). done.
Qed.

Lemma chunked_first_line wire body :
  chunked_body wire body -> exists size tl, wire = size ++ CRLF ++ tl /\ CR ∉ size.
Proof. destruct 1; eauto. Qed.

Lemma startProcessChunk_ok fuel r s wire body rest :
  chunked_body wire body -> stream s = wire ++ rest -> (length wire < fuel)%nat ->
  hasHeader r "Content-Encoding" = false ->
  exists s', startProcessChunk fuel None r s = Some (Ret (None, set_body (_body r ++ body) r, s')) /\
    stream s' = rest /\ net_end s' = net_end s.
Proof.
  intros Hw. revert fuel r s. induction Hw as [size Hz Hc|size data wire body Hz Hc Hd Hl Hw IH];
    intros [|fuel] r s Hs Hf Hg; try lia; rewrite <- !app_assoc in Hs.
  - destruct (startProcessChunk_step fuel r s size [] rest Hs Hc Hz ltac:(simpl; lia)) as (s' & S' & N' & ->).
    exists s'. rewrite decide_True by done. cbn zeta. by rewrite processReply_plain.
  - destruct (startProcessChunk_step fuel r s size data (wire ++ rest)) as (s' & S' & N' & ->); try done.
    rewrite decide_False by (destruct data; simpl; [done|lia]).
    destruct (chunked_first_line _ _ Hw) as (size' & tl & -> & Hc').
    rewrite <- !app_assoc in S'. destruct (read_line s' size' _ S' Hc') as (Hcont & _).
    destruct (waited (contains_t CRLF) s' _ Hcont) as (s2 & -> & Q2). cbn zeta match.
    destruct (IH fuel (set_body (_body r ++ data) r) s2) as (s3 & -> & S3 & N3); try done.
    + by rewrite (stream_proper _ _ Q2), S', <- !app_assoc.
    + rewrite !length_app in *. unfold CRLF in *. simpl in *. lia.
    + exists s3. cbn [_body set_body]. rewrite set_body_twice, <- app_assoc.
      split_and!; [done|done|]. by rewrite N3, (net_end_proper _ _ Q2), N'.
Qed.

(** C37: a message whose head announces the chunked encoding is received
    with the concatenation of its chunks as body, and the bytes after the
    last chunk are left for the next message. *)
Theorem chunked_message_received s start hs reply wire body rest :
  Forall good_line (head_lines start hs) ->
  parse_head (join (head_lines start hs) CRLF) = (reply, Some Chunked) ->
  hasHeader reply "Content-Encoding" = false ->
  chunked_body wire body -> stream s = message start hs (wire ++ rest) ->
  exists s', asyncResponse s = Some (Ret (None, set_body (_body reply ++ body) reply, s')) /\ stream s' = rest.
Proof.
  intros Hg Hp Hz Hw Hs. unfold message in Hs.
  pose proof (head_end (head_lines start hs) (wire ++ rest) ltac:(done) Hg) as Hh. rewrite <- Hs in Hh.
  unfold asyncResponse, handleHeaders.
  destruct (waited (contains_t "\r\n\r\n") s _) as (s1 & -> & Q1); [unfold contains_t; by rewrite Hh|].
  pose proof (read_until_spec "\r\n\r\n" s1) as Hr. rewrite (stream_proper _ _ Q1), Hh in Hr.
  destruct Hr as (n & s2 & -> & -> & E2 & _). rewrite Hs in E2 |- *.
  rewrite take_app_length, Hp. change (length ("\r\n\r\n" : str)) with 4%nat in E2.
  rewrite (app_assoc (join _ _)), drop_app_all in E2 by (rewrite length_app; done).
  destruct (chunked_first_line _ _ Hw) as (size & tl & Ew & Hc).
  assert (stream s2 = size ++ CRLF ++ tl ++ rest) as Hl by by rewrite E2, Ew, <- !app_assoc.
  destruct (read_line s2 size _ Hl Hc) as (Hcont & _).
  destruct (waited (contains_t CRLF) s2 _ Hcont) as (s3 & -> & Q3).
  destruct (startProcessChunk_ok (S (length (stream s3))) reply s3 wire body rest) as (s4 & -> & S4 & _); try done.
  - by rewrite (stream_proper _ _ Q3).
  - rewrite (stream_proper _ _ Q3), E2, length_app. lia.
  - by exists s4.
Qed.
End chunked.

(** A compressed body, three bytes for each byte sent. *)
Definition gzip_arrival : Socket :=
  mkSocket [] [] ["HTTP/1.1 200 OK\r\nContent-Encoding: gzip\r\nContent-Len"; "gth: 2\r\n\r\nab!"] "End of file".

Lemma asyncResponse_total_witness :
  answered gzip_arrival (@asyncResponse tripling waits gzip_arrival) /\
  exists r s', @asyncResponse tripling waits gzip_arrival = Some (Ret (None, r, s')) /\
    _body r = "aaabbb" /\ stream s' = "!".
Proof.
  split; [apply (@asyncResponse_total tripling tripling_laws)|].
  eexists _, _. vm_compute. split; [reflexivity|by split].
Defined.

#[local] Existing Instance no_zlib.

(** Segments in which the head, a size line and the data are cut, against
    the same bytes in the buffer. *)
Definition split_arrival : Socket :=
  mkSocket [] [] ["HTTP/1.1 200 OK\r\nTransfer-Enc"; "oding: chunked\r\n\r\n4"; "\r\nWi"; "ki\r"; "\n0\r\n\r\nHTTP"] "End of file".
Definition whole_arrival : Socket :=
  mkSocket "HTTP/1.1 200 OK\r\nTransfer-Encoding: chunked\r\n\r\n4\r\nWiki\r\n0\r\n\r\nHTTP" [] [] "End of file".

Lemma asyncResponse_segments_witness :
  (exists r s', asyncResponse whole_arrival = Some (Ret (None, r, s')) /\ _body r = "Wiki") /\
  asyncResponse split_arrival ≡ asyncResponse whole_arrival.
Proof.
  split; [by eexists _, _; split; vm_compute; reflexivity|].
  apply asyncResponse_segments. by vm_compute.
Defined.

Definition chunked_reply : HttpReply :=
  mkReply 200 "HTTP/1.1 200 OK\r\nTransfer-Encoding: chunked" [] [] [] [("Transfer-Encoding", "chunked")].

Lemma chunked_message_received_witness :
  exists s', asyncResponse whole_arrival = Some (Ret (None, set_body "Wiki" chunked_reply, s')) /\
    stream s' = "HTTP".
Proof.
  apply (chunked_message_received whole_arrival "HTTP/1.1 200 OK" [("Transfer-Encoding", "chunked")] chunked_reply
    "4\r\nWiki\r\n0\r\n\r\n" "Wiki" "HTTP").
  - repeat constructor; try done; apply (bool_decide_unpack _); vm_compute; exact I.
  - by vm_compute.
  - by vm_compute.
  - apply (More_chunk "4" "Wiki" "0\r\n\r\n" []); [by vm_compute|apply (bool_decide_unpack _); by vm_compute|done|by vm_compute|].
    apply (Last_chunk "0"); [by vm_compute|apply (bool_decide_unpack _); by vm_compute].
  - by vm_compute.
Defined.
