(* ===== verification/ClientUtils.v ===== *)
(** * client/src/apiclient_utils.cpp: commands, requests and replies of the client

    What the user types ([parse]), the requests sent to the server
    ([build_request] and the bodies), and the reading of the replies.  The
    regular expression of [get_msg_after_command] is written out as the
    greedy match it performs. *)

From S2P Require Import Prelude CxxString Utils Json Common Database ApiUtils Gzip Http.

(** ** Typed commands: namespace [input] *)

Module Input.

Inductive cmd_t :=
| NONE | HELP | UNCHAT | LOGIN | REGISTER_USER | REGISTER_GROUP | CHAT_WITH_USER
| GET_LOCATIONS | CHAT_WITH_LOCATION | ADD_TO_GROUP | HISTORY_USER | HISTORY_GROUP
| DIRECT_MSG_USER | DIRECT_MSG_GROUP | STATUS_USER | STATUS_GROUP | QUIT.

#[export] Instance cmd_t_eq_dec : EqDecision cmd_t.
Proof. solve_decision. Defined.

Definition cmd2string (cmd : cmd_t) : str :=
  match cmd with
  | HELP => "HELP"
  | UNCHAT => "UNCHAT"
  | LOGIN => "LOGIN"
  | REGISTER_USER => "REGISTER"
  | REGISTER_GROUP => "REGISTER_G"
  | CHAT_WITH_USER => "CHAT_WITH"
  | ADD_TO_GROUP => "ADD_TO_G"
  | HISTORY_USER => "HISTORY"
  | HISTORY_GROUP => "HISTORY_G"
  | DIRECT_MSG_USER => "DIRECT_MSG"
  | DIRECT_MSG_GROUP => "DIRECT_MSG_G"
  | STATUS_USER => "STATUS"
  | STATUS_GROUP => "STATUS_G"
  | QUIT => "QUIT"
  | NONE => "none"
  | GET_LOCATIONS => "GET_LOCATIONS"
  | CHAT_WITH_LOCATION => "CHAT_WITH_LOCATION"
  end.

(** The members of the nested structs of [args_t] that have the same name
    carry the name of their struct. *)
Record args_t := mkArgs {
  cmd : cmd_t;
  login_name : str; login_pass : str;
  reg_name : str; reg_pass : str;
  chat_name : str;
  group_groupname : str; group_username : str;
  history_name : str; history_count : Z;
  direct_name : str; direct_message : str;
  status_name : str;
  location_location : str }.

#[export] Instance args_t_eq_dec : EqDecision args_t.
Proof. solve_decision. Defined.

Definition args_default (c : cmd_t) : args_t := mkArgs c [] [] [] [] [] [] [] [] 10 [] [] [] [].

Definition with_login c name pass := mkArgs c name pass [] [] [] [] [] [] 10 [] [] [] [].
Definition with_reg c name pass := mkArgs c [] [] name pass [] [] [] [] 10 [] [] [] [].
Definition with_chat c name := mkArgs c [] [] [] [] name [] [] [] 10 [] [] [] [].
Definition with_group c groupname username := mkArgs c [] [] [] [] [] groupname username [] 10 [] [] [] [].
Definition with_history c name count := mkArgs c [] [] [] [] [] [] [] name count [] [] [] [].
Definition with_direct c name message := mkArgs c [] [] [] [] [] [] [] [] 10 name message [] [].
Definition with_status c name := mkArgs c [] [] [] [] [] [] [] [] 10 [] [] name [].
Definition with_location c location := mkArgs c [] [] [] [] [] [] [] [] 10 [] [] [] location.

(** A byte [.] matches. *)
Definition not_newline (c : ascii) : bool := negb (bool_decide (c = LF \/ c = CR)).

(** The match of the regular expression of the function: blanks, a word,
    blanks, a word, blanks, and the rest of the line in a group.  Every
    repetition takes all it can; when the second word would be empty the
    first one gives its last character back.  The group stops at no byte
    but a line terminator, at which the match fails. *)
Definition get_msg_after_command (line : str) : str :=
  let s1 := skip isspace line in
  let word1 := keep isword s1 in
  let s2 := skip isspace (skip isword s1) in
  let word2 := keep isword s2 in
  let group :=
    if decide (word1 = []) then None
    else if negb (bool_decide (word2 = [])) then Some (skip isspace (skip isword s2))
    else if (1 <? length word1)%nat then Some s2
    else None in
  match group with
  | Some str => if forallb not_newline str then str else ""
  | None => ""
  end.

(** [ret.history.count = std::stoi(s)], which stays 10 on an exception. *)
Definition history_count_of (parts : list str) : Z :=
  match parts with
  | _ :: _ :: n :: _ => match stoi n with Ret z => u64 z | _ => 10 end
  | _ => 10
  end.

Definition parse (string : str) : args_t :=
  let parts := split string " " in
  match parts with
  | [] => args_default NONE
  | part0 :: rest =>
      let cmd := lowercased part0 in
      if decide (cmd = "help") then args_default HELP
      else if decide (cmd = "quit") then args_default QUIT
      else if decide (cmd = "unchat") then args_default UNCHAT
      else if decide (cmd = "get_locations") then args_default GET_LOCATIONS
      else match rest with
      | [] => args_default NONE
      | part1 :: rest =>
          if decide (cmd = "chat_with") then with_chat CHAT_WITH_USER part1
          else if decide (cmd = "chat_with_location") then with_location CHAT_WITH_LOCATION part1
          else if decide (cmd = "register_g") then with_group REGISTER_GROUP part1 ""
          else if decide (cmd = "history") then with_history HISTORY_USER part1 (history_count_of parts)
          else if decide (cmd = "history_g") then with_history HISTORY_GROUP part1 (history_count_of parts)
          else if decide (cmd = "status") then with_status STATUS_USER part1
          else if decide (cmd = "status_g") then with_status STATUS_GROUP part1
          else match rest with
          | [] => args_default NONE
          | part2 :: _ =>
              if decide (cmd = "login") then with_login LOGIN part1 part2
              else if decide (cmd = "register") then with_reg REGISTER_USER part1 part2
              else if decide (cmd = "direct_msg") then
                with_direct DIRECT_MSG_USER part1 (get_msg_after_command string)
              else if decide (cmd = "add_to_g") then with_group ADD_TO_GROUP part2 part1
              else if decide (cmd = "direct_msg_g") then
                with_direct DIRECT_MSG_GROUP part1 (get_msg_after_command string)
              else args_default NONE
          end
      end
  end.
End Input.

(** ** Requests: namespace [cli_utils] *)

Definition build_request (resource content_type body : str) : str :=
  "POST " ++ resource ++ " HTTP/1.1\r\n" ++
  "Content-Length: " ++ to_string (Z.of_nat (length body)) ++ "\r\n" ++
  "Content-Type: " ++ content_type ++ "\r\n" ++
  "\r\n" ++ body.

Definition build_user_history_msg_body (from : Z) (name : str) (count : Z) (pass : str) : cxx str :=
  write
    [StartObject;
     Key "uid"; Uint64 from;
     Key "user"; String (c_str name);
     Key "count"; Uint64 count;
     Key "password"; String (c_str pass);
     EndObject].

Definition build_user_pass_body (user pass : str) : cxx str :=
  write
    [StartObject;
     Key "user"; String (c_str user);
     Key "password"; String (c_str pass);
     EndObject].

Definition build_user_send_msg_body (from ts : Z) (to msg pass : str) : cxx str :=
  write
    ([StartObject; Key "uid"; Uint64 from] ++
     (if decide (ts <> 0) then [Key "heartbit"; Uint64 ts] else []) ++
     [Key "to"; String (c_str to);
      Key "message"; String (c_str msg);
      Key "password"; String (c_str pass);
      EndObject]).

Definition build_groups_msg_body (from : Z) (groupname username message pass : str) : cxx str :=
  write
    ([StartObject;
      Key "uid"; Uint64 from;
      Key "chatname"; String (c_str groupname)] ++
     (if decide (username <> []) then [Key "adduser"; String (c_str username)] else []) ++
     (if decide (message <> []) then [Key "message"; String (c_str message)] else []) ++
     [Key "password"; String (c_str pass);
      EndObject]).

Definition build_get_locations_body (from : Z) (client_ip pass : str) : cxx str :=
  write
    [StartObject;
     Key "uid"; Uint64 from;
     Key "client_ip"; String (c_str client_ip);
     Key "password"; String (c_str pass);
     EndObject].

Definition build_location_body (from : Z) (city pass : str) : cxx str :=
  write
    [StartObject;
     Key "uid"; Uint64 from;
     Key "city"; String (c_str city);
     Key "password"; String (c_str pass);
     EndObject].

(** ** Replies *)

Record response_t := mkResponse { r_uid : Z; r_chatid : Z; r_heartbit : Z; r_server_ts : Z }.
Definition response_init : response_t := mkResponse 0 0 0 0.

Record loc_response_t := mkLocResponse { l_server_ts : Z; locations : list str }.
Record chat_loc_response_t := mkChatLocResponse { cl_server_ts : Z; users : list str }.

(** [msg_response_t] has the members of the server's [Message]. *)
Abbreviation msg_response_t := ApiMessage.

(** [if (it != MemberEnd()) x = it->value.GetUint64();] and the same with
    [GetString]. *)
Definition member_uint64 (v : json) (name : str) (default : Z) : cxx Z :=
  it ← FindMember v name;
  match it with Some x => GetUint64 x | None => mret default end.
Definition member_string (v : json) (name : str) (default : str) : cxx str :=
  it ← FindMember v name;
  match it with Some x => GetString x | None => mret default end.

Definition parse_response_aswer (json : str) (response : response_t) : cxx (str * response_t) :=
  match parse_document json with
  | None => mret ("bad request, invalid json" : str, response)
  | Some document =>
      uid ← member_uint64 document "id" (r_uid response);
      chatid ← member_uint64 document "chatid" (r_chatid response);
      heartbit ← member_uint64 document "heartbit" (r_heartbit response);
      server_ts ← member_uint64 document "server_ts" (r_server_ts response);
      mret ("" : str, mkResponse uid chatid heartbit server_ts)
  end.

Definition msg_response (v : json) : cxx msg_response_t :=
  ts ← member_uint64 v "ts" 0;
  from ← member_string v "from" "";
  to ← member_string v "to" "";
  msg ← member_string v "message" "";
  mret (mkApiMessage ts from to msg).

(** The loop over the array; it stops at an element that is no object. *)
Fixpoint parse_msgs (l : list json) (response : list msg_response_t) : cxx (str * list msg_response_t) :=
  match l with
  | [] => mret ("" : str, response)
  | v :: l' =>
      if negb (IsObject v) then mret ("bad format" : str, response)
      else r ← msg_response v; parse_msgs l' (response ++ [r])
  end.

Definition parse_msg_response (json : str) (response : list msg_response_t) : cxx (str * list msg_response_t) :=
  match parse_document json with
  | None => mret ("bad request, invalid json" : str, response)
  | Some document =>
      it ← FindMember document "msgs";
      match it with
      | None => mret ("bad message" : str, response)
      | Some (JArray l) => parse_msgs l response
      | Some _ => mret ("bad format" : str, response)
      end
  end.

(** The loops of the two location replies: [key] of every object. *)
Fixpoint collect (key : str) (l : list json) (out : list str) : cxx (list str) :=
  match l with
  | [] => mret out
  | v :: l' =>
      if IsObject v then
        it ← FindMember v key;
        match it with
        | Some x => s ← GetString x; collect key l' (out ++ [s])
        | None => collect key l' out
        end
      else collect key l' out
  end.

Definition member_list (document : json) (name key : str) (out : list str) : cxx (list str) :=
  it ← FindMember document name;
  match it with
  | Some (JArray l) => collect key l out
  | _ => mret out
  end.

Definition parse_location_response (json : str) (response : loc_response_t) : cxx (str * loc_response_t) :=
  match parse_document json with
  | None => mret ("bad request, invalid json" : str, response)
  | Some document =>
      server_ts ← member_uint64 document "server_ts" (l_server_ts response);
      l ← member_list document "locations" "location" (locations response);
      mret ("" : str, mkLocResponse server_ts l)
  end.

Definition parse_chat_loc_response (json : str) (response : chat_loc_response_t)
  : cxx (str * chat_loc_response_t) :=
  match parse_document json with
  | None => mret ("bad request, invalid json" : str, response)
  | Some document =>
      server_ts ← member_uint64 document "server_ts" (cl_server_ts response);
      l ← member_list document "users" "user" (users response);
      mret ("" : str, mkChatLocResponse server_ts l)
  end.

(** ** A command typed as the help says is understood *)

Module Commands.
Import Input.

(** The commands of the help text with their arguments. *)
Inductive typed :=
| Help | Unchat | Quit | Get_locations
| Login (user pass : str) | Register (user pass : str) | Register_g (group : str)
| Chat_with (user : str) | Chat_with_location (location : str)
| Add_to_g (user group : str)
| History (user : str) (n : Z) | History_g (group : str) (n : Z)
| Direct_msg (user msg : str) | Direct_msg_g (group msg : str)
| Status (user : str) | Status_g (group : str).

Definition render (c : typed) : str :=
  join (match c with
  | Help => [cmd2string HELP]
  | Unchat => [cmd2string UNCHAT]
  | Quit => [cmd2string QUIT]
  | Get_locations => [cmd2string GET_LOCATIONS]
  | Login user pass => [cmd2string LOGIN; user; pass]
  | Register user pass => [cmd2string REGISTER_USER; user; pass]
  | Register_g group => [cmd2string REGISTER_GROUP; group]
  | Chat_with user => [cmd2string CHAT_WITH_USER; user]
  | Chat_with_location location => [cmd2string CHAT_WITH_LOCATION; location]
  | Add_to_g user group => [cmd2string ADD_TO_GROUP; user; group]
  | History user n => [cmd2string HISTORY_USER; user; to_string n]
  | History_g group n => [cmd2string HISTORY_GROUP; group; to_string n]
  | Direct_msg user msg => [cmd2string DIRECT_MSG_USER; user; msg]
  | Direct_msg_g group msg => [cmd2string DIRECT_MSG_GROUP; group; msg]
  | Status user => [cmd2string STATUS_USER; user]
  | Status_g group => [cmd2string STATUS_GROUP; group]
  end) " ".

Definition meaning (c : typed) : args_t :=
  match c with
  | Help => args_default HELP
  | Unchat => args_default UNCHAT
  | Quit => args_default QUIT
  | Get_locations => args_default GET_LOCATIONS
  | Login user pass => with_login LOGIN user pass
  | Register user pass => with_reg REGISTER_USER user pass
  | Register_g group => with_group REGISTER_GROUP group ""
  | Chat_with user => with_chat CHAT_WITH_USER user
  | Chat_with_location location => with_location CHAT_WITH_LOCATION location
  | Add_to_g user group => with_group ADD_TO_GROUP group user
  | History user n => with_history HISTORY_USER user n
  | History_g group n => with_history HISTORY_GROUP group n
  | Direct_msg user msg => with_direct DIRECT_MSG_USER user msg
  | Direct_msg_g group msg => with_direct DIRECT_MSG_GROUP group msg
  | Status user => with_status STATUS_USER user
  | Status_g group => with_status STATUS_GROUP group
  end.

Definition no_space (s : str) : Prop := SP ∉ s.

(** A name the regular expression of the direct messages takes whole, and a
    text it keeps whole. *)
Definition word (s : str) : Prop := s <> [] /\ forallb isword s = true.
Definition text (s : str) : Prop := isspace (peek s) = false /\ forallb not_newline s = true.

Definition well_typed (c : typed) : Prop :=
  match c with
  | Help | Unchat | Quit | Get_locations => True
  | Login a b | Register a b | Add_to_g a b => no_space a /\ no_space b
  | Register_g a | Chat_with a | Chat_with_location a | Status a | Status_g a => no_space a
  | History a n | History_g a n => no_space a /\ 0 <= n < 2 ^ 31
  | Direct_msg a m | Direct_msg_g a m => word a /\ text m
  end.

Lemma isword_not_space c : isword c = true -> isspace c = false.
Proof. by_bytes (fun c => negb (isword c) || negb (isspace c)). Qed.

Lemma keep_word w t : forallb isword w = true -> isword (peek t) = false ->
  keep isword (w ++ t) = w /\ skip isword (w ++ t) = t.
Proof.
  intros Hw Ht. assert (Forall (fun c => isword c = true) w) as Hf
    by (apply Forall_forall; intros c Hc; eapply forallb_forall in Hw; [done|by apply list_elem_of_In]).
  rewrite keep_app_all, skip_app_all by done. destruct t as [|c t]; [by rewrite app_nil_r|].
  cbn [peek] in Ht. cbn [keep skip]. by rewrite Ht, app_nil_r.
Qed.

Lemma skip_space_word w t : word w -> skip isspace (w ++ t) = w ++ t.
Proof.
  intros [Hn Hw]. destruct w as [|c w]; [done|]. cbn [app skip]. cbn [forallb] in Hw.
  apply andb_true_iff in Hw as [Hc _]. by rewrite (isword_not_space c Hc).
Qed.

(** The text of a direct message comes back whole. *)
Lemma get_msg_after_command_ok w name msg :
  word w -> word name -> text msg -> get_msg_after_command (w ++ " " ++ name ++ " " ++ msg) = msg.
Proof.
  intros Hw Hn [Hs Hl]. unfold get_msg_after_command.
  rewrite skip_space_word by done. destruct (keep_word w (" " ++ name ++ " " ++ msg) (proj2 Hw) eq_refl) as [-> ->].
  cbn [app skip]. change (isspace " "%char) with true. cbn match.
  change (skip isspace (name ++ " "%char :: msg)) with (skip isspace (name ++ " " ++ msg)).
  rewrite skip_space_word by done. destruct (keep_word name (" " ++ msg) (proj2 Hn) eq_refl) as [-> ->].
  rewrite decide_False by (by destruct Hw). rewrite bool_decide_eq_false_2 by (by destruct Hn).
  cbn [negb app skip]. change (isspace " "%char) with true. cbn match.
  destruct msg as [|c msg]; [done|]. cbn [skip peek] in *. by rewrite Hs, Hl.
Qed.

Lemma word_no_space w : word w -> no_space w.
Proof.
  intros [_ Hw] Hin. eapply forallb_forall in Hw; [|by apply list_elem_of_In]. done.
Qed.

Lemma join_two a b : join [a; b] " " = a ++ " " ++ b.
Proof. by rewrite join_cons2, join_cons, app_nil_r. Qed.
Lemma join_three a b c : join [a; b; c] " " = a ++ " " ++ b ++ " " ++ c.
Proof. by rewrite join_cons2, join_two. Qed.

Lemma split_two a b : no_space a -> split (a ++ " " ++ b) " " = a :: split b " ".
Proof. apply (split_app SP []). Qed.

Lemma history_count_ok a b n : 0 <= n < 2 ^ 31 -> history_count_of [a; b; to_string n] = n.
Proof.
  intros Hn. unfold history_count_of. rewrite stoi_to_string by (unfold in_s; lia).
  apply wrap_small. unfold in_u. lia.
Qed.

Lemma parse_render_at c : well_typed c -> parse (render c) = meaning c.
Proof.
  intros Hc. destruct c; unfold render, well_typed, meaning in *.
  1-4: by vm_compute.
  all: rewrite ?join_two, ?join_three; unfold parse; rewrite split_two by (apply word_no_space; by split).
  all: match goal with |- context [lowercased (cmd2string ?c)] =>
         let w := eval vm_compute in (lowercased (cmd2string c)) in
         change (lowercased (cmd2string c)) with w end.
  all: cbv zeta; repeat (rewrite decide_False by discriminate).
  all: try (destruct Hc as [H1 H2]).
  all: rewrite ?split_two by (done || by apply word_no_space).
  all: rewrite ?(split_absent SP []) by (done || (apply to_string_free; [lia|done])).
  all: try destruct (split msg " ") as [|m ms] eqn:Em; try (by destruct (split_nonempty msg " " ltac:(done) Em)).
  all: repeat (rewrite decide_False by discriminate); rewrite decide_True by done; try done.
  all: first [by rewrite history_count_ok | by rewrite get_msg_after_command_ok].
Qed.

(** A command typed in the form of the help text is parsed into that
    command and those arguments: whatever the names, and, in a direct message,
    with the text as it stands, spaces included. *)
Theorem parse_render c : well_typed c -> parse (render c) = meaning c.
Proof. apply parse_render_at. Qed.
End Commands.

Definition typed_example : Commands.typed := Commands.Direct_msg "bob" "see you  at 5 - ok?".

Lemma parse_render_witness :
  Input.parse "DIRECT_MSG bob see you  at 5 - ok?" = Input.with_direct Input.DIRECT_MSG_USER "bob" "see you  at 5 - ok?".
Proof.
  apply (Commands.parse_render typed_example).
  repeat split; try (by vm_compute); discriminate.
Defined.

(** A name that is not a word is cut: what follows its first part is sent as
    the beginning of the message. *)
Lemma direct_msg_name_cut :
  Input.parse "direct_msg mary-ann hi" = Input.with_direct Input.DIRECT_MSG_USER "mary-ann" "-ann hi".
Proof. by vm_compute. Qed.

(** ** A request of the client is what the server receives *)

Lemma to_string_peek n : 0 <= n -> isspace (peek (to_string n)) = false /\ to_string n <> [].
Proof.
  intros Hn. rewrite to_string_nonneg by done. pose proof (dec_nonempty n) as Hne.
  pose proof (dec_digits n Hn) as Hd. split; [|done]. destruct (dec n) as [|c l]; [done|].
  apply Forall_inv in Hd. cbn [peek]. by destruct (isdigit_props c Hd) as (? & ? & ?).
Qed.

Definition request_headers (content_type body : str) : headers_t :=
  [("Content-Length", to_string (Z.of_nat (length body))); ("Content-Type", content_type)].

Lemma build_request_message resource content_type body :
  build_request resource content_type body =
  message ("POST " ++ resource ++ " HTTP/1.1") (request_headers content_type body) body.
Proof.
  unfold build_request, message, head_lines, request_headers, header_line. cbn [fmap list_fmap fst snd].
  rewrite !join_cons2, join_cons. unfold CRLF. cbn [fmap list_fmap List.concat].
  rewrite ?app_nil_r. simpl. rewrite <- ?app_assoc. simpl. rewrite <- ?app_assoc. done.
Qed.

(** What a server makes of a request: [HttpReply] of its head. *)
Definition request_head (resource content_type body : str) : HttpReply :=
  mkReply 0 (join (head_lines ("POST " ++ resource ++ " HTTP/1.1") (request_headers content_type body)) CRLF)
    [] "post" resource (request_headers content_type body).

(** A header value as the code writes them. *)
Definition plain_value (v : str) : Prop := v <> [] /\ isspace (peek v) = false /\ CR ∉ v.

#[export] Instance plain_value_dec v : Decision (plain_value v) := _.

Lemma content_length_line n : 0 <= n -> good_line (header_line ("Content-Length", to_string n)) /\
  good_header ("Content-Length", to_string n).
Proof.
  intros Hn. destruct (to_string_peek n Hn) as [Hp Hne]. split.
  - split; [done|]. unfold header_line. cbn [fst snd]. rewrite !not_elem_of_app.
    split_and!; [vm_compute; set_solver..|by apply to_string_free].
  - split_and!; try done. vm_compute. set_solver.
Qed.

Lemma header_value_line k v : good_line k -> ":"%char ∉ k -> plain_value v ->
  good_line (header_line (k, v)) /\ good_header (k, v).
Proof.
  intros [Hk Hc] Hcol (Hv & Hs & Hcv). split; [|done]. unfold header_line. cbn [fst snd]. split.
  - by destruct k.
  - rewrite !not_elem_of_app. split_and!; try done. vm_compute. set_solver.
Qed.

Lemma build_request_received_at `{Zlib} s resource content_type body rest :
  (CR ∉ resource) -> (SP ∉ resource) -> plain_value content_type ->
  Z.of_nat (length body) < 2 ^ 64 ->
  stream s = build_request resource content_type body ++ rest ->
  exists s', asyncResponse s =
    Some (Ret (None, set_body body (request_head resource content_type body), s')) /\
    stream s' = rest /\ net_end s' = net_end s.
Proof.
  intros Hr Hsp Hct Hlen Hs. rewrite build_request_message in Hs.
  set (start := "POST " ++ resource ++ " HTTP/1.1") in *.
  destruct (content_length_line (Z.of_nat (length body)) ltac:(lia)) as [L1 G1].
  destruct (header_value_line "Content-Type" content_type) as [L2 G2]; [|vm_compute; set_solver|done|].
  { split; [done|vm_compute; set_solver]. }
  assert (Forall good_line (head_lines start (request_headers content_type body))) as Hl.
  { apply Forall_cons_2; [|by apply Forall_cons_2; [|apply Forall_cons_2; [|apply Forall_nil_2]]]. split; [done|]. unfold start.
    rewrite !not_elem_of_app. split_and!; try done; vm_compute; set_solver. }
  assert (split start " " = ["POST"; resource; "HTTP/1.1"]) as Hsplit.
  { unfold start. change ("POST " ++ resource ++ " HTTP/1.1") with ("POST" ++ [SP] ++ resource ++ [SP] ++ "HTTP/1.1").
    change (" " : str) with [SP]. rewrite (split_app SP []) by (vm_compute; set_solver).
    rewrite (split_app SP []) by done. f_equal. }
  eapply asyncResponse_message; [exact Hs|exact Hl| |].
  - rewrite (parse_head_lines _ _ _ _ _ Hl (Forall_cons_2 _ _ _ G1 (Forall_cons_2 _ _ _ G2 (Forall_nil_2 _))) Hsplit).
    change (starts_with (lowercased "POST") "http/") with false. cbv zeta match.
    unfold hasHeader, getHeader. cbn [_parsedHeaders set_parsed].
    change (foldl _ [] _) with (request_headers content_type body).
    change (headers_find "Content-Length" (request_headers content_type body))
      with (Some ("Content-Length" : str, to_string (Z.of_nat (length body)))).
    cbv match. rewrite stoul_to_string by (unfold in_u; lia). done.
  - done.
Qed.

(** A request of the client, whatever its body, is received by the
    server as that method, resource and body, and what follows it on the
    connection is left for the next request: the body may hold any bytes, blank
    lines and further requests included. *)
Theorem build_request_received `{Zlib} s resource content_type body rest :
  (CR ∉ resource) -> (SP ∉ resource) -> plain_value content_type ->
  Z.of_nat (length body) < 2 ^ 64 ->
  stream s = build_request resource content_type body ++ rest ->
  exists s', asyncResponse s =
    Some (Ret (None, set_body body (request_head resource content_type body), s')) /\
    stream s' = rest /\ net_end s' = net_end s.
Proof. apply build_request_received_at. Qed.

#[local] Existing Instance no_zlib.

(** A body that looks like another request, before the next one. *)
Definition nested_body : str := "x\r\n\r\nPOST /".
Definition nested_request : Socket :=
  mkSocket [] [] [build_request "/v1/idle" "application/json" nested_body; "NEXT"] [].

Lemma build_request_received_witness :
  exists s', asyncResponse nested_request =
    Some (Ret (None, set_body nested_body (request_head "/v1/idle" "application/json" nested_body), s')) /\
    stream s' = "NEXT" /\ net_end s' = net_end nested_request.
Proof.
  apply (build_request_received nested_request "/v1/idle" "application/json" nested_body "NEXT");
    try (vm_compute; set_solver); try done.
Defined.

(** ** The replies of the server are understood by the client *)

Lemma user_reply_understood_at u now r :
  user_in_range u -> in_u 64 now ->
  exists body, ok_body_user u now = Ret body /\
    parse_response_aswer body r = Ret ("" : str, mkResponse (u_id u) (u_self_chat_id u) (u_heartbit u) now).
Proof.
  intros Hu Hn. eexists. split; [by apply ok_body_user_ok|]. destruct Hu as (H1 & H2 & H3).
  unfold parse_response_aswer. rewrite parse_printed by (repeat split; by apply printable_num).
  unfold user_json, member_uint64. find_members. by rewrite !GetUint64_num.
Qed.

(** The answer to a login or a status query, as the server writes it,
    is read by the client as the user's id, chat and last sign of life, and
    the server's time. *)
Theorem user_reply_understood u now r :
  user_in_range u -> in_u 64 now ->
  exists body, ok_body_user u now = Ret body /\
    parse_response_aswer body r = Ret ("" : str, mkResponse (u_id u) (u_self_chat_id u) (u_heartbit u) now).
Proof. apply user_reply_understood_at. Qed.

(** The messages as the client shows them: texts cut at a terminator. *)
Definition as_shown (m : ApiMessage) : msg_response_t :=
  mkApiMessage (a_ts m) (c_str (a_from m)) (c_str (a_to m)) (c_str (a_msg m)).

Lemma msg_response_json m : in_u 64 (a_ts m) -> msg_response (msg_json m) = Ret (as_shown m).
Proof.
  intros H. unfold msg_response, member_uint64, member_string, msg_json.
  find_members. by rewrite GetUint64_num, !GetString_c_str.
Qed.

Lemma parse_msgs_json msgs out :
  Forall (fun m => in_u 64 (a_ts m)) msgs ->
  parse_msgs (msg_json <$> msgs) out = Ret ("" : str, out ++ (as_shown <$> msgs)).
Proof.
  intros H. revert out. induction H as [|m msgs Hm Hms IH]; intros out; [by rewrite app_nil_r|].
  cbn [fmap list_fmap parse_msgs]. change (IsObject (msg_json m)) with true. cbn [negb].
  rewrite msg_response_json by done. cbn [mbind cxx_bind]. by rewrite IH, <- app_assoc.
Qed.

Lemma msgs_reply_understood_at msgs now :
  Forall (fun m => in_u 64 (a_ts m)) msgs -> in_u 64 now ->
  exists body, ok_body_msgs msgs now = Ret body /\
    parse_msg_response body [] = Ret ("" : str, as_shown <$> msgs).
Proof.
  intros H Hn. eexists. split; [by apply ok_body_msgs_ok|]. unfold parse_msg_response.
  rewrite parse_printed by by apply msgs_json_printable.
  unfold msgs_json. find_members. by apply (parse_msgs_json msgs []).
Qed.

(** A list of messages sent by the server, to a history query or to an
    idle client, is read by the client as the same messages in the same
    order. *)
Theorem msgs_reply_understood msgs now :
  Forall (fun m => in_u 64 (a_ts m)) msgs -> in_u 64 now ->
  exists body, ok_body_msgs msgs now = Ret body /\
    parse_msg_response body [] = Ret ("" : str, as_shown <$> msgs).
Proof. apply msgs_reply_understood_at. Qed.

Lemma collect_json key items out :
  no_nul key ->
  collect key ((fun item => JObject [(c_str key, JString (c_str item))]) <$> items) out = Ret (out ++ (c_str <$> items)).
Proof.
  intros Hk. revert out. induction items as [|x items IH]; intros out; [by rewrite app_nil_r|].
  cbn [fmap list_fmap collect IsObject]. rewrite FindMember_hit by by apply bool_decide_eq_true_2.
  cbn [mbind cxx_bind]. rewrite GetString_c_str. cbn [mbind cxx_bind]. by rewrite IH, <- app_assoc.
Qed.

(** The list of locations the server sends is the list the client
    shows, the empty names left out. *)
Theorem locations_reply_understood items now r :
  in_u 64 now ->
  exists body, ok_body_items "location" items now = Ret body /\
    parse_location_response body r =
      Ret ("" : str, mkLocResponse now (locations r ++ (c_str <$> filter (fun item => item <> []) items))).
Proof.
  intros Hn. eexists. split; [by apply ok_body_items_ok|]. unfold parse_location_response.
  rewrite parse_printed by by apply items_json_printable.
  unfold items_json, member_uint64, member_list. find_members. rewrite GetUint64_num by done.
  cbn [mbind cxx_bind].
  change (c_str "location") with ("location" : str). rewrite (collect_json "location"); [done|].
  apply (bool_decide_unpack _). by vm_compute.
Qed.

Definition sample_user : User := mkUser 7 12 "al\qice" "1" [] [] [] 100.

Lemma user_reply_understood_witness :
  exists body, ok_body_user sample_user 105 = Ret body /\
    parse_response_aswer body response_init = Ret ("" : str, mkResponse 7 12 100 105).
Proof. apply (user_reply_understood sample_user 105 response_init); [by repeat split|done]. Defined.

Definition sample_msgs : list ApiMessage := [mkApiMessage 5 "al\qice" "bob" "one\n"; mkApiMessage 6 "bob" "al\qice" "two"].

Lemma msgs_reply_understood_witness :
  exists body, ok_body_msgs sample_msgs 9 = Ret body /\ parse_msg_response body [] = Ret ("" : str, sample_msgs).
Proof. apply (msgs_reply_understood sample_msgs 9); [by repeat constructor|done]. Defined.

Lemma locations_reply_understood_witness :
  exists body, ok_body_items "location" ["Moscow"; ""; "Tver"] 9 = Ret body /\
    parse_location_response body (mkLocResponse 0 []) = Ret ("" : str, mkLocResponse 9 ["Moscow"; "Tver"]).
Proof. apply (locations_reply_understood ["Moscow"; ""; "Tver"] 9 (mkLocResponse 0 [])). done. Defined.
