(* ===== verification/Tests.v ===== *)
(** * tests/src/client_tests.cpp: the unit tests of the repository

    Every [TEST_CASE] runs on the definitions of ClientUtils as it runs on
    the functions those translate.  A [REQUIRE] whose expression is false or
    throws ends its case; a failed assertion of the JSON library would end
    the program.  The tests are not part of the build (their lines of
    src/Makefile are comments), and two of them do not pass. *)

From S2P Require Import Prelude CxxString Utils Json ApiUtils ClientUtils.
Import Input.

(** ** Catch: a case is its requirements, in order *)

Inductive outcome := Passed | Failed | Crashed.

#[export] Instance outcome_eq_dec : EqDecision outcome.
Proof. solve_decision. Defined.

Fixpoint run_case (requires : list (cxx bool)) : outcome :=
  match requires with
  | [] => Passed
  | Ret true :: rest => run_case rest
  | Ret false :: _ | Throw _ :: _ => Failed
  | AssertFail :: _ => Crashed
  end.

Definition is_true (b : bool) : cxx bool := Ret b.

(** [REQUIRE(f(...) == answer)]. *)
Definition returns {A} `{EqDecision A} (f : cxx A) (answer : A) : cxx bool :=
  real_answ ← f; mret (bool_decide (real_answ = answer)).

(** ** The commands *)

Definition test_parse : list (cxx bool) :=
  let cmd_is (string : str) (answer : cmd_t) := bool_decide (cmd (parse string) = answer) in
  let member (string : str) (f : args_t -> str) (answer : str) := bool_decide (f (parse string) = answer) in
  is_true <$>
  [ cmd_is "help" HELP;
    cmd_is "unchat" UNCHAT;
    (let string := "login name password" in
     cmd_is string LOGIN && member string login_name "name" && member string login_pass "password");
    (let string := "register name password" in
     cmd_is string REGISTER_USER && member string reg_name "name" && member string reg_pass "password");
    (let string := "history name " in
     cmd_is string HISTORY_USER && member string history_name "name");
    (let string := "direct_msg name blablabla" in
     cmd_is string DIRECT_MSG_USER && member string direct_name "name" &&
     member string direct_message "blablabla");
    (let string := "status name " in
     cmd_is string STATUS_USER && member string status_name "name");
    cmd_is "quit" QUIT;
    (let string := "chat_with name" in
     cmd_is string CHAT_WITH_USER && member string chat_name "name");
    (let string := "chat_with_location name" in
     cmd_is string CHAT_WITH_LOCATION && member string location_location "name");
    cmd_is "get_locations" GET_LOCATIONS;
    cmd_is "qqwqww qewqew qweneqw" NONE ].

(** ** The replies *)

Definition test_parse_msg_response : list (cxx bool) :=
  [ returns (r ← parse_msg_response "json" []; mret r.1) "bad request, invalid json" ].

Definition test_parse_response_answer : list (cxx bool) :=
  [ returns (r ← parse_response_aswer "json" response_init; mret r.1) "bad request, invalid json" ].

(** ** The requests *)

Definition test_build_request : list (cxx bool) :=
  [ returns (mret (build_request "resourse" "content_type" "body"))
      "POST resourse HTTP/1.1\nContent-Length: 4\nContent-Type: content_type\n\nbody" ].

Definition test_build_user_pass_body : list (cxx bool) :=
  [ returns (build_user_pass_body "user" "pas") "{\quser\q:\quser\q,\qpassword\q:\qpas\q}" ].

Definition test_build_get_locations_body : list (cxx bool) :=
  [ returns (build_get_locations_body 0 "188.10.10.10" "pas")
      "{\quid\q:0,\qclient_ip\q:\q188.10.10.10\q,\qpassword\q:\qpas\q}" ].

Definition test_build_location_body : list (cxx bool) :=
  [ returns (build_location_body 0 "country" "pas")
      "{\quid\q:0,\qcountry\q:\qcountry\q,\qpassword\q:\qpas\q}" ].

Definition test_build_user_send_msg_body : list (cxx bool) :=
  [ returns (build_user_send_msg_body 0 0 "to" "msg" "pass")
      "{\quid\q:0,\qto\q:\qto\q,\qmessage\q:\qmsg\q,\qpassword\q:\qpass\q}" ].

Definition test_build_user_history_msg_body : list (cxx bool) :=
  [ returns (build_user_history_msg_body 0 "name" 0 "pass")
      "{\quid\q:0,\quser\q:\qname\q,\qcount\q:0,\qpassword\q:\qpass\q}" ].

(** ** The run *)

Definition client_tests : list (str * list (cxx bool)) :=
  [ ("test parse" : str, test_parse);
    ("test pasre_msg_response" : str, test_parse_msg_response);
    ("test pasre_response_answer" : str, test_parse_response_answer);
    ("test build request" : str, test_build_request);
    ("test build user pass body" : str, test_build_user_pass_body);
    ("test build get locations body" : str, test_build_get_locations_body);
    ("test build location body" : str, test_build_location_body);
    ("test build_user_send_msg_body" : str, test_build_user_send_msg_body);
    ("test build_user_history_msg_body" : str, test_build_user_history_msg_body) ].

(** The cases that do not pass. *)
Definition failing (cases : list (str * list (cxx bool))) : list (str * outcome) :=
  filter (fun c => c.2 <> Passed) ((fun c => (c.1, run_case c.2)) <$> cases).

(** A case passes exactly when each of its requirements does. *)
Lemma run_case_passed l : run_case l = Passed <-> Forall (fun r => r = Ret true) l.
Proof.
  induction l as [|r l IH]; cbn [run_case]; [by split|].
  rewrite Forall_cons, <- IH. destruct r as [[]| |]; naive_solver.
Qed.

(** Two cases fail, each because the code has changed since: requests end
    their lines with a carriage return, and the location is sent as a
    [city].  All others pass. *)
Theorem tests_failing :
  failing client_tests = [("test build request" : str, Failed); ("test build location body" : str, Failed)].
Proof. vm_compute. reflexivity. Qed.

(** The two failing ones are about what the code writes instead. *)
Theorem stale_tests_now :
  build_request "resourse" "content_type" "body" =
    "POST resourse HTTP/1.1\r\nContent-Length: 4\r\nContent-Type: content_type\r\n\r\nbody" /\
  build_location_body 0 "country" "pas" =
    Ret "{\quid\q:0,\qcity\q:\qcountry\q,\qpassword\q:\qpas\q}".
Proof. vm_compute. by split. Qed.
