(* ===== verification/Connect.v ===== *)
(** * Connecting to one of several addresses: net/async_connect.hpp, net/sync_connect.hpp

    [RangeConnectOp] tries the endpoints one after the other and reports to
    a handler; [SyncConnector] does so for [sync_connect] of net/client.cpp,
    which waits on a condition variable while a timer runs.  Both are
    machines moved by the completions of the socket and of the timer.
    Opening a socket and connecting it are the operating system's: which
    endpoints open is a parameter, the outcome of a connect is an event. *)

From S2P Require Import Prelude.

(** [boost::system::error_code], when it is set. *)
Inductive errc := operation_aborted | timed_out | not_found | no_recovery | other (message : str).

#[export] Instance errc_eq_dec : EqDecision errc.
Proof. solve_decision. Defined.

Section connect.
Context {Endpoint : Type} (open : Endpoint -> option errc).

(** ** RangeConnectOp *)

Record RangeConnectOp := mkOp { m_Endpoints : list Endpoint; m_Index : nat }.

(** What the operation waits for: the completion of a connect to the
    endpoint of its index, or nothing, the handler having been called (or
    posted) with a result. *)
Inductive phase :=
| Connecting (op : RangeConnectOp)
| Handled (ec : option errc) (endpoint : option Endpoint).

Definition start_connect (op : RangeConnectOp) (endpoint : Endpoint) : phase :=
  match open endpoint with
  | Some ec => Handled (Some ec) None
  | None => Connecting op
  end.

(** The [assert] of a non-empty range fails the process: [None]. *)
Definition RangeConnectOp_start (op : RangeConnectOp) : option phase :=
  match m_Endpoints op with
  | [] => None
  | endpoint :: _ => Some (start_connect op endpoint)
  end.

(** [operator()(ec)]: the completion of a connect. *)
Definition completed (op : RangeConnectOp) (ec : option errc) : phase :=
  match ec with
  | None => Handled None (m_Endpoints op !! m_Index op)
  | Some operation_aborted => Handled (Some operation_aborted) None
  | Some e =>
      let op' := mkOp (m_Endpoints op) (S (m_Index op)) in
      match m_Endpoints op !! m_Index op' with
      | Some endpoint => start_connect op' endpoint
      | None => Handled (Some e) None
      end
  end.

Definition asyncConnect (endpoints : list Endpoint) : option phase := RangeConnectOp_start (mkOp endpoints 0).

(** The operation under the completions [ecs], in order. *)
Fixpoint run (p : phase) (ecs : list (option errc)) : phase :=
  match p, ecs with
  | Connecting op, ec :: ecs' => run (completed op ec) ecs'
  | _, _ => p
  end.

(** ** SyncConnector *)

(** [SyncConnectContext]; [connecting] says whether a connect is under way
    whose handler has not run yet. *)
Record SyncConnectContext := mkCtx {
  endpoints : list Endpoint;
  next_endpoint : nat;
  timer_finished : bool;
  connect_finished : bool;
  connect_result : option errc;
  connecting : bool }.

Definition finish_connect (ec : option errc) (c : SyncConnectContext) : SyncConnectContext :=
  mkCtx (endpoints c) (next_endpoint c) (timer_finished c) true ec false.

Definition startConnect (last_error : option errc) (c : SyncConnectContext) : SyncConnectContext :=
  match endpoints c !! next_endpoint c with
  | None => finish_connect (Some (default not_found last_error)) c
  | Some endpoint =>
      match open endpoint with
      | Some open_error => finish_connect (Some open_error) c
      | None => mkCtx (endpoints c) (next_endpoint c) (timer_finished c) (connect_finished c) (connect_result c) true
      end
  end.

Definition async_connect_handler (ec : option errc) (c : SyncConnectContext) : SyncConnectContext :=
  let c := mkCtx (endpoints c) (next_endpoint c) (timer_finished c) (connect_finished c) (connect_result c) false in
  match ec with
  | None => finish_connect None c
  | Some _ =>
      if timer_finished c then finish_connect (Some timed_out) c
      else
        startConnect ec
          (mkCtx (endpoints c) (S (next_endpoint c)) (timer_finished c) (connect_finished c) (connect_result c)
             (connecting c))
  end.

(** [timer_callback], which runs when the timer expires or is cancelled.
    Cancelling the socket makes a connect under way complete with an error. *)
Definition timer_callback (c : SyncConnectContext) : SyncConnectContext :=
  mkCtx (endpoints c) (next_endpoint c) true (connect_finished c) (connect_result c) (connecting c).

Definition SyncConnector_start (endpoints : list Endpoint) : SyncConnectContext :=
  startConnect None (mkCtx endpoints 0 false false None false).

(** The condition [sync_connect] waits for, and what it throws then. *)
Definition waiting (c : SyncConnectContext) : bool := negb (timer_finished c) || negb (connect_finished c).
Definition sync_connect_result (c : SyncConnectContext) : cxx unit :=
  match connect_result c with
  | None => Ret tt
  | Some _ => Throw (runtime_error "connect failed : ")
  end.

Inductive sync_step : SyncConnectContext -> SyncConnectContext -> Prop :=
| step_timer c : timer_finished c = false -> sync_step c (timer_callback c)
| step_connect c ec : connecting c = true -> sync_step c (async_connect_handler ec c).

(** ** The endpoints are tried in order until one accepts *)

(** [ecs] are completions that refuse a connect: the next one is tried. *)
Definition refusals (ecs : list (option errc)) : Prop :=
  Forall (fun ec => exists e, ec = Some e /\ e <> operation_aborted) ecs.

Lemma completed_refused op e :
  e <> operation_aborted ->
  completed op (Some e) =
    match m_Endpoints op !! S (m_Index op) with
    | Some endpoint => start_connect (mkOp (m_Endpoints op) (S (m_Index op))) endpoint
    | None => Handled (Some e) None
    end.
Proof. by destruct e. Qed.

Lemma run_refusals eps i ecs rest :
  refusals ecs -> (i + length ecs < length eps)%nat -> Forall (fun e => open e = None) eps ->
  run (Connecting (mkOp eps i)) (ecs ++ rest) = run (Connecting (mkOp eps (i + length ecs))) rest.
Proof.
  intros Hr. revert i. induction Hr as [|ec ecs (e & -> & He) Hr IH]; intros i Hi Ho; [by rewrite Nat.add_0_r|].
  cbn [length app run] in *. rewrite completed_refused by done. cbn [m_Endpoints m_Index].
  destruct (lookup_lt_is_Some_2 eps (S i)) as [ep Hep]; [lia|]. rewrite Hep.
  unfold start_connect. rewrite (proj1 (Forall_lookup _ _) Ho _ _ Hep), IH by (done || lia).
  by replace (S i + length ecs)%nat with (i + S (length ecs))%nat by lia.
Qed.

Lemma asyncConnect_starts eps :
  Forall (fun e => open e = None) eps -> eps <> [] -> asyncConnect eps = Some (Connecting (mkOp eps 0)).
Proof.
  intros Ho Hn. destruct eps as [|e0 eps]; [done|]. unfold asyncConnect, RangeConnectOp_start, start_connect.
  cbn [m_Endpoints]. by rewrite (Forall_inv Ho).
Qed.

(** [asyncConnect] tries the addresses in their order and hands its
    caller the first one that accepts, when the ones before it refuse. *)
Theorem asyncConnect_first eps ecs ep rest :
  Forall (fun e => open e = None) eps -> refusals ecs -> eps !! length ecs = Some ep ->
  exists p, asyncConnect eps = Some p /\ run p (ecs ++ None :: rest) = Handled None (Some ep).
Proof.
  intros Ho Hr Hep. pose proof (lookup_lt_Some _ _ _ Hep) as Hl.
  eexists. split; [apply asyncConnect_starts; [done|by intros ->]|]. rewrite run_refusals by done. cbn [run].
  unfold completed. cbn [m_Endpoints m_Index Nat.add]. rewrite Hep. by destruct rest.
Qed.

(** When all refuse, the last error is reported. *)
Lemma asyncConnect_refused eps ecs e rest :
  Forall (fun e => open e = None) eps -> refusals ecs -> S (length ecs) = length eps -> e <> operation_aborted ->
  exists p, asyncConnect eps = Some p /\ run p (ecs ++ Some e :: rest) = Handled (Some e) None.
Proof.
  intros Ho Hr Hn He.
  eexists. split; [apply asyncConnect_starts; [done|by intros ->]|]. rewrite run_refusals by (done || lia). cbn [run].
  rewrite completed_refused by done. cbn [m_Endpoints m_Index Nat.add].
  rewrite (lookup_ge_None_2 eps) by lia. by destruct rest.
Qed.

(** An address whose socket cannot be opened ends the attempt: the ones
    after it are not tried. *)
Lemma asyncConnect_open_fails ep eps e :
  open ep = Some e -> asyncConnect (ep :: eps) = Some (Handled (Some e) None).
Proof.
  intros Ho. unfold asyncConnect, RangeConnectOp_start, start_connect. cbn [m_Endpoints]. by rewrite Ho.
Qed.

(** ** [sync_connect] does not wait for ever *)

(** While the connect is not finished one is under way, and the other way
    round; a success is that of the endpoint in turn. *)
Definition sync_ok (c : SyncConnectContext) : Prop :=
  connecting c = negb (connect_finished c) /\
  (next_endpoint c <= length (endpoints c))%nat /\
  (connecting c = true -> is_Some (endpoints c !! next_endpoint c)) /\
  (connect_finished c = true -> connect_result c = None -> is_Some (endpoints c !! next_endpoint c)).

Lemma startConnect_ok last c :
  connect_finished c = false -> (next_endpoint c <= length (endpoints c))%nat -> sync_ok (startConnect last c).
Proof.
  intros Hf Hn. unfold startConnect. destruct (endpoints c !! next_endpoint c) as [ep|] eqn:E; [destruct (open ep)|];
    unfold sync_ok; cbn; rewrite ?Hf, ?E; split_and!; try done; eauto.
Qed.

Lemma sync_step_inv c c' :
  sync_step c c' ->
  (timer_finished c = false /\ c' = timer_callback c) \/
  (exists ec, connecting c = true /\ c' = async_connect_handler ec c).
Proof. destruct 1; eauto. Qed.

Lemma sync_step_ok c c' : sync_ok c -> sync_step c c' -> sync_ok c'.
Proof.
  intros (Hc & Hn & Hi & Hs) [(_ & ->)|(ec & Hcon & ->)]%sync_step_inv.
  - by split_and!.
  - destruct (Hi Hcon) as [ep Hep]. pose proof (lookup_lt_Some _ _ _ Hep) as Hlt.
    rewrite Hcon in Hc. destruct (connect_finished c) eqn:Hf; [done|].
    unfold async_connect_handler. destruct ec as [e|]; cbn [timer_finished].
    + destruct (timer_finished c); [by unfold sync_ok|]. apply startConnect_ok; [done|cbn; lia].
    + unfold sync_ok. cbn. rewrite Hep. split_and!; try done; eauto.
Qed.

(** How many completions can still come. *)
Definition sync_measure (c : SyncConnectContext) : nat :=
  (if connect_finished c then 0 else S (length (endpoints c) - next_endpoint c)) + (if timer_finished c then 0 else 1).

Lemma startConnect_measure last c :
  connect_finished c = false ->
  (sync_measure (startConnect last c) <= sync_measure c)%nat.
Proof.
  intros Hf. unfold startConnect, sync_measure. repeat case_match; cbn; rewrite ?Hf in *; simplify_eq/=; lia.
Qed.

(** [sync_connect] always comes back.  While it waits, the timer or a
    connect is still to complete, so that some completion moves it; every
    completion brings it closer to the end, whatever their order; and after the
    timer has run one completion of a connect ends the wait, with success or
    with a time-out. *)
Theorem sync_connect_ends c0 c :
  rtc sync_step (SyncConnector_start c0) c ->
  (waiting c = true -> exists c', sync_step c c') /\
  (forall c', sync_step c c' -> (sync_measure c' < sync_measure c)%nat) /\
  (timer_finished c = true -> forall ec c', c' = async_connect_handler ec c -> connecting c = true ->
     waiting c' = false /\ connect_result c' = (match ec with None => None | Some _ => Some timed_out end)).
Proof.
  intros Hr. assert (sync_ok c) as Hok.
  { revert Hr. assert (sync_ok (SyncConnector_start c0)) as H0 by (apply startConnect_ok; [done|cbn; lia]).
    induction 1; [done|]. eauto using sync_step_ok. }
  destruct Hok as (Hc & Hn & Hi & Hs). split_and!.
  - unfold waiting. destruct (timer_finished c) eqn:Ht.
    + cbn. intros Hf. exists (async_connect_handler None c). constructor. by rewrite Hc.
    + intros _. exists (timer_callback c). by constructor.
  - intros c' [(Ht & ->)|(ec & Hcon & ->)]%sync_step_inv.
    + unfold sync_measure. cbn. rewrite Ht. lia.
    + destruct (Hi Hcon) as [ep Hep]. pose proof (lookup_lt_Some _ _ _ Hep) as Hlt.
      rewrite Hcon in Hc. destruct (connect_finished c) eqn:Hf; [done|].
      unfold async_connect_handler. destruct ec as [e|]; [destruct (timer_finished c) eqn:Ht|].
      * unfold sync_measure. cbn. rewrite Hf, Ht. cbn. lia.
      * cbn [timer_finished].
        eapply Nat.le_lt_trans; [apply startConnect_measure; done|]. unfold sync_measure. cbn. rewrite ?Hf, ?Ht. cbn. lia.
      * unfold sync_measure. cbn. rewrite ?Hf, ?Ht. cbn. lia.
  - intros Ht ec c' -> Hcon. unfold async_connect_handler. cbn [timer_finished]. rewrite Ht.
    destruct ec; unfold waiting; cbn; by rewrite ?Ht.
Qed.
End connect.

Lemma asyncConnect_first_witness :
  exists p, asyncConnect (fun _ : Z => None) [1; 2; 3] = Some p /\
    run (fun _ => None) p [Some (other "refused"); None] = Handled None (Some 2).
Proof.
  apply (asyncConnect_first (fun _ : Z => None) [1; 2; 3] [Some (other "refused")] 2 []);
    [by repeat constructor|constructor; [by exists (other "refused")|constructor]|done].
Defined.

Lemma sync_connect_ends_witness :
  let c := timer_callback (SyncConnector_start (fun _ => None) [1; 2]) in
  waiting c = true /\ (exists c', sync_step (fun _ : Z => None) c c').
Proof.
  split; [done|]. apply (sync_connect_ends (fun _ : Z => None) [1; 2]); [|done].
  eapply rtc_l; [by apply step_timer|apply rtc_refl].
Defined.
