(* ===== verification/Tcp.v ===== *)
(** * The life of a connection: net/client.cpp, net/client.hpp

    [BasicTcpClient] around a socket: opening, naming its ends, closing;
    [resolve]; the connects of [TcpClient] and [AsyncHttpClient], with the
    TLS handshake; and [asyncWrite], whose buffer is a member.  Reading and
    the messages are in Http, the two connectors in Connect.  The resolver,
    the names of a socket's ends and the handshake are the system's and
    Boost's, and are parameters. *)

From S2P Require Import Prelude CxxString Connect.

Section Connection.
Context {Endpoint : Type}.

(** ** Parameters *)

(** The IPv4 addresses of a name, the message of the code [not_found], and
    [std::random_shuffle]. *)
Class Resolver := {
  resolver_resolve : str -> str -> cxx (list Endpoint);
  not_found_message : str;
  random_shuffle : list Endpoint -> list Endpoint;
  random_shuffle_perm : forall l, random_shuffle l ≡ₚ l }.

(** The ends of a connected socket and their text; [inl] is an error. *)
Class SocketNames := {
  remote_endpoint : errc + Endpoint;
  local_endpoint : errc + Endpoint;
  address_to_string : Endpoint -> errc + str }.

(** ** [resolve] *)

(** The loop counts the addresses and keeps each of them. *)
Definition resolve `{Resolver} (host : str) (port : Z) : cxx (list Endpoint) :=
  found ← resolver_resolve host (to_string port);
  let ips_found := length found in
  let valid_domains := random_shuffle found in
  if bool_decide (valid_domains = []) && negb (ips_found =? 0)%nat then
    Throw (runtime_error "connect failed : all resolved IPs are blacklisted")
  else if (ips_found =? 0)%nat then Throw (runtime_error ("connect failed : " ++ not_found_message))
  else Ret valid_domains.

(** ** [BasicTcpClient] *)

Record BasicTcpClient := mkTcp {
  m_Timeout : Z;
  m_IsOpen : bool;
  m_Ssl : bool;
  lowest_open : bool;            (* [lowestLayer().is_open()] *)
  m_RemoteAddr : str;
  m_LocalAddr : str }.

(** The constructor of a client and that of an accepted connection, which
    leaves [m_Timeout] unset. *)
Definition BasicTcpClient_client (ssl : bool) (timeout : Z) : BasicTcpClient := mkTcp timeout false ssl false [] [].
Definition BasicTcpClient_server (unset : Z) : BasicTcpClient := mkTcp unset false true false [] [].

Definition setTimeout (val : Z) (c : BasicTcpClient) : Z * BasicTcpClient :=
  (m_Timeout c, mkTcp val (m_IsOpen c) (m_Ssl c) (lowest_open c) (m_RemoteAddr c) (m_LocalAddr c)).

Definition set_open (v : bool) (c : BasicTcpClient) : BasicTcpClient :=
  mkTcp (m_Timeout c) v (m_Ssl c) (lowest_open c) (m_RemoteAddr c) (m_LocalAddr c).
Definition set_lowest (v : bool) (c : BasicTcpClient) : BasicTcpClient :=
  mkTcp (m_Timeout c) (m_IsOpen c) (m_Ssl c) v (m_RemoteAddr c) (m_LocalAddr c).
Definition set_remote (v : str) (c : BasicTcpClient) : BasicTcpClient :=
  mkTcp (m_Timeout c) (m_IsOpen c) (m_Ssl c) (lowest_open c) v (m_LocalAddr c).
Definition set_local (v : str) (c : BasicTcpClient) : BasicTcpClient :=
  mkTcp (m_Timeout c) (m_IsOpen c) (m_Ssl c) (lowest_open c) (m_RemoteAddr c) v.

Definition isOpen (c : BasicTcpClient) : bool := if negb (m_IsOpen c) then false else lowest_open c.

Definition close (c : BasicTcpClient) : BasicTcpClient := set_lowest false (set_open false c).

(** [addressToString]: an empty text and the code when it fails. *)
Definition addressToString `{SocketNames} (endpoint : Endpoint) : str * option errc :=
  match address_to_string endpoint with inl ec => ([], Some ec) | inr s => (s, None) end.

(** Each failure returns at once; [m_IsOpen] is set before all of them. *)
Definition makeConnected `{SocketNames} (c : BasicTcpClient) : option errc * BasicTcpClient :=
  let c := set_open true c in
  match remote_endpoint with
  | inl ec => (Some ec, c)
  | inr remote =>
      let '(addr, ec) := addressToString remote in
      let c := set_remote addr c in
      match ec with
      | Some ec => (Some ec, c)
      | None =>
          match local_endpoint with
          | inl ec => (Some ec, c)
          | inr local =>
              let '(addr, ec) := addressToString local in
              (ec, set_local addr c)
          end
      end
  end.

(** [AsyncHttpClient] holds the socket by a pointer that may be null. *)
Definition http_isOpen (m_Socket : option BasicTcpClient) : bool :=
  match m_Socket with Some c => isOpen c | None => false end.
Definition http_close (m_Socket : option BasicTcpClient) : option BasicTcpClient := close <$> m_Socket.

(** ** Connecting *)

Section connecting.
Context `{Resolver} `{SocketNames} (open : Endpoint -> option errc).

(** [sync_connect] resolves the name, starts the connector and the timer, and
    throws the result; [waited] is what its wait ends with for the
    addresses, a state in which the machine of Connect does not wait. *)
Definition sync_connect (host : str) (port : Z) (waited : list Endpoint -> SyncConnectContext (Endpoint := Endpoint)) : cxx unit :=
  endpoints ← resolve host port;
  sync_connect_result (waited endpoints).

Definition TcpClient_connect (host : str) (port : Z) (waited : list Endpoint -> SyncConnectContext (Endpoint := Endpoint))
    (c : BasicTcpClient) : cxx BasicTcpClient :=
  _ ← sync_connect host port waited;
  match makeConnected c with
  | (Some _, _) => Throw (runtime_error "make connected failed: ")
  | (None, c) => Ret c
  end.

(** What the user's handler is called with, when it is called: [None] for no
    error.  [handshake] is the end of the TLS handshake, when it has ended. *)
Definition handleHandshake (error : option errc) : option errc :=
  match error with Some e => Some e | None => None end.

Definition handleConnect (error : option errc) (handshake : option (option errc)) (c : BasicTcpClient)
    : option (option errc) :=
  match error with
  | Some e => Some (Some e)
  | None => if negb (m_Ssl c) then Some None else handleHandshake <$> handshake
  end.

(** [TcpClient::asyncConnect] under the completions [ecs] of the socket's
    connects: what its handler is called with, when it is called. *)
Definition TcpClient_asyncConnect (host : str) (port : Z) (ecs : list (option errc)) (c : BasicTcpClient)
    : option (option (option errc) * BasicTcpClient) :=
  match resolve host port with
  | Ret hosts =>
      p ← asyncConnect open hosts;
      match run open p ecs with
      | Connecting _ => Some (None, c)
      | Handled (Some e) _ => Some (Some (Some e), c)
      | Handled None _ => let '(ec, c) := makeConnected (set_lowest true c) in Some (Some ec, c)
      end
  | _ => Some (Some (Some no_recovery), c)
  end.

(** [AsyncHttpClient::asyncConnect] under the completions [ecs] of the
    socket's connects.  The outer [None] is the failed assertion of
    [::asyncConnect] on an empty range. *)
Definition http_asyncConnect (host : str) (port : Z) (ecs : list (option errc)) (handshake : option (option errc))
    (c : BasicTcpClient) : option (option (option errc) * BasicTcpClient) :=
  match resolve host port with
  | Ret hosts =>
      p ← asyncConnect open hosts;
      match run open p ecs with
      | Connecting _ => Some (None, c)
      | Handled (Some e) _ => Some (handleConnect (Some e) handshake c, c)
      | Handled None _ =>
          let '(ec, c) := makeConnected (set_lowest true c) in
          Some (handleConnect ec handshake c, c)
      end
  | _ => Some (Some (Some no_recovery), c)
  end.

Definition asyncHandshakeAsServer (handshake : option (option errc)) (c : BasicTcpClient) : option (option errc) :=
  if negb (m_Ssl c) then Some None else handshake.

(** The HTTP client connects as the TCP client does, and then shakes hands. *)
Lemma http_connect_is_tcp host port ecs handshake c :
  http_asyncConnect host port ecs handshake c =
  '(r, c) ← TcpClient_asyncConnect host port ecs c;
  Some (match r with
        | None => None
        | Some ec => if decide (is_Some ec) then Some ec else handleConnect ec handshake c
        end, c).
Proof.
  unfold http_asyncConnect, TcpClient_asyncConnect. destruct (resolve host port) as [hosts|e|]; [|done..].
  destruct (asyncConnect open hosts) as [p|]; [|done]. simpl.
  destruct (run open p ecs) as [|[e|] ep]; [done..|]. by destruct (makeConnected _) as [[e|] c'].
Qed.

(** What [resolve] returns are the addresses of the name, in some order, and
    there is one; the branch of the blacklisted addresses is never taken. *)
Lemma resolve_cases host port :
  match resolve host port with
  | Ret hosts => hosts <> [] /\ exists found, resolver_resolve host (to_string port) = Ret found /\ hosts ≡ₚ found
  | Throw e => resolver_resolve host (to_string port) = Throw e \/
      (resolver_resolve host (to_string port) = Ret [] /\ e = runtime_error ("connect failed : " ++ not_found_message))
  | AssertFail => resolver_resolve host (to_string port) = AssertFail
  end.
Proof.
  unfold resolve. destruct (resolver_resolve host (to_string port)) as [found|e|]; simpl; [|by left|done].
  pose proof (random_shuffle_perm found) as Hp. destruct found as [|x found]; simpl.
  - rewrite andb_false_r. by right.
  - rewrite bool_decide_eq_false_2; simpl.
    + split; [|by eexists]. intros E. rewrite E in Hp. by apply Permutation_nil_l in Hp.
    + intros E. rewrite E in Hp. by apply Permutation_nil_l in Hp.
Qed.

Lemma makeConnected_open c : m_IsOpen (makeConnected c).2 = true.
Proof.
  unfold makeConnected, addressToString. destruct remote_endpoint as [|remote]; [done|].
  destruct (address_to_string remote); [done|]. destruct local_endpoint as [|local]; [done|].
  by destruct (address_to_string local).
Qed.

Lemma makeConnected_ok c c' :
  makeConnected c = (None, c') ->
  exists remote, remote_endpoint = inr remote /\ address_to_string remote = inr (m_RemoteAddr c') /\
    m_IsOpen c' = true /\ lowest_open c' = lowest_open c /\ m_Ssl c' = m_Ssl c.
Proof.
  unfold makeConnected, addressToString. destruct remote_endpoint as [|remote]; [done|].
  destruct (address_to_string remote) eqn:E; [done|]. destruct local_endpoint as [|local]; [done|].
  destruct (address_to_string local); [done|]. intros [= <-]. by exists remote.
Qed.

(** The connect of the HTTP client never fails the assertion of the
    connector, because [resolve] returns an address or throws.  When its
    handler is told of a success the name had addresses, the connect to one
    of them was accepted, the connection is open, the address of the peer is
    known, and a TLS connection has finished its handshake. *)
Theorem http_connect_ok host port ecs handshake c :
  exists r c', http_asyncConnect host port ecs handshake c = Some (r, c') /\
    (r = Some None ->
       isOpen c' = true /\
       (exists hosts p endpoint, resolve host port = Ret hosts /\ asyncConnect open hosts = Some p /\
          run open p ecs = Handled None endpoint) /\
       (exists remote, remote_endpoint = inr remote /\ address_to_string remote = inr (m_RemoteAddr c')) /\
       (m_Ssl c = true -> handshake = Some None)).
Proof.
  unfold http_asyncConnect. pose proof (resolve_cases host port) as Hres.
  destruct (resolve host port) as [hosts|e|] eqn:Er; [|by eexists _, _..].
  destruct Hres as [Hne _].
  assert (exists p, asyncConnect open hosts = Some p) as [p Hp] by (destruct hosts; [done|by eexists]).
  rewrite Hp. simpl. destruct (run open p ecs) as [op|[e|] endpoint] eqn:Hrun; [by eexists _, _..|].
  destruct (makeConnected (set_lowest true c)) as [[ec|] c'] eqn:Ec; [by eexists _, _|].
  eexists _, c'. split; [done|]. intros Hr.
  apply makeConnected_ok in Ec as (remote & Hremote & Haddr & Hopen & Hlow & Hssl). simpl in Hlow, Hssl. split_and!.
  - unfold isOpen. by rewrite Hopen.
  - by exists hosts, p, endpoint.
  - by exists remote.
  - intros Hs. unfold handleConnect in Hr. rewrite Hssl, Hs in Hr. simpl in Hr.
    by destruct handshake as [[|]|].
Qed.
End connecting.
End Connection.

(** ** [asyncWrite]: one buffer for all writes

    The data is moved into the member [m_WriteBuffer], and
    [boost::asio::async_write] keeps a pointer into it until its handler is
    called.  The writes under way carry the number of the string they
    point into; a string assigned to the member takes the place of the one
    before.  [None] stands for a write from memory that is gone. *)

Record WriteOp := mkWriteOp { op_string : nat; op_offset : nat }.

Record Wire := mkWire {
  m_WriteBuffer : str;
  current : nat;
  pending : list WriteOp;
  sent : str }.

Definition asyncWrite (data : str) (w : Wire) : Wire :=
  mkWire data (S (current w)) (pending w ++ [mkWriteOp (S (current w)) 0]) (sent w).

Definition shrinkToFit (w : Wire) : Wire := mkWire [] (S (current w)) (pending w) (sent w).

(** [AsyncHttpClient::asyncRequest]; its handler is told the error and not
    the count. *)
Definition asyncRequest (request : str) (w : Wire) : Wire := asyncWrite request w.

(** The socket takes [n] bytes of the [i]-th write; the handler of a write
    all of whose bytes are taken is called. *)
Definition takes (i n : nat) (w : Wire) : option Wire :=
  match pending w !! i with
  | None => Some w
  | Some op =>
      if decide (op_string op <> current w) then None
      else
        let bytes := take n (drop (op_offset op) (m_WriteBuffer w)) in
        let op' := mkWriteOp (op_string op) (op_offset op + length bytes) in
        Some (mkWire (m_WriteBuffer w) (current w)
          (if decide (op_offset op' = length (m_WriteBuffer w)) then delete i (pending w) else <[i := op']> (pending w))
          (sent w ++ bytes))
  end.

Fixpoint take_all (ns : list nat) (w : Wire) : option Wire :=
  match ns with
  | [] => Some w
  | n :: ns => w ← takes 0 n w; take_all ns w
  end.

(** A write that is alone: some of its bytes are on the wire, and when it is
    done all of them are. *)
Definition writing (data before : str) (w : Wire) : Prop :=
  m_WriteBuffer w = data /\
  ((pending w = [] /\ sent w = before ++ data) \/
   exists k, pending w = [mkWriteOp (current w) k] /\ sent w = before ++ take k data /\ (k <= length data)%nat).

Lemma takes_writing data before n w : writing data before w ->
  exists w', takes 0 n w = Some w' /\ writing data before w'.
Proof.
  intros [Hb [[Hp Hs]|(k & Hp & Hs & Hk)]]; unfold takes; rewrite Hp; simpl.
  - exists w. split; [done|]. split; [done|by left].
  - rewrite decide_False by (by intros Hn; apply Hn). eexists. split; [done|]. split; [done|]. simpl. rewrite Hb, Hs.
    assert (take k data ++ take n (drop k data) = take (k + n) data) as Ht by by rewrite take_take_drop.
    rewrite <- app_assoc, Ht, length_take, length_drop.
    case_decide as Hl.
    + left. split; [done|]. f_equal. apply take_ge. lia.
    + right. exists (k + n `min` (length data - k))%nat. split_and!; [done| |lia].
      f_equal. destruct (decide (n <= length data - k)%nat); [f_equal; lia|].
      rewrite !take_ge by lia. done.
Qed.

(** If a write is started only when none is under way, the wire gets its
    bytes behind those of the writes before, however the socket takes them;
    if another one is started before it is done, the first goes on from
    memory that is gone. *)
Theorem writes_one_at_a_time data w :
  pending w = [] ->
  (forall ns, exists w', take_all ns (asyncWrite data w) = Some w' /\
     sent w' `prefix_of` sent w ++ data /\ (pending w' = [] -> sent w' = sent w ++ data)) /\
  (forall ns w' other n, take_all ns (asyncWrite data w) = Some w' -> pending w' <> [] ->
     takes 0 n (asyncWrite other w') = None).
Proof.
  intros Hp.
  assert (forall ns w1, writing data (sent w) w1 -> exists w', take_all ns w1 = Some w' /\ writing data (sent w) w') as Hall.
  { induction ns as [|n ns IH]; intros w1 Hw; simpl; [by exists w1|].
    destruct (takes_writing _ _ n _ Hw) as (w2 & -> & Hw2). by apply IH. }
  assert (writing data (sent w) (asyncWrite data w)) as H0.
  { split; [done|]. right. exists 0%nat. unfold asyncWrite. simpl. rewrite Hp, take_0, app_nil_r. split_and!; [done|done|lia]. }
  split.
  - intros ns. destruct (Hall ns _ H0) as (w' & -> & Hb & [[Hp' Hs]|(k & Hp' & Hs & Hk)]); exists w'; split; try done.
    + rewrite Hs. by split.
    + rewrite Hs. split; [|by rewrite Hp']. apply prefix_app. by exists (drop k data); rewrite take_drop.
  - intros ns w' other n Hr Hne. destruct (Hall ns _ H0) as (w2 & E & Hb & Hw). rewrite Hr in E. injection E as <-.
    destruct Hw as [[Hp' _]|(k & Hp' & _)]; [done|].
    unfold takes, asyncWrite. simpl. rewrite Hp'. simpl. by rewrite decide_True by lia.
Qed.

Lemma writes_one_at_a_time_witness :
  exists w', take_all [2%nat; 5%nat] (asyncWrite "abc" (mkWire [] 0 [] "xy")) = Some w' /\ sent w' = "xyabc".
Proof.
  destruct (writes_one_at_a_time "abc" (mkWire [] 0 [] "xy") eq_refl) as [Hone _].
  destruct (Hone [2%nat; 5%nat]) as (w' & E & _ & Hs). exists w'. split; [exact E|].
  rewrite Hs; [done|]. vm_compute in E. injection E as <-. done.
Defined.

(** Two addresses, of which the first refuses. *)
#[local] Instance two_addresses : Resolver (Endpoint := nat) := {|
  resolver_resolve := fun _ _ => Ret [1%nat; 2%nat]; not_found_message := "Host not found";
  random_shuffle := fun l => l; random_shuffle_perm := fun l => Permutation_refl l |}.
#[local] Instance two_names : SocketNames (Endpoint := nat) := {|
  remote_endpoint := inr 2%nat; local_endpoint := inr 7%nat; address_to_string := fun _ => inr ("10.0.0.2" : str) |}.

Lemma http_connect_ok_witness :
  exists c', http_asyncConnect (fun _ => None) "geo" 443 [Some timed_out; None] (Some None) (BasicTcpClient_client true 10) =
    Some (Some None, c') /\ isOpen c' = true.
Proof.
  destruct (http_connect_ok (fun _ => None) "geo" 443 [Some timed_out; None] (Some None) (BasicTcpClient_client true 10))
    as (r & c' & E & Hok).
  assert (r = Some None) as -> by (vm_compute in E; by injection E as <- <-).
  exists c'. split; [exact E|]. by apply Hok.
Defined.
