(* ===== verification/TimedRead.v ===== *)
(** * The blocking reads of net/client.cpp and their timers

    [read] and [read_until] of [BasicTcpClient] start an asynchronous read
    and a timer on the service of the socket, which runs the two handlers one
    after the other (a strand), and wait on a service of their own for the
    first handler that posts to it.  The handlers refer to variables of the
    waiting call.  The wait is a machine: its events are the completions of
    the two operations, the handlers, and the waking of the caller.

    A handler runs on a thread of the service of the socket.  The functions
    are meant for a caller that is another thread; in the program the callers
    are handlers, on the only thread of their service
    (common/io_thread.hpp:38), and the machine has both cases.  That the
    program never comes to wait is [asyncResponse_never_waits] of [Http]. *)

From S2P Require Import Prelude CxxString Connect Http Tcp.

(** ** The wait *)

(** An asynchronous operation: under way, completed with its handler not yet
    run, or over. *)
Inductive op := Pending | Ready (ec : option errc) (transferred : nat) | Over.

(** What the caller does once it is awake. *)
Inductive outcome := TimedOut | ReadFailed (ec : errc) | ReadDone (bytes : nat).

(** The variables of the call: the results of the handlers, the count, and
    the handlers posted to [local_io].  [returned]: the call is over, and
    its variables are gone; [dangling]: a handler has used them since.
    [expired] and [arrived] record what completed by itself. *)
Record Wait := mkWait {
  timer_op : op;
  read_op : op;
  timer_result : option (option errc);
  read_result : option (option errc);
  bytes : nat;
  posted : nat;
  returned : option outcome;
  dangling : bool;
  expired : bool;
  arrived : option (option errc * nat) }.

Definition Wait_start : Wait := mkWait Pending Pending None None 0 0 None false false None.

Definition set_timer (o : op) (w : Wait) : Wait :=
  mkWait o (read_op w) (timer_result w) (read_result w) (bytes w) (posted w) (returned w) (dangling w) (expired w) (arrived w).
Definition set_read (o : op) (w : Wait) : Wait :=
  mkWait (timer_op w) o (timer_result w) (read_result w) (bytes w) (posted w) (returned w) (dangling w) (expired w) (arrived w).

(** [cancel]: an operation under way completes with an error; one that has
    completed is not affected, though its handler has not run. *)
Definition cancelled (o : op) : op := match o with Pending => Ready (Some operation_aborted) 0 | _ => o end.

(** The use of the variables of the call. *)
Definition on_frame (f : Wait -> Wait) (w : Wait) : Wait :=
  match returned w with
  | None => f w
  | Some _ => mkWait (timer_op w) (read_op w) (timer_result w) (read_result w) (bytes w) (posted w) (returned w) true (expired w) (arrived w)
  end.

Definition read_completed (error : option errc) (transferred : nat) (w : Wait) : Wait :=
  if decide (error = Some operation_aborted) then w
  else on_frame (fun w =>
    mkWait (cancelled (timer_op w)) (read_op w) (timer_result w) (Some error)
      (match error with None => transferred | Some _ => bytes w end) (S (posted w))
      (returned w) (dangling w) (expired w) (arrived w)) w.

Definition timeout_expired (error : option errc) (w : Wait) : Wait :=
  if decide (error = Some operation_aborted) then w
  else
    let w := set_read (cancelled (read_op w)) w in
    on_frame (fun w =>
      mkWait (timer_op w) (read_op w) (Some error) (read_result w) (bytes w) (S (posted w))
        (returned w) (dangling w) (expired w) (arrived w)) w.

(** Behind [run_one]. *)
Definition wait_result (w : Wait) : outcome :=
  match timer_result w with
  | Some _ => TimedOut
  | None => match read_result w with Some (Some ec) => ReadFailed ec | _ => ReadDone (bytes w) end
  end.

Inductive wait_event :=
| Expires                                              (* the timer *)
| Arrives (error : option errc) (transferred : nat)    (* the read completes *)
| Cancelled                                            (* someone calls [cancel] on the socket *)
| TimerHandler
| ReadHandler
| Wakes.

Section wait.

(** Whether a thread other than the caller's runs the service of the socket. *)
Context (served : bool).

(** While the call waits its own thread runs no handler. *)
Definition handlers_run (w : Wait) : bool :=
  served || match returned w with Some _ => true | None => false end.

(** [None]: the event cannot happen. *)
Definition wait_step (e : wait_event) (w : Wait) : option Wait :=
  match e with
  | Expires =>
      match timer_op w with
      | Pending => Some (mkWait (Ready None 0) (read_op w) (timer_result w) (read_result w) (bytes w) (posted w)
                           (returned w) (dangling w) true (arrived w))
      | _ => None
      end
  | Arrives error n =>
      match read_op w with
      | Pending =>
          if decide (error = Some operation_aborted) then None
          else Some (mkWait (timer_op w) (Ready error n) (timer_result w) (read_result w) (bytes w) (posted w)
                       (returned w) (dangling w) (expired w) (Some (error, n)))
      | _ => None
      end
  | Cancelled => match read_op w with Pending => Some (set_read (cancelled Pending) w) | _ => None end
  | TimerHandler =>
      if handlers_run w then
        match timer_op w with Ready ec _ => Some (timeout_expired ec (set_timer Over w)) | _ => None end
      else None
  | ReadHandler =>
      if handlers_run w then
        match read_op w with Ready ec n => Some (read_completed ec n (set_read Over w)) | _ => None end
      else None
  | Wakes =>
      match returned w, posted w with
      | None, S _ =>
          (* the call ends; its timer is destroyed, which cancels it *)
          Some (mkWait (cancelled (timer_op w)) (read_op w) (timer_result w) (read_result w) (bytes w) (posted w)
                  (Some (wait_result w)) (dangling w) (expired w) (arrived w))
      | _, _ => None
      end
  end.

Definition wait_run (es : list wait_event) : option Wait := foldl (fun w e => w ≫= wait_step e) (Some Wait_start) es.
End wait.

(** ** The calls *)

(** The [timeout] of the two functions, an [int] that the member, an
    [unsigned int], stands in for. *)
Definition read_timeout (timeout : Z) (c : BasicTcpClient) : Z := if timeout <? 0 then i32 (m_Timeout c) else timeout.

(** [error_code::message()]. *)
Class ErrorMessages := errc_message : errc -> str.

Section calls.
Context `{ErrorMessages}.

Definition timed_read_until (delimiter : str) (o : outcome) (s : Socket) : cxx (nat * Socket) :=
  match o with
  | TimedOut => Throw (runtime_error "async read timeout")
  | ReadFailed ec => Throw (runtime_error ("read failed: " ++ errc_message ec))
  | ReadDone bytes => Ret (bytes, read_from_buffer s delimiter bytes)
  end.

(** [read] has its bytes in place when the read is done: [data]. *)
Definition timed_read (need_bytes : nat) (o : outcome) (resp data : str) (s : Socket) : cxx (nat * Socket) :=
  match o with
  | TimedOut => Throw (runtime_error "async read timeout")
  | ReadFailed ec => Throw (runtime_error ("read failed: " ++ errc_message ec))
  | ReadDone _ => Ret (need_bytes, mkSocket (m_Streambuf s) (resp ++ data) (net s) (net_end s))
  end.
End calls.

(** ** The invariant *)

Record wait_ok (w : Wait) : Prop := {
  wo_timer_ready : forall ec n, timer_op w = Ready ec n ->
    (ec = None /\ expired w = true) \/ (ec = Some operation_aborted /\ posted w <> 0%nat);
  wo_timer_over : timer_op w = Over -> posted w <> 0%nat;
  wo_timer_result : is_Some (timer_result w) -> expired w = true /\ timer_op w = Over;
  wo_read_ready : forall ec n, read_op w = Ready ec n -> ec = Some operation_aborted \/ arrived w = Some (ec, n);
  wo_read_pending : posted w <> 0%nat -> read_op w <> Pending;
  wo_read_result : forall ec, read_result w = Some ec ->
    read_op w = Over /\ exists n, arrived w = Some (ec, n) /\ (ec = None -> bytes w = n);
  wo_posted : posted w <> 0%nat -> is_Some (timer_result w) \/ is_Some (read_result w);
  wo_returned : forall o, returned w = Some o -> posted w <> 0%nat /\
    match o with
    | TimedOut => expired w = true
    | ReadFailed ec => exists n, arrived w = Some (Some ec, n)
    | ReadDone n => arrived w = Some (None, n)
    end;
  wo_dangling : dangling w = true -> expired w = true /\ is_Some (arrived w) }.

Lemma wait_start_ok : wait_ok Wait_start.
Proof. by split; try done; intros []. Qed.

Lemma cancelled_pending o : cancelled o <> Pending.
Proof. by destruct o. Qed.
Lemma cancelled_ready o ec n :
  cancelled o = Ready ec n -> (o = Pending /\ ec = Some operation_aborted) \/ o = Ready ec n.
Proof. destruct o; intros [= <- <-]; auto. Qed.
Lemma cancelled_over o : cancelled o = Over -> o = Over.
Proof. by destruct o. Qed.

(** Uses the fields of [wait_ok] whose hypothesis is there. *)
Ltac settle :=
  intros; simplify_eq/=;
  repeat match goal with
    | Hf : forall ec, Some ?x = Some ec -> _ /\ _ |- _ => specialize (Hf x eq_refl)
    | Hf : forall ec n, Ready ?x ?y = Ready ec n -> _ |- _ => pose proof (Hf x y eq_refl); clear Hf
    | Hf : is_Some ?t -> _ /\ _, Hs : is_Some ?t |- _ => destruct (Hf Hs); clear Hf
    | Hf : is_Some (Some ?t) -> _ /\ _ |- _ => destruct (Hf (mk_is_Some _ t eq_refl)); clear Hf
    | Hf : forall o, ?r = Some o -> _ /\ _, Hs : ?r = Some ?x |- _ => destruct (Hf x Hs); clear Hf
    | Hf : ?d = true -> _ /\ _, Hs : ?d = true |- _ => destruct (Hf Hs); clear Hf
    | Hf : true = true -> _ |- _ => specialize (Hf eq_refl)
    | Hf : Over = Over -> _ |- _ => specialize (Hf eq_refl)
    | Hf : ?p <> 0%nat -> ?q, Hs : ?p <> 0%nat |- _ => specialize (Hf Hs)
    | Hf : S _ <> 0%nat -> _ |- _ => specialize (Hf (Nat.neq_succ_0 _))
    | Hf : _ \/ _ |- _ => destruct Hf
    | Hf : _ /\ _ |- _ => destruct Hf
    | Hf : exists _, _ |- _ => destruct Hf
    | Hf : cancelled _ = Ready _ _ |- _ => apply cancelled_ready in Hf as [[? ?]|?]; simplify_eq/=
    | Hf : cancelled _ = Over |- _ => apply cancelled_over in Hf
    | Hf : is_Some ?x |- _ => is_var x; destruct Hf; simplify_eq/=
    | o : outcome |- _ => destruct o
    end;
  simplify_eq/=; try done; eauto 4 using cancelled_pending.

Lemma wait_step_ok served e w w' : wait_ok w -> wait_step served e w = Some w' -> wait_ok w'.
Proof.
  intros [Ht Ho Hr Hrr Hrp Hres Hp Hret Hd] E.
  destruct w as [tm rd tr rr b p ret dg ex ar]. cbn in *.
  destruct e; cbn in E.
  - destruct tm; simplify_eq/=. split; cbn; settle.
  - destruct rd; simplify_eq/=. case_decide; simplify_eq/=. split; cbn; settle.
  - destruct rd; simplify_eq/=. split; cbn; settle.
  - case_match; [|done]. destruct tm as [|ec n|]; simplify_eq/=. unfold timeout_expired, on_frame, set_read, set_timer. cbn.
    case_decide as Hec; [split; cbn; settle|]. 
    destruct ret; split; cbn; settle.
  - case_match; [|done]. destruct rd as [|ec n|]; simplify_eq/=. unfold read_completed, on_frame, set_read. cbn.
    case_decide as Hec; [split; cbn; settle|].
    destruct ret; split; cbn; settle. split; [done|]. eexists. split; [done|]. by intros ->.
  - destruct ret, p; simplify_eq/=. split; cbn; settle. split; [done|]. unfold wait_result. cbn.
    destruct tr; [by apply Hr|]. destruct x; [by eexists|]. do 2 f_equal. symmetry. eauto.
Qed.

Lemma wait_run_snoc served es e : wait_run served (es ++ [e]) = wait_run served es ≫= wait_step served e.
Proof. unfold wait_run. by rewrite foldl_app. Qed.

(** Induction on a run, from its last event. *)
Lemma wait_run_ind served (P : list wait_event -> Wait -> Prop) :
  P [] Wait_start ->
  (forall es e w w', wait_run served es = Some w -> P es w -> wait_step served e w = Some w' -> P (es ++ [e]) w') ->
  forall es w, wait_run served es = Some w -> P es w.
Proof.
  intros H0 Hs es. induction es as [|e es IH] using rev_ind; intros w E; [by injection E as <-|].
  rewrite wait_run_snoc in E. destruct (wait_run served es) as [w1|] eqn:E1; [|done]. eauto.
Qed.

Lemma wait_run_ok served es w : wait_run served es = Some w -> wait_ok w.
Proof. revert es w. apply (wait_run_ind served (fun _ => wait_ok)); eauto using wait_start_ok, wait_step_ok. Qed.

(** ** The wait ends *)

(** What moves the wait although the peer is silent and nobody cancels. *)
Definition of_its_own (e : wait_event) : bool := match e with Arrives _ _ | Cancelled => false | _ => true end.

Definition op_weight (o : op) : nat := match o with Pending => 2 | Ready _ _ => 1 | Over => 0 end.
Definition wait_measure (w : Wait) : nat :=
  op_weight (timer_op w) + op_weight (read_op w) + match returned w with None => 1 | Some _ => 0 end.

Lemma cancelled_weight o : (op_weight (cancelled o) <= op_weight o)%nat.
Proof. destruct o; simpl; lia. Qed.

Lemma wait_step_measure served e w w' : wait_step served e w = Some w' -> (wait_measure w' < wait_measure w)%nat.
Proof.
  intros E. destruct w as [tm rd tr rr b p ret dg ex ar]. unfold wait_measure.
  pose proof (cancelled_weight tm). pose proof (cancelled_weight rd).
  destruct e; cbn in E; unfold timeout_expired, read_completed, on_frame in E; repeat case_match; simplify_eq/=; lia.
Qed.

(** Without another thread nobody posts to the service the caller waits on. *)
Lemma wait_unserved es w : wait_run false es = Some w -> posted w = 0%nat /\ returned w = None.
Proof.
  revert es w. apply (wait_run_ind false (fun _ w => posted w = 0%nat /\ returned w = None)); [done|].
  intros es e w w' _ [Hp Hr] E. destruct w as [tm rd tr rr b p ret dg ex ar]. cbn in *. subst p ret.
  destruct e; cbn in E; repeat case_match; by simplify_eq/=.
Qed.

(** C29: a blocking read and its timer.  Where a thread other than the
    caller's runs the service of the socket, the call comes back: while it
    waits, its timer or a handler can go on without the peer, every event
    brings the wait closer to its end, and a run has at most five events.
    Where there is no such thread, as on the I/O threads of this program, a
    call that has to wait never comes back.  What a caller gets is what
    completed: the bytes or the error of the read, or a timeout when the
    timer has expired. *)
Theorem timed_read_ends served es w :
  wait_run served es = Some w ->
  (served = true -> returned w = None ->
    exists e w', of_its_own e = true /\ wait_step served e w = Some w') /\
  (forall e w', wait_step served e w = Some w' -> (wait_measure w' < wait_measure w)%nat) /\
  (length es <= 5)%nat /\
  (served = false -> returned w = None) /\
  (forall o, returned w = Some o ->
    match o with
    | TimedOut => expired w = true
    | ReadFailed ec => exists n, arrived w = Some (Some ec, n)
    | ReadDone n => arrived w = Some (None, n)
    end).
Proof.
  intros E. pose proof (wait_run_ok _ es w E) as Hok. split_and!.
  - intros -> Hret. destruct (timer_op w) as [|ec n|] eqn:Ht.
    + exists Expires. unfold wait_step. rewrite Ht. by eexists.
    + exists TimerHandler. unfold wait_step. rewrite Ht. by eexists.
    + exists Wakes. unfold wait_step. rewrite Hret. destruct (posted w) eqn:Hp; [by apply Hok in Ht|]. by eexists.
  - intros e w' Hs. by eapply wait_step_measure.
  - enough (wait_measure w + length es <= 5)%nat by lia.
    clear Hok. revert es w E. apply (wait_run_ind served (fun es w => wait_measure w + length es <= 5)%nat).
    + simpl. lia.
    + intros es e w w' _ IH E%wait_step_measure. rewrite length_app. simpl. lia.
  - intros ->. by apply (wait_unserved es).
  - intros o Ho. by apply (wo_returned w Hok).
Qed.

(** ** The handlers and the variables of the call *)

(** A handler uses the variables of a call that has returned only when the
    timer expired and the read completed as well; and then it can happen,
    whichever was first: cancelling does not stop an operation that has
    completed.  Bytes that were read can be reported as a timeout. *)
Lemma handler_after_return :
  (forall served es w, wait_run served es = Some w -> dangling w = true -> expired w = true /\ is_Some (arrived w)) /\
  (exists w, wait_run true [Expires; Arrives None 5; TimerHandler; Wakes; ReadHandler] = Some w /\ dangling w = true) /\
  (exists w, wait_run true [Arrives None 5; Expires; ReadHandler; Wakes; TimerHandler] = Some w /\ dangling w = true) /\
  (exists w, wait_run true [Arrives None 5; Expires; ReadHandler; TimerHandler; Wakes] = Some w /\
     read_result w = Some None /\ returned w = Some TimedOut).
Proof.
  split_and!; [|by eexists..]. intros served es w E. apply wait_run_ok in E. apply (wo_dangling w E).
Qed.

(** ** Without a timeout these are the reads of Http *)

(** How [async_read_until] completes on the connection [s], and the
    connection then. *)
Definition until_completion (delimiter : str) (s : Socket) : (option errc * nat) * Socket :=
  match asyncRead (contains_t delimiter) s with
  | (None, s') =>
      match search delimiter (m_Streambuf s') with
      | Some pos => ((None, pos + length delimiter)%nat, s')
      | None => ((Some (other (net_end s)), 0%nat), s')
      end
  | (Some _, s') => ((Some (other (net_end s)), 0%nat), s')
  end.

(** How [async_read] completes that wants [n] bytes, the bytes, and the
    segments that are left. *)
Definition exactly_completion (n : nat) (s : Socket) : (option errc * nat) * str * list str :=
  match transfer_exactly n (net s) with
  | Some (data, segments) => ((None, n), data, segments)
  | None => ((Some (other (net_end s)), 0%nat), [], [])
  end.

Section agree.
Context `{ErrorMessages}.
Hypothesis other_message : forall m, errc_message (other m) = m.

(** A call whose timer did not expire gives what the reads of Http give,
    in which there is no timer: the theorems on messages hold of the timed
    reads. *)
Theorem timed_reads_agree served es w o s :
  wait_run served es = Some w -> returned w = Some o -> expired w = false ->
  (forall delimiter, arrived w = Some (until_completion delimiter s).1 ->
     timed_read_until delimiter o (until_completion delimiter s).2 = read_until_wait delimiter s) /\
  (forall need buf resp, arrived w = Some (exactly_completion (need - length resp) s).1.1 ->
     let '(_, data, segments) := exactly_completion (need - length resp) s in
     timed_read need o resp data (mkSocket buf (m_Response s) segments (net_end s)) = read_wait need buf resp s).
Proof.
  intros E%wait_run_ok Ho Hx. destruct (wo_returned w E o Ho) as [_ Hm]. split.
  - intros delimiter Ha. unfold until_completion, read_until_wait in *.
    destruct (asyncRead _ s) as [[e|] s']; [|destruct (search delimiter (m_Streambuf s')) as [pos|]]; simpl in Ha.
    + destruct o; [congruence| |congruence]. destruct Hm as [n Hm]. rewrite Ha in Hm. injection Hm as <- _.
      simpl. by rewrite other_message.
    + destruct o; [congruence|destruct Hm; congruence|]. rewrite Ha in Hm. by injection Hm as <-.
    + destruct o; [congruence| |congruence]. destruct Hm as [n Hm]. rewrite Ha in Hm. injection Hm as <- _.
      simpl. by rewrite other_message.
  - intros need buf resp Ha. unfold exactly_completion, read_wait in *.
    destruct (transfer_exactly _ (net s)) as [[data segments]|]; simpl in Ha.
    + destruct o; [congruence|destruct Hm; congruence|]. done.
    + destruct o; [congruence| |congruence]. destruct Hm as [n Hm]. rewrite Ha in Hm. injection Hm as <- _.
      simpl. by rewrite other_message.
Qed.
End agree.

Lemma timed_read_ends_witness :
  exists w, wait_run true [Expires; TimerHandler; Wakes] = Some w /\ returned w = Some TimedOut /\ expired w = true.
Proof.
  eexists. split; [vm_compute; reflexivity|]. split; [reflexivity|].
  destruct (timed_read_ends true [Expires; TimerHandler; Wakes] _ eq_refl) as (_ & _ & _ & _ & Ho).
  exact (Ho TimedOut eq_refl).
Defined.

Definition two_lines : Socket := mkSocket [] [] ["one\r"; "\ntwo"] "End of file".

#[local] Instance messages : ErrorMessages := fun e => match e with other m => m | _ => [] end.

Lemma timed_reads_agree_witness :
  timed_read_until "\r\n" (ReadDone 5) (until_completion "\r\n" two_lines).2 = read_until_wait "\r\n" two_lines /\
  read_until_wait "\r\n" two_lines = Ret (5%nat, mkSocket "two" "one" [] "End of file").
Proof.
  split; [|vm_compute; reflexivity].
  apply (timed_reads_agree (fun m => eq_refl) true [Arrives None 5; ReadHandler; Wakes; TimerHandler]
    (default Wait_start (wait_run true [Arrives None 5; ReadHandler; Wakes; TimerHandler])) (ReadDone 5) two_lines);
    vm_compute; reflexivity.
Defined.
