(* ===== verification/Threads.v ===== *)
(** * The loops of the threads

    The terminal of the client (client/src/ui.cpp) puts what is typed into a
    queue, the thread of client/src/event_worker.cpp takes it out and calls
    the client; the threads of common/io_thread.hpp run the handlers of the
    network.  Each loop is given as its body, and the two threads of the
    client as a transition system that interleaves them. *)

From S2P Require Import Prelude CxxString Utils LockQueue.

(** ** Events (client/src/event_worker.hpp) *)

Inductive type_t := NONE | PEER | INTERFACE.

Record Event := mkEvent { ev_type : type_t; from : str; to : str; msg : str }.
Definition Event_default : Event := mkEvent NONE [] [] [].

Definition putEvent (event : Event) (q : Queue Event) : Queue Event := push q event.

(** [operator<<], and the two [showMsg] of the terminal. *)
Definition show_event (ev : Event) : str := from ev ++ " --> " ++ to ev ++ ": " ++ msg ev ++ "\n".
Definition showMessage (from to message : str) : str := from ++ " --> " ++ to ++ ": " ++ message ++ "\n".
Definition showMsg (msg : str) : str := ">> " ++ msg ++ "\n".

(** One round of [pollingUserInput]; at the end of the input [getline]
    leaves the line empty, and the loop goes round without waiting. *)
Definition pollingUserInput (line : option str) (q : Queue Event) : Queue Event :=
  let msg := trimmed (default [] line) in
  if decide (msg = []) then q else putEvent (mkEvent INTERFACE "dummy" "dummy" msg) q.

(** One round of [EventsWorker::processQueue]: the event the callback is
    called with, when it is. *)
Definition processQueue (q : Queue Event) : option Event * Queue Event :=
  match getTask q with
  | (None, q) => (None, q)
  | (Some event, q) =>
      match ev_type event with
      | INTERFACE => (Some event, q)
      | PEER | NONE => (None, q)
      end
  end.

(** ** The terminal and the worker, interleaved *)

Record Console := mkConsole {
  typed : list str;               (* lines not read yet *)
  events : Queue Event;
  called : list str }.            (* the texts the client was called with *)

Inductive console_step (c : Console) : Console -> Prop :=
| read_line line rest :
    typed c = line :: rest ->
    console_step c (mkConsole rest (pollingUserInput (Some line) (events c)) (called c))
| read_eof :
    typed c = [] -> console_step c (mkConsole [] (pollingUserInput None (events c)) (called c))
| work event q :
    processQueue (events c) = (event, q) ->
    console_step c (mkConsole (typed c) q (called c ++ option_list (msg <$> event))).

Definition console_start (lines : list str) : Console := mkConsole lines (mkQueue []) [].

(** What of the lines reaches the client. *)
Definition inputs (lines : list str) : list str := filter (fun l => l <> []) (trimmed <$> lines).

Lemma inputs_cons line lines : inputs (line :: lines) = inputs [line] ++ inputs lines.
Proof. unfold inputs. rewrite !fmap_cons, !filter_cons. by case_decide. Qed.

(** The invariant: the calls so far, the queue and the lines to come make up
    the input, in order; only interface events are in the queue. *)
Definition console_ok (lines : list str) (c : Console) : Prop :=
  inputs lines = called c ++ (msg <$> m_Queue (events c)) ++ inputs (typed c) /\
  Forall (fun ev => ev_type ev = INTERFACE) (m_Queue (events c)).

Lemma console_step_ok lines c c' : console_ok lines c -> console_step c c' -> console_ok lines c'.
Proof.
  intros [Hin Hev] [line rest Ht|Ht|event q Hq].
  - rewrite Ht, inputs_cons in Hin. unfold console_ok, pollingUserInput. simpl.
    unfold inputs in Hin at 2. simpl in Hin. case_decide as Hl.
    + rewrite filter_cons_False in Hin by (intros Hn; by apply Hn). by simpl in Hin.
    + rewrite filter_cons_True in Hin by done. simpl. rewrite fmap_app. split.
      * rewrite Hin. by rewrite <- !app_assoc.
      * apply Forall_app. by repeat constructor.
  - rewrite Ht in Hin. by split.
  - unfold processQueue, getTask in Hq. destruct (events c) as [[|ev l]] eqn:E; simpl in *.
    + injection Hq as <- <-. split; simpl; [by rewrite app_nil_r|done].
    + apply Forall_cons in Hev as [Hev Hl]. rewrite Hev in Hq. injection Hq as <- <-.
      split; simpl; [|done]. by rewrite <- app_assoc.
Qed.

(** C36: whatever the two threads do, the client is called with the lines typed,
    trimmed, the empty ones left out, in the order in which they were typed
    and each once; when all is read and the queue is empty, with all of
    them. *)
Theorem typed_lines_delivered lines c :
  rtc console_step (console_start lines) c ->
  called c `prefix_of` inputs lines /\
  (typed c = [] -> m_Queue (events c) = [] -> called c = inputs lines).
Proof.
  intros Hr. assert (console_ok lines c) as [Hin _].
  { assert (console_ok lines (console_start lines)) as H0 by (split; [done|constructor]).
    revert H0. generalize (console_start lines) as c0, Hr. clear.
    intros c0 Hr. induction Hr as [|c0 c1 c2 Hs Hr IH]; [done|].
    intros H0. apply IH. by eapply console_step_ok. }
  split.
  - rewrite Hin. by apply prefix_app_r.
  - intros Ht Hq. rewrite Hin, Ht, Hq. by rewrite app_nil_r.
Qed.

(** ** The thread of an [io_service] (common/io_thread.hpp)

    [run] calls [io_service::run] again when a handler lets an exception
    out.  The result is the number of handlers that were run and whether
    the process is still alive. *)
Fixpoint io_run (handlers : list (cxx unit)) : nat * bool :=
  match handlers with
  | [] => (0%nat, true)
  | Ret _ :: rest | Throw _ :: rest => let '(n, alive) := io_run rest in (S n, alive)
  | AssertFail :: _ => (1%nat, false)
  end.

(** An exception costs its own handler only; an assertion ends everything. *)
Lemma io_run_all handlers : Forall (fun h => h <> AssertFail) handlers -> io_run handlers = (length handlers, true).
Proof. induction 1 as [|[[]|e|] rest Hh Hr IH]; simpl; by rewrite ?IH. Qed.

(** Three lines, of which two are read and one has reached the client. *)
Definition sample_lines : list str := ["  /status bob "; "   "; "hi"].
Definition sample_console : Console := mkConsole ["hi"] (mkQueue []) ["/status bob"].

Lemma sample_console_reached : rtc console_step (console_start sample_lines) sample_console.
Proof.
  eapply rtc_l; [by eapply read_line|]. eapply rtc_l; [by eapply read_line|].
  eapply rtc_l; [eapply (work _ (Some (mkEvent INTERFACE "dummy" "dummy" "/status bob")) (mkQueue [])); vm_compute; reflexivity|].
  apply rtc_refl.
Qed.

Lemma typed_lines_delivered_witness : called sample_console `prefix_of` inputs sample_lines.
Proof. apply (typed_lines_delivered sample_lines sample_console), sample_console_reached. Defined.
