(* ===== verification/Worker.v ===== *)
(** * server/src/database_worker.cpp: the worker that executes the tasks

    [processQueue] takes a task from the queue, runs it against the storage
    and answers through the client object of the task.  The branch of a
    command is a program of accesses to the storage and calls on that
    client, because other threads may run between two accesses; [perform]
    runs it alone.  An early [continue] ends it.  [now] is the result of
    [time(NULL)], which a round calls at most once.  [std::sort] may order
    equal keys as it likes and is a parameter with its contract. *)

From S2P Require Import Prelude CxxString Utils Json Common LockQueue Database Store ApiUtils.

(** ** Parameters *)

(** [std::sort] with the comparator of [mix_from_and_to_messages]. *)
Class StdSort := {
  std_sort : list Message -> list Message;
  std_sort_perm : forall l, std_sort l ≡ₚ l;
  std_sort_sorted : forall l, Sorted (fun m1 m2 => m_ts m2 <= m_ts m1) (std_sort l) }.

(** ** The effects of a task *)

(** The calls on [task.client]. *)
Inductive client_call :=
| sendErrorResponse (http_code : Z) (api_code : ApiStatusCode) (desc : str)
| sendOkResponse (body : str)
| sendMessages (msgs : list ApiMessage)
| sendMessagesToIdleConn (msgs : list ApiMessage).

#[export] Instance client_call_eq_dec : EqDecision client_call.
Proof. solve_decision. Defined.

(** The end of a computation: a value, the [continue] of the loop, or the
    end of the process by an assertion. *)
Inductive outcome (A : Type) := Done (a : A) | Continue | Aborted.
Arguments Done {A} a.
Arguments Continue {A}.
Arguments Aborted {A}.

Section Worker.
Context {S : Type} `{AbstractConnection S} `{Crc32} `{StdSort}.

(** A task as the accesses to the storage that it makes: an access changes
    the state, and what the thread does next depends on the state it saw.
    Between two accesses the other threads may run. *)
Inductive M (A : Type) : Type :=
| Finish (o : outcome A)
| Access (f : S -> S) (next : S -> M A)
| Emit (c : client_call) (next : M A).
#[global] Arguments Finish {A} o.
#[global] Arguments Access {A} f next.
#[global] Arguments Emit {A} c next.

Fixpoint bind {A B} (f : A -> M B) (m : M A) : M B :=
  match m with
  | Finish (Done a) => f a
  | Finish Continue => Finish Continue
  | Finish Aborted => Finish Aborted
  | Access g next => Access g (fun s => bind f (next s))
  | Emit c next => Emit c (bind f next)
  end.

#[export] Instance M_ret : MRet M := fun A a => Finish (Done a).
#[export] Instance M_bind : MBind M := fun A B => bind.

Definition gets {A} (f : S -> A) : M A := Access id (fun s => mret (f s)).
Definition update {A} (f : S -> A * S) : M A := Access (fun s => (f s).2) (fun s => mret (f s).1).
Definition modify (f : S -> S) : M unit := Access f (fun _ => mret tt).
Definition client (c : client_call) : M unit := Emit c (mret tt).
Definition continue {A} : M A := Finish Continue.
Definition lift {A} (m : cxx A) : M A :=
  Finish (match m with Ret a => Done a | _ => Aborted end).

(** The task on its own: nothing comes between its accesses. *)
Fixpoint perform {A} (m : M A) (s : S) : outcome A * S * list client_call :=
  match m with
  | Finish o => (o, s, [])
  | Access f next => perform (next s) (f s)
  | Emit c next => let '(o, s', out) := perform next s in (o, s', c :: out)
  end.

#[global] Coercion perform : M >-> Funclass.

Lemma run_bind {A B} (m : M A) (f : A -> M B) s :
  (m ≫= f) s =
  match m s with
  | (Done a, s', out) => let '(o, s', out') := f a s' in (o, s', out ++ out')
  | (Continue, s', out) => (Continue, s', out)
  | (Aborted, s', out) => (Aborted, s', out)
  end.
Proof.
  unfold mbind, M_bind. revert s. induction m as [o|g next IH|c next IH]; intros s; simpl.
  - destruct o as [a| |]; simpl; [by destruct (perform (f a) s) as [[? ?] ?]|done..].
  - apply IH.
  - rewrite IH. destruct (perform next s) as [[[a| |] s'] out]; [|done..].
    by destruct (perform (f a) s') as [[? ?] ?].
Qed.

Lemma run_gets {A B} (f : S -> A) (k : A -> M B) s : (x ← gets f; k x) s = k (f s) s.
Proof. done. Qed.

Lemma run_update {A B} (f : S -> A * S) (k : A -> M B) s : (x ← update f; k x) s = k (f s).1 (f s).2.
Proof. done. Qed.

Lemma run_modify {B} (f : S -> S) (k : M B) s : (modify f ;; k) s = k (f s).
Proof. done. Qed.

(** ** The helpers of the file *)

Definition encrypted_pass (task : Task) : str := to_string (crc32 (p_password (t_request task))).

Definition lookup_check_pass (task : Task) : M User :=
  user ← gets (lookupUserById (p_uid (t_request task)));
  if decide (u_id user = 0) then
    client (sendErrorResponse 409 ERR_CONSTRAINT "user does not exist") ;; mret User_empty
  else if decide (encrypted_pass task <> u_password user) then
    client (sendErrorResponse 403 ERR_CONSTRAINT "wrong password") ;; mret User_empty
  else mret user.

Definition lookup_check_pass_by_name (name : str) (task : Task) (check_pass : bool) : M User :=
  users ← gets (lookupUserByName name);
  match users with
  | [] => client (sendErrorResponse 404 ERR_NOT_FOUND "user does not exist") ;; mret User_empty
  | [user] =>
      if decide (check_pass = true /\ encrypted_pass task <> u_password user) then
        client (sendErrorResponse 403 ERR_CONSTRAINT "wrong password") ;; mret User_empty
      else mret user
  | _ => client (sendErrorResponse 500 ERR_INTERNAL "more than one user with that name") ;; mret User_empty
  end.

(** Two lookups per message. *)
Definition to_api_message (msg : Message) : M ApiMessage :=
  chat ← gets (lookupChatById (m_chat_to msg));
  user ← gets (lookupUserById (m_user_from msg));
  mret (mkApiMessage (u64 (m_ts msg)) (u_name user) (c_name chat) (m_message msg)).

Fixpoint to_api_format (msgs : list Message) : M (list ApiMessage) :=
  match msgs with
  | [] => mret []
  | msg :: msgs => m ← to_api_message msg; ms ← to_api_format msgs; mret (m :: ms)
  end.
Fixpoint to_api_format_batch (msgs_batch : list (list Message)) : M (list ApiMessage) :=
  match msgs_batch with
  | [] => mret []
  | msgs :: msgs_batch => ms ← to_api_format msgs; mss ← to_api_format_batch msgs_batch; mret (ms ++ mss)
  end.

Definition mix_from_and_to_messages (from to : list Message) (max : Z) : list Message :=
  let tmp := std_sort (from ++ to) in
  if Z.of_nat (length tmp) <=? max then tmp else take (Z.to_nat max) tmp.

(** [if (user.id == 0) continue;] *)
Definition unless_found (user : User) : M unit :=
  if decide (u_id user = 0) then continue else mret tt.

(** The [for] loop over the chats of a polling client. *)
Fixpoint poll_chats (ts : Z) (chats : list Chat) (msgs_batch : list (list Message)) : M (list (list Message)) :=
  match chats with
  | [] => mret msgs_batch
  | chat :: chats =>
      msgs ← update (getMessages (c_id chat) (mkOpt ts (o_max_count get_msg_opt_default)));
      poll_chats ts chats (match msgs with [] => msgs_batch | _ => msgs_batch ++ [msgs] end)
  end.

(** ** One branch of [processQueue] per command *)

Definition do_idle (now : Z) (task : Task) : M unit :=
  user ← lookup_check_pass task;
  unless_found user ;;
  modify (updateUserHeartBit user now) ;;
  chats ← gets (lookupChatsForUserId (u_id user));
  msgs_batch ← poll_chats (p_ts (t_request task)) chats [];
  match msgs_batch with
  | [] => if t_ping task then client (sendMessagesToIdleConn []) else mret tt
  | _ =>
      api_msgs ← to_api_format_batch msgs_batch;
      client (sendMessagesToIdleConn api_msgs)
  end.

Definition do_user_status (now : Z) (task : Task) : M unit :=
  user ← lookup_check_pass task;
  unless_found user ;;
  user_to ← lookup_check_pass_by_name (p_user (t_request task)) task false;
  unless_found user_to ;;
  body ← lift (ok_body_user user_to now);
  client (sendOkResponse body).

(** The closures [f1] and [f2]. *)
Definition sent_by_to (from : User) (to : User) (msg : Message) : bool :=
  bool_decide (m_user_from msg = u_id from) && bool_decide (m_chat_to msg = u_self_chat_id to).

Definition do_user_history (task : Task) : M unit :=
  user_from ← lookup_check_pass task;
  unless_found user_from ;;
  user_to ← lookup_check_pass_by_name (p_user (t_request task)) task false;
  unless_found user_to ;;
  let opt := mkOpt 0 (u32 (u64 (p_count (t_request task) * 2))) in
  msgs_to ← gets (selectMessages (sent_by_to user_from user_to) opt);
  msgs_from ← gets (selectMessages (sent_by_to user_to user_from) opt);
  let mix := mix_from_and_to_messages msgs_from msgs_to (p_count (t_request task)) in
  api_msgs ← to_api_format mix;
  client (sendMessages api_msgs).

Definition do_message_send (now : Z) (task : Task) : M unit :=
  user ← lookup_check_pass task;
  unless_found user ;;
  users_to ← gets (lookupUserByName (p_to_user (t_request task)));
  match users_to with
  | [] => client (sendErrorResponse 404 ERR_NOT_FOUND "user to does not exist")
  | [user_to] =>
      let msg := set_m_ts now (Message_new (u_id user) (u_self_chat_id user_to) (p_message (t_request task))) in
      modify (saveMessage msg) ;;
      client (sendOkResponse "{\qstatus\q: 0}")
  | _ => client (sendErrorResponse 500 ERR_INTERNAL "more than one user with that name")
  end.

Definition do_user_create (now : Z) (task : Task) : M unit :=
  let r := t_request task in
  user ← update (createUser (p_user r) (encrypted_pass task) (t_storage task) (p_ip_address r) (p_city r));
  if decide (u_id user = 0) then client (sendErrorResponse 409 ERR_CONSTRAINT "user already exists")
  else
    body ← lift (ok_body_user user now);
    client (sendOkResponse body).

Definition do_user_login (now : Z) (task : Task) : M unit :=
  user ← lookup_check_pass_by_name (p_user (t_request task)) task true;
  unless_found user ;;
  body ← lift (ok_body_user user now);
  client (sendOkResponse body).

Definition do_chat_create (now : Z) (task : Task) : M unit :=
  user ← lookup_check_pass task;
  unless_found user ;;
  chat ← update (createChat (chat_name (p_chat (t_request task))) (p_uid (t_request task)));
  if decide (c_id chat = 0) then client (sendErrorResponse 409 ERR_CONSTRAINT "chat already exists")
  else
    body ← lift (ok_body_chat chat now);
    client (sendOkResponse body).

Definition do_chat_adduser (now : Z) (task : Task) : M unit :=
  user ← lookup_check_pass task;
  unless_found user ;;
  to_add ← lookup_check_pass_by_name (chat_adduser (p_chat (t_request task))) task false;
  unless_found to_add ;;
  chats ← gets (lookupChatByName (chat_name (p_chat (t_request task))));
  match chats with
  | [chat] =>
      modify (addUserToChat chat to_add) ;;
      _ ← lift (ok_body_chat chat now);     (* built, but not sent *)
      client (sendOkResponse "{\qstatus\q: 0}")
  | _ => client (sendErrorResponse 404 ERR_NOT_FOUND "chat does not exist")
  end.

Definition do_message_send_chat (now : Z) (task : Task) : M unit :=
  user ← lookup_check_pass task;
  unless_found user ;;
  chats ← gets (lookupChatByName (chat_name (p_chat (t_request task))));
  match chats with
  | [chat] =>
      let msg := set_m_ts now (Message_new (u_id user) (c_id chat) (p_message (t_request task))) in
      modify (saveMessage msg) ;;
      client (sendOkResponse "{\qstatus\q: 0}")
  | _ => client (sendErrorResponse 404 ERR_NOT_FOUND "chat does not exist")
  end.

Definition do_get_locations (now : Z) (task : Task) : M unit :=
  user ← lookup_check_pass task;
  unless_found user ;;
  locations ← gets getAllDistinctLocations;
  match locations with
  | [] => client (sendErrorResponse 404 ERR_NOT_FOUND "no locations")
  | _ =>
      body ← lift (ok_body_items "location" locations now);
      client (sendOkResponse body)
  end.

Definition do_chat_with_location (now : Z) (task : Task) : M unit :=
  user ← lookup_check_pass task;
  unless_found user ;;
  users ← gets (getAllUsersFromLocation (p_city (t_request task)));
  match users with
  | [] => client (sendErrorResponse 404 ERR_NOT_FOUND ("no users from " ++ p_city (t_request task)))
  | _ =>
      body ← lift (ok_body_items "user" users now);
      client (sendOkResponse body)
  end.

(** The [if] chain of [processQueue]: a command without a branch is dropped. *)
Definition process_task (now : Z) (task : Task) : M unit :=
  match t_cmd task with
  | IDLE => do_idle now task
  | USER_STATUS => do_user_status now task
  | USER_HISTORY => do_user_history task
  | MESSAGE_SEND => do_message_send now task
  | USER_CREATE => do_user_create now task
  | USER_LOGIN => do_user_login now task
  | CHAT_CREATE => do_chat_create now task
  | CHAT_ADDUSER => do_chat_adduser now task
  | MESSAGE_SEND_CHAT => do_message_send_chat now task
  | GET_LOCATIONS => do_get_locations now task
  | CHAT_WITH_LOCATION => do_chat_with_location now task
  | _ => mret tt
  end.

(** ** Every body is written: the worker never stops at an assertion *)

Lemma ok_body_items_total key items now : exists body, ok_body_items key items now = Ret body.
Proof.
  pose proof (wrap_range 64 now ltac:(lia)) as Hn. eexists.
  unfold ok_body_items. rewrite <- (wrap_small 64 (u64 now)) by done. by apply ok_body_items_ok.
Qed.

(** ** The messages of a list, as the API shows them *)

Definition api_message (s : S) (msg : Message) : ApiMessage :=
  let chat := lookupChatById (m_chat_to msg) s in
  let user := lookupUserById (m_user_from msg) s in
  mkApiMessage (u64 (m_ts msg)) (u_name user) (c_name chat) (m_message msg).

Lemma to_api_format_run msgs s : to_api_format msgs s = (Done (api_message s <$> msgs), s, []).
Proof. induction msgs as [|msg msgs IH]; [done|]. simpl. unfold id. by rewrite run_bind, IH. Qed.

Lemma to_api_format_batch_run batch s :
  to_api_format_batch batch s = (Done (api_message s <$> concat batch), s, []).
Proof.
  induction batch as [|msgs batch IH]; [done|]. cbn [to_api_format_batch concat].
  rewrite run_bind, to_api_format_run, run_bind, IH. simpl. by rewrite fmap_app.
Qed.

(** ** The two lookups *)

Definition authenticated (task : Task) (s : S) (u : User) : Prop :=
  lookupUserById (p_uid (t_request task)) s = u /\ u_id u <> 0 /\ u_password u = encrypted_pass task.

#[export] Instance authenticated_dec task s u : Decision (authenticated task s u) := _.

(** The user of the task, when the id is known and the password is right. *)
Definition task_user (task : Task) (s : S) : option User :=
  let u := lookupUserById (p_uid (t_request task)) s in
  if decide (authenticated task s u) then Some u else None.

Definition is_auth_error (c : client_call) : Prop :=
  c = sendErrorResponse 409 ERR_CONSTRAINT "user does not exist" \/
  c = sendErrorResponse 403 ERR_CONSTRAINT "wrong password".

Lemma task_user_Some task s u : task_user task s = Some u <-> authenticated task s u.
Proof.
  unfold task_user. case_decide as Ha; split.
  - by intros [= <-].
  - intros [-> _]. done.
  - done.
  - intros [<- Hu]. by destruct Ha.
Qed.

(** A handler that starts with [lookup_check_pass]. *)
Lemma with_check_pass {A} (k : User -> M A) task s :
  (user ← lookup_check_pass task; unless_found user ;; k user) s =
  match task_user task s with
  | Some u => k u s
  | None =>
      (Continue, s,
       [if decide (u_id (lookupUserById (p_uid (t_request task)) s) = 0)
        then sendErrorResponse 409 ERR_CONSTRAINT "user does not exist"
        else sendErrorResponse 403 ERR_CONSTRAINT "wrong password"])
  end.
Proof.
  rewrite run_bind. unfold task_user, authenticated, lookup_check_pass. cbv zeta.
  rewrite run_gets.
  set (u := lookupUserById (p_uid (t_request task)) s).
  set (P := u = u /\ u_id u <> 0 /\ u_password u = encrypted_pass task).
  destruct (decide (u_id u = 0)) as [E|E].
  - by rewrite (decide_False (P := P)) by (unfold P; tauto).
  - destruct (decide (encrypted_pass task <> u_password u)) as [Ep|Ep].
    + by rewrite (decide_False (P := P)) by (unfold P; intros (_ & _ & Hp); congruence).
    + apply dec_stable in Ep. rewrite (decide_True (P := P)) by (by unfold P). simpl.
      unfold unless_found. rewrite decide_False by done. simpl. by destruct (k u s) as [[? ?] ?].
Qed.

(** How the lookup by name fails. *)
Definition is_lookup_error (c : client_call) : Prop :=
  c = sendErrorResponse 404 ERR_NOT_FOUND "user does not exist" \/
  c = sendErrorResponse 403 ERR_CONSTRAINT "wrong password" \/
  c = sendErrorResponse 500 ERR_INTERNAL "more than one user with that name".

Lemma lookup_by_name_cases name task check s :
  (exists u, lookupUserByName name s = [u] /\ (check = true -> u_password u = encrypted_pass task) /\
     lookup_check_pass_by_name name task check s = (Done u, s, [])) \/
  (exists c, is_lookup_error c /\ lookup_check_pass_by_name name task check s = (Done User_empty, s, [c]) /\
     (check = false -> forall u, lookupUserByName name s <> [u]) /\
     (forall u, lookupUserByName name s = [u] -> u_password u <> encrypted_pass task)).
Proof.
  unfold lookup_check_pass_by_name, is_lookup_error. rewrite run_gets.
  destruct (lookupUserByName name s) as [|u [|v l]] eqn:E.
  - right. eexists. split; [by left|]. by split_and!; intros.
  - case_decide as Hd.
    + right. eexists. split; [right; by left|]. split; [done|]. destruct Hd as [-> Hd]. split; [done|].
      intros v [= <-]. congruence.
    + left. exists u. split_and!; try done. intros ->. destruct (decide (encrypted_pass task = u_password u)); [done|].
      by destruct Hd.
  - right. eexists. split; [right; by right|]. by split_and!; intros.
Qed.

(** A handler that goes on with [lookup_check_pass_by_name]. *)
Lemma with_check_pass_by_name {A} (k : User -> M A) name task check s :
  (exists u, lookupUserByName name s = [u] /\ u_id u <> 0 /\
     (check = true -> u_password u = encrypted_pass task) /\
     (user ← lookup_check_pass_by_name name task check; unless_found user ;; k user) s = k u s) \/
  (exists cs, (cs = [] \/ exists c, cs = [c] /\ is_lookup_error c) /\
     (user ← lookup_check_pass_by_name name task check; unless_found user ;; k user) s = (Continue, s, cs) /\
     (forall u, lookupUserByName name s = [u] -> u_id u <> 0 -> check = true /\ u_password u <> encrypted_pass task)).
Proof.
  rewrite run_bind.
  destruct (lookup_by_name_cases name task check s) as [(u & Hl & Hp & ->)|(c & Hc & -> & Hn & Hw)].
  - unfold unless_found. destruct (decide (u_id u = 0)) as [E|E].
    + right. exists []. split; [by left|]. split; [done|]. intros v Hv. congruence.
    + left. exists u. split_and!; try done. simpl. by destruct (k u s) as [[? ?] ?].
  - right. exists [c]. split; [right; eauto|]. split; [done|].
    intros u Hu Hid. split; [|by apply Hw]. destruct check; [done|]. by destruct (Hn eq_refl u).
Qed.

(** ** Authentication *)

(** The commands whose branch starts with [lookup_check_pass]. *)
Definition needs_auth (cmd : cmd_t) : bool :=
  match cmd with
  | IDLE | USER_STATUS | USER_HISTORY | MESSAGE_SEND | CHAT_CREATE | CHAT_ADDUSER
  | MESSAGE_SEND_CHAT | GET_LOCATIONS | CHAT_WITH_LOCATION => true
  | _ => false
  end.

(** C4: whoever does not give the id of a known user with the right
    password gets one error reply and nothing else: the storage is not
    touched and nothing is read out, for every command but registration,
    login and the one that has no branch. *)
Theorem auth_required now task s :
  needs_auth (t_cmd task) = true -> task_user task s = None ->
  exists c, is_auth_error c /\ process_task now task s = (Continue, s, [c]).
Proof.
  intros Hn Hu.
  set (u := lookupUserById (p_uid (t_request task)) s).
  exists (if decide (u_id u = 0)
    then sendErrorResponse 409 ERR_CONSTRAINT "user does not exist"
    else sendErrorResponse 403 ERR_CONSTRAINT "wrong password").
  split; [case_decide; [by left|by right]|]. unfold process_task, u.
  destruct (t_cmd task); try done;
    unfold do_idle, do_user_status, do_user_history, do_message_send, do_chat_create, do_chat_adduser,
      do_message_send_chat, do_get_locations, do_chat_with_location;
    by rewrite with_check_pass, Hu.
Qed.

(** The password check accepts exactly the passwords whose CRC-32 is the
    stored one: nothing but the checksum is compared. *)
Theorem auth_by_checksum task s u :
  task_user task s = Some u <->
  lookupUserById (p_uid (t_request task)) s = u /\ u_id u <> 0 /\
  u_password u = to_string (crc32 (p_password (t_request task))).
Proof. apply task_user_Some. Qed.
End Worker.

Section Fits.
Context {S : Type} `{ConnectionLaws S} `{Crc32}.

(** What a task stores fits the storage. *)
Definition task_fits (now : Z) (task : Task) (s : S) : Prop :=
  let r := t_request task in
  match t_cmd task with
  | IDLE => time_fits now /\ since_fits (p_ts r)
  | USER_CREATE => user_fits (p_user r) (encrypted_pass task) (t_storage task) (p_ip_address r) (p_city r) s
  | CHAT_CREATE => chat_fits (chat_name (p_chat r)) s
  | MESSAGE_SEND | MESSAGE_SEND_CHAT => time_fits now /\ text_fits (p_message r)
  | _ => True
  end.
End Fits.

(** Reads [task_fits] at the command of the task. *)
Ltac use_fits H :=
  unfold task_fits in H; match goal with E : t_cmd _ = _ |- _ => rewrite E in H end; simpl in H.

Section Laws.
Context {S : Type} `{ConnectionLaws S} `{Crc32} `{StdSort}.

Lemma lookup_user_pos name s u : valid s -> u ∈ lookupUserByName name s -> u_id u <> 0.
Proof.
  intros V [Hu _]%law_lookupUserByName; [|done]. apply (con_user_key _ (valid_consistent _ V)) in Hu. lia.
Qed.

Lemma task_user_known task s u :
  valid s -> task_user task s = Some u ->
  db_users (view s) !! p_uid (t_request task) = Some u /\ u_id u = p_uid (t_request task).
Proof.
  intros V (E & Hid & _)%task_user_Some. rewrite law_lookupUserById in E by done.
  destruct (db_users (view s) !! p_uid (t_request task)) as [v|] eqn:Hv; simpl in E; subst.
  - split; [done|]. by apply (con_user_key _ (valid_consistent _ V)) in Hv as [? _].
  - by destruct Hid.
Qed.

(** A name belongs to one user at most. *)
Lemma lookup_name_unique name s :
  valid s -> lookupUserByName name s = [] \/ exists u, lookupUserByName name s = [u] /\ u_id u <> 0.
Proof.
  intros V. destruct (lookupUserByName name s) as [|u l] eqn:E; [by left|]. right. exists u.
  assert (u ∈ lookupUserByName name s) as Hu by (rewrite E; by left).
  split; [|by eapply lookup_user_pos].
  rewrite <- E. apply singleton_of; [by apply law_lookupUserByName_nodup|done|].
  intros v Hv. apply law_lookupUserByName in Hu as [Hu Hun], Hv as [Hv Hvn]; [|done..].
  pose proof (con_names _ (valid_consistent _ V) _ _ _ _ Hu Hv ltac:(congruence)) as Hid.
  rewrite Hid in Hu. congruence.
Qed.

Lemma with_named_user {A} (k : User -> M A) name task s :
  valid s ->
  (user ← lookup_check_pass_by_name name task false; unless_found user ;; k user) s =
  match lookupUserByName name s with
  | u :: _ => k u s
  | [] => (Continue, s, [sendErrorResponse 404 ERR_NOT_FOUND "user does not exist"])
  end.
Proof.
  intros V. destruct (lookup_name_unique name s V) as [E|(u & E & Hu)].
  - rewrite run_bind. unfold lookup_check_pass_by_name. by rewrite run_gets, E.
  - rewrite E. destruct (lookup_by_name_cases name task false s) as [(v & E' & _ & F)|(c & _ & _ & Hn & _)];
      [|by destruct (Hn eq_refl u)].
    rewrite E in E'. injection E' as <-. rewrite run_bind, F.
    unfold unless_found. rewrite decide_False by done. simpl. by destruct (k u s) as [[? ?] ?].
Qed.

(** ** Polling the chats *)

(** What the poll of one chat finds. *)
Definition fresh_messages (ts : Z) (d : DB) (chat : Chat) : list Message :=
  newest (wanted (c_id chat) ts) (Some 3%nat) (db_log d).

(** Two databases that differ in flags and heartbits only. *)
Record similar (d d' : DB) : Prop := {
  sim_log : unflag <$> db_log d = unflag <$> db_log d';
  sim_chats : db_chats d = db_chats d';
  sim_members : db_members d = db_members d';
  sim_names : forall i, u_name <$> db_users d !! i = u_name <$> db_users d' !! i }.

Lemma similar_refl d : similar d d.
Proof. by split. Qed.

Lemma similar_trans d1 d2 d3 : similar d1 d2 -> similar d2 d3 -> similar d1 d3.
Proof. intros [] []. split; congruence || (intros; etrans; eauto). Qed.

Lemma filter_fmap_inv {A} (f : A -> A) p l :
  (forall x, p (f x) = p x) -> f <$> List.filter p l = List.filter p (f <$> l).
Proof. intros Hp. induction l as [|x l IH]; csimpl; [done|]. rewrite Hp. destruct (p x); csimpl; by rewrite IH. Qed.

Lemma newest_unflag pred k log :
  (forall m, pred (unflag m) = pred m) -> unflag <$> newest pred k log = newest pred k (unflag <$> log).
Proof.
  intros Hp. unfold newest. by rewrite take_opt_fmap, filter_fmap_inv, fmap_rev by done.
Qed.

(** The message as the API shows it. *)
Definition db_api_message (d : DB) (m : Message) : ApiMessage :=
  mkApiMessage (u64 (m_ts m)) (u_name (default User_empty (db_users d !! m_user_from m)))
    (c_name (default Chat_empty (db_chats d !! m_chat_to m))) (m_message m).

Lemma api_message_view s m : valid s -> api_message s m = db_api_message (view s) m.
Proof. intros V. unfold api_message, db_api_message. by rewrite law_lookupChatById, law_lookupUserById. Qed.

Lemma db_api_similar d d' m : similar d d' -> db_api_message d m = db_api_message d' m.
Proof.
  intros Hs. unfold db_api_message. rewrite (sim_chats _ _ Hs). f_equal.
  pose proof (sim_names _ _ Hs (m_user_from m)) as Hn.
  destruct (db_users d !! m_user_from m), (db_users d' !! m_user_from m); simpl in Hn; simplify_eq; done.
Qed.

Lemma api_messages_similar s d (msgs : list Message) :
  valid s -> similar d (view s) -> api_message s <$> msgs = db_api_message d <$> (unflag <$> msgs).
Proof.
  intros V Hs. rewrite <- list_fmap_compose. apply list_fmap_ext. intros _ m _. simpl.
  rewrite api_message_view by done. by rewrite <- (db_api_similar d (view s)).
Qed.

Lemma getMessages_similar chatid ts s : valid s -> since_fits ts ->
  let '(msgs, s') := getMessages chatid (mkOpt ts 3) s in
  valid s' /\ conn_call s s' /\ similar (view s) (view s') /\
  unflag <$> msgs = newest (wanted chatid ts) (Some 3%nat) (unflag <$> db_log (view s)).
Proof.
  intros V Ht. destruct (law_getMessages chatid (mkOpt ts 3) s V Ht ltac:(simpl; lia)) as (Hget & V' & Hv).
  pose proof (call_getMessages s chatid (mkOpt ts 3) Ht ltac:(simpl; lia)) as Hc.
  destruct (getMessages chatid (mkOpt ts 3) s) as [msgs s']. cbn [fst snd o_ts] in *.
  change (limit (mkOpt ts 3)) with (Some 3%nat) in *.
  split_and!; [done|done| |].
  - rewrite Hv. split; try done. simpl. rewrite fmap_rev, mark_read_same, <- fmap_rev, rev_involutive by done. done.
  - rewrite Hget. by apply newest_unflag.
Qed.

Lemma poll_chats_spec ts chats batch s : valid s -> since_fits ts ->
  exists s' msgs, poll_chats ts chats batch s = (Done (batch ++ msgs), s', []) /\
    valid s' /\ rtc conn_call s s' /\ similar (view s) (view s') /\ Forall (fun l => l <> []) msgs /\
    unflag <$> concat msgs =
      flat_map (fun c => newest (wanted (c_id c) ts) (Some 3%nat) (unflag <$> db_log (view s))) chats.
Proof.
  intros V Ht. revert batch s V. induction chats as [|c chats IH]; intros batch s V; cbn [poll_chats flat_map].
  - exists s, []. rewrite app_nil_r. split_and!; first [done|apply rtc_refl|apply similar_refl|constructor].
  - rewrite run_update. change (o_max_count get_msg_opt_default) with 3.
    pose proof (getMessages_similar (c_id c) ts s V Ht) as Hg.
    destruct (getMessages (c_id c) (mkOpt ts 3) s) as [m s1]. destruct Hg as (V1 & Hc & Hs & Hm). cbn [fst snd].
    destruct (IH (match m with [] => batch | _ => batch ++ [m] end) s1 V1)
      as (s' & msgs & -> & V' & Hr & Hs' & Hne & Hcat).
    exists s', (match m with [] => msgs | _ => m :: msgs end).
    rewrite (sim_log _ _ Hs), <- Hcat, <- (sim_log _ _ Hs), <- Hm.
    split_and!; [destruct m|done|by eapply rtc_l|by eapply similar_trans|destruct m|destruct m]; try done.
    + by rewrite <- app_assoc.
    + by constructor.
    + simpl. by rewrite fmap_app.
Qed.

Lemma heartbit_similar u ts s : valid s -> time_fits ts -> similar (view s) (view (updateUserHeartBit u ts s)).
Proof.
  intros V Ht. destruct (law_updateUserHeartBit u ts s V Ht) as [_ ->]. split; try done. intros i. simpl.
  destruct (decide (u_id u = i)) as [<-|Hi].
  - rewrite lookup_alter_eq. by destruct (db_users (view s) !! u_id u).
  - by rewrite lookup_alter_ne.
Qed.

(** What a poll shows: the three newest messages of each chat that are
    younger than [ts]. *)
Definition poll_answer (d : DB) (ts : Z) (chats : list Chat) : list ApiMessage :=
  flat_map (fun c => db_api_message d <$> fresh_messages ts d c) chats.

Lemma poll_answer_eq d ts chats :
  db_api_message d <$> flat_map (fun c => newest (wanted (c_id c) ts) (Some 3%nat) (unflag <$> db_log d)) chats =
  poll_answer d ts chats.
Proof.
  unfold poll_answer. induction chats as [|c chats IH]; [done|]. cbn [flat_map].
  rewrite fmap_app, IH. f_equal. rewrite <- newest_unflag by done. rewrite <- list_fmap_compose. done.
Qed.

Lemma poll_answer_times d ts chats : Forall (fun m => in_u 64 (a_ts m)) (poll_answer d ts chats).
Proof.
  apply Forall_forall. intros m (c & _ & Hm)%list_elem_of_In%in_flat_map.
  apply list_elem_of_In, list_elem_of_fmap in Hm as (x & -> & _). apply (wrap_range 64). lia.
Qed.

Lemma concat_nonempty {A} (l : list (list A)) : Forall (fun x => x <> []) l -> concat l = [] <-> l = [].
Proof. destruct 1 as [|x l Hx Hl]; [done|]. split; [|done]. by destruct x. Qed.

Lemma do_idle_at now task s u :
  valid s -> time_fits now -> since_fits (p_ts (t_request task)) -> task_user task s = Some u ->
  let chats := lookupChatsForUserId (u_id u) (updateUserHeartBit u now s) in
  let answer := poll_answer (view s) (p_ts (t_request task)) chats in
  exists s', do_idle now task s =
      (Done tt, s',
       if decide (answer = []) then (if t_ping task then [sendMessagesToIdleConn []] else [])
       else [sendMessagesToIdleConn answer]) /\
    valid s' /\ rtc conn_call s s' /\ similar (view s) (view s').
Proof.
  intros V Ht Hts Hu chats answer. unfold do_idle. rewrite with_check_pass, Hu.
  set (s1 := updateUserHeartBit u now s) in *.
  assert (valid s1) as V1 by by apply law_updateUserHeartBit.
  pose proof (heartbit_similar u now s V Ht) as Hs1. fold s1 in Hs1.
  destruct (poll_chats_spec (p_ts (t_request task)) chats [] s1 V1 Hts)
    as (s' & msgs & Hp & V' & Hr & Hs & Hne & Hcat).
  exists s'. split_and!; [|done|by eapply rtc_l; [by apply call_heartbit|]|by eapply similar_trans].
  rewrite run_modify. fold s1. rewrite run_gets.
  fold chats. rewrite run_bind, Hp. cbn [app].
  assert (api_message s' <$> concat msgs = answer) as Ha.
  { rewrite (api_messages_similar s' (view s)) by (done || by eapply similar_trans).
    rewrite Hcat, <- (sim_log _ _ Hs1). apply poll_answer_eq. }
  destruct msgs as [|m0 msgs0].
  - simpl in Ha. rewrite <- Ha, decide_True by done. by destruct (t_ping task).
  - rewrite run_bind, to_api_format_batch_run, Ha.
    rewrite decide_False; [done|]. rewrite <- Ha. intros E%fmap_nil_inv%concat_nonempty; done.
Qed.

(** C24: a poll of an authenticated user answers with the messages of the
    chats the user is a member of, the three newest of each chat that are
    younger than the time of the request, with the names of sender and chat;
    without such messages it answers only when a ping is due.  Names,
    chats, members and the log are left as they were, flags apart. *)
Theorem do_idle_spec now task s u :
  valid s -> time_fits now -> since_fits (p_ts (t_request task)) -> task_user task s = Some u ->
  let chats := lookupChatsForUserId (u_id u) (updateUserHeartBit u now s) in
  let answer := poll_answer (view s) (p_ts (t_request task)) chats in
  exists s', do_idle now task s =
      (Done tt, s',
       if decide (answer = []) then (if t_ping task then [sendMessagesToIdleConn []] else [])
       else [sendMessagesToIdleConn answer]) /\
    valid s' /\ rtc conn_call s s' /\ similar (view s) (view s').
Proof. apply do_idle_at. Qed.

(** ** What a lookup found is a row of the database *)

Lemma known_user name s u : valid s -> lookupUserByName name s = [u] -> is_Some (db_users (view s) !! u_id u).
Proof.
  intros V E. assert (u ∈ lookupUserByName name s) as Hu by (rewrite E; by left).
  apply law_lookupUserByName in Hu as [Hu _]; [|done]. eauto.
Qed.

Lemma known_chat name s c : valid s -> lookupChatByName name s = [c] -> db_chats (view s) !! c_id c = Some c.
Proof.
  intros V E. assert (c ∈ lookupChatByName name s) as Hc by (rewrite E; by left).
  by apply law_lookupChatByName in Hc as [Hc _].
Qed.

(** A user and its own chat are rows of the database. *)
Lemma task_user_stored task s u : valid s -> task_user task s = Some u -> is_Some (db_users (view s) !! u_id u).
Proof. intros V [Hu E]%task_user_known; [|done]. rewrite E. eauto. Qed.

Lemma self_chat_stored name s v :
  valid s -> lookupUserByName name s = [v] -> is_Some (db_chats (view s) !! u_self_chat_id v).
Proof.
  intros V E. assert (v ∈ lookupUserByName name s) as Hv by (rewrite E; by left).
  apply law_lookupUserByName in Hv as [Hv _]; [|done].
  by apply (con_self _ (valid_consistent _ V)), (con_members _ (valid_consistent _ V)) in Hv as [? _].
Qed.

Lemma message_sent now task s u v :
  valid s -> t_cmd task = MESSAGE_SEND -> task_fits now task s -> task_user task s = Some u ->
  lookupUserByName (p_to_user (t_request task)) s = [v] ->
  let m := mkMessage UNREAD (u_id u) (u_self_chat_id v) now (p_message (t_request task)) in
  exists s', process_task now task s = (Done tt, s', [sendOkResponse "{\qstatus\q: 0}"]) /\
    valid s' /\ view s' = set_db_log (db_log (view s) ++ [m]) (view s).
Proof.
  intros V Hc R Hu Hv m. use_fits R. destruct R as [Ht Hf].
  unfold process_task. rewrite Hc. unfold do_message_send.
  rewrite with_check_pass, Hu, run_gets, Hv.
  exists (saveMessage m s). split; [done|].
  apply law_saveMessage; [done|by eapply task_user_stored|by eapply self_chat_stored|done..].
Qed.

Lemma group_message_sent now task s u c :
  valid s -> t_cmd task = MESSAGE_SEND_CHAT -> task_fits now task s -> task_user task s = Some u ->
  lookupChatByName (chat_name (p_chat (t_request task))) s = [c] ->
  let m := mkMessage UNREAD (u_id u) (c_id c) now (p_message (t_request task)) in
  exists s', process_task now task s = (Done tt, s', [sendOkResponse "{\qstatus\q: 0}"]) /\
    valid s' /\ view s' = set_db_log (db_log (view s) ++ [m]) (view s).
Proof.
  intros V Hc R Hu Hlook m. use_fits R. destruct R as [Ht Hf].
  unfold process_task. rewrite Hc. unfold do_message_send_chat.
  rewrite with_check_pass, Hu, run_gets, Hlook.
  exists (saveMessage m s). split; [done|].
  apply law_saveMessage; [done|by eapply task_user_stored|by eapply mk_is_Some, known_chat|done..].
Qed.

(** A message of an authenticated user to an existing name is appended
    to the log as unread, with the sender, the own chat of the receiver and
    the current time, nothing else changes, and the sender gets the success
    body. *)
Theorem message_send_spec now task s u v :
  valid s -> t_cmd task = MESSAGE_SEND -> task_fits now task s -> task_user task s = Some u ->
  lookupUserByName (p_to_user (t_request task)) s = [v] ->
  let m := mkMessage UNREAD (u_id u) (u_self_chat_id v) now (p_message (t_request task)) in
  exists s', process_task now task s = (Done tt, s', [sendOkResponse "{\qstatus\q: 0}"]) /\
    valid s' /\ view s' = set_db_log (db_log (view s) ++ [m]) (view s).
Proof. apply message_sent. Qed.

(** ** From the sender to the receiver *)

Lemma newest_last pred k log m :
  pred m = true -> newest pred (Some (Datatypes.S k)) (log ++ [m]) = m :: newest pred (Some k) log.
Proof. intros Hp. unfold newest. rewrite rev_unit. simpl. by rewrite Hp. Qed.

(** A poll that asks from before the newest message of the log shows it to
    every member of its chat. *)
Lemma newest_is_polled now task s w log m chat :
  valid s -> time_fits now -> since_fits (p_ts (t_request task)) ->
  task_user task s = Some w -> db_log (view s) = log ++ [m] -> p_ts (t_request task) < m_ts m ->
  (m_chat_to m, u_id w) ∈ db_members (view s) -> db_chats (view s) !! m_chat_to m = Some chat ->
  exists s' msgs, do_idle now task s = (Done tt, s', [sendMessagesToIdleConn msgs]) /\
    db_api_message (view s) m ∈ msgs /\ Forall (fun m => in_u 64 (a_ts m)) msgs.
Proof.
  intros V Ht Hsince Hw Hlog Hts Hmem Hchat.
  assert (c_id chat = m_chat_to m) as Hcid by by apply (con_chat_key _ (valid_consistent _ V)) in Hchat as [? _].
  destruct (do_idle_at now task s w V Ht Hsince Hw) as (s' & -> & _).
  assert (db_api_message (view s) m ∈ poll_answer (view s) (p_ts (t_request task))
    (lookupChatsForUserId (u_id w) (updateUserHeartBit w now s))) as Hapi.
  { apply list_elem_of_In, in_flat_map. exists chat. split.
    - destruct (law_updateUserHeartBit w now s V Ht) as [V1 Hv1].
      apply list_elem_of_In, law_lookupChatsForUserId; [done|]. rewrite Hv1. by rewrite Hcid.
    - apply list_elem_of_In, list_elem_of_fmap. exists m. split; [done|].
      unfold fresh_messages. rewrite Hlog, (newest_last _ 2); [by left|].
      unfold wanted. rewrite Hcid, bool_decide_eq_true_2 by done. by apply Z.ltb_lt. }
  rewrite decide_False; [eauto using poll_answer_times|]. intros E. rewrite E in Hapi. by apply not_elem_of_nil in Hapi.
Qed.

(** C13: a message that was sent successfully is in the answer of the next
    poll of the receiver, with the names of the sender and of the chat, if
    the poll asks from before the time of the message and nothing was sent
    in between. *)
Theorem sent_message_is_polled now task s u v now2 task2 o s1 out :
  valid s -> t_cmd task = MESSAGE_SEND -> task_fits now task s -> task_user task s = Some u ->
  lookupUserByName (p_to_user (t_request task)) s = [v] ->
  process_task now task s = (o, s1, out) ->
  t_cmd task2 = IDLE -> task_fits now2 task2 s1 -> task_user task2 s1 = Some v -> p_ts (t_request task2) < now ->
  exists msgs chat, (process_task now2 task2 s1).2 = [sendMessagesToIdleConn msgs] /\
    db_chats (view s) !! u_self_chat_id v = Some chat /\
    mkApiMessage (u64 now) (u_name u) (c_name chat) (p_message (t_request task)) ∈ msgs.
Proof.
  intros V Hc R Hu Hv Hrun Hc2 R2 Hv2 Hts.
  unfold task_fits in R2. rewrite Hc2 in R2. destruct R2 as [Ht2 Hs2].
  destruct (message_sent now task s u v V Hc R Hu Hv) as (s' & Hr & V1 & Hview).
  rewrite Hr in Hrun. injection Hrun as _ <- _.
  apply task_user_known in Hu as [Hu Huid]; [|done].
  assert (v ∈ lookupUserByName (p_to_user (t_request task)) s) as Hin by (rewrite Hv; by left).
  apply law_lookupUserByName in Hin as [Hvv _]; [|done].
  pose proof (con_self _ (valid_consistent _ V) _ _ Hvv) as Hself.
  destruct (con_members _ (valid_consistent _ V) _ _ Hself) as [[chat Hchat] _].
  destruct (newest_is_polled now2 task2 s' v (db_log (view s))
    (mkMessage UNREAD (u_id u) (u_self_chat_id v) now (p_message (t_request task))) chat)
    as (s2 & msgs & Hidle & Hin & _); try (by rewrite Hview); try done.
  exists msgs, chat. split_and!; [|done|].
  - unfold process_task. by rewrite Hc2, Hidle.
  - unfold db_api_message in Hin. rewrite Hview in Hin. simpl in Hin. by rewrite Huid, Hu, Hchat in Hin.
Qed.

(** A message to a group reaches, in the same way, every member of the
    group: the worker stores one row, and each member finds it. *)
Theorem group_message_is_polled now task s u c w now2 task2 o s1 out :
  valid s -> t_cmd task = MESSAGE_SEND_CHAT -> task_fits now task s -> task_user task s = Some u ->
  lookupChatByName (chat_name (p_chat (t_request task))) s = [c] ->
  process_task now task s = (o, s1, out) ->
  (c_id c, u_id w) ∈ db_members (view s) ->
  t_cmd task2 = IDLE -> task_fits now2 task2 s1 -> task_user task2 s1 = Some w -> p_ts (t_request task2) < now ->
  out = [sendOkResponse "{\qstatus\q: 0}"] /\
  exists msgs, (process_task now2 task2 s1).2 = [sendMessagesToIdleConn msgs] /\
    mkApiMessage (u64 now) (u_name u) (c_name c) (p_message (t_request task)) ∈ msgs.
Proof.
  intros V Hc R Hu Hlook Hrun Hmem Hc2 R2 Hw Hts.
  unfold task_fits in R2. rewrite Hc2 in R2. destruct R2 as [Ht2 Hs2].
  set (m := mkMessage UNREAD (u_id u) (c_id c) now (p_message (t_request task))).
  destruct (group_message_sent now task s u c V Hc R Hu Hlook) as (s' & Hr & V1 & Hview).
  rewrite Hr in Hrun. injection Hrun as _ <- <-. split; [done|].
  apply task_user_known in Hu as [Hu Huid]; [|done].
  pose proof (known_chat _ _ _ V Hlook) as Hchat.
  destruct (newest_is_polled now2 task2 s' w (db_log (view s)) m c)
    as (s2 & msgs & Hidle & Hin & _); try (by rewrite Hview); try done.
  exists msgs. split.
  - unfold process_task. by rewrite Hc2, Hidle.
  - unfold db_api_message in Hin. rewrite Hview in Hin. simpl in Hin. by rewrite Huid, Hu, Hchat in Hin.
Qed.

(** ** Accounts *)

(** The user of a name is what the lookup of the name finds. *)
Lemma only_user_named name s u :
  valid s -> db_users (view s) !! u_id u = Some u -> u_name u = name -> lookupUserByName name s = [u].
Proof.
  intros V Hu Hn. assert (u ∈ lookupUserByName name s) as Hin by by apply law_lookupUserByName.
  destruct (lookup_name_unique name s V) as [E|(v & E & _)]; rewrite E in Hin.
  - by apply not_elem_of_nil in Hin.
  - apply list_elem_of_singleton in Hin as ->. done.
Qed.

(** A new account can be used at once: after a successful registration
    the login with the same name and password is answered with the record of
    the created user, and a second registration of the name is refused. *)
Theorem register_then_login now task s s1 out :
  valid s -> t_cmd task = USER_CREATE -> task_fits now task s ->
  lookupUserByName (p_user (t_request task)) s = [] ->
  process_task now task s = (Done tt, s1, out) ->
  exists u h body, out = [sendOkResponse body] /\ ok_body_user u now = Ret body /\
    u_name u = p_user (t_request task) /\ db_users (view s1) !! u_id u = Some (set_heartbit h u) /\
    (forall now2 task2, t_cmd task2 = USER_LOGIN -> p_user (t_request task2) = p_user (t_request task) ->
       p_password (t_request task2) = p_password (t_request task) ->
       exists body2, ok_body_user (set_heartbit h u) now2 = Ret body2 /\
         process_task now2 task2 s1 = (Done tt, s1, [sendOkResponse body2])) /\
    process_task now task s1 = (Done tt, s1, [sendErrorResponse 409 ERR_CONSTRAINT "user already exists"]).
Proof.
  intros V Hc R Hnone Hrun. use_fits R.
  assert (~ user_named (p_user (t_request task)) (view s)) as Hn.
  { intros (i & u & Hu & Hname). apply (not_elem_of_nil u). rewrite <- Hnone.
    apply law_lookupUserByName; [done|]. split; [|done].
    by rewrite (proj1 (con_user_key _ (valid_consistent _ V) _ _ Hu)). }
  destruct (law_createUser_new _ _ _ _ _ s V R Hn) as (id & chat & h & s' & Hcr & V' & Hid & _ & _ & _ & Hview).
  set (u := mkUser id chat _ _ _ _ _ 0) in *.
  unfold process_task in Hrun. rewrite Hc in Hrun. unfold do_user_create in Hrun.
  rewrite run_update in Hrun. rewrite Hcr in Hrun. cbn [fst snd u_id u] in Hrun.
  rewrite decide_False in Hrun by lia.
  destruct (ok_body_user_total u now) as [body Hbody]. rewrite Hbody in Hrun.
  injection Hrun as <- <-. exists u, h, body. set (row := set_heartbit h u) in *.
  assert (db_users (view s') !! u_id row = Some row) as Hu by (rewrite Hview; apply lookup_insert_eq).
  split_and!; try done.
  - intros now2 task2 Hc2 Hname Hpass. destruct (ok_body_user_total row now2) as [body2 Hbody2].
    exists body2. split; [done|]. unfold process_task. rewrite Hc2. unfold do_user_login. rewrite Hname.
    pose proof (only_user_named _ s' row V' Hu eq_refl) as Hl.
    destruct (with_check_pass_by_name (fun user => body ← lift (ok_body_user user now2); client (sendOkResponse body))
      (p_user (t_request task)) task2 true s') as [(v & E & _ & _ & ->)|(cs & _ & _ & Hbad)].
    + change (p_user (t_request task)) with (u_name row) in E. rewrite Hl in E. injection E as <-.
      by rewrite run_bind, Hbody2.
    + destruct (Hbad row Hl) as [_ Hp]; [simpl; lia|]. destruct Hp. unfold encrypted_pass. by rewrite Hpass.
  - unfold process_task. rewrite Hc. unfold do_user_create. rewrite run_update.
    rewrite law_createUser_dup; [done|done|]. by exists (u_id row), row.
Qed.

(** ** History *)

Definition between (u v : User) (m : Message) : Prop :=
  (m_user_from m = u_id u /\ m_chat_to m = u_self_chat_id v) \/
  (m_user_from m = u_id v /\ m_chat_to m = u_self_chat_id u).

(** A limit that is not reached changes nothing. *)
Lemma newest_everything pred k log :
  match k with Some n => (length (List.filter pred log) <= n)%nat | None => True end ->
  newest pred k log ≡ₚ List.filter pred log.
Proof.
  intros Hk. unfold newest.
  assert (List.filter pred (rev log) ≡ₚ List.filter pred log) as Hp.
  { rewrite <- (Permutation_rev log). done. }
  destruct k as [n|]; [|done]. simpl. rewrite take_ge; [done|]. by rewrite (Permutation_length Hp).
Qed.

Lemma sent_by_to_iff u v m :
  sent_by_to u v m = true <-> m_user_from m = u_id u /\ m_chat_to m = u_self_chat_id v.
Proof. unfold sent_by_to. by rewrite andb_true_iff, !bool_decide_eq_true. Qed.

Lemma mix_elem from to max m : m ∈ mix_from_and_to_messages from to max -> m ∈ from \/ m ∈ to.
Proof.
  unfold mix_from_and_to_messages. cbv zeta. intros Hm.
  assert (m ∈ std_sort (from ++ to)) as Hs.
  { destruct (_ <=? _); [done|]. apply elem_of_take in Hm as (i & Hi & _). by eapply list_elem_of_lookup_2. }
  rewrite std_sort_perm in Hs. by apply elem_of_app.
Qed.

Lemma mix_complete from to max m :
  Z.of_nat (length from + length to) <= max -> m ∈ from \/ m ∈ to -> m ∈ mix_from_and_to_messages from to max.
Proof.
  intros Hlen Hm. unfold mix_from_and_to_messages. cbv zeta.
  assert (length (std_sort (from ++ to)) = (length from + length to)%nat) as Hl.
  { rewrite (Permutation_length (std_sort_perm (from ++ to))). apply length_app. }
  rewrite Hl, (proj2 (Z.leb_le _ _)) by done. rewrite std_sort_perm. by apply elem_of_app.
Qed.

Lemma mix_length from to max : 0 <= max -> Z.of_nat (length (mix_from_and_to_messages from to max)) <= max.
Proof.
  intros Hmax. unfold mix_from_and_to_messages. cbv zeta. destruct (Z.leb_spec (Z.of_nat (length (std_sort (from ++ to)))) max).
  - done.
  - rewrite length_take. lia.
Qed.

Lemma mix_sorted from to max : StronglySorted (fun m1 m2 => m_ts m2 <= m_ts m1) (mix_from_and_to_messages from to max).
Proof.
  assert (StronglySorted (fun m1 m2 => m_ts m2 <= m_ts m1) (std_sort (from ++ to))) as Hs.
  { apply Sorted_StronglySorted; [|apply std_sort_sorted]. intros a b c ? ?. lia. }
  unfold mix_from_and_to_messages. cbv zeta. destruct (_ <=? _); [done|].
  generalize (Z.to_nat max) as n. induction Hs as [|x l Hl IH Hx]; intros [|n]; simpl; try constructor.
  - apply IH.
  - by apply Forall_take.
Qed.

(** C38: the history of two users shows messages between these two only, the
    latest first, at most as many as asked for; and of the part of the log
    the storage looks through for this request (in memory the whole log, in
    MySQL the latest messages of the whole server, twice as many as asked
    for) all of them when there are no more than that. *)
Theorem user_history_spec `{!Scan S} now task s u v :
  valid s -> t_cmd task = USER_HISTORY -> task_user task s = Some u ->
  lookupUserByName (p_user (t_request task)) s = [v] ->
  0 <= p_count (t_request task) < 2 ^ 31 ->
  let count := p_count (t_request task) in
  let seen := scan (mkOpt 0 (2 * count)) (db_log (view s)) in
  let stored := List.filter (sent_by_to u v) seen ++ List.filter (sent_by_to v u) seen in
  exists mix, process_task now task s = (Done tt, s, [sendMessages (db_api_message (view s) <$> mix)]) /\
    Forall (fun m => m ∈ db_log (view s) /\ between u v m) mix /\
    StronglySorted (fun m1 m2 => m_ts m2 <= m_ts m1) mix /\
    Z.of_nat (length mix) <= count /\
    (Z.of_nat (length stored) <= count -> forall m, m ∈ stored -> m ∈ mix).
Proof.
  intros V Hc Hu Hv Hcount count seen stored. unfold process_task. rewrite Hc. unfold do_user_history.
  rewrite with_check_pass, Hu, with_named_user, Hv by done.
  rewrite run_gets. rewrite run_gets.
  rewrite run_bind, to_api_format_run.
  assert (u32 (u64 (p_count (t_request task) * 2)) = 2 * count) as ->.
  { rewrite !wrap_small; [unfold count; lia|..]; split; unfold count in *; try rewrite !wrap_small by (split; lia); lia. }
  set (opt := mkOpt 0 (2 * count)) in *.
  assert (0 <= o_max_count opt) as Hopt by (simpl; unfold count; lia).
  rewrite !scan_select by done. fold seen.
  set (msgs_to := newest (sent_by_to u v) (limit opt) seen).
  set (msgs_from := newest (sent_by_to v u) (limit opt) seen).
  set (mix := mix_from_and_to_messages msgs_from msgs_to (p_count (t_request task))).
  exists mix. split_and!.
  - do 3 f_equal. simpl. f_equal. f_equal. apply list_fmap_ext. intros _ m _. by apply api_message_view.
  - apply Forall_forall. intros m [Hm|Hm]%mix_elem; apply newest_elem in Hm as [Hp Hm%scan_elem];
      apply sent_by_to_iff in Hp; (split; [done|]); [right|left]; done.
  - apply mix_sorted.
  - apply mix_length. lia.
  - intros Hall m Hm. unfold stored in Hall, Hm. rewrite length_app in Hall.
    assert (forall pred, Z.of_nat (length (List.filter pred seen)) <= count ->
      newest pred (limit opt) seen ≡ₚ List.filter pred seen) as Hn.
    { intros pred Hle. apply newest_everything. unfold limit. simpl. case_decide; [done|]. lia. }
    apply mix_complete.
    + unfold msgs_from, msgs_to. rewrite !Hn by lia. lia.
    + unfold msgs_from, msgs_to. rewrite !Hn by lia. apply elem_of_app in Hm. tauto.
Qed.
End Laws.
