(* ===== verification/Promises.v ===== *)
(** * What the worker promises of every task, whatever its other threads do

    The threads of the worker share the storage, so between two accesses of
    one task other tasks may change it.  [safe] is a program logic for the
    tasks of server/src/database_worker.cpp in that setting: the other
    threads make calls of the storage interface, the task must make only
    such calls, and its end must satisfy a predicate.  Each branch of
    [processQueue] is proved once in this logic, with the number of its
    answers and with what a positive answer promises ([promise]): that who
    asked is a user and has the password ([allowed]), and that it is done
    ([performed]).  What holds of the database for ever may be framed around
    a proof ([safe_frame]).  A task on
    its own is the case in which nobody else runs ([safe_run]). *)

From S2P Require Import Prelude CxxString Utils Common LockQueue Database Store ApiUtils Worker.

(** ** What a positive answer promises *)

Section Promise.
Context `{Crc32}.

(** What was asked for is done. *)
Definition performed (cmd : cmd_t) (now : Z) (task : Task) (d : DB) : Prop :=
  let r := t_request task in
  match cmd with
  | USER_CREATE => exists i u, db_users d !! i = Some u /\ u_name u = p_user r /\ u_password u = encrypted_pass task
  | CHAT_CREATE => exists i c, db_chats d !! i = Some c /\ c_name c = chat_name (p_chat r) /\ (i, p_uid r) ∈ db_members d
  | CHAT_ADDUSER => exists i c j u, db_chats d !! i = Some c /\ c_name c = chat_name (p_chat r) /\
      db_users d !! j = Some u /\ u_name u = chat_adduser (p_chat r) /\ (i, j) ∈ db_members d
  | MESSAGE_SEND => exists i u, db_users d !! i = Some u /\ u_name u = p_to_user r /\
      stored (mkMessage UNREAD (p_uid r) (u_self_chat_id u) now (p_message r)) d
  | MESSAGE_SEND_CHAT => exists i c, db_chats d !! i = Some c /\ c_name c = chat_name (p_chat r) /\
      stored (mkMessage UNREAD (p_uid r) i now (p_message r)) d
  | _ => True
  end.

(** Who asked for it may: the request names a user, by the id or, to log in,
    by the name, and brings the password. *)
Definition allowed (cmd : cmd_t) (task : Task) (d : DB) : Prop :=
  let r := t_request task in
  match cmd with
  | USER_CREATE => True
  | USER_LOGIN => exists i u, db_users d !! i = Some u /\ u_name u = p_user r /\ u_password u = encrypted_pass task
  | _ => exists u, db_users d !! p_uid r = Some u /\ u_password u = encrypted_pass task
  end.

Definition promise (cmd : cmd_t) (now : Z) (task : Task) (d : DB) : Prop :=
  allowed cmd task d /\ performed cmd now task d.

Lemma allowed_stays cmd task d d' : grows d d' -> allowed cmd task d -> allowed cmd task d'.
Proof.
  intros [Gu _ _ _]. unfold allowed. destruct cmd; try done; try (intros (u & (v & Hv & E)%Gu & Hp);
    exists v; pose proof (f_equal u_password E) as Ep; simpl in Ep; by rewrite <- Ep).
  intros (i & u & (v & Hv & E)%Gu & Hn & Hp). exists i, v.
  pose proof (f_equal u_name E) as En. pose proof (f_equal u_password E) as Ep. simpl in En, Ep. by rewrite <- En, <- Ep.
Qed.

Lemma performed_stays cmd now task d d' : grows d d' -> performed cmd now task d -> performed cmd now task d'.
Proof.
  intros [Gu Gc Gm Gs]. unfold performed. destruct cmd; try done.
  - intros (i & u & (v & Hv & E)%Gu & Hn & Hm). exists i, v.
    pose proof (f_equal u_name E) as En. pose proof (f_equal u_self_chat_id E) as Es. simpl in En, Es.
    rewrite <- En, <- Es. eauto.
  - intros (i & c & Hc%Gc & Hn & Hm). exists i, c. eauto.
  - intros (i & u & (v & Hv & E)%Gu & Hn & Hm). exists i, v.
    pose proof (f_equal u_name E) as En. pose proof (f_equal u_password E) as Es. simpl in En, Es.
    by rewrite <- En, <- Es.
  - intros (i & c & Hc%Gc & Hn & Hm). exists i, c. eauto.
  - intros (i & c & j & u & Hc%Gc & Hn & (v & Hv & E)%Gu & Hun & Hm).
    pose proof (f_equal u_name E) as En. simpl in En. exists i, c, j, v. rewrite <- En. eauto 6.
Qed.

(** A promise is kept for ever. *)
Lemma promise_stays cmd now task d d' : grows d d' -> promise cmd now task d -> promise cmd now task d'.
Proof. intros Hg [Ha Hp]. split; [by eapply allowed_stays|by eapply performed_stays]. Qed.

(** A positive answer: all but the errors. *)
Definition positive (c : client_call) : Prop := match c with sendErrorResponse _ _ _ => False | _ => True end.

(** One is among the calls on the client. *)
Definition answered_ok (out : list client_call) : Prop := exists c, c ∈ out /\ positive c.

Lemma not_ok_error http code desc : ~ answered_ok [sendErrorResponse http code desc].
Proof. by intros (c & ->%list_elem_of_singleton & Hc). Qed.

Lemma auth_error_not_ok c : is_auth_error c -> ~ answered_ok [c].
Proof. intros [->| ->]; apply not_ok_error. Qed.

Lemma lookup_error_not_ok c : is_lookup_error c -> ~ answered_ok [c].
Proof. intros [->|[->| ->]]; apply not_ok_error. Qed.
End Promise.

Section Logic.
Context {S : Type} `{ConnectionLaws S} `{Crc32} `{StdSort}.

(** ** What holds of every task, whatever the other threads do *)

(** The rows of users and of chats stay. *)
Lemma user_row_stays s s' i u :
  valid s -> rtc conn_call s s' -> db_users (view s) !! i = Some u ->
  exists v, db_users (view s') !! i = Some v /\ same_user u v.
Proof. intros V Hr. by apply grows_users, conn_calls_grow. Qed.

Lemma user_stays s s' i :
  valid s -> rtc conn_call s s' -> is_Some (db_users (view s) !! i) -> is_Some (db_users (view s') !! i).
Proof. intros V Hr [u Hu]. destruct (user_row_stays _ _ _ _ V Hr Hu) as (v & Hv & _). eauto. Qed.

Lemma chat_stays s s' i c :
  valid s -> rtc conn_call s s' -> db_chats (view s) !! i = Some c -> db_chats (view s') !! i = Some c.
Proof. intros V Hr. by apply grows_chats, conn_calls_grow. Qed.

(** [lookupChatsForUserId] is not one atomic step: it releases the mutex
    between the ids and the chats.  What it answers is the same as if it
    were, because the chats it looks up do not change meanwhile. *)
Theorem chats_read_later uid s s' :
  valid s -> rtc conn_call s s' ->
  (fun c => lookupChatById (c_id c) s') <$> lookupChatsForUserId uid s = lookupChatsForUserId uid s.
Proof.
  intros V Hr. rewrite <- (list_fmap_id (lookupChatsForUserId uid s)) at 2. apply list_fmap_ext. intros i c Hc.
  apply list_elem_of_lookup_2, law_lookupChatsForUserId in Hc as [_ Hc]; [|done].
  rewrite law_lookupChatById by by apply (conn_calls_refine s). by rewrite (chat_stays s s' _ _ V Hr Hc).
Qed.

(** [m], started in [s0], touches the storage by calls of the interface only
    and ends as [Q] says, when other threads make calls of the interface
    before each of its accesses.  [Q] sees the end, the calls on the client
    and the state after the last access.  [fits] is assumed of the storage
    at each access. *)
Fixpoint safe {A} (fits : S -> Prop) (Q : outcome A -> list client_call -> S -> Prop) (m : M A) (s0 : S) : Prop :=
  match m with
  | Finish o => Q o [] s0
  | Access f next => forall s, valid s -> rtc conn_call s0 s -> fits s ->
      rtc conn_call s (f s) /\ safe fits Q (next s) (f s)
  | Emit c next => safe fits (fun o out => Q o (c :: out)) next s0
  end.

Lemma safe_mono {A} fits (Q Q' : outcome A -> list client_call -> S -> Prop) m s0 :
  (forall o out s, Q o out s -> Q' o out s) -> safe fits Q m s0 -> safe fits Q' m s0.
Proof.
  revert Q Q' s0. induction m as [o|f next IH|c next IH]; intros Q Q' s0 HQ; simpl.
  - apply HQ.
  - intros Hm s V Hr Hf. destruct (Hm s V Hr Hf) as [Hc Hn]. split; [done|]. by eapply IH.
  - apply IH. intros o out s. apply HQ.
Qed.

Lemma safe_bind {A B} fits (Q : outcome B -> list client_call -> S -> Prop) (m : M A) (k : A -> M B) s0 :
  safe fits (fun o out s =>
    match o with
    | Done a => safe fits (fun o' out' => Q o' (out ++ out')) (k a) s
    | Continue => Q Continue out s
    | Aborted => Q Aborted out s
    end) m s0 ->
  safe fits Q (m ≫= k) s0.
Proof.
  unfold mbind, M_bind. revert Q s0. induction m as [[a| |]|f next IH|c next IH]; intros Q s0; simpl; try done.
  - intros Hm s V Hr Hf. destruct (Hm s V Hr Hf) as [Hc Hn]. split; [done|]. by apply IH.
  - apply (IH (fun o out => Q o (c :: out))).
Qed.

(** Other threads may run first. *)
Lemma safe_later {A} fits (Q : outcome A -> list client_call -> S -> Prop) m s0 s1 :
  (forall o out, Q o out s0 -> Q o out s1) -> rtc conn_call s0 s1 -> safe fits Q m s0 -> safe fits Q m s1.
Proof.
  revert Q. induction m as [o|f next IH|c next IH]; intros Q HQ H01; simpl.
  - apply HQ.
  - intros Hm s V Hr Hf. apply Hm; [done|by etrans|done].
  - apply IH; [|done]. intros o out. apply HQ.
Qed.

Lemma safe_gets {A B} fits (Q : outcome B -> list client_call -> S -> Prop) (f : S -> A) (k : A -> M B) s0 :
  (forall s, valid s -> rtc conn_call s0 s -> fits s -> safe fits Q (k (f s)) s) ->
  safe fits Q (x ← gets f; k x) s0.
Proof. intros Hk s V Hr Hf. split; [apply rtc_refl|]. by apply Hk. Qed.

Lemma safe_update {A B} fits (Q : outcome B -> list client_call -> S -> Prop) (f : S -> A * S) (k : A -> M B) s0 :
  (forall s, valid s -> rtc conn_call s0 s -> fits s ->
     conn_call s (f s).2 /\ safe fits Q (k (f s).1) (f s).2) ->
  safe fits Q (x ← update f; k x) s0.
Proof. intros Hk s V Hr Hf. destruct (Hk s V Hr Hf). split; [by apply rtc_once|done]. Qed.

Lemma safe_modify {B} fits (Q : outcome B -> list client_call -> S -> Prop) (f : S -> S) (k : M B) s0 :
  (forall s, valid s -> rtc conn_call s0 s -> fits s -> conn_call s (f s) /\ safe fits Q k (f s)) ->
  safe fits Q (modify f ;; k) s0.
Proof. intros Hk s V Hr Hf. destruct (Hk s V Hr Hf). split; [by apply rtc_once|done]. Qed.

(** A handler that starts with [lookup_check_pass]. *)
Lemma safe_check_pass {B} fits (Q : outcome B -> list client_call -> S -> Prop) (k : User -> M B) task s0 :
  (forall c s, is_auth_error c -> Q Continue [c] s) ->
  (forall s u, valid s -> rtc conn_call s0 s -> task_user task s = Some u -> safe fits Q (k u) s) ->
  safe fits Q (user ← lookup_check_pass task; unless_found user ;; k user) s0.
Proof.
  intros HQ Hk. apply safe_bind. unfold lookup_check_pass. apply safe_gets. intros s V Hr Hf.
  set (u := lookupUserById (p_uid (t_request task)) s).
  case_decide as E; [apply HQ; by left|]. case_decide as Ep; [apply HQ; by right|].
  simpl. unfold unless_found. rewrite decide_False by done. apply Hk; [done..|].
  apply task_user_Some. by split_and!.
Qed.

Lemma safe_check_pass_by_name {B} fits (Q : outcome B -> list client_call -> S -> Prop) (k : User -> M B) name task check s0 :
  (forall c s, is_lookup_error c -> Q Continue [c] s) ->
  (forall s u, valid s -> rtc conn_call s0 s -> lookupUserByName name s = [u] ->
     (check = true -> u_password u = encrypted_pass task) -> safe fits Q (k u) s) ->
  safe fits Q (user ← lookup_check_pass_by_name name task check; unless_found user ;; k user) s0.
Proof.
  intros HQ Hk. apply safe_bind. unfold lookup_check_pass_by_name. apply safe_gets. intros s V Hr Hf.
  destruct (lookupUserByName name s) as [|u [|v l]] eqn:E.
  - apply HQ. by left.
  - case_decide as Hp; [apply HQ; right; by left|]. simpl. unfold unless_found.
    assert (check = true -> u_password u = encrypted_pass task) as Hpass
      by (intros Hc; symmetry; apply dec_stable; tauto).
    rewrite decide_False; [by apply Hk|]. eapply lookup_user_pos; [done|rewrite E; by left].
  - apply HQ. right. by right.
Qed.

(** ** The end of every task *)

(** How many calls on the client a command makes. *)
Definition reply_count (cmd : cmd_t) (n : nat) : Prop :=
  match cmd with
  | IDLE => (n <= 1)%nat
  | CHAT_HISTORY | CHAT_STATUS | MESSAGE_RECENT | CMD_LAST => n = 0%nat
  | _ => n = 1%nat
  end.

(** A good end: no assertion failed, the answers are counted, and a positive
    one is kept. *)
Definition good_end (cmd : cmd_t) (now : Z) (task : Task) (o : outcome unit) (out : list client_call) (s : S) : Prop :=
  o <> Aborted /\ reply_count cmd (length out) /\ (answered_ok out -> promise cmd now task (view s)).

(** The same without the account. *)
Definition done_end (cmd : cmd_t) (now : Z) (task : Task) (o : outcome unit) (out : list client_call) (s : S) : Prop :=
  o <> Aborted /\ reply_count cmd (length out) /\ (answered_ok out -> performed cmd now task (view s)).

(** What holds of the database for ever holds at the end. *)
Lemma safe_frame {A} fits (Q : outcome A -> list client_call -> S -> Prop) (R : DB -> Prop) m s0 :
  (forall d d', grows d d' -> R d -> R d') -> valid s0 -> R (view s0) ->
  safe fits Q m s0 -> safe fits (fun o out s => Q o out s /\ R (view s)) m s0.
Proof.
  intros HR. revert Q s0. induction m as [o|f next IH|c next IH]; intros Q s0 V0 HR0; simpl; [done| |by apply IH].
  intros Hm s V Hr Hf. destruct (Hm s V Hr Hf) as [Hc Hn]. split; [done|]. apply IH; [by apply (conn_calls_refine s)| |done].
  eapply HR; [|exact HR0]. apply conn_calls_grow; [done|by etrans].
Qed.

Lemma safe_allowed fits cmd now task m s :
  valid s -> allowed cmd task (view s) -> safe fits (done_end cmd now task) m s -> safe fits (good_end cmd now task) m s.
Proof.
  intros V Ha Hm. eapply safe_mono; [|exact (safe_frame _ _ (allowed cmd task) _ _ (allowed_stays cmd task) V Ha Hm)].
  intros o out s' [(Ho & Hc & Hp) Hal]. split_and!; [done..|]. intros Hok. split; [done|by apply Hp].
Qed.

(** A task whose user is looked up by the id. *)
Lemma safe_account fits cmd now task (k : User -> M unit) s0 :
  cmd <> USER_CREATE /\ cmd <> USER_LOGIN ->
  (forall c s, is_auth_error c -> good_end cmd now task Continue [c] s) ->
  (forall s u, valid s -> rtc conn_call s0 s -> task_user task s = Some u -> safe fits (done_end cmd now task) (k u) s) ->
  safe fits (good_end cmd now task) (user ← lookup_check_pass task; unless_found user ;; k user) s0.
Proof.
  intros Hcmd HQ Hk. apply safe_check_pass; [done|]. intros s u V Hr Hu. apply safe_allowed; [done| |by apply Hk].
  assert (exists u, db_users (view s) !! p_uid (t_request task) = Some u /\ u_password u = encrypted_pass task) as Ha.
  { exists u. split; [by apply task_user_known|]. by apply task_user_Some in Hu as (_ & _ & ?). }
  unfold allowed. by destruct cmd, Hcmd.
Qed.

(** Closes the ends that promise nothing. *)
Ltac good :=
  intros; split_and!;
    [done|simpl; first [done|lia]
    |first [by intros _ | intros Hok; exfalso; revert Hok;
       first [by apply not_ok_error | by apply auth_error_not_ok | by apply lookup_error_not_ok
             | by intros (? & ?%not_elem_of_nil & _)]]].

Lemma safe_body fits cmd now task (m : cxx str) s0 :
  reply_count cmd 1 -> (exists body, m = Ret body) -> performed cmd now task (view s0) ->
  safe fits (done_end cmd now task) (body ← lift m; client (sendOkResponse body)) s0.
Proof. intros Hr [body ->] Hp. by split_and!. Qed.

(** A computation that returns a value and says nothing. *)
Definition quiet {A} (o : outcome A) (out : list client_call) (_ : S) : Prop := (exists a, o = Done a) /\ out = [].

Lemma quiet_ret {A} fits (a : A) s0 : safe fits quiet (mret a) s0.
Proof. split; eauto. Qed.

Lemma safe_quiet {A B} fits (Q : outcome B -> list client_call -> S -> Prop) (m : M A) (k : A -> M B) s0 :
  safe fits quiet m s0 -> (forall a s, safe fits Q (k a) s) -> safe fits Q (x ← m; k x) s0.
Proof.
  intros Hm Hk. apply safe_bind. eapply safe_mono; [|done]. intros o out s [[a ->] ->]. apply Hk.
Qed.

Lemma to_api_format_quiet fits msgs s0 : safe fits quiet (to_api_format msgs) s0.
Proof.
  revert s0. induction msgs as [|msg msgs IH]; intros s0; [apply quiet_ret|]. cbn [to_api_format].
  apply safe_quiet.
  - apply safe_gets. intros s1 _ _ _. apply safe_gets. intros s2 _ _ _. apply quiet_ret.
  - intros m s. apply safe_quiet; [done|]. intros ms s'. apply quiet_ret.
Qed.

Lemma to_api_format_batch_quiet fits batch s0 : safe fits quiet (to_api_format_batch batch) s0.
Proof.
  revert s0. induction batch as [|msgs batch IH]; intros s0; [apply quiet_ret|]. cbn [to_api_format_batch].
  apply safe_quiet; [apply to_api_format_quiet|]. intros ms s. apply safe_quiet; [done|].
  intros mss s'. apply quiet_ret.
Qed.

Lemma poll_chats_quiet fits ts chats batch s0 : since_fits ts -> safe fits quiet (poll_chats ts chats batch) s0.
Proof.
  intros Ht. revert batch s0. induction chats as [|c chats IH]; intros batch s0; [apply quiet_ret|]. cbn [poll_chats].
  apply safe_update. intros s V Hr Hf. split; [|apply IH]. by apply call_getMessages.
Qed.

Lemma do_idle_safe now task s0 :
  t_cmd task = IDLE -> safe (task_fits now task) (good_end IDLE now task) (do_idle now task) s0.
Proof.
  intros Ecmd. apply safe_account; [done|good|]. intros s u V Hr Hu.
  apply safe_modify. intros s1 V1 Hr1 R. use_fits R. destruct R as [Ht Hts]. split; [by constructor|].
  apply safe_gets. intros s2 V2 Hr2 _. apply safe_quiet; [by apply poll_chats_quiet|].
  intros [|msgs batch] s3.
  - destruct (t_ping task); good.
  - apply safe_quiet; [apply to_api_format_batch_quiet|]. intros ms s4. good.
Qed.

Lemma do_user_history_safe fits now task s0 : safe fits (good_end USER_HISTORY now task) (do_user_history task) s0.
Proof.
  apply safe_account; [done|good|]. intros s u _ _ _. apply safe_check_pass_by_name; [good|]. intros s1 v _ _ _ _.
  apply safe_gets. intros s2 _ _ _. apply safe_gets. intros s3 _ _ _.
  apply safe_quiet; [apply to_api_format_quiet|]. good.
Qed.

Lemma do_user_status_safe fits now task s0 : safe fits (good_end USER_STATUS now task) (do_user_status now task) s0.
Proof.
  apply safe_account; [done|good|]. intros s u _ _ _. apply safe_check_pass_by_name; [good|]. intros s1 v _ _ _ _.
  apply safe_body; [done|apply ok_body_user_total|done].
Qed.

Lemma named_user_row name s u :
  valid s -> lookupUserByName name s = [u] -> db_users (view s) !! u_id u = Some u /\ u_name u = name.
Proof. intros V E. apply law_lookupUserByName; [done|]. rewrite E. by left. Qed.

Lemma do_user_login_safe fits now task s0 : safe fits (good_end USER_LOGIN now task) (do_user_login now task) s0.
Proof.
  apply safe_check_pass_by_name; [good|]. intros s1 v V1 _ Hv Hp. destruct (named_user_row _ _ _ V1 Hv) as [Hrow Hname].
  apply safe_allowed; [done|by eexists _, v; eauto|]. apply safe_body; [done|apply ok_body_user_total|done].
Qed.

Lemma do_user_create_safe now task s0 :
  t_cmd task = USER_CREATE ->
  safe (task_fits now task) (good_end USER_CREATE now task) (do_user_create now task) s0.
Proof.
  intros Ecmd. apply (safe_mono _ (done_end USER_CREATE now task)); [intros o out s (Ho & Hc & Hp); split_and!; [done..|]; intros Hok; split; [done|by apply Hp]|].
  apply safe_update. intros s V Hr R. use_fits R. split; [exact (call_createUser s _ _ _ _ _ R)|].
  destruct (user_named_dec (p_user (t_request task)) (view s)) as [Hn|Hn].
  - rewrite law_createUser_dup by done. good.
  - destruct (law_createUser_new _ _ _ _ _ s V R Hn) as (id & chat & h & s' & -> & V' & Hid & _ & _ & _ & Hv).
    cbn [fst snd u_id]. rewrite decide_False by lia.
    apply safe_body; [done|apply ok_body_user_total|]. eexists _, _. rewrite Hv. simpl.
    by rewrite lookup_insert_eq.
Qed.

Lemma do_chat_create_safe now task s0 :
  t_cmd task = CHAT_CREATE ->
  safe (task_fits now task) (good_end CHAT_CREATE now task) (do_chat_create now task) s0.
Proof.
  intros Ecmd. apply safe_account; [done|good|]. intros s u V Hr Hu.
  apply task_user_known in Hu as [Hu Hid]; [|done].
  apply safe_update. intros s1 V1 Hr1 R. use_fits R.
  assert (is_Some (db_users (view s1) !! p_uid (t_request task))) as Hu1
    by (eapply (user_stays s); [done..|by eexists]).
  split; [by apply call_createChat|].
  destruct (chat_named_dec (chat_name (p_chat (t_request task))) (view s1)) as [Hn|Hn].
  - rewrite law_createChat_dup by done. good.
  - destruct (law_createChat_new _ _ s1 V1 R Hn Hu1) as (chat & s' & -> & V' & Hc & _ & Hv).
    cbn [fst snd c_id]. rewrite decide_False by lia.
    apply safe_body; [done|apply ok_body_chat_total|]. exists chat, (mkChat chat (chat_name (p_chat (t_request task)))).
    rewrite Hv. simpl. rewrite lookup_insert_eq. split_and!; [done|done|].
    destruct Hu1 as [v Hv1]. apply (con_user_key _ (valid_consistent _ V1)) in Hv1 as [_ Hpos].
    rewrite (proj2 (Z.ltb_lt _ _)) by done. set_solver.
Qed.

Lemma named_chat_row name s c :
  valid s -> lookupChatByName name s = [c] -> db_chats (view s) !! c_id c = Some c /\ c_name c = name.
Proof. intros V E. apply law_lookupChatByName; [done|]. rewrite E. by left. Qed.

Lemma stored_last m d : stored m (set_db_log (db_log d ++ [m]) d).
Proof. unfold stored. simpl. rewrite fmap_app. apply elem_of_app. right. by left. Qed.

Lemma do_chat_adduser_safe fits now task s0 :
  safe fits (good_end CHAT_ADDUSER now task) (do_chat_adduser now task) s0.
Proof.
  apply safe_account; [done|good|]. intros s u _ _ _. apply safe_check_pass_by_name; [good|]. intros s1 v V1 _ Hv _.
  apply safe_gets. intros s2 V2 Hr2 _.
  destruct (lookupChatByName _ s2) as [|c [|]] eqn:Hc; try good.
  destruct (named_user_row _ _ _ V1 Hv) as [Hrow Hname]. destruct (named_chat_row _ _ _ V2 Hc) as [Hchat Hcn].
  apply safe_modify. intros s3 V3 Hr3 _.
  pose proof (chat_stays s2 s3 _ _ V2 Hr3 Hchat) as Hchat3.
  destruct (user_row_stays s1 s3 _ _ V1 ltac:(by etrans) Hrow) as (v3 & Hrow3 & E).
  destruct (law_addUserToChat c v s3 V3 Hchat3 (mk_is_Some _ _ Hrow3)) as [V4 Hview].
  split; [by apply call_addUserToChat|].
  destruct (ok_body_chat_total c now) as [body ->]. split_and!; [done|done|]. intros _.
  exists (c_id c), c, (u_id v), v3. rewrite Hview. simpl. pose proof (f_equal u_name E) as En. simpl in En.
  split_and!; [done|done|done|congruence|set_solver].
Qed.

Lemma safe_save fits cmd now task m s0 :
  (forall s, valid s -> rtc conn_call s0 s -> fits s ->
     is_Some (db_users (view s) !! m_user_from m) /\ is_Some (db_chats (view s) !! m_chat_to m) /\
     time_fits (m_ts m) /\ text_fits (m_message m) /\
     forall d, grows (view s) d -> stored m d -> performed cmd now task d) ->
  reply_count cmd 1 ->
  safe fits (done_end cmd now task) (modify (saveMessage m) ;; client (sendOkResponse "{\qstatus\q: 0}")) s0.
Proof.
  intros Hm Hc. apply safe_modify. intros s V Hr R. destruct (Hm s V Hr R) as (Hu & Hch & Ht & Hf & Hp).
  pose proof (call_saveMessage s m Hu Hch Ht Hf) as Hcall. split; [done|]. split_and!; [done|done|]. intros _.
  apply Hp; [apply conn_calls_grow; [done|by apply rtc_once]|].
  destruct (law_saveMessage m s V Hu Hch Ht Hf) as [_ ->]. apply stored_last.
Qed.

Lemma do_message_send_safe now task s0 :
  t_cmd task = MESSAGE_SEND ->
  safe (task_fits now task) (good_end MESSAGE_SEND now task) (do_message_send now task) s0.
Proof.
  intros Ecmd. apply safe_account; [done|good|]. intros s u V Hr Hu. apply safe_gets. intros s1 V1 Hr1 _.
  destruct (lookupUserByName _ s1) as [|v [|]] eqn:Hv; try good.
  destruct (named_user_row _ _ _ V1 Hv) as [Hrow Hname].
  apply safe_save; [|done]. intros s2 V2 Hr2 R. use_fits R. destruct R as [Ht Hf]. split_and!; [..|done|done|].
  - eapply (user_stays s); [done|by etrans|by eapply task_user_stored].
  - destruct (self_chat_stored _ _ _ V1 Hv) as [c Hc]. exists c. by apply (chat_stays s1).
  - intros d G Hst. destruct (user_row_stays s1 s2 _ _ V1 Hr2 Hrow) as (v2 & Hv2 & E2).
    destruct (grows_users _ _ G _ _ Hv2) as (v3 & Hv3 & E3).
    assert (same_user v v3) as E by by etrans.
    pose proof (f_equal u_name E) as En. pose proof (f_equal u_self_chat_id E) as Es. simpl in En, Es.
    apply task_user_known in Hu as [_ Hid]; [|done].
    exists (u_id v), v3. rewrite <- En, <- Es, <- Hid. done.
Qed.

Lemma do_message_send_chat_safe now task s0 :
  t_cmd task = MESSAGE_SEND_CHAT ->
  safe (task_fits now task) (good_end MESSAGE_SEND_CHAT now task) (do_message_send_chat now task) s0.
Proof.
  intros Ecmd. apply safe_account; [done|good|]. intros s u V Hr Hu. apply safe_gets. intros s1 V1 Hr1 _.
  destruct (lookupChatByName _ s1) as [|c [|]] eqn:Hc; try good.
  destruct (named_chat_row _ _ _ V1 Hc) as [Hchat Hcn].
  apply safe_save; [|done]. intros s2 V2 Hr2 R. use_fits R. destruct R as [Ht Hf].
  pose proof (chat_stays s1 s2 _ _ V1 Hr2 Hchat) as Hchat2. split_and!; [..|done|done|].
  - eapply (user_stays s); [done|by etrans|by eapply task_user_stored].
  - by exists c.
  - intros d G Hst. apply task_user_known in Hu as [_ Hid]; [|done].
    exists (c_id c), c. rewrite <- Hid. split_and!; [by apply (grows_chats _ _ G)|done|done].
Qed.

(** Every task, whatever the other threads do between its accesses. *)
Lemma process_task_safe now task s0 :
  safe (task_fits now task) (good_end (t_cmd task) now task) (process_task now task) s0.
Proof.
  unfold process_task. destruct (t_cmd task) eqn:Ecmd;
    try match goal with |- safe _ _ (mret tt) _ => good end.
  - by apply do_message_send_safe.
  - by apply do_message_send_chat_safe.
  - by apply do_user_create_safe.
  - apply do_user_login_safe.
  - apply do_user_history_safe.
  - apply do_user_status_safe.
  - apply safe_account; [done|good|]. intros s u _ _ _. apply safe_gets. intros s1 _ _ _.
    destruct (getAllDistinctLocations s1) as [|l ls]; [good|]. apply safe_body; [done|apply ok_body_items_total|done].
  - apply safe_account; [done|good|]. intros s u _ _ _. apply safe_gets. intros s1 _ _ _.
    destruct (getAllUsersFromLocation _ s1) as [|l ls]; [good|]. apply safe_body; [done|apply ok_body_items_total|done].
  - by apply do_chat_create_safe.
  - apply do_chat_adduser_safe.
  - by apply do_idle_safe.
Qed.

(** ** A task on its own *)

(** The storage has room at each access of a run. *)
Fixpoint calm {A} (fits : S -> Prop) (m : M A) (s : S) : Prop :=
  match m with
  | Finish _ => True
  | Access f next => fits s /\ calm fits (next s) (f s)
  | Emit _ next => calm fits next s
  end.

Lemma safe_run {A} fits (Q : outcome A -> list client_call -> S -> Prop) (m : M A) s :
  valid s -> safe fits Q m s -> calm fits m s ->
  valid (m s).1.2 /\ rtc conn_call s (m s).1.2 /\ Q (m s).1.1 (m s).2 (m s).1.2.
Proof.
  revert Q s. induction m as [o|f next IH|c next IH]; intros Q s V Hm Hc; simpl in *.
  - split_and!; [done|apply rtc_refl|done].
  - destruct Hc as [Hf Hc]. destruct (Hm s V (rtc_refl _ _) Hf) as [Hr Hn].
    destruct (IH s Q (f s)) as (? & ? & ?); [by apply (conn_calls_refine s)|done|done|].
    split_and!; [done|by etrans|done].
  - destruct (IH _ s V Hm Hc) as (? & ? & ?). by destruct (perform next s) as [[? ?] ?].
Qed.

Lemma calm_always {A} fits (m : M A) s : (forall s, fits s) -> calm fits m s.
Proof. intros Hf. revert s. induction m; intros s; simpl; auto. Qed.

Lemma calm_reply fits (m : cxx str) s : calm fits (body ← lift m; client (sendOkResponse body)) s.
Proof. by destruct m. Qed.

Lemma calm_update {A B} (fits : S -> Prop) (f : S -> A * S) (k : A -> M B) s :
  fits s -> calm fits (k (f s).1) (f s).2 -> calm fits (x ← update f; k x) s.
Proof. by split. Qed.

(** A task that is not the creation of a row fits in every state or none;
    a creation is the only access that writes. *)
Lemma calm_task now task s : task_fits now task s -> calm (task_fits now task) (process_task now task) s.
Proof.
  intros R. destruct (t_cmd task) eqn:Ecmd;
    try (apply calm_always; intros s'; unfold task_fits in *; rewrite Ecmd in *; exact R).
  - unfold process_task. rewrite Ecmd. unfold do_user_create. apply calm_update; [done|].
    case_decide; [done|apply calm_reply].
  - unfold process_task. rewrite Ecmd. unfold do_chat_create, lookup_check_pass, unless_found. simpl.
    split; [done|]. unfold id.
    by repeat (case_decide; simpl).
Qed.

(** What the properties below say of a run. *)
Lemma process_task_sound now task s :
  valid s -> task_fits now task s ->
  let r := process_task now task s in
  r.1.1 <> Aborted /\ valid r.1.2 /\ rtc conn_call s r.1.2 /\ reply_count (t_cmd task) (length r.2) /\
    (answered_ok r.2 -> promise (t_cmd task) now task (view r.1.2)).
Proof.
  intros V R. destruct (safe_run _ _ _ s V (process_task_safe now task s) (calm_task now task s R)) as (? & ? & ? & ? & ?).
  done.
Qed.


(** ** Properties *)

(** Executing a task, whatever its command and parameters, moves the
    database by steps of the abstract database only, keeps it consistent,
    and never stops the process at an assertion. *)
Theorem worker_refines now task s :
  valid s -> task_fits now task s ->
  let r := process_task now task s in
  r.1.1 <> Aborted /\ rtc db_step (view s) (view r.1.2) /\ consistent (view r.1.2).
Proof.
  intros V R. destruct (process_task_sound now task s V R) as (Ho & V' & Hr & _).
  split_and!; [done|by apply conn_calls_refine|by apply valid_consistent].
Qed.

(** Every command with a branch is answered exactly once, a poll at most
    once; the group history, the chat status and the recent messages are
    never answered, although the client sends the first. *)
Theorem one_reply now task s :
  valid s -> task_fits now task s ->
  let n := length (process_task now task s).2 in
  match t_cmd task with
  | IDLE => (n <= 1)%nat
  | CHAT_HISTORY | CHAT_STATUS | MESSAGE_RECENT | CMD_LAST => n = 0%nat
  | _ => n = 1%nat
  end.
Proof. intros V R. apply (process_task_sound now task s V R). Qed.

End Logic.

(** ** A task calls its client once at most, in every state *)

Section Calls.
Context {S : Type} `{AbstractConnection S} `{Crc32} `{StdSort}.

Fixpoint at_most {A} (n : nat) (m : M (S:=S) A) : Prop :=
  match m with
  | Finish _ => True
  | Access _ next => forall s, at_most n (next s)
  | Emit _ next => match n with O => False | Datatypes.S n => at_most n next end
  end.

Lemma at_most_bind {A B} a b (m : M A) (k : A -> M B) :
  at_most a m -> (forall x, at_most b (k x)) -> at_most (a + b) (m ≫= k).
Proof.
  unfold mbind, M_bind. intros Hm Hk. revert a Hm. induction m as [[x| |]|f next IH|c next IH]; intros a Hm; simpl; try done.
  - specialize (Hk x). revert Hk. generalize (k x) as m. clear. intros m. revert b.
    induction m as [o|f next IH|c next IH]; intros b Hm; simpl; [done|by intros s; apply IH|].
    destruct b as [|b]; [done|]. rewrite Nat.add_succ_r. by apply IH.
  - intros s. by apply IH.
  - destruct a as [|a]; [done|]. by apply IH.
Qed.

Lemma at_most_quiet {A B} n (m : M A) (k : A -> M B) :
  at_most 0 m -> (forall x, at_most n (k x)) -> at_most n (m ≫= k).
Proof. apply at_most_bind. Qed.

Lemma at_most_gets {A B} n (f : S -> A) (k : A -> M B) : (forall x, at_most n (k x)) -> at_most n (x ← gets f; k x).
Proof. intros Hk s. apply Hk. Qed.

Lemma at_most_check_pass {A} (k : User -> M A) task :
  (forall u, at_most 1 (k u)) -> at_most 1 (user ← lookup_check_pass task; unless_found user ;; k user).
Proof.
  intros Hk s. simpl. case_decide; [done|]. case_decide; [done|]. unfold unless_found. simpl.
  case_decide; [done|]. apply Hk.
Qed.

Lemma at_most_by_name {A} (k : User -> M A) name task check :
  (forall u, at_most 1 (k u)) ->
  at_most 1 (user ← lookup_check_pass_by_name name task check; unless_found user ;; k user).
Proof.
  intros Hk s. simpl. destruct (lookupUserByName name s) as [|u [|]]; [done| |done].
  case_decide; [done|]. unfold unless_found. simpl. case_decide; [done|]. apply Hk.
Qed.

Lemma at_most_lift {A B} n (r : cxx A) (k : A -> M B) : (forall x, at_most n (k x)) -> at_most n (x ← lift r; k x).
Proof. intros Hk. by destruct r; simpl. Qed.

Lemma to_api_format_silent msgs : at_most 0 (to_api_format msgs).
Proof.
  induction msgs as [|msg msgs IH]; [done|]. cbn [to_api_format].
  apply at_most_quiet; [done|]. intros m. by apply at_most_quiet.
Qed.

Lemma to_api_format_batch_silent batch : at_most 0 (to_api_format_batch batch).
Proof.
  induction batch as [|msgs batch IH]; [done|]. cbn [to_api_format_batch].
  apply at_most_quiet; [apply to_api_format_silent|]. intros m. by apply at_most_quiet.
Qed.

Lemma poll_chats_silent ts chats batch : at_most 0 (poll_chats ts chats batch).
Proof.
  revert batch. induction chats as [|c chats IH]; intros batch; [done|]. cbn [poll_chats].
  apply at_most_quiet; [done|]. intros m. apply IH.
Qed.

Lemma process_task_at_most now task : at_most 1 (process_task now task).
Proof.
  unfold process_task. destruct (t_cmd task); try done.
  - apply at_most_check_pass. intros u. apply at_most_gets. by intros [|v [|]].
  - apply at_most_check_pass. intros u. apply at_most_gets. by intros [|v [|]].
  - apply at_most_quiet; [done|]. intros u. case_decide; [done|]. by apply at_most_lift.
  - apply at_most_by_name. intros u. by apply at_most_lift.
  - apply at_most_check_pass. intros u. apply at_most_by_name. intros v.
    apply at_most_gets. intros to. apply at_most_gets. intros from.
    apply at_most_quiet; [apply to_api_format_silent|done].
  - apply at_most_check_pass. intros u. apply at_most_by_name. intros v. by apply at_most_lift.
  - apply at_most_check_pass. intros u. apply at_most_gets. intros [|l ls]; [done|]. by apply at_most_lift.
  - apply at_most_check_pass. intros u. apply at_most_gets. intros [|l ls]; [done|]. by apply at_most_lift.
  - apply at_most_check_pass. intros u. apply at_most_quiet; [done|]. intros c. case_decide; [done|].
    by apply at_most_lift.
  - apply at_most_check_pass. intros u. apply at_most_by_name. intros v. apply at_most_gets.
    intros [|c [|]]; [done| |done]. apply at_most_quiet; [done|]. intros _. by apply at_most_lift.
  - apply at_most_check_pass. intros u. apply at_most_quiet; [done|]. intros _. apply at_most_gets. intros chats.
    apply at_most_quiet; [apply poll_chats_silent|]. intros [|msgs batch]; [by destruct (t_ping task)|].
    apply at_most_quiet; [apply to_api_format_batch_silent|done].
Qed.
End Calls.
