(* ===== verification/Pool.v ===== *)
(** * server/src/database_worker.cpp: the threads of the worker

    [DatabaseWorker::run] starts [m_Workers] threads that all execute
    [processQueue] over one queue and one storage, while the I/O threads
    put tasks into the queue.  A transition system interleaves them: a step
    is one access of one thread to the flag [g_NeedStop], to the queue or to
    the storage, or one call on a client.  The methods of the storage are
    atomic steps, those of the queue too (file LockQueue).  The theorems
    hold for any number of threads and any order of the steps. *)

From S2P Require Import Prelude CxxString Utils Common LockQueue Database Store ApiUtils Worker Promises.

Section Pool.
(** [C] stands for the connections the tasks come from. *)
Context {C S : Type} `{AbstractConnection S} `{Crc32} `{StdSort}.

(** Where a thread is in the loop of [processQueue]: before the test of
    [g_NeedStop], before [getTask], in a branch with the calls made so far
    and what is left of it, or behind the loop. *)
Inductive thread :=
| AtTest
| AtQueue
| InTask (now : Z) (conn : C) (task : Task) (said : list client_call) (rest : M (S:=S) unit)
| Ended.

(** A task that was finished, and the calls it made on its connection. *)
Record report := mkReport { r_now : Z; r_conn : C; r_task : Task; r_end : outcome unit; r_calls : list client_call }.

Record DatabaseWorker := mkWorker {
  need_stop : bool;
  m_Db : S;
  m_Tasks : Queue (C * Task);
  m_Threads : list thread;
  aborted : bool;
  (** history: the tasks put and those finished *)
  put : list (C * Task);
  reports : list report }.

Definition set_threads v w := mkWorker (need_stop w) (m_Db w) (m_Tasks w) v (aborted w) (put w) (reports w).
Definition set_thread i t w := set_threads (<[i:=t]> (m_Threads w)) w.
Definition set_db v w := mkWorker (need_stop w) v (m_Tasks w) (m_Threads w) (aborted w) (put w) (reports w).
Definition set_tasks v w := mkWorker (need_stop w) (m_Db w) v (m_Threads w) (aborted w) (put w) (reports w).
Definition set_put v w := mkWorker (need_stop w) (m_Db w) (m_Tasks w) (m_Threads w) (aborted w) v (reports w).
Definition set_reports v w := mkWorker (need_stop w) (m_Db w) (m_Tasks w) (m_Threads w) (aborted w) (put w) v.

(** [run] *)
Definition start (workers : nat) (s : S) : DatabaseWorker :=
  mkWorker false s (mkQueue []) (replicate workers AtTest) false [] [].

Definition putTask (conn : C) (task : Task) (w : DatabaseWorker) : DatabaseWorker :=
  set_put (put w ++ [(conn, task)]) (set_tasks (push (m_Tasks w) (conn, task)) w).

(** One step of thread [i]; [now] is what [time(NULL)] will answer to the
    task it takes.  A thread that has ended, or is not there, stays. *)
Definition advance (i : nat) (now : Z) (w : DatabaseWorker) : DatabaseWorker :=
  match m_Threads w !! i with
  | Some AtTest => set_thread i (if need_stop w then Ended else AtQueue) w
  | Some AtQueue =>
      match getTask (m_Tasks w) with
      | (None, q) => set_thread i AtTest (set_tasks q w)          (* sleeps *)
      | (Some (conn, task), q) => set_thread i (InTask now conn task [] (process_task now task)) (set_tasks q w)
      end
  | Some (InTask now conn task said (Access f next)) =>
      set_db (f (m_Db w)) (set_thread i (InTask now conn task said (next (m_Db w))) w)
  | Some (InTask now conn task said (Emit c next)) =>
      set_thread i (InTask now conn task (said ++ [c]) next) w
  | Some (InTask now conn task said (Finish Aborted)) =>
      mkWorker (need_stop w) (m_Db w) (m_Tasks w) (m_Threads w) true (put w) (reports w)
  | Some (InTask now conn task said (Finish o)) =>
      set_thread i AtTest (set_reports (reports w ++ [mkReport now conn task o said]) w)
  | Some Ended | None => w
  end.

Inductive pool_step (w : DatabaseWorker) : DatabaseWorker -> Prop :=
| ps_signal : aborted w = false ->
    pool_step w (mkWorker true (m_Db w) (m_Tasks w) (m_Threads w) (aborted w) (put w) (reports w))
| ps_put conn task : aborted w = false -> pool_step w (putTask conn task w)
| ps_advance i now : aborted w = false -> pool_step w (advance i now w).

(** ** Schedules

    An event of a run, and the run of a list of events; after an assertion
    has stopped the process nothing happens. *)
Inductive event :=
| Signal
| Put (conn : C) (task : Task)
| Run (i : nat) (now : Z).

Definition happen (w : DatabaseWorker) (e : event) : DatabaseWorker :=
  if aborted w then w
  else match e with
  | Signal => mkWorker true (m_Db w) (m_Tasks w) (m_Threads w) (aborted w) (put w) (reports w)
  | Put conn task => putTask conn task w
  | Run i now => advance i now w
  end.

Definition play : list event -> DatabaseWorker -> DatabaseWorker := flip (foldl happen).

(** The tasks in the hands of the threads. *)
Definition in_hand (t : thread) : list (C * Task) :=
  match t with InTask _ conn task _ _ => [(conn, task)] | _ => [] end.
End Pool.
Arguments thread : clear implicits.
Arguments report : clear implicits.
Arguments DatabaseWorker : clear implicits.
Arguments event : clear implicits.

Section Laws.
Context {C S : Type} `{ConnectionLaws S} `{Crc32} `{StdSort}.
Implicit Types w : DatabaseWorker C S.

(** What the tasks in hand still store fits the storage. *)
Definition room w : Prop :=
  Forall (fun t => match t with InTask now _ task _ _ => task_fits now task (m_Db w) | _ => True end) (m_Threads w).

(** The worker while its storage has room. *)
Definition roomy_step w w' : Prop := room w /\ pool_step w w'.

(** ** The invariant *)

(** The end of a task, with the calls it had made before. *)
Definition ends_well (now : Z) (task : Task) (said : list client_call) (o : outcome unit) (out : list client_call) : S -> Prop :=
  good_end (t_cmd task) now task o (said ++ out).

Definition thread_ok (s : S) (t : thread C S) : Prop :=
  match t with
  | InTask now _ task said rest => safe (task_fits now task) (ends_well now task said) rest s
  | _ => True
  end.

Definition report_ok (s : S) (r : report C) : Prop :=
  good_end (t_cmd (r_task r)) (r_now r) (r_task r) (r_end r) (r_calls r) s.

Record pool_ok (s0 : S) w : Prop := {
  ok_running : aborted w = false;
  ok_valid : valid (m_Db w);
  ok_calls : rtc conn_call s0 (m_Db w);
  ok_threads : Forall (thread_ok (m_Db w)) (m_Threads w);
  ok_reports : Forall (report_ok (m_Db w)) (reports w);
  ok_tasks : put w ≡ₚ ((fun r => (r_conn r, r_task r)) <$> reports w) ++ (m_Threads w ≫= in_hand) ++ m_Queue (m_Tasks w) }.

(** A good end stays good. *)
Lemma good_end_stays cmd now task o out s s' :
  valid s -> rtc conn_call s s' -> good_end cmd now task o out s -> good_end cmd now task o out s'.
Proof.
  intros V Hr (Ho & Hn & Hp). split_and!; [done|done|]. intros Hok.
  eapply promise_stays; [by apply conn_calls_grow|by apply Hp].
Qed.

Lemma thread_ok_stays s s' t : valid s -> rtc conn_call s s' -> thread_ok s t -> thread_ok s' t.
Proof.
  intros V Hr. destruct t as [| |now conn task said rest|]; simpl; try done.
  apply safe_later; [|done]. intros o out. by apply good_end_stays.
Qed.

Lemma in_hand_insert (ts : list (thread C S)) i t t' :
  ts !! i = Some t -> in_hand t ++ (<[i:=t']> ts ≫= in_hand) ≡ₚ in_hand t' ++ (ts ≫= in_hand).
Proof.
  intros Hi. rewrite (insert_take_drop ts i t') by by eapply lookup_lt_Some.
  rewrite <- (take_drop_middle ts i t Hi) at 3.
  rewrite !bind_app. csimpl. solve_Permutation.
Qed.

(** ** Every step keeps the invariant *)

Lemma thread_at s0 w i t : pool_ok s0 w -> m_Threads w !! i = Some t -> thread_ok (m_Db w) t.
Proof. intros Hok Hi. by eapply (Forall_lookup_1 _ _ _ _ (ok_threads _ _ Hok)). Qed.

(** A thread goes on with the same task. *)
Lemma set_thread_ok s0 w i t t' :
  pool_ok s0 w -> m_Threads w !! i = Some t -> thread_ok (m_Db w) t' -> in_hand t' = in_hand t ->
  pool_ok s0 (set_thread i t' w).
Proof.
  intros [Hr V Hc Ht Hrep Hp] Hi Hok E. split; simpl; try done.
  - by apply Forall_insert.
  - rewrite Hp. f_equiv. f_equiv. pose proof (in_hand_insert _ i t t' Hi) as Hperm.
    rewrite E in Hperm. by apply Permutation_app_inv_l in Hperm.
Qed.

Lemma take_ok s0 w i now conn task q :
  pool_ok s0 w -> m_Threads w !! i = Some AtQueue -> getTask (m_Tasks w) = (Some (conn, task), q) ->
  pool_ok s0 (set_thread i (InTask now conn task [] (process_task now task)) (set_tasks q w)).
Proof.
  intros [Hr V Hc Ht Hrep Hp] Hi Hq. split; simpl; try done.
  - apply Forall_insert; [done|]. apply process_task_safe.
  - pose proof (in_hand_insert _ i _ (InTask now conn task [] (process_task now task)) Hi) as Hperm.
    simpl in Hperm. rewrite Hp. f_equiv. rewrite Hperm. unfold getTask in Hq.
    destruct (m_Queue (m_Tasks w)) as [|x l]; [done|]. injection Hq as -> <-. simpl. solve_Permutation.
Qed.

Lemma access_ok s0 w i now conn task said f next :
  pool_ok s0 w -> room w -> m_Threads w !! i = Some (InTask now conn task said (Access f next)) ->
  pool_ok s0 (set_db (f (m_Db w)) (set_thread i (InTask now conn task said (next (m_Db w))) w)).
Proof.
  intros Hok Hroom Hi. pose proof (thread_at _ _ _ _ Hok Hi) as Hthread.
  destruct (Hthread (m_Db w) (ok_valid _ _ Hok) (rtc_refl _ _)) as [Hcall Hnext].
  { apply (Forall_lookup_1 _ _ _ _ Hroom Hi). }
  pose proof (set_thread_ok s0 w i _ (InTask now conn task said (Access f next)) Hok Hi Hthread eq_refl)
    as [Hr V Hc Ht Hrep _].
  simpl in *. rewrite list_insert_id in Ht by done. split; simpl; try done.
  - by apply (conn_calls_refine (m_Db w)).
  - by etrans.
  - apply Forall_insert; [|done]. eapply Forall_impl; [done|]. intros t. by apply thread_ok_stays.
  - eapply Forall_impl; [done|]. intros r. by apply good_end_stays.
  - rewrite (ok_tasks _ _ Hok). f_equiv. f_equiv.
    by pose proof (in_hand_insert _ i _ (InTask now conn task said (next (m_Db w))) Hi)
      as Hperm%Permutation_app_inv_l.
Qed.

Lemma finish_ok s0 w i now conn task said o :
  pool_ok s0 w -> m_Threads w !! i = Some (InTask now conn task said (Finish o)) ->
  pool_ok s0 (set_thread i AtTest (set_reports (reports w ++ [mkReport now conn task o said]) w)).
Proof.
  intros Hok Hi. pose proof (thread_at _ _ _ _ Hok Hi) as Hend. simpl in Hend. unfold ends_well in Hend.
  rewrite app_nil_r in Hend. destruct Hok as [Hr V Hc Ht Hrep Hp]. split; simpl; try done.
  - by apply Forall_insert.
  - apply Forall_app. split; [done|]. by constructor.
  - rewrite Hp, fmap_app. pose proof (in_hand_insert _ i _ AtTest Hi) as Hperm. simpl in Hperm. csimpl.
    rewrite <- Hperm. solve_Permutation.
Qed.

Lemma advance_ok s0 w i now : pool_ok s0 w -> room w -> pool_ok s0 (advance i now w).
Proof.
  intros Hok Hroom. unfold advance.
  destruct (m_Threads w !! i) as [[| |tnow conn task said [o|f next|c next]|]|] eqn:Hi; try done.
  - eapply set_thread_ok; [done..| |]; by destruct (need_stop w).
  - destruct (getTask (m_Tasks w)) as [[[conn task]|] q] eqn:Hq; [by apply take_ok|].
    assert (set_tasks q w = w) as ->.
    { unfold getTask in Hq. destruct w as [? ? tasks]. simpl in *. destruct (m_Queue tasks); [|done]. by injection Hq as <-. }
    by eapply set_thread_ok.
  - pose proof (thread_at _ _ _ _ Hok Hi) as Hend. destruct o; try by apply finish_ok. by destruct Hend.
  - by apply access_ok.
  - eapply set_thread_ok; [done..| |done].
    pose proof (thread_at _ _ _ _ Hok Hi) as Hthread. simpl in *. eapply safe_mono; [|exact Hthread].
    intros o out s. unfold ends_well. by rewrite <- app_assoc.
Qed.

Lemma pool_step_ok s0 w w' : pool_ok s0 w -> roomy_step w w' -> pool_ok s0 w'.
Proof.
  intros Hok [Hroom Hstep]. destruct Hstep as [Ha|conn task Ha|i now Ha]; [| |by apply advance_ok].
  - by destruct Hok.
  - destruct Hok as [Hr V Hc Ht Hrep Hp]. split; simpl; try done. rewrite Hp. solve_Permutation.
Qed.

Lemma start_ok n s : valid s -> pool_ok s (start n s).
Proof.
  intros V. split; simpl; try done.
  - by apply Forall_replicate.
  - rewrite app_nil_r. induction n as [|n IH]; [done|]. exact IH.
Qed.

Lemma pool_reachable_ok n s w : valid s -> rtc roomy_step (start n s) w -> pool_ok s w.
Proof.
  intros V Hr. pose proof (start_ok n s V) as Hok. remember (start n s) as w0 eqn:E. clear E.
  induction Hr; eauto using pool_step_ok.
Qed.

(** ** Every task can be finished *)

(** A task that fits whatever is stored. *)
Definition always_fits (now : Z) (task : Task) : Prop := forall s, valid s -> task_fits now task s.

Definition ample (now : Z) w : Prop :=
  Forall (fun t => match t with InTask now _ task _ _ => always_fits now task | _ => True end) (m_Threads w) /\
  Forall (fun ct => always_fits now ct.2) (m_Queue (m_Tasks w)).

Lemma ample_room now w : valid (m_Db w) -> ample now w -> room w.
Proof.
  intros V [Ht _]. eapply Forall_impl; [exact Ht|]. intros t. destruct t; auto.
Qed.

Lemma advance_roomy s0 w i now : pool_ok s0 w -> ample now w -> roomy_step w (advance i now w).
Proof.
  intros Hok Ha. split; [by eapply ample_room, Ha; apply Hok|]. constructor. apply Hok.
Qed.

(** A thread in a task finishes it when only it runs. *)
Lemma task_finishes s0 now w i tnow conn task said rest :
  pool_ok s0 w -> ample now w -> m_Threads w !! i = Some (InTask tnow conn task said rest) ->
  exists w', rtc roomy_step w w' /\ m_Threads w' = <[i:=AtTest]> (m_Threads w) /\
    m_Tasks w' = m_Tasks w /\ need_stop w' = need_stop w /\ put w' = put w.
Proof.
  revert w said. induction rest as [o|f next IH|c next IH]; intros w said Hok Ha Hi;
    pose proof (advance_roomy s0 w i now Hok Ha) as Hstep;
    pose proof (pool_step_ok s0 w _ Hok Hstep) as Hok';
    unfold advance in Hstep, Hok'; rewrite Hi in Hstep, Hok'.
  - pose proof (thread_at _ _ _ _ Hok Hi) as Hend. destruct o; [..|by destruct Hend];
      (eexists; split; [by apply rtc_once|done]).
  - pose proof (proj1 Ha) as Hthreads. destruct (IH (m_Db w) _ said Hok') as (w' & Hr & Ht & E1 & E2 & E3).
    + split; [|apply Ha]. simpl. apply Forall_insert; [done|]. apply (Forall_lookup_1 _ _ _ _ Hthreads Hi).
    + simpl. apply list_lookup_insert_eq. by eapply lookup_lt_Some.
    + exists w'. split; [by eapply rtc_l|]. rewrite Ht. simpl. by rewrite list_insert_insert_eq.
  - pose proof (proj1 Ha) as Hthreads. destruct (IH _ (said ++ [c]) Hok') as (w' & Hr & Ht & E1 & E2 & E3).
    + split; [|apply Ha]. simpl. apply Forall_insert; [done|]. apply (Forall_lookup_1 _ _ _ _ Hthreads Hi).
    + simpl. apply list_lookup_insert_eq. by eapply lookup_lt_Some.
    + exists w'. split; [by eapply rtc_l|]. rewrite Ht. simpl. by rewrite list_insert_insert_eq.
Qed.

(** What a run of a thread leaves for the next one. *)
Lemma ample_reset now w w' i :
  ample now w -> m_Threads w' = <[i:=AtTest]> (m_Threads w) -> m_Tasks w' = m_Tasks w -> ample now w'.
Proof. intros [Ht Hq] E1 E2. split; rewrite ?E1, ?E2; [by apply Forall_insert|done]. Qed.

Lemma pool_steps_ok s0 w w' : pool_ok s0 w -> rtc roomy_step w w' -> pool_ok s0 w'.
Proof. intros Hok Hr. induction Hr; eauto using pool_step_ok. Qed.

(** All the tasks in hand. *)
Lemma hands_empty s0 now w :
  pool_ok s0 w -> ample now w ->
  exists w', rtc roomy_step w w' /\ (m_Threads w' ≫= in_hand) = [] /\ m_Tasks w' = m_Tasks w /\
    length (m_Threads w') = length (m_Threads w) /\ need_stop w' = need_stop w /\ put w' = put w /\
    (Ended ∈ m_Threads w' -> Ended ∈ m_Threads w) /\ ample now w'.
Proof.
  remember (length (m_Threads w ≫= in_hand)) as n eqn:En. revert w En.
  induction n as [|n IH]; intros w En Hok Ha.
  { exists w. split_and!; try done. by apply nil_length_inv. }
  destruct (m_Threads w ≫= in_hand) as [|ct l] eqn:El; [done|].
  assert (ct ∈ m_Threads w ≫= in_hand) as (t & Hct & [i Hi]%list_elem_of_lookup_1)%list_elem_of_bind by (rewrite El; by left).
  destruct t as [| |tnow conn task said rest|]; try by apply not_elem_of_nil in Hct.
  destruct (task_finishes s0 now w i _ _ _ _ _ Hok Ha Hi) as (w1 & Hr1 & Ht1 & Eq1 & Es1 & Ep1).
  destruct (IH w1) as (w2 & Hr2 & Hh2 & Eq2 & El2 & Es2 & Ep2 & He2 & Ha2).
  - pose proof (Permutation_length (in_hand_insert _ i _ AtTest Hi)) as Hlen. rewrite <- Ht1 in Hlen.
    rewrite El in Hlen. simpl in Hlen, En. lia.
  - by eapply pool_steps_ok.
  - by eapply ample_reset.
  - exists w2. split_and!; try congruence.
    + by etrans.
    + rewrite El2, Ht1. by rewrite length_insert.
    + intros Hin%He2. rewrite Ht1 in Hin. apply list_elem_of_lookup_1 in Hin as [j Hj].
      apply list_lookup_insert_Some in Hj as [(_ & ? & _)|[_ Hj]]; [done|]. by eapply list_elem_of_lookup_2.
Qed.

(** The queue, one task after the other, by the first thread. *)
Lemma queue_empties s0 now w :
  pool_ok s0 w -> ample now w -> need_stop w = false -> (m_Threads w ≫= in_hand) = [] ->
  (exists t, m_Threads w !! 0%nat = Some t /\ t <> Ended) ->
  exists w', rtc roomy_step w w' /\ (m_Threads w' ≫= in_hand) = [] /\ m_Queue (m_Tasks w') = [] /\ put w' = put w.
Proof.
  remember (m_Queue (m_Tasks w)) as l eqn:El. revert w El.
  induction l as [|[conn task] l IH]; intros w El Hok Ha Hs Hh (t & Hfirst & Ht); [by exists w|].
  assert (exists w1, rtc roomy_step w w1 /\ m_Threads w1 = <[0%nat:=AtQueue]> (m_Threads w) /\
    m_Tasks w1 = m_Tasks w /\ need_stop w1 = false /\ put w1 = put w) as (w1 & Hr1 & Et1 & Eq1 & Es1 & Ep1).
  { destruct t as [| |tnow tconn ttask said rest|]; [| | |done].
    - pose proof (advance_roomy s0 w 0 now Hok Ha) as Hstep. unfold advance in Hstep. rewrite Hfirst, Hs in Hstep.
      eexists. split; [by apply rtc_once|done].
    - exists w. by rewrite list_insert_id.
    - exfalso. apply (not_elem_of_nil (tconn, ttask)). rewrite <- Hh. apply list_elem_of_bind.
      exists (InTask tnow tconn ttask said rest). split; [by left|by eapply list_elem_of_lookup_2]. }
  assert (m_Threads w1 !! 0%nat = Some AtQueue) as Hthere.
  { rewrite Et1. apply list_lookup_insert_eq. by eapply lookup_lt_Some. }
  pose proof (pool_steps_ok _ _ _ Hok Hr1) as Hok1.
  assert (always_fits now task /\ Forall (fun ct => always_fits now ct.2) l) as [Hfit Hfits].
  { destruct Ha as [_ Hq]. rewrite <- El in Hq. by inversion Hq. }
  assert (ample now w1) as Ha1.
  { destruct Ha as [Hth Hq]. split; [rewrite Et1; by apply Forall_insert|by rewrite Eq1]. }
  pose proof (advance_roomy s0 w1 0 now Hok1 Ha1) as Hstep. unfold advance in Hstep.
  rewrite Hthere in Hstep. unfold getTask in Hstep. rewrite Eq1, <- El in Hstep.
  set (w2 := set_thread _ _ _) in Hstep.
  pose proof (pool_step_ok _ _ _ Hok1 Hstep) as Hok2.
  assert (m_Threads w2 !! 0%nat = Some (InTask now conn task [] (process_task now task))) as Htaken.
  { apply list_lookup_insert_eq. by eapply lookup_lt_Some. }
  assert (ample now w2) as Ha2.
  { destruct Ha1 as [Hth _]. split; [by apply Forall_insert|done]. }
  destruct (task_finishes s0 now w2 0 _ _ _ _ _ Hok2 Ha2 Htaken) as (w3 & Hr3 & Et3 & Eq3 & Es3 & Ep3).
  destruct (IH w3) as (w' & Hr & Hh' & Hq' & Hp').
  - by rewrite Eq3.
  - by eapply pool_steps_ok.
  - by eapply ample_reset.
  - by rewrite Es3.
  - rewrite Et3. simpl. rewrite list_insert_insert_eq. rewrite Et1, list_insert_insert_eq.
    apply Permutation_nil. rewrite <- Hh. symmetry.
    assert (in_hand t = []) as Et.
    { apply elem_of_nil_inv. intros x Hx. apply (not_elem_of_nil x). rewrite <- Hh. apply list_elem_of_bind.
      exists t. split; [done|by eapply list_elem_of_lookup_2]. }
    pose proof (in_hand_insert _ 0 t AtTest Hfirst) as Hperm. by rewrite Et in Hperm.
  - exists AtTest. split; [|done]. rewrite Et3. apply list_lookup_insert_eq. by eapply lookup_lt_Some.
  - exists w'. split_and!; [|done|done|by rewrite Hp', Ep3].
    etrans; [exact Hr1|]. eapply rtc_l; [exact Hstep|]. by etrans.
Qed.

(** Only the flag ends a thread. *)
Lemma no_thread_ends n s w :
  rtc pool_step (start n s) w ->
  length (m_Threads w) = n /\ (need_stop w = false -> Ended ∉ m_Threads w).
Proof.
  intros Hr. remember (start n s) as w0 eqn:E.
  assert (length (m_Threads w0) = n /\ (need_stop w0 = false -> Ended ∉ m_Threads w0)) as Hfirst.
  { rewrite E. simpl. split; [apply length_replicate|]. by intros _ [? _]%elem_of_replicate. }
  clear E. induction Hr as [|w0 w1 w2 Hstep _ IH]; [done|]. apply IH. clear IH.
  destruct Hfirst as [Hl He]. destruct Hstep as [_|conn task _|i now _]; [done|done|].
  unfold advance.
  assert (forall i t w1, m_Threads w1 = m_Threads w0 -> need_stop w1 = need_stop w0 ->
    (need_stop w0 = false -> t <> Ended) ->
    length (m_Threads (set_thread i t w1)) = n /\
    (need_stop (set_thread i t w1) = false -> Ended ∉ m_Threads (set_thread i t w1))) as Hset.
  { intros j t w3 E1 E2 Ht. simpl. rewrite E1, E2, length_insert. split; [done|]. intros Hs Hin.
    apply list_elem_of_lookup_1 in Hin as [k Hk].
    apply list_lookup_insert_Some in Hk as [(_ & Hk & _)|[_ Hk]]; [by apply Ht in Hs|].
    apply (He Hs). by eapply list_elem_of_lookup_2. }
  destruct (m_Threads w0 !! i) as [[| |tnow conn task said [[a| |]|f next|c next]|]|]; try done; try by apply Hset.
  - apply Hset; [done..|]. by intros ->.
  - destruct (getTask (m_Tasks w0)) as [[[conn task]|] q]; by apply Hset.
Qed.

(** ** Schedules of tasks that always fit *)

Definition fits_any (ct : C * Task) : Prop := forall now, always_fits now ct.2.

Lemma fits_ample s0 now w : pool_ok s0 w -> Forall fits_any (put w) -> ample now w.
Proof.
  intros Hok Hf. rewrite (ok_tasks _ _ Hok) in Hf. apply Forall_app in Hf as [_ [Hh Hq]%Forall_app].
  split; [|eapply Forall_impl; [exact Hq|]; auto].
  apply Forall_forall. intros t Ht. destruct t as [| |tnow conn task said rest|]; try done.
  apply (proj1 (Forall_forall _ _) Hh (conn, task)). apply list_elem_of_bind.
  eexists. split; [|exact Ht]. by left.
Qed.

Lemma advance_put i now w : put (advance i now w) = put w.
Proof.
  unfold advance. destruct (m_Threads w !! i) as [[| |tnow conn task said [[a| |]|f next|c next]|]|]; try done.
  by destruct (getTask (m_Tasks w)) as [[[conn task]|] q].
Qed.

Lemma play_roomy s0 es w :
  pool_ok s0 w -> Forall fits_any (put w) ->
  Forall (fun e => match e with Put conn task => fits_any (conn, task) | _ => True end) es ->
  rtc roomy_step w (play es w).
Proof.
  revert w. induction es as [|e es IH]; intros w Hok Hf He; [apply rtc_refl|].
  inversion_clear He as [|? ? He1 He2].
  assert (roomy_step w (happen w e)) as Hstep.
  { split; [eapply (ample_room 0); [apply Hok|by eapply fits_ample]|]. unfold happen.
    pose proof (ok_running _ _ Hok) as Ha. rewrite Ha at 1. by destruct e; constructor. }
  eapply rtc_l; [exact Hstep|]. apply IH; [by eapply pool_step_ok| |done].
  unfold happen. rewrite (ok_running _ _ Hok). destruct e; simpl; [done| |by rewrite advance_put].
  apply Forall_app. by repeat constructor.
Qed.

(** ** Properties *)

(** C8: whatever the number of threads, the tasks and the order of the steps,
    while the storage has room for what the tasks store: the database moves
    by steps of the abstract database only and stays consistent, and no
    thread stops the process at an assertion. *)
Theorem pool_refines n s w :
  valid s -> rtc roomy_step (start n s) w ->
  aborted w = false /\ rtc db_step (view s) (view (m_Db w)) /\ consistent (view (m_Db w)).
Proof.
  intros V [Ha Vw Hc _ _ _]%pool_reachable_ok; [|done].
  split_and!; [done|by apply conn_calls_refine|by apply valid_consistent].
Qed.

(** C39: no task is lost and none is executed twice: the tasks put are those
    finished, those in the hands of a thread and those still queued; and
    each finished task was answered as often as its command asks for. *)
Theorem pool_answers n s w :
  valid s -> rtc roomy_step (start n s) w ->
  put w ≡ₚ ((fun r => (r_conn r, r_task r)) <$> reports w) ++ (m_Threads w ≫= in_hand) ++ m_Queue (m_Tasks w) /\
  forall r, r ∈ reports w -> reply_count (t_cmd (r_task r)) (length (r_calls r)).
Proof.
  intros V [_ _ _ _ Hrep Hp]%pool_reachable_ok; [|done]. split; [done|].
  intros r Hr. by destruct (proj1 (Forall_forall _ _) Hrep r Hr) as (_ & Hn & _).
Qed.

(** C11: a positive answer is kept, while the
    storage has room for what the tasks store: whenever a client was given anything but an
    error, its request brought the password of a user, and the account, the
    group, the member or the message it asked for is in the database, then
    and ever after, whatever the other threads have done in between. *)
Theorem pool_keeps_promises n s w r :
  valid s -> rtc roomy_step (start n s) w -> r ∈ reports w -> answered_ok (r_calls r) ->
  promise (t_cmd (r_task r)) (r_now r) (r_task r) (view (m_Db w)).
Proof.
  intros V [_ _ _ _ Hrep _]%pool_reachable_ok Hr Hok; [|done].
  destruct (proj1 (Forall_forall _ _) Hrep r Hr) as (_ & _ & Hp). by apply Hp.
Qed.

(** C12: the worker cannot get stuck: as long as nobody stops the server, from
    every state its threads can bring every task that was put to its end,
    when the tasks fit the storage. *)
Theorem pool_drains n s w now :
  valid s -> rtc roomy_step (start (Datatypes.S n) s) w -> need_stop w = false -> ample now w ->
  exists w', rtc roomy_step w w' /\ put w' = put w /\
    put w ≡ₚ (fun r => (r_conn r, r_task r)) <$> reports w'.
Proof.
  intros V Hr Hs Ha. pose proof (pool_reachable_ok _ _ _ V Hr) as Hok.
  destruct (no_thread_ends (Datatypes.S n) s w) as [Hl He].
  { eapply rtc_subrel; [|exact Hr]. by intros x y [_ Hxy]. }
  destruct (hands_empty s now w Hok Ha) as (w1 & Hr1 & Hh1 & _ & El1 & Es1 & Ep1 & He1 & Ha1).
  destruct (m_Threads w1 !! 0%nat) as [t|] eqn:Hfirst; [|apply lookup_ge_None in Hfirst; lia].
  pose proof (pool_steps_ok _ _ _ Hok Hr1) as Hok1.
  destruct (queue_empties s now w1 Hok1 Ha1) as (w2 & Hr2 & Hh2 & Hq2 & Ep2); [congruence|done| |].
  { exists t. split; [done|]. intros ->. apply (He Hs), He1. by eapply list_elem_of_lookup_2. }
  exists w2. split_and!; [by etrans|congruence|].
  pose proof (ok_tasks _ _ (pool_steps_ok _ _ _ Hok1 Hr2)) as Hp. rewrite Hh2, Hq2, app_nil_r in Hp.
  by rewrite <- Ep1, <- Ep2.
Qed.
End Laws.
