(* ===== verification/Rows.v ===== *)
(** * The rows of a storage as a database

    Both storages of the server, the vectors of InMemory and the tables of
    Mysql, hold rows of users, chats, links (which user is a member of which
    chat) and messages.  This file says which database such rows stand for,
    when they are well formed, and what adding a row does to the database,
    so that both storages discharge the laws of [Store] with the same
    lemmas. *)

From S2P Require Import Prelude CxxString Common Database Store.

Record Rows := mkRows {
  r_users : list User;
  r_chats : list Chat;
  r_links : list Chatuser;
  r_log : list Message }.

Definition link_pair (cu : Chatuser) : Z * Z := (cu_chatid cu, cu_uid cu).

Definition rows_view (r : Rows) : DB :=
  mkDB (index u_id (r_users r)) (index c_id (r_chats r)) (list_to_set (link_pair <$> r_links r)) (r_log r).

(** Ids are positive and unique, as are the names and the own chats of the
    users; a user is a member of its own chat; a link is there once and
    joins rows that exist. *)
Record rows_ok (r : Rows) : Prop := {
  ro_user_pos : Forall (fun u => 0 < u_id u) (r_users r);
  ro_chat_pos : Forall (fun c => 0 < c_id c) (r_chats r);
  ro_user_ids : NoDup (u_id <$> r_users r);
  ro_user_names : NoDup (u_name <$> r_users r);
  ro_user_chats : NoDup (u_self_chat_id <$> r_users r);
  ro_chat_ids : NoDup (c_id <$> r_chats r);
  ro_self : Forall (fun u => mkChatuser (u_self_chat_id u) (u_id u) ∈ r_links r) (r_users r);
  ro_links : NoDup (r_links r);
  ro_refs : Forall (fun cu => cu_chatid cu ∈ c_id <$> r_chats r /\ cu_uid cu ∈ u_id <$> r_users r) (r_links r) }.

Definition rows_empty : Rows := mkRows [] [] [] [].

Lemma rows_ok_empty : rows_ok rows_empty.
Proof. split; constructor. Qed.

Lemma link_view r c u : (c, u) ∈ db_members (rows_view r) <-> mkChatuser c u ∈ r_links r.
Proof.
  simpl. rewrite elem_of_list_to_set, list_elem_of_fmap. split.
  - intros ([c' u'] & [= -> ->] & H). done.
  - intros H. by exists (mkChatuser c u).
Qed.

(** ** What well formed rows stand for *)

Section rows.
Context {r : Rows} (V : rows_ok r).

Lemma row_user i u : db_users (rows_view r) !! i = Some u <-> u ∈ r_users r /\ u_id u = i.
Proof. apply index_elem, V. Qed.

Lemma row_chat i c : db_chats (rows_view r) !! i = Some c <-> c ∈ r_chats r /\ c_id c = i.
Proof. apply index_elem, V. Qed.

Lemma row_user_pos u : u ∈ r_users r -> 0 < u_id u.
Proof. apply (proj1 (Forall_forall _ _) (ro_user_pos _ V)). Qed.

Lemma row_chat_pos c : c ∈ r_chats r -> 0 < c_id c.
Proof. apply (proj1 (Forall_forall _ _) (ro_chat_pos _ V)). Qed.

Lemma row_self u : u ∈ r_users r -> mkChatuser (u_self_chat_id u) (u_id u) ∈ r_links r.
Proof. apply (proj1 (Forall_forall _ _) (ro_self _ V)). Qed.

Lemma row_refs cu : cu ∈ r_links r -> cu_chatid cu ∈ c_id <$> r_chats r /\ cu_uid cu ∈ u_id <$> r_users r.
Proof. apply (proj1 (Forall_forall _ _) (ro_refs _ V)). Qed.

(** An id no chat has is nobody's own chat. *)
Lemma fresh_self c : c ∉ (c_id <$> r_chats r) -> c ∉ (u_self_chat_id <$> r_users r).
Proof. intros Hc (u & -> & [H _]%row_self%row_refs)%list_elem_of_fmap. done. Qed.

Lemma user_named_iff name : user_named name (rows_view r) <-> name ∈ u_name <$> r_users r.
Proof.
  unfold user_named, map_Exists. rewrite list_elem_of_fmap. split.
  - intros (i & u & H%row_user & E). exists u. split; [done|tauto].
  - intros (u & -> & H). exists (u_id u), u. split; [by apply row_user|done].
Qed.

Lemma chat_named_iff name : chat_named name (rows_view r) <-> name ∈ c_name <$> r_chats r.
Proof.
  unfold chat_named, map_Exists. rewrite list_elem_of_fmap. split.
  - intros (i & c & H%row_chat & E). exists c. split; [done|tauto].
  - intros (c & -> & H). exists (c_id c), c. split; [by apply row_chat|done].
Qed.

Lemma rows_consistent : consistent (rows_view r).
Proof.
  split.
  - intros i u [H%row_user_pos E]%row_user. lia.
  - intros i c [H%row_chat_pos E]%row_chat. lia.
  - intros i j u v [Hu <-]%row_user [Hv <-]%row_user E.
    f_equal. eapply (NoDup_fmap_inj u_name); [apply V|..]; done.
  - intros i u [H <-]%row_user. by apply link_view, row_self.
  - intros i j u v [Hu <-]%row_user [Hv <-]%row_user E.
    f_equal. eapply (NoDup_fmap_inj u_self_chat_id); [apply V|..]; done.
  - intros c i H%link_view%row_refs. simpl. by rewrite !index_is_Some.
Qed.

(** *** The rows a lookup selects, in any order *)

Lemma selected_users (P : User -> Prop) `{!forall u, Decision (P u)} l u :
  l ≡ₚ filter P (r_users r) -> u ∈ l <-> db_users (rows_view r) !! u_id u = Some u /\ P u.
Proof. intros ->. rewrite list_elem_of_filter, row_user. tauto. Qed.

Lemma selected_chats (P : Chat -> Prop) `{!forall c, Decision (P c)} l c :
  l ≡ₚ filter P (r_chats r) -> c ∈ l <-> db_chats (rows_view r) !! c_id c = Some c /\ P c.
Proof. intros ->. rewrite list_elem_of_filter, row_chat. tauto. Qed.

Lemma selected_users_nodup (P : User -> Prop) `{!forall u, Decision (P u)} l :
  l ≡ₚ filter P (r_users r) -> NoDup l.
Proof. intros ->. eapply NoDup_filter, NoDup_fmap_1, (ro_user_ids _ V). Qed.

Lemma selected_chats_nodup (P : Chat -> Prop) `{!forall c, Decision (P c)} l :
  l ≡ₚ filter P (r_chats r) -> NoDup l.
Proof. intros ->. eapply NoDup_filter, NoDup_fmap_1, (ro_chat_ids _ V). Qed.

Lemma selected_user_id id l :
  l ≡ₚ filter (fun u => u_id u = id) (r_users r) -> head l = db_users (rows_view r) !! id.
Proof.
  intros Hl. destruct l as [|u l]; simpl; symmetry.
  - apply index_None. intros (u & -> & Hu)%list_elem_of_fmap.
    assert (u ∈ filter (fun v => u_id v = u_id u) (r_users r)) as H by by apply list_elem_of_filter.
    rewrite <- Hl in H. by apply not_elem_of_nil in H.
  - apply row_user. assert (u ∈ u :: l) as H by by left. rewrite Hl in H. apply list_elem_of_filter in H. tauto.
Qed.

Lemma selected_chat_id id l :
  l ≡ₚ filter (fun c => c_id c = id) (r_chats r) -> head l = db_chats (rows_view r) !! id.
Proof.
  intros Hl. destruct l as [|c l]; simpl; symmetry.
  - apply index_None. intros (c & -> & Hc)%list_elem_of_fmap.
    assert (c ∈ filter (fun v => c_id v = c_id c) (r_chats r)) as H by by apply list_elem_of_filter.
    rewrite <- Hl in H. by apply not_elem_of_nil in H.
  - apply row_chat. assert (c ∈ c :: l) as H by by left. rewrite Hl in H. apply list_elem_of_filter in H. tauto.
Qed.

(** The ids of the chats of a user, through the links. *)
Definition chat_ids (uid : Z) : list Z := cu_chatid <$> filter (fun cu => cu_uid cu = uid) (r_links r).

Lemma chat_ids_elem uid c : c ∈ chat_ids uid <-> mkChatuser c uid ∈ r_links r.
Proof.
  unfold chat_ids. rewrite list_elem_of_fmap. setoid_rewrite list_elem_of_filter. split.
  - intros ([c' u'] & -> & <- & H). done.
  - intros H. by exists (mkChatuser c uid).
Qed.

Lemma chat_ids_nodup uid : NoDup (chat_ids uid).
Proof.
  apply NoDup_fmap_2_strong; [|apply NoDup_filter, V].
  intros [c u] [c' u'] [E1 _]%list_elem_of_filter [E2 _]%list_elem_of_filter E. simpl in *. congruence.
Qed.

Lemma chat_id_stored uid i : i ∈ chat_ids uid -> exists c, db_chats (rows_view r) !! i = Some c /\ c_id c = i.
Proof.
  intros [Hi _]%chat_ids_elem%row_refs. simpl in Hi. apply index_is_Some in Hi as [c Hc].
  exists c. split; [done|]. by apply row_chat in Hc as [_ ?].
Qed.

(** Looking every id up gives the chats. *)
Section lookup.
Context (lookup : Z -> Chat) (Hlookup : forall i, lookup i = default Chat_empty (db_chats (rows_view r) !! i)).

Lemma looked_up_ids uid l : l ≡ₚ chat_ids uid -> c_id <$> (lookup <$> l) = l.
Proof.
  intros Hl. rewrite <- list_fmap_compose. rewrite <- (list_fmap_id l) at 2.
  apply list_fmap_ext. intros i c Hc%list_elem_of_lookup_2. simpl. rewrite Hl in Hc.
  apply chat_id_stored in Hc as (x & Hx & <-). by rewrite Hlookup, Hx.
Qed.

Lemma looked_up_chats uid l c : l ≡ₚ chat_ids uid ->
  c ∈ lookup <$> l <-> (c_id c, uid) ∈ db_members (rows_view r) /\ db_chats (rows_view r) !! c_id c = Some c.
Proof.
  intros Hl. rewrite link_view, <- chat_ids_elem, <- Hl. rewrite list_elem_of_fmap. split.
  - intros (i & -> & Hi). pose proof Hi as Hi'. rewrite Hl in Hi'. apply chat_id_stored in Hi' as (x & Hx & E).
    rewrite Hlookup, Hx. simpl. by rewrite E.
  - intros [H1 H2]. exists (c_id c). by rewrite Hlookup, H2.
Qed.
End lookup.
End rows.

(** ** Adding rows *)

Lemma Forall_snoc_weaken {A} (P Q : A -> Prop) l x :
  (forall y, P y -> Q y) -> Forall P l -> Q x -> Forall Q (l ++ [x]).
Proof.
  intros H Hl Hx. apply Forall_app. split; [by eapply Forall_impl|by constructor].
Qed.

Lemma list_to_set_snoc {A B} `{Countable B} (f : A -> B) (l : list A) x :
  list_to_set (f <$> l ++ [x]) = ({[f x]} ∪ list_to_set (f <$> l) : gset B).
Proof. rewrite fmap_app, list_to_set_app_L. simpl. set_solver. Qed.

Definition row_add_user (u : User) (r : Rows) : Rows :=
  mkRows (r_users r ++ [u]) (r_chats r ++ [mkChat (u_self_chat_id u) (u_name u)])
    (r_links r ++ [mkChatuser (u_self_chat_id u) (u_id u)]) (r_log r).
Definition row_add_chat (c : Chat) (uid : Z) (r : Rows) : Rows :=
  mkRows (r_users r) (r_chats r ++ [c]) (r_links r ++ [mkChatuser (c_id c) uid]) (r_log r).
Definition row_add_link (c uid : Z) (r : Rows) : Rows :=
  mkRows (r_users r) (r_chats r) (r_links r ++ [mkChatuser c uid]) (r_log r).
Definition row_set_users (l : list User) (r : Rows) : Rows := mkRows l (r_chats r) (r_links r) (r_log r).
Definition row_set_log (l : list Message) (r : Rows) : Rows := mkRows (r_users r) (r_chats r) (r_links r) l.

Lemma row_add_user_ok u r : rows_ok r ->
  0 < u_id u -> 0 < u_self_chat_id u ->
  u_id u ∉ (u_id <$> r_users r) -> u_name u ∉ (u_name <$> r_users r) -> u_self_chat_id u ∉ (c_id <$> r_chats r) ->
  rows_ok (row_add_user u r) /\ rows_view (row_add_user u r) = add_user u (rows_view r).
Proof.
  intros V Hi Hc Hu Hn Hch. split.
  - split; simpl; rewrite ?fmap_app; try apply NoDup_snoc; simpl.
    + by eapply Forall_snoc_weaken; [|apply (ro_user_pos _ V)|].
    + by eapply Forall_snoc_weaken; [|apply (ro_chat_pos _ V)|].
    + split; [done|apply V].
    + split; [done|apply V].
    + split; [by apply (fresh_self V)|apply V].
    + split; [done|apply V].
    + eapply Forall_snoc_weaken; [|apply (ro_self _ V)|]; simpl; set_solver.
    + split; [|apply V]. intros [_ H]%(row_refs V). done.
    + eapply Forall_snoc_weaken; [|apply (ro_refs _ V)|]; simpl; set_solver.
  - unfold rows_view, add_user, row_add_user.
    cbn [r_users r_chats r_links r_log db_users db_chats db_members db_log u_id c_id u_name u_self_chat_id].
    by rewrite !index_snoc, list_to_set_snoc by done.
Qed.

Lemma row_add_chat_ok c uid r : rows_ok r ->
  0 < c_id c -> c_id c ∉ (c_id <$> r_chats r) -> is_Some (db_users (rows_view r) !! uid) ->
  rows_ok (row_add_chat c uid r) /\ rows_view (row_add_chat c uid r) = add_chat c uid (rows_view r).
Proof.
  intros V Hc Hch Hu.
  assert (0 < uid) as Hpos by by destruct Hu as [u [Hu%(row_user_pos V) <-]%(row_user V)].
  split.
  - split; simpl; rewrite ?fmap_app; try apply NoDup_snoc; simpl; try apply V.
    + by eapply Forall_snoc_weaken; [|apply (ro_chat_pos _ V)|].
    + split; [done|apply V].
    + eapply Forall_impl; [apply (ro_self _ V)|]. simpl. set_solver.
    + split; [|apply V]. intros [H _]%(row_refs V). done.
    + eapply Forall_snoc_weaken; [|apply (ro_refs _ V)|]; simpl; [set_solver|].
      split; [set_solver|]. by apply index_is_Some.
  - unfold rows_view, add_chat, row_add_chat.
    cbn [r_users r_chats r_links r_log db_users db_chats db_members db_log].
    rewrite (proj2 (Z.ltb_lt 0 uid)) by done. by rewrite index_snoc, list_to_set_snoc.
Qed.

Lemma row_add_link_ok c uid r : rows_ok r ->
  is_Some (db_chats (rows_view r) !! c) -> is_Some (db_users (rows_view r) !! uid) ->
  mkChatuser c uid ∉ r_links r ->
  rows_ok (row_add_link c uid r) /\
  rows_view (row_add_link c uid r) = set_db_members ({[(c, uid)]} ∪ db_members (rows_view r)) (rows_view r).
Proof.
  intros V Hc%index_is_Some Hu%index_is_Some Hn. split.
  - destruct V. split; simpl; try done.
    + eapply Forall_impl; [done|]. simpl. set_solver.
    + by apply NoDup_snoc.
    + apply Forall_app. split; [done|]. by apply Forall_singleton.
  - unfold rows_view, set_db_members. simpl. by rewrite list_to_set_snoc.
Qed.

(** A link that is there already changes nothing. *)
Lemma row_link_there c uid r :
  mkChatuser c uid ∈ r_links r ->
  rows_view r = set_db_members ({[(c, uid)]} ∪ db_members (rows_view r)) (rows_view r).
Proof.
  intros Hm%link_view. unfold set_db_members.
  assert ({[(c, uid)]} ∪ db_members (rows_view r) = db_members (rows_view r)) as ->; [|done].
  by apply subseteq_union_1_L, singleton_subseteq_l.
Qed.

Lemma Forall_same_fmap {A B} (f : A -> B) (P : B -> Prop) l l' :
  f <$> l = f <$> l' -> Forall (fun x => P (f x)) l' -> Forall (fun x => P (f x)) l.
Proof.
  intros E H. apply (Forall_fmap f P l). rewrite E. by apply (Forall_fmap f P l').
Qed.

(** Users that differ in their heartbits only. *)
Lemma row_set_users_ok l r : rows_ok r ->
  u_id <$> l = u_id <$> r_users r -> u_name <$> l = u_name <$> r_users r ->
  (fun u => (u_self_chat_id u, u_id u)) <$> l = (fun u => (u_self_chat_id u, u_id u)) <$> r_users r ->
  rows_ok (row_set_users l r).
Proof.
  intros V Hi Hn Hp.
  assert (u_self_chat_id <$> l = u_self_chat_id <$> r_users r) as Hs.
  { apply (f_equal (fmap fst)) in Hp. by rewrite <- !list_fmap_compose in Hp. }
  destruct V. split; simpl; rewrite ?Hi, ?Hn, ?Hs; try done.
  - by apply (Forall_same_fmap u_id (fun i => 0 < i) _ _ Hi).
  - by apply (Forall_same_fmap _ (fun p => mkChatuser p.1 p.2 ∈ r_links r) _ _ Hp).
Qed.

Lemma row_set_log_ok l r : rows_ok r -> rows_ok (row_set_log l r).
Proof. by intros []. Qed.

Lemma row_set_log_view l r : rows_view (row_set_log l r) = set_db_log l (rows_view r).
Proof. done. Qed.

(** ** Results collected in a [std::set] *)

Lemma set_inserts_ok {A} (f : A -> str) l acc :
  StronglySorted str_lt acc ->
  StronglySorted str_lt (foldl (fun ret x => set_insert (f x) ret) acc l) /\
  forall c, c ∈ foldl (fun ret x => set_insert (f x) ret) acc l <-> (c ∈ acc \/ c ∈ f <$> l).
Proof.
  revert acc. induction l as [|x l IH]; intros acc Hs; simpl; [set_solver|].
  destruct (IH (set_insert (f x) acc)) as [H1 H2]; [by apply set_insert_sorted|].
  split; [done|]. intros c. rewrite H2, set_insert_elem. set_solver.
Qed.
