(* ===== verification/InMemory.v ===== *)
(** * server/src/inmemory_dbconn.cpp: the in-memory storage

    [InMemoryConnection] keeps four vectors and two counters in a static
    [Storage], behind a mutex each method holds while it touches them.  The
    loops over a vector from front to back are recursions on the list; the
    two loops from the newest message to the oldest count an index down, as
    the source does. *)

From S2P Require Import Prelude CxxString Common Database Store Rows.

Record Storage := mkStorage {
  user_autoincrement : Z;
  chat_autoincrement : Z;
  chats : list Chat;
  users : list User;
  chatuser : list Chatuser;
  messages : list Message }.

Definition Storage_init : Storage := mkStorage 1 1 [] [] [] [].

Definition set_users l s := mkStorage (user_autoincrement s) (chat_autoincrement s) (chats s) l (chatuser s) (messages s).
Definition set_chatuser l s := mkStorage (user_autoincrement s) (chat_autoincrement s) (chats s) (users s) l (messages s).
Definition set_messages l s := mkStorage (user_autoincrement s) (chat_autoincrement s) (chats s) (users s) (chatuser s) l.

(** Updates the first user with the id and returns. *)
Fixpoint heartbit_loop (id ts : Z) (l : list User) : list User :=
  match l with
  | [] => []
  | u :: l' => if decide (u_id u = id) then set_heartbit ts u :: l' else u :: heartbit_loop id ts l'
  end.

Definition mem_updateUserHeartBit (user : User) (ts : Z) (s : Storage) : Storage :=
  set_users (heartbit_loop (u_id user) ts (users s)) s.

(** The counters are [uint64_t] and wrap. *)
Definition mem_createUser (name pass stpath ip city : str) (s : Storage) : User * Storage :=
  if existsb (fun user => bool_decide (u_name user = name)) (users s) then (User_empty, s)
  else
    let chat_id := chat_autoincrement s in
    let user_id := user_autoincrement s in
    let user := mkUser user_id chat_id name pass stpath ip city 0 in
    (user,
     mkStorage (u64 (user_id + 1)) (u64 (chat_id + 1))
       (chats s ++ [mkChat chat_id name]) (users s ++ [user])
       (chatuser s ++ [mkChatuser chat_id user_id]) (messages s)).

Definition mem_createChat (name : str) (uid : Z) (s : Storage) : Chat * Storage :=
  if existsb (fun chat => bool_decide (c_name chat = name)) (chats s) then (Chat_empty, s)
  else
    let chat_id := chat_autoincrement s in
    let chat := mkChat chat_id name in
    (chat,
     mkStorage (user_autoincrement s) (u64 (chat_id + 1))
       (chats s ++ [chat]) (users s)
       (if 0 <? uid then chatuser s ++ [mkChatuser chat_id uid] else chatuser s) (messages s)).

Definition mem_lookupUserByName (name : str) (s : Storage) : list User :=
  filter (fun user => u_name user = name) (users s).

Definition mem_lookupUserById (id : Z) (s : Storage) : User :=
  default User_empty (List.find (fun user => bool_decide (u_id user = id)) (users s)).

Definition mem_lookupUserByCity (city : str) (s : Storage) : list User :=
  filter (fun user => u_city user = city) (users s).

Definition mem_lookupChatById (chatid : Z) (s : Storage) : Chat :=
  default Chat_empty (List.find (fun chat => bool_decide (c_id chat = chatid)) (chats s)).

Definition mem_lookupChatsForUserId (uid : Z) (s : Storage) : list Chat :=
  let chats := cu_chatid <$> filter (fun cu => cu_uid cu = uid) (chatuser s) in
  (fun chatid => mem_lookupChatById chatid s) <$> chats.

Definition mem_lookupChatByName (name : str) (s : Storage) : list Chat :=
  filter (fun chat => c_name chat = name) (chats s).

Definition mem_lookupUsersForChatId (chatid : Z) (s : Storage) : list User :=
  let uids := cu_uid <$> filter (fun cu => cu_chatid cu = chatid) (chatuser s) in
  (fun uid => mem_lookupUserById uid s) <$> uids.

Definition mem_addUserToChat (chat : Chat) (user : User) (s : Storage) : Storage :=
  if existsb (fun cu => bool_decide (cu_chatid cu = c_id chat) && bool_decide (cu_uid cu = u_id user))
       (chatuser s)
  then s
  else set_chatuser (chatuser s ++ [mkChatuser (c_id chat) (u_id user)]) s.

Definition mem_saveMessage (msg : Message) (s : Storage) : Storage :=
  set_messages (messages s ++ [msg]) s.

(** [opt.max_count && ret.size() >= opt.max_count]. *)
Definition enough (opt : get_msg_opt_t) (ret : list Message) : bool :=
  negb (o_max_count opt =? 0) && (o_max_count opt <=? Z.of_nat (length ret)).

(** The body of the [for] loop at index [i], then [--i]; the copy goes to
    [ret] before the stored message is flagged. *)
Fixpoint getMessages_loop (i : nat) (chatid : Z) (opt : get_msg_opt_t)
    (msgs ret : list Message) : list Message * list Message :=
  let '(ret, msgs) :=
    match msgs !! i with
    | Some m =>
        if bool_decide (m_chat_to m = chatid) && (o_ts opt <? m_ts m)
        then (ret ++ [m], <[i := set_m_flags READ m]> msgs)
        else (ret, msgs)
    | None => (ret, msgs)          (* not reached: [i] is an index of the vector *)
    end in
  if enough opt ret then (ret, msgs)
  else match i with
       | O => (ret, msgs)
       | S i' => getMessages_loop i' chatid opt msgs ret
       end.

Definition mem_getMessages (chatid : Z) (opt : get_msg_opt_t) (s : Storage) : list Message * Storage :=
  match messages s with
  | [] => ([], s)
  | _ =>
      let '(ret, msgs) := getMessages_loop (length (messages s) - 1) chatid opt (messages s) [] in
      (ret, set_messages msgs s)
  end.

Fixpoint selectMessages_loop (i : nat) (pred : Message -> bool) (opt : get_msg_opt_t)
    (msgs ret : list Message) : list Message :=
  let ret :=
    match msgs !! i with
    | Some m => if pred m then ret ++ [m] else ret
    | None => ret                  (* not reached *)
    end in
  if enough opt ret then ret
  else match i with
       | O => ret
       | S i' => selectMessages_loop i' pred opt msgs ret
       end.

Definition mem_selectMessages (pred : Message -> bool) (opt : get_msg_opt_t) (s : Storage) : list Message :=
  match messages s with
  | [] => []
  | _ => selectMessages_loop (length (messages s) - 1) pred opt (messages s) []
  end.

(** Both return a [std::set]: its elements in increasing order. *)
Definition mem_getAllDistinctLocations (s : Storage) : list str :=
  foldl (fun ret user => set_insert (u_city user) ret) [] (users s).

Definition mem_getAllUsersFromLocation (city : str) (s : Storage) : list str :=
  set_insert city [].

#[export] Instance InMemoryConnection : AbstractConnection Storage := {|
  updateUserHeartBit := mem_updateUserHeartBit;
  createUser := mem_createUser;
  createChat := mem_createChat;
  lookupUserByName := mem_lookupUserByName;
  lookupUserById := mem_lookupUserById;
  lookupUserByCity := mem_lookupUserByCity;
  lookupChatsForUserId := mem_lookupChatsForUserId;
  lookupChatByName := mem_lookupChatByName;
  lookupChatById := mem_lookupChatById;
  lookupUsersForChatId := mem_lookupUsersForChatId;
  addUserToChat := mem_addUserToChat;
  saveMessage := mem_saveMessage;
  getMessages := mem_getMessages;
  selectMessages := mem_selectMessages;
  getAllDistinctLocations := mem_getAllDistinctLocations;
  getAllUsersFromLocation := mem_getAllUsersFromLocation
|}.

(** ** The abstraction and the representation invariant *)

Definition mem_rows (s : Storage) : Rows := mkRows (users s) (chats s) (chatuser s) (messages s).
Definition mem_view (s : Storage) : DB := rows_view (mem_rows s).

(** The rows are well formed, and the counters are in range and above every
    id in use. *)
Record mem_valid (s : Storage) : Prop := {
  mv_rows : rows_ok (mem_rows s);
  mv_users : Forall (fun u => u_id u < user_autoincrement s) (users s);
  mv_chats : Forall (fun c => c_id c < chat_autoincrement s) (chats s);
  mv_counters : 0 < user_autoincrement s < 2 ^ 64 /\ 0 < chat_autoincrement s < 2 ^ 64 }.

(** The next [++] of the counters does not wrap. *)
Definition mem_room (s : Storage) : Prop :=
  user_autoincrement s + 1 < 2 ^ 64 /\ chat_autoincrement s + 1 < 2 ^ 64.

Lemma mem_valid_init : mem_valid Storage_init.
Proof. split; [apply rows_ok_empty|constructor|constructor|simpl; lia]. Qed.

Lemma mem_consistent s : mem_valid s -> consistent (mem_view s).
Proof. intros V. apply rows_consistent, V. Qed.

(** The counters hold ids no row has. *)
Lemma fresh_uid s : mem_valid s -> user_autoincrement s ∉ (u_id <$> users s).
Proof.
  intros V (u & E & H)%list_elem_of_fmap. apply (proj1 (Forall_forall _ _) (mv_users _ V)) in H. lia.
Qed.

Lemma fresh_chatid s : mem_valid s -> chat_autoincrement s ∉ (c_id <$> chats s).
Proof.
  intros V (c & E & H)%list_elem_of_fmap. apply (proj1 (Forall_forall _ _) (mv_chats _ V)) in H. lia.
Qed.

(** ** The methods implement the abstract operations *)

Lemma heartbit_loop_index id ts l :
  index u_id (heartbit_loop id ts l) = alter (set_heartbit ts) id (index u_id l).
Proof.
  apply map_eq. intros i. induction l as [|u l IH]; simpl.
  - rewrite lookup_alter. unfold index. simpl. rewrite !lookup_empty. by case_decide.
  - rewrite lookup_alter in IH |- *. rewrite !index_find in *. simpl in *.
    repeat (simpl; case_decide || case_bool_decide); simplify_eq/=; congruence.
Qed.

(** A heartbit changes no other field. *)
Lemma heartbit_loop_fmap {A} (f : User -> A) id ts l :
  (forall u, f (set_heartbit ts u) = f u) -> f <$> heartbit_loop id ts l = f <$> l.
Proof.
  intros Hf. induction l as [|u l IH]; simpl; [done|].
  case_decide; csimpl; by rewrite ?Hf, ?IH.
Qed.

Lemma heartbit_loop_Forall (P : User -> Prop) id ts l :
  (forall u, P u -> P (set_heartbit ts u)) -> Forall P l -> Forall P (heartbit_loop id ts l).
Proof.
  intros HP. induction 1 as [|u l Hu Hl IH]; simpl; [constructor|].
  case_decide; constructor; auto.
Qed.

Lemma mem_updateUserHeartBit_ok u ts s : mem_valid s ->
  mem_valid (mem_updateUserHeartBit u ts s) /\
  mem_view (mem_updateUserHeartBit u ts s) =
    set_db_users (alter (set_heartbit ts) (u_id u) (db_users (mem_view s))) (mem_view s).
Proof.
  intros V. split.
  - destruct V as [Vr Vu Vc Vn]. split; [|by apply heartbit_loop_Forall|done..].
    apply (row_set_users_ok (heartbit_loop (u_id u) ts (users s)) _ Vr); by rewrite heartbit_loop_fmap.
  - unfold mem_view, rows_view, set_db_users. simpl. by rewrite heartbit_loop_index.
Qed.

Lemma name_taken name s :
  existsb (fun user => bool_decide (u_name user = name)) (users s) = true <-> name ∈ u_name <$> users s.
Proof.
  rewrite existsb_elem, list_elem_of_fmap. split; intros (u & H1 & H2); exists u;
    rewrite ?bool_decide_eq_true in *; done.
Qed.

Lemma chat_name_taken name s :
  existsb (fun chat => bool_decide (c_name chat = name)) (chats s) = true <-> name ∈ c_name <$> chats s.
Proof.
  rewrite existsb_elem, list_elem_of_fmap. split; intros (u & H1 & H2); exists u;
    rewrite ?bool_decide_eq_true in *; done.
Qed.

Lemma mem_createUser_dup name pass stpath ip city s : mem_valid s ->
  user_named name (mem_view s) -> mem_createUser name pass stpath ip city s = (User_empty, s).
Proof. intros V H%(user_named_iff (mv_rows _ V))%name_taken. unfold mem_createUser. by rewrite H. Qed.

Lemma mem_createChat_dup name uid s : mem_valid s ->
  chat_named name (mem_view s) -> mem_createChat name uid s = (Chat_empty, s).
Proof. intros V H%(chat_named_iff (mv_rows _ V))%chat_name_taken. unfold mem_createChat. by rewrite H. Qed.

Lemma mem_createUser_new name pass stpath ip city s : mem_valid s -> mem_room s ->
  ~ user_named name (mem_view s) ->
  let u := mkUser (user_autoincrement s) (chat_autoincrement s) name pass stpath ip city 0 in
  let s' := (mem_createUser name pass stpath ip city s).2 in
  mem_createUser name pass stpath ip city s = (u, s') /\ mem_valid s' /\
  mem_view s' = add_user u (mem_view s).
Proof.
  intros V [R1 R2] H u. rewrite (user_named_iff (mv_rows _ V)) in H.
  assert (name ∉ u_name <$> users s) as H' by exact H.
  rewrite <- name_taken, not_true_iff_false in H'. unfold mem_createUser. rewrite H'.
  cbv zeta. cbn [fst snd]. destruct V as [Vr Vu Vc [[U1 U2] [C1 C2]]].
  rewrite !wrap_small by (split; lia).
  destruct (row_add_user_ok u _ Vr) as [Vr' Hv]; [done|done|by apply fresh_uid|done|by apply fresh_chatid|].
  split_and!; [done| |done]. split; [done| | |simpl; lia].
  - eapply Forall_snoc_weaken; [|exact Vu|simpl; lia]. simpl. lia.
  - eapply Forall_snoc_weaken; [|exact Vc|simpl; lia]. simpl. lia.
Qed.

Lemma mem_createChat_new name uid s : mem_valid s -> mem_room s ->
  ~ chat_named name (mem_view s) -> is_Some (db_users (mem_view s) !! uid) ->
  let c := mkChat (chat_autoincrement s) name in
  let s' := (mem_createChat name uid s).2 in
  mem_createChat name uid s = (c, s') /\ mem_valid s' /\
  mem_view s' = add_chat c uid (mem_view s).
Proof.
  intros V [R1 R2] H Hu c. rewrite (chat_named_iff (mv_rows _ V)) in H.
  assert (name ∉ c_name <$> chats s) as H' by exact H.
  rewrite <- chat_name_taken, not_true_iff_false in H'. unfold mem_createChat. rewrite H'.
  destruct V as [Vr Vu Vc [[U1 U2] [C1 C2]]].
  assert (0 < uid) as Hpos by by destruct Hu as [u [Hu%(row_user_pos Vr) <-]%(row_user Vr)].
  rewrite (proj2 (Z.ltb_lt 0 uid)) by done. cbv zeta. cbn [fst snd].
  rewrite !wrap_small by (split; lia).
  destruct (row_add_chat_ok c uid _ Vr) as [Vr' Hv]; [done|by apply fresh_chatid|done|].
  split_and!; [done| |done]. split; [done|done| |simpl; lia].
  eapply Forall_snoc_weaken; [|exact Vc|simpl; lia]. simpl. lia.
Qed.

Lemma mem_lookupUserById_ok id s :
  mem_lookupUserById id s = default User_empty (db_users (mem_view s) !! id).
Proof. unfold mem_lookupUserById. simpl. by rewrite index_find. Qed.

Lemma mem_lookupChatById_ok id s :
  mem_lookupChatById id s = default Chat_empty (db_chats (mem_view s) !! id).
Proof. unfold mem_lookupChatById. simpl. by rewrite index_find. Qed.

Lemma mem_addUserToChat_ok c u s : mem_valid s ->
  db_chats (mem_view s) !! c_id c = Some c -> is_Some (db_users (mem_view s) !! u_id u) ->
  mem_valid (mem_addUserToChat c u s) /\
  mem_view (mem_addUserToChat c u s) = set_db_members ({[(c_id c, u_id u)]} ∪ db_members (mem_view s)) (mem_view s).
Proof.
  intros V Hc Hu. unfold mem_addUserToChat. destruct (existsb _ _) eqn:E.
  - apply existsb_elem in E as ([c' u'] & Hm & [E1 E2]%andb_true_iff).
    apply bool_decide_eq_true in E1, E2. simpl in E1, E2. subst. split; [done|].
    by apply (row_link_there _ _ (mem_rows s)).
  - assert (mkChatuser (c_id c) (u_id u) ∉ chatuser s) as Hn.
    { intros Hm. eapply existsb_elem_false in E; [|exact Hm]. simpl in E.
      by rewrite !bool_decide_eq_true_2 in E. }
    destruct V as [Vr Vu Vcs Vn].
    destruct (row_add_link_ok (c_id c) (u_id u) _ Vr (mk_is_Some _ _ Hc) Hu Hn) as [Vr' Hv]. by split.
Qed.

(** Only the list of messages changes: what is left of the invariant holds
    whatever the messages. *)
Lemma mem_valid_messages l s : mem_valid s -> mem_valid (set_messages l s).
Proof. intros []. split; [by apply (row_set_log_ok l (mem_rows s))|done..]. Qed.

Lemma mem_view_messages l s : mem_view (set_messages l s) = set_db_log l (mem_view s).
Proof. done. Qed.

(** ** The loops from the newest message to the oldest *)

(** How many more messages fit. *)
Definition quota (opt : get_msg_opt_t) (ret : list Message) : option nat :=
  if decide (o_max_count opt = 0) then None else Some (Z.to_nat (o_max_count opt) - length ret)%nat.

Lemma quota_nil opt : quota opt [] = limit opt.
Proof. unfold quota, limit. case_decide; [done|]. f_equal. simpl. lia. Qed.

Lemma quota_snoc opt ret m : quota opt (ret ++ [m]) = Nat.pred <$> quota opt ret.
Proof. unfold quota. case_decide; [done|]. simpl. f_equal. rewrite length_app. simpl. lia. Qed.

Lemma enough_quota opt ret :
  0 <= o_max_count opt -> enough opt ret = bool_decide (quota opt ret = Some 0%nat).
Proof.
  intros H. unfold enough, quota. case_decide as E; [by rewrite E|].
  rewrite (proj2 (Z.eqb_neq _ _) E). simpl. apply eq_bool_prop_intro.
  rewrite bool_decide_spec. split.
  - intros ?%Is_true_true%Z.leb_le. f_equal. lia.
  - intros [= ?]. apply Is_true_true, Z.leb_le. lia.
Qed.

Lemma take_opt_full {A} (k : option nat) (x : A) l :
  k <> Some 0%nat -> take_opt k (x :: l) = x :: take_opt (Nat.pred <$> k) l.
Proof. destruct k as [[|k]|]; done. Qed.

Lemma take_opt_0 {A} (k : option nat) (l : list A) : k = Some 0%nat -> take_opt k l = [].
Proof. by intros ->. Qed.

Lemma mark_read_cons pred k m l :
  k <> Some 0%nat ->
  mark_read pred k (m :: l) =
    if pred m then set_m_flags READ m :: mark_read pred (Nat.pred <$> k) l else m :: mark_read pred k l.
Proof. by destruct k as [[|k]|]. Qed.

Lemma mark_read_0 pred l : mark_read pred (Some 0%nat) l = l.
Proof. by destruct l. Qed.

Lemma lookup_mid {A} (l : list A) x r : (l ++ x :: r) !! length l = Some x.
Proof. by apply list_lookup_middle. Qed.

Lemma insert_mid {A} (l : list A) x y r : <[length l := y]> (l ++ x :: r) = l ++ y :: r.
Proof. rewrite insert_app_r_alt by lia. by rewrite Nat.sub_diag. Qed.

Lemma getMessages_loop_eq i chatid opt msgs ret :
  getMessages_loop i chatid opt msgs ret =
    let '(ret, msgs) :=
      match msgs !! i with
      | Some m => if wanted chatid (o_ts opt) m then (ret ++ [m], <[i := set_m_flags READ m]> msgs) else (ret, msgs)
      | None => (ret, msgs)
      end in
    if enough opt ret then (ret, msgs)
    else match i with O => (ret, msgs) | S i' => getMessages_loop i' chatid opt msgs ret end.
Proof. by destruct i. Qed.

Lemma selectMessages_loop_eq i pred opt msgs ret :
  selectMessages_loop i pred opt msgs ret =
    let ret := match msgs !! i with Some m => if pred m then ret ++ [m] else ret | None => ret end in
    if enough opt ret then ret
    else match i with O => ret | S i' => selectMessages_loop i' pred opt msgs ret end.
Proof. by destruct i. Qed.

Lemma getMessages_loop_ok chatid opt l r ret :
  0 <= o_max_count opt -> l <> [] -> quota opt ret <> Some 0%nat ->
  let pred := wanted chatid (o_ts opt) in
  getMessages_loop (length l - 1) chatid opt (l ++ r) ret =
    (ret ++ take_opt (quota opt ret) (List.filter pred (rev l)),
     rev (mark_read pred (quota opt ret) (rev l)) ++ r).
Proof.
  intros Hmax Hl Hq pred. revert r ret Hl Hq.
  induction l as [|m l IH] using rev_ind; intros r ret Hl Hq; [done|].
  rewrite length_app, Nat.add_sub, rev_unit, <- app_assoc. cbn [app List.filter].
  rewrite mark_read_cons by done.
  assert (forall ret' m', quota opt ret' <> Some 0%nat ->
    (if enough opt ret' then (ret', l ++ m' :: r) else
     match length l with O => (ret', l ++ m' :: r) | S i' => getMessages_loop i' chatid opt (l ++ m' :: r) ret' end)
    = (ret' ++ take_opt (quota opt ret') (List.filter pred (rev l)),
       rev (mark_read pred (quota opt ret') (rev l)) ++ m' :: r)) as Hrest.
  { intros ret' m' Hq'. rewrite enough_quota, bool_decide_eq_false_2 by done.
    destruct (length l) as [|n] eqn:El.
    - apply nil_length_inv in El as ->. cbn. destruct (quota opt ret') as [[|]|]; simpl; by rewrite ?app_nil_r.
    - replace n with (S n - 1)%nat by lia. apply IH; [by destruct l|done]. }
  rewrite getMessages_loop_eq, lookup_mid.
  change (wanted chatid (o_ts opt) m) with (pred m).
  destruct (pred m).
  - rewrite (insert_mid l m). rewrite take_opt_full by done. rewrite <- (quota_snoc _ _ m).
    destruct (decide (quota opt (ret ++ [m]) = Some 0%nat)) as [Eq|Eq].
    + rewrite enough_quota, bool_decide_eq_true_2 by done. rewrite Eq. simpl.
      rewrite mark_read_0, rev_involutive. by rewrite <- app_assoc.
    + rewrite Hrest by done. simpl. by rewrite <- !app_assoc.
  - rewrite Hrest by done. simpl. by rewrite <- !app_assoc.
Qed.

Lemma selectMessages_loop_ok pred opt l r ret :
  0 <= o_max_count opt -> l <> [] -> quota opt ret <> Some 0%nat ->
  selectMessages_loop (length l - 1) pred opt (l ++ r) ret =
    ret ++ take_opt (quota opt ret) (List.filter pred (rev l)).
Proof.
  intros Hmax Hl Hq. revert r ret Hl Hq.
  induction l as [|m l IH] using rev_ind; intros r ret Hl Hq; [done|].
  rewrite length_app, Nat.add_sub, rev_unit, <- app_assoc. cbn [app List.filter].
  rewrite selectMessages_loop_eq, lookup_mid. cbv zeta.
  assert (forall ret', quota opt ret' <> Some 0%nat ->
    (if enough opt ret' then ret' else
     match length l with O => ret' | S i' => selectMessages_loop i' pred opt (l ++ m :: r) ret' end)
    = ret' ++ take_opt (quota opt ret') (List.filter pred (rev l))) as Hrest.
  { intros ret' Hq'. rewrite enough_quota, bool_decide_eq_false_2 by done.
    destruct (length l) as [|n] eqn:El.
    - apply nil_length_inv in El as ->. cbn. destruct (quota opt ret') as [[|]|]; simpl; by rewrite ?app_nil_r.
    - replace n with (S n - 1)%nat by lia. apply IH; [by destruct l|done]. }
  destruct (pred m); [|by apply Hrest].
  rewrite take_opt_full by done. rewrite <- (quota_snoc _ _ m).
  destruct (decide (quota opt (ret ++ [m]) = Some 0%nat)) as [Eq|Eq].
  - rewrite enough_quota, bool_decide_eq_true_2 by done. by rewrite Eq.
  - rewrite Hrest by done. by rewrite <- app_assoc.
Qed.

Lemma limit_nonzero opt : 0 <= o_max_count opt -> limit opt <> Some 0%nat.
Proof. unfold limit. case_decide; [done|]. intros ? [= ?]. lia. Qed.

Lemma mem_getMessages_ok chatid opt s : mem_valid s -> 0 <= o_max_count opt ->
  let pred := wanted chatid (o_ts opt) in
  (mem_getMessages chatid opt s).1 = newest pred (limit opt) (db_log (mem_view s)) /\
  mem_valid (mem_getMessages chatid opt s).2 /\
  mem_view (mem_getMessages chatid opt s).2 =
    set_db_log (rev (mark_read pred (limit opt) (rev (db_log (mem_view s))))) (mem_view s).
Proof.
  intros V Hmax pred. unfold mem_getMessages, newest. simpl db_log.
  destruct (messages s) as [|m0 ms] eqn:E.
  - simpl. split_and!; [by destruct (limit opt) as [[]|]|done|].
    unfold mem_view, rows_view, set_db_log. simpl. rewrite E. by destruct (limit opt) as [[]|].
  - pose proof (getMessages_loop_ok chatid opt (m0 :: ms) [] [] Hmax ltac:(done) ltac:(by rewrite quota_nil; apply limit_nonzero)) as H.
    cbv zeta in H. rewrite quota_nil, !app_nil_r in H. rewrite H.
    split_and!; [done|by apply mem_valid_messages|done].
Qed.

Lemma mem_selectMessages_ok pred opt s : 0 <= o_max_count opt ->
  mem_selectMessages pred opt s = newest pred (limit opt) (db_log (mem_view s)).
Proof.
  intros Hmax. unfold mem_selectMessages, newest. simpl db_log.
  destruct (messages s) as [|m0 ms] eqn:E; [by destruct (limit opt) as [[]|]|].
  pose proof (selectMessages_loop_ok pred opt (m0 :: ms) [] [] Hmax ltac:(done) ltac:(by rewrite quota_nil; apply limit_nonzero)) as H.
  rewrite quota_nil, app_nil_r in H. by rewrite H.
Qed.

Lemma mem_getAllDistinctLocations_ok s : mem_valid s ->
  StronglySorted str_lt (mem_getAllDistinctLocations s) /\
  forall c, c ∈ mem_getAllDistinctLocations s <-> map_Exists (fun _ u => u_city u = c) (db_users (mem_view s)).
Proof.
  intros V. unfold mem_getAllDistinctLocations.
  destruct (set_inserts_ok u_city (users s) [] (SSorted_nil _)) as [H1 H2].
  split; [done|]. intros c. rewrite H2. unfold map_Exists. simpl. rewrite list_elem_of_fmap. split.
  - intros [[]%not_elem_of_nil|(u & -> & H)]. exists (u_id u), u. split; [by apply (row_user (mv_rows _ V))|done].
  - intros (i & u & H%(row_user (mv_rows _ V)) & E). right. exists u. split; [done|tauto].
Qed.

(** ** The in-memory storage keeps the laws of the interface *)

#[export] Instance InMemoryLaws : ConnectionLaws Storage.
Proof.
  refine {| view := mem_view; valid := mem_valid;
    user_fits := fun _ _ _ _ _ => mem_room; chat_fits := fun _ => mem_room; text_fits := fun _ => True;
    time_fits := fun _ => True; since_fits := fun _ => True; valid_consistent := @mem_consistent |}.
  - intros u ts s V _. by apply mem_updateUserHeartBit_ok.
  - exact mem_createUser_dup.
  - intros name pass stpath ip city s V R H.
    destruct (mem_createUser_new name pass stpath ip city s V R H) as (E & V' & Hv).
    destruct (mv_counters _ V) as [[U _] [C _]].
    exists (user_autoincrement s), (chat_autoincrement s), 0, (mem_createUser name pass stpath ip city s).2.
    split_and!; try done; apply index_None; [by apply fresh_uid|by apply fresh_chatid].
  - exact mem_createChat_dup.
  - intros name uid s V R H Hu.
    destruct (mem_createChat_new name uid s V R H Hu) as (E & V' & Hv).
    destruct (mv_counters _ V) as [_ [C _]].
    exists (chat_autoincrement s), (mem_createChat name uid s).2.
    split_and!; try done. by apply index_None, fresh_chatid.
  - intros id s _. apply mem_lookupUserById_ok.
  - intros name s u V. by apply (selected_users (mv_rows _ V) (fun u => u_name u = name)).
  - intros name s V. by apply (selected_users_nodup (mv_rows _ V) (fun u => u_name u = name)).
  - intros id s _. apply mem_lookupChatById_ok.
  - intros name s c V. by apply (selected_chats (mv_rows _ V) (fun c => c_name c = name)).
  - intros name s V. by apply (selected_chats_nodup (mv_rows _ V) (fun c => c_name c = name)).
  - intros uid s c V.
    by apply (looked_up_chats (mv_rows _ V) _ (fun i => mem_lookupChatById_ok i s)).
  - intros uid s V. simpl. unfold mem_lookupChatsForUserId.
    rewrite (looked_up_ids (mv_rows _ V) _ (fun i => mem_lookupChatById_ok i s) uid) by done.
    by apply (chat_ids_nodup (mv_rows _ V)).
  - exact mem_addUserToChat_ok.
  - intros m s V _ _ _ _. split; [by apply mem_valid_messages|done].
  - intros chatid opt s V _. by apply mem_getMessages_ok.
  - intros pred opt s _ Hmax. exists 0%nat. by apply mem_selectMessages_ok.
  - exact mem_getAllDistinctLocations_ok.
Defined.

#[export] Instance InMemoryScan : Scan Storage.
Proof.
  refine {| scan := fun _ log => log |}.
  - intros _ log. by exists 0%nat.
  - intros pred opt s _. apply mem_selectMessages_ok.
Defined.

Lemma reachable_valid s : rtc conn_call Storage_init s -> mem_valid s /\ rtc db_step DB_empty (mem_view s).
Proof.
  intros H. assert (valid Storage_init) as V by exact mem_valid_init.
  exact (conn_calls_refine _ _ V H).
Qed.

(** ** Properties *)

(** C6: whatever the workers call, from the empty storage on, the database
    the in-memory storage represents moves by the steps of the abstract
    database only and stays consistent: ids are unique and not 0, a name
    belongs to one user, every user is a member of its own chat, and every
    member is a known user of a known chat. *)
Theorem in_memory_refines s :
  rtc conn_call Storage_init s -> rtc db_step DB_empty (view s) /\ consistent (view s).
Proof.
  intros [_ Hr]%reachable_valid.
  split; [done|]. eapply consistent_steps; [apply consistent_empty|done].
Qed.

(** Two users, a group they share and a message. *)
Definition sample : Storage :=
  let '(alice, s) := createUser "alice" "1" "/tmp" "" "moscow" Storage_init in
  let '(bob, s) := createUser "bob" "2" "/tmp" "" "omsk" s in
  let '(team, s) := createChat "team" (u_id alice) s in
  let s := addUserToChat team bob s in
  saveMessage (set_m_ts 7 (Message_new (u_id alice) (u_self_chat_id bob) "hi")) s.

Lemma sample_calls : rtc conn_call Storage_init sample.
Proof.
  eapply rtc_l; [apply (call_createUser _ "alice" "1" "/tmp" "" "moscow"); done|].
  eapply rtc_l; [apply (call_createUser _ "bob" "2" "/tmp" "" "omsk"); done|].
  eapply rtc_l; [apply (call_createChat _ "team" 1); [done|vm_compute; by eexists]|].
  eapply rtc_l; [apply (call_addUserToChat _ (mkChat 3 "team") (mkUser 2 2 "bob" "2" "/tmp" "" "omsk" 0));
    [done|vm_compute; by eexists]|].
  eapply rtc_l; [apply (call_saveMessage _ (set_m_ts 7 (Message_new 1 2 "hi"))); [vm_compute; by eexists..|done|done]|]. apply rtc_refl.
Qed.

Lemma in_memory_refines_witness : consistent (view sample) /\ lookupUserByName "bob" sample <> [].
Proof. split; [apply (in_memory_refines sample), sample_calls|done]. Defined.

(** [getMessages] returns the newest messages of the chat that are
    younger than [opt.ts], newest first, at most [max_count] of them when
    that is not 0, and flags exactly those as read, leaving every other row
    and the order of the messages alone. *)
Theorem mem_getMessages_spec chatid opt s :
  0 <= o_max_count opt ->
  let pred := wanted chatid (o_ts opt) in
  let k := limit opt in
  mem_getMessages chatid opt s =
    (newest pred k (messages s), set_messages (rev (mark_read pred k (rev (messages s)))) s).
Proof.
  intros Hmax pred k. unfold mem_getMessages, newest.
  destruct (messages s) as [|m0 ms] eqn:E.
  - destruct s; simpl in *. subst. by destruct k as [[]|].
  - pose proof (getMessages_loop_ok chatid opt (m0 :: ms) [] [] Hmax ltac:(done)
      ltac:(by rewrite quota_nil; apply limit_nonzero)) as H.
    cbv zeta in H. rewrite quota_nil, !app_nil_r in H. by rewrite H.
Qed.

Lemma mem_getMessages_spec_witness :
  (mem_getMessages 2 (mkOpt 6 3) sample).1 = [mkMessage UNREAD 1 2 7 "hi"].
Proof. rewrite (mem_getMessages_spec 2 (mkOpt 6 3) sample); [vm_compute; reflexivity|simpl; lia]. Defined.

(** [createUser] answers the user with id 0 exactly when the name is
    taken, and then stores nothing; otherwise the user, its own chat named
    after it and its membership are new, and the name leads to this user
    and no other. *)
Theorem mem_createUser_spec name pass stpath ip city s :
  mem_valid s -> mem_room s ->
  let '(u, s') := mem_createUser name pass stpath ip city s in
  if decide (u_id u = 0) then s' = s /\ mem_lookupUserByName name s <> []
  else mem_lookupUserByName name s = [] /\
       mem_lookupUserByName name s' = [u] /\ mem_lookupUserById (u_id u) s' = u /\
       mem_lookupChatsForUserId (u_id u) s' = [mkChat (u_self_chat_id u) name].
Proof.
  intros V R. destruct (user_named_dec name (mem_view s)) as [Hn|Hn].
  - rewrite mem_createUser_dup by done. simpl. split; [done|].
    apply (user_named_iff (mv_rows _ V)) in Hn as (u & -> & Hu)%list_elem_of_fmap.
    intros E. apply (not_elem_of_nil u). rewrite <- E. by apply list_elem_of_filter.
  - destruct (mem_createUser_new name pass stpath ip city s V R Hn) as (E & V' & Hv).
    destruct (mem_createUser name pass stpath ip city s) as [u' s']. simpl in E, V', Hv.
    injection E as ->. set (u := mkUser _ _ _ _ _ _ _ _) in *.
    pose proof (mv_rows _ V) as Vr. pose proof (mv_rows _ V') as Vr'. rewrite (user_named_iff Vr) in Hn.
    pose proof (proj1 (proj1 (mv_counters _ V))) as Hpos.
    assert (db_users (mem_view s') !! u_id u = Some u) as Hu by (rewrite Hv; apply lookup_insert_eq).
    rewrite decide_False by (simpl; lia). split_and!.
    + apply elem_of_nil_inv. intros v Hvn. apply Hn.
      apply list_elem_of_filter in Hvn as [<- Hvn]. by apply list_elem_of_fmap_2.
    + apply singleton_of.
      * by apply (selected_users_nodup Vr' (fun u => u_name u = name)).
      * by apply (selected_users Vr' (fun u => u_name u = name)).
      * intros v [Hv1 Hv2]%(selected_users Vr' (fun u => u_name u = name)); [|done].
        apply (row_user Vr') in Hv1 as [Hv1 _]. apply (row_user Vr') in Hu as [Hu _].
        by eapply (NoDup_fmap_inj u_name); [apply (ro_user_names _ Vr')|..].
    + by rewrite mem_lookupUserById_ok, Hu.
    + pose proof (fun i => mem_lookupChatById_ok i s') as Hl. apply singleton_of.
      * eapply (NoDup_fmap_1 c_id). unfold mem_lookupChatsForUserId.
        rewrite (looked_up_ids Vr' _ Hl (u_id u)) by done. by apply (chat_ids_nodup Vr').
      * apply (looked_up_chats Vr' _ Hl (u_id u)); [done|]. fold (mem_view s'). rewrite Hv. simpl. split; [set_solver|].
        apply lookup_insert_eq.
      * intros c [H1 H2]%(looked_up_chats Vr' _ Hl (u_id u)); [|done]. fold (mem_view s') in H1, H2.
        rewrite Hv in H1, H2. simpl in H1, H2.
        apply elem_of_union in H1 as [[= E]%elem_of_singleton|H1].
        { rewrite E, lookup_insert_eq in H2. by injection H2. }
        apply (con_members _ (rows_consistent Vr)), proj2 in H1. apply index_is_Some in H1.
        by destruct (fresh_uid _ V).
Qed.

Lemma mem_createUser_spec_witness :
  mem_lookupUserByName "carol" (mem_createUser "carol" "3" "/tmp" "" "perm" sample).2 <> [].
Proof.
  assert (mem_valid sample) as V by apply reachable_valid, sample_calls.
  assert (mem_room sample) as R by done.
  pose proof (mem_createUser_spec "carol" "3" "/tmp" "" "perm" sample V R) as H.
  vm_compute in H. destruct H as (_ & H & _). vm_compute. done.
Defined.

(** [createUser] names the chat of the new user without looking at the
    names in use, so that a group chat and a user can leave two chats of
    one name in the storage, after which [lookupChatByName] no longer finds
    a single chat and the group cannot be addressed. *)
Theorem chat_names_not_unique :
  exists s, rtc conn_call Storage_init s /\
    c_id <$> mem_lookupChatByName "team" s = [2; 3].
Proof.
  set (s1 := (createUser "alice" "1" "/tmp" "" "" Storage_init).2).
  set (s2 := (createChat "team" 1 s1).2).
  exists (createUser "team" "2" "/tmp" "" "" s2).2. split; [|done].
  eapply rtc_l; [apply (call_createUser Storage_init "alice" "1" "/tmp" "" ""); done|].
  eapply rtc_l; [apply (call_createChat s1 "team" 1); [done|vm_compute; by eexists]|].
  eapply rtc_l; [apply (call_createUser s2 "team" "2" "/tmp" "" ""); done|]. apply rtc_refl.
Qed.
