(* ===== verification/Mysql.v ===== *)
(** * server/src/mysql_connection.cpp: the storage of the running server

    [MysqlConnection] sends SQL statements through a connector.  The
    connector and the server behind it are the parameter [SqlConnector]: a
    statement is its text and its bound parameters, a query answers rows or
    throws an [SQLException], an update also changes the state [D] of the
    server.  The methods are translated with the texts they send; each of
    them catches the exception, and what it then returns is what its local
    variables hold.

    [SqlLaws] states what the manual says of each statement the file sends,
    on the tables of mysql/init.sql.  Two things the source leaves to the
    installation are left open there: whether a result can be read after its
    statement was destroyed, and whether an update stamps the column [time]
    of the messages.  The property of the file, [mysql_refines], holds in all
    four cases.  Where both are as the source needs them ([StandardSql]) the
    methods keep the laws of the storage interface ([MysqlLaws]), so that
    what Worker proves of a storage holds of this one.  A mutex all connections share is held
    during each method, so that the statements of two methods do not mix
    ([lookupChatsForUserId] and [lookupUsersForChatId] release it between
    their queries). *)

From S2P Require Import Prelude CxxString Common Database Store Rows.

(** ** The connector *)

(** [setUInt] (32 bits), [setUInt64] and [setString], in the order of the
    question marks. *)
Inductive sql_param := PUInt (v : Z) | PUInt64 (v : Z) | PString (s : str).

#[export] Instance sql_param_eq_dec : EqDecision sql_param.
Proof. solve_decision. Defined.

(** [None] stands for an [SQLException]; preparing and executing a statement
    are one call.  The rows of a result are fetched by the query; the last
    field says whether they can be read after the statement that made them
    is destroyed. *)
Class SqlConnector (D : Type) := {
  connect : forall (host user password : str), option D;
  setSchema : str -> D -> option unit * D;
  ResultRow : Type;
  getUInt64 : ResultRow -> str -> option Z;
  getUInt : ResultRow -> str -> option Z;
  getString : ResultRow -> str -> option str;
  executeQuery : str -> list sql_param -> D -> option (list ResultRow);
  executeUpdate : str -> list sql_param -> D -> option unit * D;
  result_outlives_statement : bool }.

Section MysqlConnection.
Context {D : Type} `{SqlConnector D}.

(** Statements in sequence; the first exception ends it. *)
Definition Sql (A : Type) : Type := D -> option A * D.

#[export] Instance Sql_ret : MRet Sql := fun A a d => (Some a, d).
#[export] Instance Sql_bind : MBind Sql := fun A B f m d =>
  match m d with (Some a, d) => f a d | (None, d) => (None, d) end.

Definition query (sql : str) (ps : list sql_param) : Sql (list ResultRow) := fun d => (executeQuery sql ps d, d).
Definition update (sql : str) (ps : list sql_param) : Sql unit := executeUpdate sql ps.
Definition read {A} (o : option A) : Sql A := fun d => (o, d).

(** [try { m } catch (sql::SQLException &) {}], then [return h]. *)
Definition try_sql {A} (m : Sql A) (h : A) : D -> A * D := fun d =>
  match m d with (Some a, d) => (a, d) | (None, d) => (h, d) end.

(** [while (res->next()) ret.push_back(f(res))]: what was pushed before an
    exception stays. *)
Fixpoint fetch {A} (f : ResultRow -> option A) (rows : list ResultRow) : list A :=
  match rows with
  | [] => []
  | res :: rows => match f res with Some a => a :: fetch f rows | None => [] end
  end.

(** ** The constructor and the helpers *)

(** [m_Connection]: a null pointer when the connection failed, and then
    every method is undefined. *)
Definition MysqlConnection_new : option D :=
  match connect "localhost:3306" "me" "123" with
  | Some d => Some (setSchema "geochat" d).2
  | None => None
  end.

Definition getLastInsertId : Sql Z :=
  res ← query "SELECT LAST_INSERT_ID() AS id" [];
  read (r ← head res; getUInt64 r "id").

(** The rows as the loops read them. *)
Definition user_of_row (res : ResultRow) : option User :=
  id ← getUInt64 res "id";
  self_chat_id ← getUInt64 res "self_chat_id";
  name ← getString res "name";
  password ← getString res "password";
  stpath ← getString res "stpath";
  ip ← getString res "ip";
  city ← getString res "city";
  heartbit ← getUInt res "unix_heartbit";
  mret (mkUser id self_chat_id name password stpath ip city heartbit).

Definition chat_of_row (res : ResultRow) : option Chat :=
  id ← getUInt64 res "id";
  name ← getString res "name";
  mret (mkChat id name).

(** The cast of the column to [flags_t]; the program stores the three codes
    only. *)
Definition flags_of_code (code : Z) : flags_t :=
  if decide (code = 1) then READ else if decide (code = 4) then ANSWERED else UNREAD.

Definition message_of_row (res : ResultRow) : option Message :=
  user_id ← getUInt64 res "user_id";
  chat_id ← getUInt64 res "chat_id";
  text ← getString res "text";
  unix_time ← getUInt res "unix_time";
  flags ← getUInt res "flags";
  mret (mkMessage (flags_of_code flags) user_id chat_id unix_time text).

(** ** The statements *)

Definition UPDATE_HEARTBIT : str := "UPDATE user SET heartbit=FROM_UNIXTIME(?) WHERE id=?".
Definition SELECT_NAME_TAKEN : str := "SELECT 1 FROM user WHERE name=?".
Definition INSERT_CHAT : str := "INSERT INTO chat(name) VALUES(?)".
Definition INSERT_USER : str :=
  "INSERT INTO user(self_chat_id, name, password, stpath, heartbit, ip, city) " ++
  "VALUES(?, ?, ?, ?, NOW(), ?, ?)".
Definition INSERT_CHATUSER : str := "INSERT INTO chatuser VALUES(?, ?)".
Definition SELECT_CHAT_NAME_TAKEN : str := "SELECT 1 FROM chat WHERE name=?".
Definition SELECT_USER (column : str) : str :=
  "SELECT id, self_chat_id, name, password, stpath, ip, city, UNIX_TIMESTAMP(heartbit) AS unix_heartbit " ++
  "FROM user WHERE " ++ column ++ "=?".
Definition SELECT_CHAT (column : str) : str := "SELECT * FROM chat WHERE " ++ column ++ "=?".
Definition SELECT_CHATS_OF_USER : str := "SELECT chat_id FROM chatuser WHERE user_id=?".
Definition SELECT_USERS_OF_CHAT : str := "SELECT user_id FROM chatuser WHERE chat_id=?".
Definition SELECT_LINK : str := "SELECT * FROM chatuser WHERE user_id=? AND chat_id=?".
Definition INSERT_MESSAGE : str :=
  "INSERT INTO message(user_id, chat_id, flags, time, text) VALUES(?, ?, ?, FROM_UNIXTIME(?), ?)".
Definition SELECT_MESSAGES_OF_CHAT : str :=
  "SELECT id, user_id, chat_id, flags, UNIX_TIMESTAMP(time) AS unix_time, text FROM message " ++
  "WHERE chat_id=? AND UNIX_TIMESTAMP(time)>? ORDER BY id DESC".
Definition UPDATE_FLAGS : str := "UPDATE message SET flags=? WHERE id=?".
Definition SELECT_MESSAGES : str :=
  "SELECT user_id, chat_id, flags, UNIX_TIMESTAMP(time) AS unix_time, text FROM message " ++
  "ORDER BY id DESC".
Definition SELECT_CITIES : str := "SELECT DISTINCT city FROM user".
Definition SELECT_NAMES_OF_CITY : str := "SELECT name FROM user WHERE city =?".

(** [opt.max_count ? " LIMIT " + std::to_string(opt.max_count) : ""]. *)
Definition limit_clause (opt : get_msg_opt_t) : str :=
  if decide (o_max_count opt = 0) then "" else " LIMIT " ++ to_string (o_max_count opt).

(** ** The methods *)

Definition my_updateUserHeartBit (user : User) (ts : Z) (d : D) : D :=
  (try_sql (update UPDATE_HEARTBIT [PUInt (u32 ts); PUInt64 (u_id user)]) tt d).2.

Definition my_createUser (name pass stpath ip city : str) : D -> User * D :=
  try_sql
    (res ← query SELECT_NAME_TAKEN [PString name];
     match res with
     | _ :: _ => mret User_empty
     | [] =>
         update INSERT_CHAT [PString name] ;;
         chatId ← getLastInsertId;
         update INSERT_USER [PUInt64 chatId; PString name; PString pass; PString stpath; PString ip; PString city] ;;
         userId ← getLastInsertId;
         update INSERT_CHATUSER [PUInt64 userId; PUInt64 chatId] ;;
         mret (mkUser userId chatId name pass stpath ip city 0)
     end)
    User_empty.

Definition my_createChat (name : str) (uid : Z) : D -> Chat * D :=
  try_sql
    (res ← query SELECT_CHAT_NAME_TAKEN [PString name];
     match res with
     | _ :: _ => mret Chat_empty
     | [] =>
         update INSERT_CHAT [PString name] ;;
         chatId ← getLastInsertId;
         (if 0 <? uid then update INSERT_CHATUSER [PUInt64 uid; PUInt64 chatId] else mret tt) ;;
         mret (mkChat chatId name)
     end)
    Chat_empty.

Definition my_lookupUserByName (name : str) (d : D) : list User :=
  fetch user_of_row (default [] (executeQuery (SELECT_USER "name") [PString name] d)).

Definition my_lookupUserById (id : Z) (d : D) : User :=
  default User_empty
    (rows ← executeQuery (SELECT_USER "id") [PUInt64 id] d; res ← head rows; user_of_row res).

Definition my_lookupUserByCity (city : str) (d : D) : list User :=
  fetch user_of_row (default [] (executeQuery (SELECT_USER "city") [PString city] d)).

Definition my_lookupChatById (chatid : Z) (d : D) : Chat :=
  default Chat_empty
    (rows ← executeQuery (SELECT_CHAT "id") [PUInt64 chatid] d; res ← head rows; chat_of_row res).

(** An exception while the ids are read leaves [ret] empty. *)
Definition my_lookupChatsForUserId (uid : Z) (d : D) : list Chat :=
  default []
    (rows ← executeQuery SELECT_CHATS_OF_USER [PUInt64 uid] d;
     chats ← mapM (fun res => getUInt64 res "chat_id") rows;
     mret ((fun chatid => my_lookupChatById chatid d) <$> chats)).

Definition my_lookupChatByName (name : str) (d : D) : list Chat :=
  fetch chat_of_row (default [] (executeQuery (SELECT_CHAT "name") [PString name] d)).

Definition my_lookupUsersForChatId (chatid : Z) (d : D) : list User :=
  default []
    (rows ← executeQuery SELECT_USERS_OF_CHAT [PUInt64 chatid] d;
     uids ← mapM (fun res => getUInt64 res "user_id") rows;
     mret ((fun uid => my_lookupUserById uid d) <$> uids)).

Definition my_addUserToChat (chat : Chat) (user : User) (d : D) : D :=
  (try_sql
    (res ← query SELECT_LINK [PUInt64 (u_id user); PUInt64 (c_id chat)];
     match res with
     | _ :: _ => mret tt
     | [] => update INSERT_CHATUSER [PUInt64 (u_id user); PUInt64 (c_id chat)]
     end) tt d).2.

Definition my_saveMessage (msg : Message) (d : D) : D :=
  (try_sql
    (update INSERT_MESSAGE
      [PUInt64 (m_user_from msg); PUInt64 (m_chat_to msg); PUInt (flags_code (m_flags msg));
       PUInt (u32 (m_ts msg)); PString (m_message msg)]) tt d).2.

(** The loop over the result.  [pstmt.reset] destroys the statement of the
    query while its result is still read. *)
Fixpoint getMessages_fetch (rows : list ResultRow) (ret : list Message) (d : D) : list Message * D :=
  match rows with
  | [] => (ret, d)
  | res :: rows =>
      match message_of_row res with
      | None => (ret, d)
      | Some msg =>
          match (if result_outlives_statement then getUInt64 res "id" else None) with
          | None => (ret ++ [msg], d)
          | Some id =>
              match executeUpdate UPDATE_FLAGS [PUInt (flags_code READ); PUInt64 id] d with
              | (None, d) => (ret ++ [msg], d)
              | (Some _, d) => getMessages_fetch rows (ret ++ [msg]) d
              end
          end
      end
  end.

Definition my_getMessages (chatid : Z) (opt : get_msg_opt_t) (d : D) : list Message * D :=
  match executeQuery (SELECT_MESSAGES_OF_CHAT ++ limit_clause opt) [PUInt64 chatid; PUInt (u32 (o_ts opt))] d with
  | None => ([], d)
  | Some rows => getMessages_fetch rows [] d
  end.

(** The limit counts the rows before [pred] sees them. *)
Definition my_selectMessages (pred : Message -> bool) (opt : get_msg_opt_t) (d : D) : list Message :=
  List.filter pred
    (fetch message_of_row (default [] (executeQuery (SELECT_MESSAGES ++ limit_clause opt) [] d))).

Definition my_getAllDistinctLocations (d : D) : list str :=
  foldl (fun result city => set_insert city result) []
    (fetch (fun res => getString res "city") (default [] (executeQuery SELECT_CITIES [] d))).

Definition my_getAllUsersFromLocation (city : str) (d : D) : list str :=
  foldl (fun result name => set_insert name result) []
    (fetch (fun res => getString res "name") (default [] (executeQuery SELECT_NAMES_OF_CITY [PString city] d))).

#[export] Instance MysqlConnection : AbstractConnection D := {|
  updateUserHeartBit := my_updateUserHeartBit;
  createUser := my_createUser;
  createChat := my_createChat;
  lookupUserByName := my_lookupUserByName;
  lookupUserById := my_lookupUserById;
  lookupUserByCity := my_lookupUserByCity;
  lookupChatsForUserId := my_lookupChatsForUserId;
  lookupChatByName := my_lookupChatByName;
  lookupChatById := my_lookupChatById;
  lookupUsersForChatId := my_lookupUsersForChatId;
  addUserToChat := my_addUserToChat;
  saveMessage := my_saveMessage;
  getMessages := my_getMessages;
  selectMessages := my_selectMessages;
  getAllDistinctLocations := my_getAllDistinctLocations;
  getAllUsersFromLocation := my_getAllUsersFromLocation
|}.
End MysqlConnection.

(** ** The tables of mysql/init.sql

    The rows of [message] carry their key; they are listed by increasing
    key, the other tables in any order. *)

Record Tables := mkTables {
  t_user : list User;
  t_chat : list Chat;
  t_chatuser : list Chatuser;
  t_message : list (Z * Message);
  t_last_insert_id : Z }.

Definition rows_of (t : Tables) : Rows := mkRows (t_user t) (t_chat t) (t_chatuser t) (t_message t).*2.

Definition insert_user (u : User) (t : Tables) : Tables :=
  mkTables (t_user t ++ [u]) (t_chat t) (t_chatuser t) (t_message t) (u_id u).
Definition insert_chat (c : Chat) (t : Tables) : Tables :=
  mkTables (t_user t) (t_chat t ++ [c]) (t_chatuser t) (t_message t) (c_id c).
Definition insert_chatuser (cu : Chatuser) (t : Tables) : Tables :=
  mkTables (t_user t) (t_chat t) (t_chatuser t ++ [cu]) (t_message t) (t_last_insert_id t).
Definition insert_message (id : Z) (m : Message) (t : Tables) : Tables :=
  mkTables (t_user t) (t_chat t) (t_chatuser t) (t_message t ++ [(id, m)]) id.
Definition update_users (f : User -> User) (t : Tables) : Tables :=
  mkTables (f <$> t_user t) (t_chat t) (t_chatuser t) (t_message t) (t_last_insert_id t).
Definition set_messages (l : list (Z * Message)) (t : Tables) : Tables :=
  mkTables (t_user t) (t_chat t) (t_chatuser t) l (t_last_insert_id t).
Definition update_messages (f : Z * Message -> Z * Message) (t : Tables) : Tables :=
  set_messages (f <$> t_message t) t.

(** [VARBINARY(512)] and [VARBINARY(32)]. *)
Definition fits_column (n : nat) (s : str) : Prop := (length s <= n)%nat.

#[export] Instance fits_column_dec n s : Decision (fits_column n s).
Proof. unfold fits_column. apply _. Defined.

(** A [TIMESTAMP] column holds 1970-01-01 00:00:01 to 2038-01-19 03:14:07. *)
Definition is_timestamp (ts : Z) : Prop := 0 < ts < 2 ^ 31.

(** The row of a message whose flags are updated.  A [TIMESTAMP NOT NULL]
    without a default, the first of its table, has [ON UPDATE
    CURRENT_TIMESTAMP] when the server runs without
    [explicit_defaults_for_timestamp] (the default before MySQL 8.0), and
    none when it runs with it; the update of a row to the values it has
    changes nothing. *)
Definition flag_row (on_update : bool) (now : Z) (f : flags_t) (m : Message) : Message :=
  let m' := set_m_flags f m in
  if on_update && negb (bool_decide (m_flags m = f)) then set_m_ts now m' else m'.

(** The columns of a result row. *)
Section rows_as.
Context {D : Type} `{SqlConnector D}.

Definition row_is_user (res : ResultRow) (u : User) : Prop :=
  getUInt64 res "id" = Some (u_id u) /\ getUInt64 res "self_chat_id" = Some (u_self_chat_id u) /\
  getString res "name" = Some (u_name u) /\ getString res "password" = Some (u_password u) /\
  getString res "stpath" = Some (u_stpath u) /\ getString res "ip" = Some (u_ip u) /\
  getString res "city" = Some (u_city u) /\ getUInt res "unix_heartbit" = Some (u_heartbit u).

Definition row_is_chat (res : ResultRow) (c : Chat) : Prop :=
  getUInt64 res "id" = Some (c_id c) /\ getString res "name" = Some (c_name c).

Definition row_is_message (res : ResultRow) (m : Message) : Prop :=
  getUInt64 res "user_id" = Some (m_user_from m) /\ getUInt64 res "chat_id" = Some (m_chat_to m) /\
  getString res "text" = Some (m_message m) /\ getUInt res "unix_time" = Some (m_ts m) /\
  getUInt res "flags" = Some (flags_code (m_flags m)).

(** A query that selects the rows [l], in this order and in any order. *)
Definition selects_in_order {A} (row_is : ResultRow -> A -> Prop) (answer : option (list ResultRow)) (l : list A) : Prop :=
  exists rows, answer = Some rows /\ Forall2 row_is rows l.
Definition selects {A} (row_is : ResultRow -> A -> Prop) (answer : option (list ResultRow)) (l : list A) : Prop :=
  exists l', l' ≡ₚ l /\ selects_in_order row_is answer l'.
End rows_as.

(** ** What the manual says of the statements

    [healthy] is a server that can be reached, runs the schema of init.sql
    and has room left; the laws say nothing of any other.  An insert fails
    on a value longer than its column (strict SQL mode, the default) or on
    a missing row of a foreign key; [AUTO_INCREMENT] gives keys above those
    in use; a select without [ORDER BY] has no order; a time that goes
    through [FROM_UNIXTIME] into a [TIMESTAMP] comes back through
    [UNIX_TIMESTAMP]; [VARBINARY] compares bytes.  [time_on_update] is the
    behaviour of the column [time] of [message] in this installation. *)

Class SqlLaws (D : Type) `{SqlConnector D} := {
  tables : D -> Tables;
  healthy : D -> Prop;
  time_on_update : bool;

  sql_insert_chat : forall name d, healthy d -> fits_column 512 name ->
    exists id d', executeUpdate INSERT_CHAT [PString name] d = (Some tt, d') /\ healthy d' /\
      Forall (fun c => c_id c < id) (t_chat (tables d)) /\ 0 < id /\
      tables d' = insert_chat (mkChat id name) (tables d);
  sql_insert_chat_long : forall name d, healthy d -> ~ fits_column 512 name ->
    executeUpdate INSERT_CHAT [PString name] d = (None, d);
  sql_insert_user : forall chat name pass stpath ip city d, healthy d ->
    Forall (fits_column 512) [name; pass; stpath; city] -> fits_column 32 ip ->
    exists id now d',
      executeUpdate INSERT_USER [PUInt64 chat; PString name; PString pass; PString stpath; PString ip; PString city] d
        = (Some tt, d') /\ healthy d' /\
      Forall (fun u => u_id u < id) (t_user (tables d)) /\ 0 < id /\
      tables d' = insert_user (mkUser id chat name pass stpath ip city now) (tables d);
  sql_insert_user_long : forall chat name pass stpath ip city d, healthy d ->
    ~ (Forall (fits_column 512) [name; pass; stpath; city] /\ fits_column 32 ip) ->
    executeUpdate INSERT_USER [PUInt64 chat; PString name; PString pass; PString stpath; PString ip; PString city] d
      = (None, d);
  sql_insert_chatuser : forall uid chat d, healthy d ->
    uid ∈ u_id <$> t_user (tables d) -> chat ∈ c_id <$> t_chat (tables d) ->
    exists d', executeUpdate INSERT_CHATUSER [PUInt64 uid; PUInt64 chat] d = (Some tt, d') /\ healthy d' /\
      tables d' = insert_chatuser (mkChatuser chat uid) (tables d);
  sql_insert_message : forall m d, healthy d ->
    m_user_from m ∈ u_id <$> t_user (tables d) -> m_chat_to m ∈ c_id <$> t_chat (tables d) ->
    is_timestamp (m_ts m) -> fits_column 512 (m_message m) ->
    exists id d',
      executeUpdate INSERT_MESSAGE
        [PUInt64 (m_user_from m); PUInt64 (m_chat_to m); PUInt (flags_code (m_flags m)); PUInt (m_ts m);
         PString (m_message m)] d = (Some tt, d') /\ healthy d' /\
      Forall (fun p => p.1 < id) (t_message (tables d)) /\
      tables d' = insert_message id m (tables d);
  sql_insert_message_long : forall from to flags ts text d, healthy d -> ~ fits_column 512 text ->
    executeUpdate INSERT_MESSAGE [PUInt64 from; PUInt64 to; PUInt flags; PUInt ts; PString text] d = (None, d);
  sql_update_heartbit : forall ts id d, healthy d -> is_timestamp ts ->
    exists d', executeUpdate UPDATE_HEARTBIT [PUInt ts; PUInt64 id] d = (Some tt, d') /\ healthy d' /\
      tables d' = update_users (fun u => if decide (u_id u = id) then set_heartbit ts u else u) (tables d);
  sql_update_flags : forall f id d, healthy d ->
    exists now d', executeUpdate UPDATE_FLAGS [PUInt (flags_code f); PUInt64 id] d = (Some tt, d') /\ healthy d' /\
      is_timestamp now /\
      tables d' = update_messages
        (fun p => if decide (p.1 = id) then (p.1, flag_row time_on_update now f p.2) else p) (tables d);

  sql_last_insert_id : forall d, healthy d ->
    selects (fun res id => getUInt64 res "id" = Some id)
      (executeQuery "SELECT LAST_INSERT_ID() AS id" [] d) [t_last_insert_id (tables d)];
  sql_name_taken : forall name d, healthy d ->
    selects (fun _ _ => True) (executeQuery SELECT_NAME_TAKEN [PString name] d)
      (filter (fun u => u_name u = name) (t_user (tables d)));
  sql_chat_name_taken : forall name d, healthy d ->
    selects (fun _ _ => True) (executeQuery SELECT_CHAT_NAME_TAKEN [PString name] d)
      (filter (fun c => c_name c = name) (t_chat (tables d)));
  sql_user_by_name : forall name d, healthy d ->
    selects row_is_user (executeQuery (SELECT_USER "name") [PString name] d)
      (filter (fun u => u_name u = name) (t_user (tables d)));
  sql_user_by_id : forall id d, healthy d ->
    selects row_is_user (executeQuery (SELECT_USER "id") [PUInt64 id] d)
      (filter (fun u => u_id u = id) (t_user (tables d)));
  sql_chat_by_name : forall name d, healthy d ->
    selects row_is_chat (executeQuery (SELECT_CHAT "name") [PString name] d)
      (filter (fun c => c_name c = name) (t_chat (tables d)));
  sql_chat_by_id : forall id d, healthy d ->
    selects row_is_chat (executeQuery (SELECT_CHAT "id") [PUInt64 id] d)
      (filter (fun c => c_id c = id) (t_chat (tables d)));
  sql_chats_of_user : forall uid d, healthy d ->
    selects (fun res cu => getUInt64 res "chat_id" = Some (cu_chatid cu))
      (executeQuery SELECT_CHATS_OF_USER [PUInt64 uid] d)
      (filter (fun cu => cu_uid cu = uid) (t_chatuser (tables d)));
  sql_users_of_chat : forall chat d, healthy d ->
    selects (fun res cu => getUInt64 res "user_id" = Some (cu_uid cu))
      (executeQuery SELECT_USERS_OF_CHAT [PUInt64 chat] d)
      (filter (fun cu => cu_chatid cu = chat) (t_chatuser (tables d)));
  sql_link : forall uid chat d, healthy d ->
    selects (fun _ _ => True) (executeQuery SELECT_LINK [PUInt64 uid; PUInt64 chat] d)
      (filter (fun cu => cu = mkChatuser chat uid) (t_chatuser (tables d)));
  sql_messages_of_chat : forall chat opt d, healthy d -> in_u 32 (o_ts opt) -> 0 <= o_max_count opt ->
    StronglySorted Z.lt (t_message (tables d)).*1 ->
    selects_in_order (fun res p => getUInt64 res "id" = Some p.1 /\ row_is_message res p.2)
      (executeQuery (SELECT_MESSAGES_OF_CHAT ++ limit_clause opt) [PUInt64 chat; PUInt (o_ts opt)] d)
      (take_opt (limit opt) (List.filter (fun p => wanted chat (o_ts opt) p.2) (rev (t_message (tables d)))));
  sql_messages : forall opt d, healthy d -> 0 <= o_max_count opt ->
    StronglySorted Z.lt (t_message (tables d)).*1 ->
    selects_in_order (fun res p => row_is_message res p.2)
      (executeQuery (SELECT_MESSAGES ++ limit_clause opt) [] d)
      (take_opt (limit opt) (rev (t_message (tables d))));
  sql_cities : forall d, healthy d ->
    exists l, (forall c, c ∈ l <-> c ∈ u_city <$> t_user (tables d)) /\
      selects (fun res c => getString res "city" = Some c) (executeQuery SELECT_CITIES [] d) l;
  sql_names_of_city : forall city d, healthy d ->
    selects (fun res u => getString res "name" = Some (u_name u)) (executeQuery SELECT_NAMES_OF_CITY [PString city] d)
      (filter (fun u => u_city u = city) (t_user (tables d)))
}.

(** What the source takes for granted of the connector and the server
    without saying so: no documented behaviour, a condition on the
    installation. *)
Class StandardSql (D : Type) `{SqlLaws D} : Prop := {
  results_stay : result_outlives_statement = true;
  time_kept : time_on_update = false }.

(** ** The methods on a healthy server *)

Section Laws.
Context {D : Type} `{SqlLaws D}.

Definition my_view (d : D) : DB := rows_view (rows_of (tables d)).

Record my_valid (d : D) : Prop := {
  my_healthy : healthy d;
  my_rows : rows_ok (rows_of (tables d));
  my_sorted : StronglySorted Z.lt (t_message (tables d)).*1 }.

(** *** Reading results *)

Lemma fetch_ok {A} (row_is : ResultRow -> A -> Prop) f rows l :
  (forall res a, row_is res a -> f res = Some a) -> Forall2 row_is rows l -> fetch f rows = l.
Proof. intros Hf. induction 1 as [|res a rows l Hr Hl IH]; simpl; [done|]. by rewrite (Hf _ _ Hr), IH. Qed.

Lemma mapM_ok {A} (row_is : ResultRow -> A -> Prop) f rows l :
  (forall res a, row_is res a -> f res = Some a) -> Forall2 row_is rows l -> mapM f rows = Some l.
Proof.
  intros Hf Hl. apply mapM_Some. eapply Forall2_impl; [done|]. intros res a Hr. by apply Hf.
Qed.

Lemma fetch_selected {A} (row_is : ResultRow -> A -> Prop) f answer l :
  (forall res a, row_is res a -> f res = Some a) -> selects row_is answer l -> fetch f (default [] answer) ≡ₚ l.
Proof. intros Hf (l' & Hp & rows & -> & Hl). simpl. by rewrite (fetch_ok row_is f rows l' Hf Hl). Qed.

Lemma head_selected {A} (row_is : ResultRow -> A -> Prop) f answer l :
  (forall res a, row_is res a -> f res = Some a) -> selects row_is answer l ->
  exists l', l' ≡ₚ l /\ (rows ← answer; res ← head rows; f res) = head l'.
Proof.
  intros Hf (l' & Hp & rows & -> & Hl). exists l'. split; [done|].
  destruct Hl as [|res a rows l' Hr Hl]; [done|]. simpl. by apply Hf.
Qed.

Lemma selected_empty {A} (row_is : ResultRow -> A -> Prop) answer l :
  selects row_is answer l -> exists rows, answer = Some rows /\ (rows = [] <-> l = []).
Proof.
  intros (l' & Hp & rows & -> & Hl). exists rows. split; [done|].
  destruct Hl as [|res a rows l' Hr Hl].
  - by apply Permutation_nil in Hp as ->.
  - split; [done|]. intros ->. by apply Permutation_nil_r in Hp.
Qed.

Lemma user_of_row_ok res u : row_is_user res u -> user_of_row res = Some u.
Proof.
  intros (H1 & H2 & H3 & H4 & H5 & H6 & H7 & H8). unfold user_of_row.
  rewrite H1, H2, H3, H4, H5, H6, H7, H8. by destruct u.
Qed.

Lemma chat_of_row_ok res c : row_is_chat res c -> chat_of_row res = Some c.
Proof. intros (H1 & H2). unfold chat_of_row. rewrite H1, H2. by destruct c. Qed.

Lemma message_of_row_ok res m : row_is_message res m -> message_of_row res = Some m.
Proof.
  intros (H1 & H2 & H3 & H4 & H5). unfold message_of_row. rewrite H1, H2, H3, H4, H5. by destruct m as [[] ????].
Qed.

Lemma getLastInsertId_ok d : healthy d -> getLastInsertId d = (Some (t_last_insert_id (tables d)), d).
Proof.
  intros Hd. unfold getLastInsertId, mbind, Sql_bind, query, read.
  destruct (sql_last_insert_id d Hd) as (l & Hp & rows & -> & Hl).
  apply Permutation_singleton_r in Hp as ->.
  inversion Hl as [|res id rows' l' Hr Hl']; subst. inversion Hl'; subst. simpl. by rewrite Hr.
Qed.

(** *** Lookups *)

Lemma my_lookupUserById_ok id d : my_valid d ->
  my_lookupUserById id d = default User_empty (db_users (my_view d) !! id).
Proof.
  intros V. unfold my_lookupUserById.
  destruct (head_selected _ user_of_row _ _ user_of_row_ok (sql_user_by_id id d (my_healthy _ V))) as (l & Hp & ->).
  by rewrite (selected_user_id (my_rows _ V) id l Hp).
Qed.

Lemma my_lookupChatById_ok id d : my_valid d ->
  my_lookupChatById id d = default Chat_empty (db_chats (my_view d) !! id).
Proof.
  intros V. unfold my_lookupChatById.
  destruct (head_selected _ chat_of_row _ _ chat_of_row_ok (sql_chat_by_id id d (my_healthy _ V))) as (l & Hp & ->).
  by rewrite (selected_chat_id (my_rows _ V) id l Hp).
Qed.

Lemma my_lookupUserByName_ok name d : my_valid d ->
  my_lookupUserByName name d ≡ₚ filter (fun u => u_name u = name) (r_users (rows_of (tables d))).
Proof. intros V. apply (fetch_selected _ user_of_row _ _ user_of_row_ok), sql_user_by_name, V. Qed.

Lemma my_lookupChatByName_ok name d : my_valid d ->
  my_lookupChatByName name d ≡ₚ filter (fun c => c_name c = name) (r_chats (rows_of (tables d))).
Proof. intros V. apply (fetch_selected _ chat_of_row _ _ chat_of_row_ok), sql_chat_by_name, V. Qed.

Lemma my_lookupChatsForUserId_ok uid d : my_valid d ->
  exists l, l ≡ₚ chat_ids (r := rows_of (tables d)) uid /\
    my_lookupChatsForUserId uid d = (fun i => my_lookupChatById i d) <$> l.
Proof.
  intros V. unfold my_lookupChatsForUserId.
  destruct (sql_chats_of_user uid d (my_healthy _ V)) as (l & Hp & rows & -> & Hl).
  exists (cu_chatid <$> l). split; [by unfold chat_ids; rewrite Hp|]. simpl.
  erewrite (mapM_ok (fun res i => getUInt64 res "chat_id" = Some i) _ _ (cu_chatid <$> l)); [done|done|].
  by apply Forall2_fmap_r.
Qed.

(** *** Inserts *)

Lemma fresh_below {A} (key : A -> Z) (l : list A) id : Forall (fun x => key x < id) l -> id ∉ (key <$> l).
Proof. intros Hl (x & E & Hx)%list_elem_of_fmap. rewrite Forall_forall in Hl. specialize (Hl x Hx). lia. Qed.

Lemma filter_none {A} (P : A -> Prop) `{!forall x, Decision (P x)} (l : list A) :
  filter P l = [] <-> forall x, x ∈ l -> ~ P x.
Proof.
  split.
  - intros E x Hx HP. apply (not_elem_of_nil x). rewrite <- E. by apply list_elem_of_filter.
  - intros Hl. apply elem_of_nil_inv. intros x [HP Hx]%list_elem_of_filter. by apply (Hl x).
Qed.

Lemma my_createUser_taken name pass stpath ip city d : my_valid d ->
  user_named name (my_view d) -> my_createUser name pass stpath ip city d = (User_empty, d).
Proof.
  intros V (u & -> & Hu)%(user_named_iff (my_rows _ V))%list_elem_of_fmap.
  unfold my_createUser, try_sql, mbind, Sql_bind, query.
  destruct (selected_empty _ _ _ (sql_name_taken (u_name u) d (my_healthy _ V))) as ([|res rows] & -> & Hr); [|done].
  by eapply filter_none in Hu; [|by apply Hr].
Qed.

Lemma my_createChat_taken name uid d : my_valid d ->
  chat_named name (my_view d) -> my_createChat name uid d = (Chat_empty, d).
Proof.
  intros V (c & -> & Hc)%(chat_named_iff (my_rows _ V))%list_elem_of_fmap.
  unfold my_createChat, try_sql, mbind, Sql_bind, query.
  destruct (selected_empty _ _ _ (sql_chat_name_taken (c_name c) d (my_healthy _ V))) as ([|res rows] & -> & Hr); [|done].
  by eapply filter_none in Hc; [|by apply Hr].
Qed.

Lemma name_free name d : my_valid d -> ~ user_named name (my_view d) ->
  executeQuery SELECT_NAME_TAKEN [PString name] d = Some [].
Proof.
  intros V Hn. rewrite (user_named_iff (my_rows _ V)) in Hn.
  destruct (selected_empty _ _ _ (sql_name_taken name d (my_healthy _ V))) as (rows & -> & Hr).
  f_equal. apply Hr, filter_none. intros u Hu <-. by apply Hn, list_elem_of_fmap_2.
Qed.

Lemma chat_name_free name d : my_valid d -> ~ chat_named name (my_view d) ->
  executeQuery SELECT_CHAT_NAME_TAKEN [PString name] d = Some [].
Proof.
  intros V Hn. rewrite (chat_named_iff (my_rows _ V)) in Hn.
  destruct (selected_empty _ _ _ (sql_chat_name_taken name d (my_healthy _ V))) as (rows & -> & Hr).
  f_equal. apply Hr, filter_none. intros u Hu <-. by apply Hn, list_elem_of_fmap_2.
Qed.

(** Rows changed one by one, keys apart. *)
Lemma index_fmap {A} (key : A -> Z) (f : A -> A) l i :
  (forall x, key (f x) = key x) -> index key (f <$> l) !! i = f <$> (index key l !! i).
Proof.
  intros Hf. rewrite !index_find. induction l as [|x l IH]; simpl; [done|].
  rewrite Hf. by case_bool_decide.
Qed.

(** An update that succeeds goes on in the next state. *)
Lemma update_then {A} sql ps d d' (k : unit -> Sql A) :
  executeUpdate sql ps d = (Some tt, d') -> (x ← update sql ps; k x) d = k tt d'.
Proof. intros E. unfold mbind, Sql_bind, update. by rewrite E. Qed.

Lemma insert_id_then {A} d (k : Z -> Sql A) :
  healthy d -> (id ← getLastInsertId; k id) d = k (t_last_insert_id (tables d)) d.
Proof. intros Hd. unfold mbind at 1, Sql_bind at 1. by rewrite getLastInsertId_ok. Qed.

Lemma my_createUser_new name pass stpath ip city d : my_valid d ->
  Forall (fits_column 512) [name; pass; stpath; city] -> fits_column 32 ip ->
  ~ user_named name (my_view d) ->
  exists id chat h d', let u := mkUser id chat name pass stpath ip city 0 in
    my_createUser name pass stpath ip city d = (u, d') /\ my_valid d' /\
    0 < id /\ 0 < chat /\ db_users (my_view d) !! id = None /\ db_chats (my_view d) !! chat = None /\
    my_view d' = add_user (set_heartbit h u) (my_view d).
Proof.
  intros V Hfit Hip Hn. pose proof (name_free _ _ V Hn) as Hq. rewrite (user_named_iff (my_rows _ V)) in Hn.
  destruct (sql_insert_chat name d (my_healthy _ V)) as (chat & d1 & E1 & H1 & Hc & Hc0 & T1);
    [by apply Forall_cons_1 in Hfit as [? _]|].
  destruct (sql_insert_user chat name pass stpath ip city d1 H1 Hfit Hip) as (id & h & d2 & E2 & H2 & Hi & Hi0 & T2).
  rewrite T1 in T2, Hi. simpl in Hi.
  destruct (sql_insert_chatuser id chat d2 H2) as (d3 & E3 & H3 & T3).
  { rewrite T2. simpl. rewrite fmap_app. set_solver. }
  { rewrite T2. simpl. rewrite fmap_app. set_solver. }
  rewrite T2 in T3. apply fresh_below in Hc, Hi.
  destruct (row_add_user_ok (mkUser id chat name pass stpath ip city h) _ (my_rows _ V)) as [Vr Hv]; [done..|].
  exists id, chat, h, d3. split_and!.
  - unfold my_createUser, try_sql. unfold mbind at 1, Sql_bind at 1, query. rewrite Hq.
    rewrite (update_then _ _ _ _ _ E1), (insert_id_then d1) by done. rewrite T1. simpl t_last_insert_id.
    rewrite (update_then _ _ _ _ _ E2), (insert_id_then d2) by done. rewrite T2. simpl t_last_insert_id.
    by rewrite (update_then _ _ _ _ _ E3).
  - split; [done|by rewrite T3|rewrite T3; apply V].
  - done.
  - done.
  - by apply index_None.
  - by apply index_None.
  - unfold my_view. rewrite T3. exact Hv.
Qed.

Lemma my_createChat_new name uid d : my_valid d -> fits_column 512 name ->
  ~ chat_named name (my_view d) -> is_Some (db_users (my_view d) !! uid) ->
  exists chat d',
    my_createChat name uid d = (mkChat chat name, d') /\ my_valid d' /\
    0 < chat /\ db_chats (my_view d) !! chat = None /\ my_view d' = add_chat (mkChat chat name) uid (my_view d).
Proof.
  intros V Hfit Hn Hu. pose proof (chat_name_free _ _ V Hn) as Hq.
  assert (0 < uid) as Hpos by by destruct Hu as [u [Hu%(row_user_pos (my_rows _ V)) <-]%(row_user (my_rows _ V))].
  destruct (sql_insert_chat name d (my_healthy _ V) Hfit) as (chat & d1 & E1 & H1 & Hc & Hc0 & T1).
  destruct (sql_insert_chatuser uid chat d1 H1) as (d2 & E2 & H2 & T2).
  { rewrite T1. by apply index_is_Some in Hu. }
  { rewrite T1. simpl. rewrite fmap_app. set_solver. }
  rewrite T1 in T2. apply fresh_below in Hc.
  destruct (row_add_chat_ok (mkChat chat name) uid _ (my_rows _ V)) as [Vr Hv]; [done..|].
  exists chat, d2. split_and!.
  - unfold my_createChat, try_sql. unfold mbind at 1, Sql_bind at 1, query. rewrite Hq.
    rewrite (update_then _ _ _ _ _ E1), (insert_id_then d1) by done. rewrite T1. simpl t_last_insert_id.
    rewrite (proj2 (Z.ltb_lt 0 uid)) by done. by rewrite (update_then _ _ _ _ _ E2).
  - split; [done|by rewrite T2|rewrite T2; apply V].
  - done.
  - by apply index_None.
  - unfold my_view. rewrite T2. exact Hv.
Qed.

Lemma my_addUserToChat_ok c u d : my_valid d ->
  db_chats (my_view d) !! c_id c = Some c -> is_Some (db_users (my_view d) !! u_id u) ->
  my_valid (my_addUserToChat c u d) /\
  my_view (my_addUserToChat c u d) = set_db_members ({[(c_id c, u_id u)]} ∪ db_members (my_view d)) (my_view d).
Proof.
  intros V Hc Hu. unfold my_addUserToChat, try_sql, mbind, Sql_bind, query.
  destruct (selected_empty _ _ _ (sql_link (u_id u) (c_id c) d (my_healthy _ V))) as ([|res rows] & -> & Hr).
  - pose proof (proj1 Hr eq_refl) as Hno. rewrite filter_none in Hno.
    assert (mkChatuser (c_id c) (u_id u) ∉ t_chatuser (tables d)) as Hn by (intros Hin; by apply (Hno _ Hin)).
    destruct (row_add_link_ok (c_id c) (u_id u) _ (my_rows _ V) (mk_is_Some _ _ Hc) Hu Hn) as [Vr Hv].
    apply index_is_Some in Hu. apply mk_is_Some, index_is_Some in Hc.
    destruct (sql_insert_chatuser (u_id u) (c_id c) d (my_healthy _ V) Hu Hc) as (d' & E & H' & T).
    unfold update. rewrite E. simpl. split.
    + split; [done|by rewrite T|rewrite T; apply V].
    + unfold my_view. rewrite T. exact Hv.
  - simpl. split; [done|]. apply (row_link_there _ _ (rows_of (tables d))).
    destruct (filter _ (t_chatuser (tables d))) as [|cu l] eqn:E; [by destruct Hr as [_ Hr]; specialize (Hr eq_refl)|].
    assert (cu ∈ cu :: l) as Hcu by by left. rewrite <- E in Hcu. by apply list_elem_of_filter in Hcu as [-> ?].
Qed.

Lemma StronglySorted_snoc l (id : Z) : StronglySorted Z.lt l -> Forall (fun x => x < id) l -> StronglySorted Z.lt (l ++ [id]).
Proof.
  induction 1 as [|x l Hl IH Hx]; intros Hall; simpl; [by repeat constructor|].
  apply Forall_cons in Hall as [? Hall]. constructor; [by apply IH|].
  apply Forall_app. by repeat constructor.
Qed.

Lemma my_saveMessage_ok m d : my_valid d ->
  is_Some (db_users (my_view d) !! m_user_from m) -> is_Some (db_chats (my_view d) !! m_chat_to m) ->
  is_timestamp (m_ts m) -> fits_column 512 (m_message m) ->
  my_valid (my_saveMessage m d) /\ my_view (my_saveMessage m d) = set_db_log (db_log (my_view d) ++ [m]) (my_view d).
Proof.
  intros V Hu%index_is_Some Hc%index_is_Some Ht Hf. unfold my_saveMessage, try_sql, update.
  rewrite (wrap_small 32) by (unfold in_u, is_timestamp in *; lia).
  destruct (sql_insert_message m d (my_healthy _ V) Hu Hc Ht Hf) as (id & d' & -> & H' & Hid & T). simpl.
  assert (rows_of (tables d') = row_set_log ((t_message (tables d)).*2 ++ [m]) (rows_of (tables d))) as Hrows.
  { rewrite T. unfold rows_of, row_set_log. simpl. by rewrite fmap_app. }
  split; [split|].
  - done.
  - rewrite Hrows. by apply row_set_log_ok, V.
  - rewrite T. simpl. rewrite fmap_app. simpl. apply StronglySorted_snoc; [apply V|]. by apply Forall_fmap.
  - unfold my_view. by rewrite Hrows, row_set_log_view.
Qed.

Lemma my_updateUserHeartBit_ok u ts d : my_valid d -> is_timestamp ts ->
  my_valid (my_updateUserHeartBit u ts d) /\
  my_view (my_updateUserHeartBit u ts d) =
    set_db_users (alter (set_heartbit ts) (u_id u) (db_users (my_view d))) (my_view d).
Proof.
  intros V Ht. unfold my_updateUserHeartBit, try_sql, update.
  rewrite (wrap_small 32) by (unfold in_u, is_timestamp in *; lia).
  destruct (sql_update_heartbit ts (u_id u) d (my_healthy _ V) Ht) as (d' & -> & H' & T). simpl.
  set (f := fun v => if decide (u_id v = u_id u) then set_heartbit ts v else v) in *.
  assert (rows_of (tables d') = row_set_users (f <$> t_user (tables d)) (rows_of (tables d))) as Hrows by by rewrite T.
  assert (forall {A} (g : User -> A), (forall v, g (set_heartbit ts v) = g v) -> g <$> (f <$> t_user (tables d)) = g <$> t_user (tables d)) as Hsame.
  { intros A g Hg. rewrite <- list_fmap_compose. apply list_fmap_ext. intros _ v _. unfold f. simpl. case_decide; [apply Hg|done]. }
  split; [split|].
  - done.
  - rewrite Hrows. apply row_set_users_ok; [apply V|by apply Hsame..].
  - rewrite T. apply V.
  - unfold my_view. rewrite Hrows. unfold rows_view, row_set_users, set_db_users. simpl. f_equal.
    apply map_eq. intros i. rewrite lookup_alter.
    assert (forall v, u_id (f v) = u_id v) as Hf by (intros v; unfold f; by destruct (decide (u_id v = u_id u))).
    rewrite (index_fmap u_id f _ _ Hf).
    destruct (decide (u_id u = i)) as [<-|Hi];
      destruct (index u_id (t_user (tables d)) !! _) as [v|] eqn:Ev; simpl; try done;
      apply index_Some in Ev as [_ Ev]; unfold f; destruct (decide (u_id v = u_id u)); congruence.
Qed.

(** *** Messages *)

(** The rows with these keys are flagged as read. *)
Definition mark (ids : list Z) (p : Z * Message) : Z * Message :=
  if decide (p.1 ∈ ids) then (p.1, set_m_flags READ p.2) else p.

(** The same on this server: [q] is the row [p] afterwards. *)
Definition flagged (ids : list Z) (p q : Z * Message) : Prop :=
  if decide (p.1 ∈ ids)
  then exists now, is_timestamp now /\ q = (p.1, flag_row time_on_update now READ p.2) else q = p.

Lemma flag_row_twice b now now' m : flag_row b now' READ (flag_row b now READ m) = flag_row b now READ m.
Proof. unfold flag_row. destruct b, m as [[] ????]; done. Qed.

Lemma flagged_key ids p q : flagged ids p q -> q.1 = p.1.
Proof. unfold flagged. case_decide; [by intros (? & _ & ->)|by intros ->]. Qed.

Lemma flagged_mark ids p q : time_on_update = false -> flagged ids p q -> q = mark ids p.
Proof. unfold flagged, mark, flag_row. intros ->. case_decide; [by intros (? & _ & ->)|done]. Qed.

(** One more row updated before the others. *)
Lemma flagged_cons id now ids (p q : Z * Message) : is_timestamp now ->
  flagged ids (if decide (p.1 = id) then (p.1, flag_row time_on_update now READ p.2) else p) q ->
  flagged (id :: ids) p q.
Proof.
  intros Hnow. unfold flagged. destruct (decide (p.1 = id)) as [E|E]; simpl.
  - rewrite (decide_True (P := p.1 ∈ id :: ids)) by (rewrite E; by left).
    case_decide; [intros (n & _ & ->); rewrite flag_row_twice|intros ->]; by exists now.
  - destruct (decide (p.1 ∈ id :: ids)), (decide (p.1 ∈ ids)); set_solver.
Qed.

Lemma getMessages_fetch_flags rows sel ret d : healthy d -> result_outlives_statement = true ->
  Forall2 (fun res p => getUInt64 res "id" = Some p.1 /\ row_is_message res p.2) rows sel ->
  exists d' l, getMessages_fetch rows ret d = (ret ++ sel.*2, d') /\ healthy d' /\
    tables d' = set_messages l (tables d) /\ Forall2 (flagged sel.*1) (t_message (tables d)) l.
Proof.
  intros Hd Hr Hl. revert ret d Hd. induction Hl as [|res p rows sel [Hid Hm] Hl IH]; intros ret d Hd.
  - exists d, (t_message (tables d)). simpl. rewrite app_nil_r. split_and!; [done|done|by destruct (tables d)|].
    apply Forall_Forall2_diag, Forall_true. intros p. unfold flagged. by rewrite decide_False by apply not_elem_of_nil.
  - simpl. rewrite (message_of_row_ok _ _ Hm), Hr, Hid.
    destruct (sql_update_flags READ p.1 d Hd) as (now & d1 & E & H1 & Hnow & T1). simpl flags_code in E. rewrite E.
    destruct (IH (ret ++ [p.2]) d1 H1) as (d' & l & -> & H' & T' & Hf). exists d', l.
    split_and!; [by rewrite <- app_assoc|done|by rewrite T', T1|].
    rewrite T1 in Hf. simpl in Hf. rewrite Forall2_fmap_l in Hf. eapply Forall2_impl; [exact Hf|].
    intros q q' Hq. by eapply flagged_cons.
Qed.

(** Flagging the selected rows by key is flagging them in place. *)
Lemma mark_selected pred k (l : list (Z * Message)) : NoDup l.*1 ->
  (mark (take_opt k (List.filter (fun p => pred p.2) l)).*1 <$> l).*2 = mark_read pred k l.*2.
Proof.
  assert (forall ids (l : list (Z * Message)) i, i ∉ l.*1 -> mark (i :: ids) <$> l = mark ids <$> l) as Hskip.
  { clear. intros ids l i Hi. apply list_fmap_ext. intros _ p Hp%list_elem_of_lookup_2.
    assert (p.1 <> i) by (intros <-; by apply Hi, list_elem_of_fmap_2).
    unfold mark. destruct (decide (p.1 ∈ i :: ids)), (decide (p.1 ∈ ids)); set_solver. }
  assert (forall k i m (l : list (Z * Message)), i ∉ l.*1 ->
    mark (take_opt k (List.filter (fun p => pred p.2) l)).*1 (i, m) = (i, m)) as Hother.
  { clear. intros k i m l Hi. unfold mark. rewrite decide_False; [done|]. simpl.
    intros (q & E & Hq)%list_elem_of_fmap. apply Hi. rewrite E. apply list_elem_of_fmap_2.
    assert (q ∈ List.filter (fun p => pred p.2) l) as Hf.
    { destruct k as [k|]; simpl in Hq; [|done]. by apply elem_of_take in Hq as (j & Hj%list_elem_of_lookup_2 & _). }
    apply list_elem_of_In, filter_In in Hf as [Hf _]. by apply list_elem_of_In. }
  assert (forall (l : list (Z * Message)), mark [] <$> l = l) as Hnil.
  { clear. intros l. rewrite <- (list_fmap_id l) at 2. by apply list_fmap_ext. }
  revert k. induction l as [|[i m] l IH]; intros k Hd; [by destruct k as [[]|]|].
  apply NoDup_cons in Hd as [Hi Hd]. cbn [List.filter snd].
  destruct (decide (k = Some 0%nat)) as [->|Hk]; [by rewrite Hnil|].
  destruct (pred m) eqn:Hm.
  - assert (take_opt k ((i, m) :: List.filter (fun p => pred p.2) l) =
      (i, m) :: take_opt (Nat.pred <$> k) (List.filter (fun p => pred p.2) l)) as -> by by destruct k as [[]|].
    set (sel := take_opt _ _). change (((i, m) :: sel).*1) with (i :: sel.*1).
    rewrite fmap_cons, Hskip by done. rewrite fmap_cons. unfold sel. rewrite IH by done. unfold mark.
    rewrite decide_True by by left. destruct k as [[]|]; simpl; by rewrite ?Hm.
  - rewrite fmap_cons, Hother by done. rewrite !fmap_cons, IH by done. simpl.
    destruct k as [[]|]; simpl; by rewrite ?Hm.
Qed.

Lemma filter_snd (pred : Message -> bool) (l : list (Z * Message)) :
  (List.filter (fun p => pred p.2) l).*2 = List.filter pred l.*2.
Proof. induction l as [|[i m] l IH]; simpl; [done|]. destruct (pred m); csimpl; by rewrite IH. Qed.

Lemma sorted_nodup (l : list Z) : StronglySorted Z.lt l -> NoDup l.
Proof.
  induction 1 as [|x l Hl IH Hx]; constructor; [|done].
  intros Hin. rewrite Forall_forall in Hx. specialize (Hx x Hin). lia.
Qed.

(** A poll on any server: [m] in the log, [r] flagged, [m'] what is stored.
    Where the column follows updates, a row that changes gets a new time. *)
Definition stamped (on_update : bool) (m r m' : Message) : Prop :=
  if on_update && negb (bool_decide (m = r)) then exists now, is_timestamp now /\ m' = set_m_ts now r else m' = r.

Lemma flagged_stamped ids l l' : Forall2 (flagged ids) l l' ->
  Forall3 (stamped time_on_update) l.*2 (mark ids <$> l).*2 l'.*2.
Proof.
  induction 1 as [|[i m] q l l' Hq _ IH]; simpl; constructor; [|done]. clear IH.
  unfold flagged, mark in *. simpl in *. unfold stamped. case_decide; simpl.
  - destruct Hq as (now & Hnow & ->). unfold flag_row. simpl.
    assert (bool_decide (m = set_m_flags READ m) = bool_decide (m_flags m = READ)) as ->.
    { apply bool_decide_ext. destruct m. unfold set_m_flags. simpl. split; congruence. }
    destruct (_ && _); eauto.
  - rewrite bool_decide_true by done. rewrite andb_false_r. by rewrite Hq.
Qed.

Lemma stamped_kept l r l' : Forall3 (stamped false) l r l' -> l' = r.
Proof. induction 1 as [|???????? IH]; [done|]. by f_equal. Qed.

Lemma my_getMessages_stamps chatid opt d : my_valid d -> in_u 32 (o_ts opt) -> 0 <= o_max_count opt ->
  result_outlives_statement = true ->
  let pred := wanted chatid (o_ts opt) in
  (my_getMessages chatid opt d).1 = newest pred (limit opt) (db_log (my_view d)) /\
  my_valid (my_getMessages chatid opt d).2 /\
  exists log, my_view (my_getMessages chatid opt d).2 = set_db_log log (my_view d) /\
    Forall3 (stamped time_on_update) (db_log (my_view d))
      (rev (mark_read pred (limit opt) (rev (db_log (my_view d))))) log.
Proof.
  intros V Ht Hmax Hr pred. unfold my_getMessages. rewrite wrap_small by done.
  destruct (sql_messages_of_chat chatid opt d (my_healthy _ V) Ht Hmax (my_sorted _ V)) as (rows & -> & Hl).
  destruct (getMessages_fetch_flags rows _ [] d (my_healthy _ V) Hr Hl) as (d' & l & -> & H' & T & Hf). cbn [fst snd app].
  fold pred in Hf |- *. set (msgs := t_message (tables d)) in *.
  assert (NoDup (rev msgs).*1) as Hd.
  { rewrite fmap_rev, rev_alt. rewrite <- rev_alt, <- Permutation_rev. apply sorted_nodup, V. }
  assert (rows_of (tables d') = row_set_log l.*2 (rows_of (tables d))) as Hrows by by rewrite T.
  split_and!.
  - rewrite take_opt_fmap, filter_snd. unfold newest. by rewrite fmap_rev.
  - split; [done| |].
    + rewrite Hrows. by apply row_set_log_ok, V.
    + rewrite T. simpl. replace l.*1 with msgs.*1; [apply V|].
      clear -Hf. induction Hf as [|p q ps qs Hq _ IH]; [done|].
      rewrite !fmap_cons. f_equal; [by rewrite (flagged_key _ _ _ Hq)|exact IH].
  - exists l.*2. split; [unfold my_view; by rewrite Hrows, row_set_log_view|].
    pose proof (flagged_stamped _ _ _ Hf) as Hs. change (db_log (my_view d)) with msgs.*2.
    rewrite <- fmap_rev, <- mark_selected by done. by rewrite <- !fmap_rev, rev_involutive.
Qed.

Lemma my_getMessages_ok `{!StandardSql D} chatid opt d : my_valid d -> in_u 32 (o_ts opt) -> 0 <= o_max_count opt ->
  let pred := wanted chatid (o_ts opt) in
  (my_getMessages chatid opt d).1 = newest pred (limit opt) (db_log (my_view d)) /\
  my_valid (my_getMessages chatid opt d).2 /\
  my_view (my_getMessages chatid opt d).2 =
    set_db_log (rev (mark_read pred (limit opt) (rev (db_log (my_view d))))) (my_view d).
Proof.
  intros V Ht Hmax pred. destruct (my_getMessages_stamps chatid opt d V Ht Hmax results_stay) as (E & V' & log & Hv & Hs).
  rewrite time_kept in Hs. apply stamped_kept in Hs as ->. done.
Qed.

(** What the limit leaves of the log. *)
Definition latest (opt : get_msg_opt_t) (log : list Message) : list Message := take_opt (limit opt) (rev log).

Lemma my_selectMessages_ok pred opt d : my_valid d -> 0 <= o_max_count opt ->
  my_selectMessages pred opt d = List.filter pred (latest opt (db_log (my_view d))).
Proof.
  intros V Hmax. unfold my_selectMessages.
  destruct (sql_messages opt d (my_healthy _ V) Hmax (my_sorted _ V)) as (rows & -> & Hl). simpl.
  rewrite (fetch_ok row_is_message message_of_row rows _.*2 message_of_row_ok (proj2 (Forall2_fmap_r _ _ _ _) Hl)).
  unfold latest. by rewrite take_opt_fmap, fmap_rev.
Qed.

Lemma latest_drop pred opt log :
  exists old, List.filter pred (latest opt log) = newest pred (limit opt) (drop old log).
Proof.
  unfold latest, newest. destruct (limit opt) as [n|]; simpl; [|by exists 0%nat].
  exists (length log - n)%nat. rewrite firstn_rev, take_ge; [done|].
  pose proof (filter_length_le pred (rev (drop (length log - n) log))) as Hle.
  rewrite length_rev, length_drop in Hle. lia.
Qed.

Lemma latest_suffix opt log : exists old, rev (latest opt log) = drop old log.
Proof.
  unfold latest. destruct (limit opt) as [n|]; simpl.
  - exists (length log - n)%nat. by rewrite firstn_rev, rev_involutive.
  - exists 0%nat. by rewrite rev_involutive.
Qed.

(** The limit of the result changes nothing more. *)
Lemma latest_newest pred opt log : newest pred (limit opt) (rev (latest opt log)) = List.filter pred (latest opt log).
Proof.
  unfold newest. rewrite rev_involutive. unfold latest. destruct (limit opt) as [n|]; simpl; [|done].
  rewrite take_ge; [done|]. etrans; [apply filter_length_le|]. rewrite length_take. lia.
Qed.

Lemma my_getAllDistinctLocations_ok d : my_valid d ->
  StronglySorted str_lt (my_getAllDistinctLocations d) /\
  forall c, c ∈ my_getAllDistinctLocations d <-> map_Exists (fun _ u => u_city u = c) (db_users (my_view d)).
Proof.
  intros V. unfold my_getAllDistinctLocations.
  destruct (sql_cities d (my_healthy _ V)) as (l & Hl & Hs).
  pose proof (fetch_selected _ (fun res => getString res "city") _ _ (fun _ _ E => E) Hs) as Hp.
  destruct (set_inserts_ok (fun c => c) (fetch (fun res => getString res "city")
    (default [] (executeQuery SELECT_CITIES [] d))) [] (SSorted_nil _)) as [H1 H2].
  split; [done|]. intros c. rewrite H2, list_fmap_id, Hp, Hl. unfold map_Exists. rewrite list_elem_of_fmap. split.
  - intros [[]%not_elem_of_nil|(u & -> & Hu)]. exists (u_id u), u. split; [by apply (row_user (my_rows _ V))|done].
  - intros (i & u & Hu%(row_user (my_rows _ V)) & <-). right. exists u. split; [done|apply Hu].
Qed.

#[export] Instance MysqlLaws `{!StandardSql D} : ConnectionLaws D.
Proof.
  refine {| view := my_view; valid := my_valid;
    user_fits := fun name pass stpath ip city _ => Forall (fits_column 512) [name; pass; stpath; city] /\ fits_column 32 ip;
    chat_fits := fun name _ => fits_column 512 name; text_fits := fits_column 512;
    time_fits := is_timestamp; since_fits := in_u 32;
    valid_consistent := fun d V => rows_consistent (my_rows d V) |}.
  - exact my_updateUserHeartBit_ok.
  - exact my_createUser_taken.
  - intros name pass stpath ip city d V [Hf Hip]. by apply my_createUser_new.
  - exact my_createChat_taken.
  - exact my_createChat_new.
  - exact my_lookupUserById_ok.
  - intros name d u V. apply (selected_users (my_rows _ V) (fun u => u_name u = name)). by apply my_lookupUserByName_ok.
  - intros name d V. apply (selected_users_nodup (my_rows _ V) (fun u => u_name u = name)). by apply my_lookupUserByName_ok.
  - exact my_lookupChatById_ok.
  - intros name d c V. apply (selected_chats (my_rows _ V) (fun c => c_name c = name)). by apply my_lookupChatByName_ok.
  - intros name d V. apply (selected_chats_nodup (my_rows _ V) (fun c => c_name c = name)). by apply my_lookupChatByName_ok.
  - intros uid d c V. destruct (my_lookupChatsForUserId_ok uid d V) as (l & Hl & E). simpl. rewrite E.
    by apply (looked_up_chats (my_rows _ V) _ (fun i => my_lookupChatById_ok i d V)).
  - intros uid d V. destruct (my_lookupChatsForUserId_ok uid d V) as (l & Hl & E). simpl. rewrite E.
    rewrite (looked_up_ids (my_rows _ V) _ (fun i => my_lookupChatById_ok i d V) uid) by done.
    rewrite Hl. by apply (chat_ids_nodup (my_rows _ V)).
  - exact my_addUserToChat_ok.
  - exact my_saveMessage_ok.
  - exact my_getMessages_ok.
  - intros pred opt d V Hmax. simpl. rewrite my_selectMessages_ok by done. apply latest_drop.
  - exact my_getAllDistinctLocations_ok.
Defined.

#[export] Instance MysqlScan `{!StandardSql D} : Scan D.
Proof.
  refine {| scan := fun opt log => rev (latest opt log) |}.
  - exact latest_suffix.
  - intros pred opt d V Hmax. simpl. by rewrite my_selectMessages_ok, latest_newest.
Defined.

(** [createUser] is no transaction, although its comment says so: when the
    row of the user is refused, the chat that was inserted for it stays, no
    user is a member of it, and the call answers as for a name that is taken.
    The name is still free afterwards, so that every further attempt leaves
    another chat of the same name. *)
Theorem mysql_createUser_not_atomic name pass stpath ip city d :
  my_valid d -> ~ user_named name (my_view d) -> fits_column 512 name ->
  ~ (Forall (fits_column 512) [name; pass; stpath; city] /\ fits_column 32 ip) ->
  exists chat d', createUser name pass stpath ip city d = (User_empty, d') /\
    my_valid d' /\ 0 < chat /\ db_chats (my_view d) !! chat = None /\
    my_view d' = mkDB (db_users (my_view d)) (<[chat := mkChat chat name]> (db_chats (my_view d)))
      (db_members (my_view d)) (db_log (my_view d)) /\
    ~ user_named name (my_view d').
Proof.
  intros V Hn Hfit Hlong. pose proof (name_free _ _ V Hn) as Hq.
  destruct (sql_insert_chat name d (my_healthy _ V) Hfit) as (chat & d1 & E1 & H1 & Hc & Hc0 & T1).
  apply fresh_below in Hc.
  assert (my_view d1 = mkDB (db_users (my_view d)) (<[chat := mkChat chat name]> (db_chats (my_view d)))
    (db_members (my_view d)) (db_log (my_view d))) as Hv.
  { unfold my_view, rows_view. rewrite T1. simpl. by rewrite index_snoc. }
  exists chat, d1. split_and!; [| |done|by apply index_None|done|by rewrite Hv].
  - simpl. unfold my_createUser, try_sql. unfold mbind at 1, Sql_bind at 1, query. rewrite Hq.
    rewrite (update_then _ _ _ _ _ E1), (insert_id_then d1) by done.
    unfold mbind, Sql_bind, update. by rewrite sql_insert_user_long.
  - destruct V as [_ [] Vs]. split; [done| |by rewrite T1]. rewrite T1. split; simpl; try done.
    + by apply Forall_app_2, Forall_singleton.
    + rewrite fmap_app. by apply NoDup_snoc.
    + eapply Forall_impl; [done|]. simpl. set_solver.
Qed.
(** *** The calls, and what they do to the abstract database *)

(** Calls about known users and chats at times the columns can hold; the
    texts are arbitrary, those a column refuses included. *)
Inductive my_call (d : D) : D -> Prop :=
| mc_updateUserHeartBit u ts : is_timestamp ts -> my_call d (my_updateUserHeartBit u ts d)
| mc_createUser name pass stpath ip city : my_call d (my_createUser name pass stpath ip city d).2
| mc_createChat name uid : is_Some (db_users (my_view d) !! uid) -> my_call d (my_createChat name uid d).2
| mc_addUserToChat c u :
    db_chats (my_view d) !! c_id c = Some c -> is_Some (db_users (my_view d) !! u_id u) ->
    my_call d (my_addUserToChat c u d)
| mc_saveMessage m :
    is_Some (db_users (my_view d) !! m_user_from m) -> is_Some (db_chats (my_view d) !! m_chat_to m) ->
    is_timestamp (m_ts m) -> my_call d (my_saveMessage m d)
| mc_getMessages chatid opt : in_u 32 (o_ts opt) -> 0 <= o_max_count opt -> my_call d (my_getMessages chatid opt d).2.

(** A step of the abstract database, a poll that stamps what it flags, or
    the chat that a refused registration leaves behind. *)
Inductive my_db_step (d : DB) : DB -> Prop :=
| mds_step d' : db_step d d' -> my_db_step d d'
| mds_poll pred k log :
    time_on_update = true -> Forall3 (stamped true) (db_log d) (rev (mark_read pred k (rev (db_log d)))) log ->
    my_db_step d (set_db_log log d)
| mds_orphan c :
    0 < c_id c -> db_chats d !! c_id c = None -> ~ user_named (c_name c) d -> my_db_step d (add_chat c 0 d).

Lemma my_createUser_step name pass stpath ip city d : my_valid d ->
  let d' := (my_createUser name pass stpath ip city d).2 in
  my_valid d' /\ rtc my_db_step (my_view d) (my_view d').
Proof.
  intros V. destruct (user_named_dec name (my_view d)) as [Hn|Hn]; [by rewrite my_createUser_taken|].
  destruct (decide (fits_column 512 name)) as [Hfit|Hlong].
  - destruct (decide (Forall (fits_column 512) [name; pass; stpath; city] /\ fits_column 32 ip)) as [[Hf Hip]|Hl].
    + destruct (my_createUser_new name pass stpath ip city d V Hf Hip Hn)
        as (id & chat & h & d' & -> & V' & Hi & Hc & Hu & Hch & Hv). split; [done|]. simpl. rewrite Hv.
      apply rtc_once, mds_step. by constructor.
    + destruct (mysql_createUser_not_atomic name pass stpath ip city d V Hn Hfit Hl)
        as (chat & d' & E & V' & Hpos & Hc & Hv & _). simpl in E. rewrite E. split; [done|]. simpl.
      apply rtc_once. rewrite Hv.
      replace (mkDB _ _ _ _) with (add_chat (mkChat chat name) 0 (my_view d))
        by (unfold add_chat; simpl; f_equal; set_solver).
      by apply mds_orphan.
  - unfold my_createUser, try_sql, mbind, Sql_bind, query. rewrite (name_free _ _ V Hn).
    unfold update. by rewrite sql_insert_chat_long by (done || apply V).
Qed.

Lemma my_createChat_step name uid d : my_valid d -> is_Some (db_users (my_view d) !! uid) ->
  let d' := (my_createChat name uid d).2 in
  my_valid d' /\ rtc my_db_step (my_view d) (my_view d').
Proof.
  intros V Hu. destruct (chat_named_dec name (my_view d)) as [Hn|Hn]; [by rewrite my_createChat_taken|].
  destruct (decide (fits_column 512 name)) as [Hfit|Hlong].
  - destruct (my_createChat_new name uid d V Hfit Hn Hu) as (chat & d' & -> & V' & Hc & Hch & Hv).
    split; [done|]. simpl. rewrite Hv. apply rtc_once, mds_step. by constructor.
  - unfold my_createChat, try_sql, mbind, Sql_bind, query. rewrite (chat_name_free _ _ V Hn).
    unfold update. by rewrite sql_insert_chat_long by (done || apply V).
Qed.

Lemma my_saveMessage_long m d : healthy d -> is_timestamp (m_ts m) -> ~ fits_column 512 (m_message m) ->
  my_saveMessage m d = d.
Proof. intros Hd Ht Hl. unfold my_saveMessage, try_sql, update. by rewrite sql_insert_message_long. Qed.

(** If a result does not outlive its statement, a poll returns one message
    at most and flags none: the loop destroys the statement it reads. *)
Lemma unbuffered_poll chatid opt d : result_outlives_statement = false ->
  (length (my_getMessages chatid opt d).1 <= 1)%nat /\ (my_getMessages chatid opt d).2 = d.
Proof.
  intros Hr. unfold my_getMessages. destruct (executeQuery _ _ d) as [[|res rows]|]; simpl; try (split; [lia|done]).
  rewrite Hr. destruct (message_of_row res); simpl; split; first [lia|done].
Qed.

Lemma my_getMessages_step chatid opt d : my_valid d -> in_u 32 (o_ts opt) -> 0 <= o_max_count opt ->
  let d' := (my_getMessages chatid opt d).2 in
  my_valid d' /\ rtc my_db_step (my_view d) (my_view d').
Proof.
  intros V Ht Hmax. destruct result_outlives_statement eqn:Hr; simpl.
  - destruct (my_getMessages_stamps chatid opt d V Ht Hmax Hr) as (_ & V' & log & -> & Hs). split; [done|].
    apply rtc_once. destruct time_on_update eqn:Eu; [by eapply mds_poll|].
    apply stamped_kept in Hs as ->. apply mds_step. constructor.
  - by rewrite (proj2 (unbuffered_poll chatid opt d Hr)).
Qed.

(** Every method is at most one step. *)
Lemma my_call_step d d' : my_valid d -> my_call d d' -> my_valid d' /\ rtc my_db_step (my_view d) (my_view d').
Proof.
  intros V [u ts Ht|name pass stpath ip city|name uid Hu|c u Hc Hu|m Hu Hc Ht|chatid opt Ht Hm].
  - destruct (my_updateUserHeartBit_ok u ts d V Ht) as [? ->]. split; [done|]. apply rtc_once, mds_step. constructor.
  - by apply my_createUser_step.
  - by apply my_createChat_step.
  - destruct (my_addUserToChat_ok c u d V Hc Hu) as [? ->]. split; [done|]. apply rtc_once, mds_step. by constructor.
  - destruct (decide (fits_column 512 (m_message m))) as [Hf|Hf].
    + destruct (my_saveMessage_ok m d V Hu Hc Ht Hf) as [? ->]. split; [done|]. apply rtc_once, mds_step. constructor.
    + by rewrite my_saveMessage_long by (done || apply V).
  - by apply my_getMessages_step.
Qed.

(** The steps of this storage that are not steps of the abstract database
    need a column that follows updates or a value that is too long. *)
Lemma my_db_step_standard d d' : time_on_update = false -> my_db_step d d' ->
  db_step d d' \/ exists c, 0 < c_id c /\ d' = add_chat c 0 d.
Proof. intros Hu [d2 Hs|pred k log Hu' _|c Hc _ _]; [by left|congruence|right; by exists c]. Qed.

(** ** Properties *)

(** C7: call by call, whatever texts the workers store, and whatever the
    installation does about results and updates: the database the tables
    stand for moves by the steps of the abstract database only and stays
    consistent, but for two things: a registration with a value that is too
    long leaves a chat, and a poll on a server that stamps updated rows
    changes the times of the messages it flags. *)
Theorem mysql_refines d d' :
  my_valid d -> rtc my_call d d' ->
  my_valid d' /\ rtc my_db_step (my_view d) (my_view d') /\ consistent (my_view d').
Proof.
  intros V Hr. cut (my_valid d' /\ rtc my_db_step (my_view d) (my_view d')).
  { intros [V' Hs]. split_and!; [done|done|]. by apply rows_consistent, my_rows. }
  induction Hr as [d|d1 d2 d3 Hc _ IH]; [done|].
  destruct (my_call_step _ _ V Hc) as [V2 Hs]. destruct (IH V2) as [V3 Hs3]. split; [done|]. by etrans.
Qed.
End Laws.
