(* ===== verification/SqlTables.v ===== *)
(** * A connector that keeps the laws of Mysql

    The tables themselves as the state of a server, with the statements the
    storage sends executed on them: the witness that [SqlLaws] can hold.
    The text of a statement is recognised first, its effect follows. *)

From S2P Require Import Prelude CxxString Common Database Store Rows Mysql.

Inductive statement :=
| UpdateHeartbit | NameTaken | InsertChat | InsertUser | InsertChatuser | ChatNameTaken
| UserByName | UserById | UserByCity | ChatByName | ChatById
| ChatsOfUser | UsersOfChat | Link | InsertMessage | UpdateFlags
| Cities | NamesOfCity | LastInsertId
| MessagesOfChat (limit : option nat) | Messages (limit : option nat).

(** The clause [LIMIT n] at the end of a text. *)
Definition read_limit (clause : str) : option nat :=
  match clause with [] => None | _ => Some (Z.to_nat (digits_val 10 (drop 7 clause))) end.

Definition texts : list (str * statement) :=
  [(UPDATE_HEARTBIT, UpdateHeartbit); (SELECT_NAME_TAKEN, NameTaken); (INSERT_CHAT, InsertChat);
   (INSERT_USER, InsertUser); (INSERT_CHATUSER, InsertChatuser); (SELECT_CHAT_NAME_TAKEN, ChatNameTaken);
   (SELECT_USER "name", UserByName); (SELECT_USER "id", UserById); (SELECT_USER "city", UserByCity);
   (SELECT_CHAT "name", ChatByName); (SELECT_CHAT "id", ChatById); (SELECT_CHATS_OF_USER, ChatsOfUser);
   (SELECT_USERS_OF_CHAT, UsersOfChat); (SELECT_LINK, Link); (INSERT_MESSAGE, InsertMessage);
   (UPDATE_FLAGS, UpdateFlags); (SELECT_CITIES, Cities); (SELECT_NAMES_OF_CITY, NamesOfCity);
   ("SELECT LAST_INSERT_ID() AS id", LastInsertId)].

Definition statement_of (sql : str) : option statement :=
  if starts SELECT_MESSAGES_OF_CHAT sql
  then Some (MessagesOfChat (read_limit (drop (length SELECT_MESSAGES_OF_CHAT) sql)))
  else if starts SELECT_MESSAGES sql then Some (Messages (read_limit (drop (length SELECT_MESSAGES) sql)))
  else snd <$> List.find (fun p => bool_decide (p.1 = sql)) texts.

(** ** Rows: columns by name *)

Definition table_row : Type := list (str * (Z + str)).

Definition column (r : table_row) (name : str) : option (Z + str) :=
  snd <$> List.find (fun p => bool_decide (p.1 = name)) r.
Definition column_z (r : table_row) (name : str) : option Z :=
  match column r name with Some (inl z) => Some z | _ => None end.
Definition column_s (r : table_row) (name : str) : option str :=
  match column r name with Some (inr s) => Some s | _ => None end.

Definition user_row (u : User) : table_row :=
  [("id", inl (u_id u)); ("self_chat_id", inl (u_self_chat_id u)); ("name", inr (u_name u));
   ("password", inr (u_password u)); ("stpath", inr (u_stpath u)); ("ip", inr (u_ip u));
   ("city", inr (u_city u)); ("unix_heartbit", inl (u_heartbit u))].
Definition chat_row (c : Chat) : table_row := [("id", inl (c_id c)); ("name", inr (c_name c))].
Definition link_row (cu : Chatuser) : table_row :=
  [("user_id", inl (cu_uid cu)); ("chat_id", inl (cu_chatid cu))].
Definition message_row (p : Z * Message) : table_row :=
  [("id", inl p.1); ("user_id", inl (m_user_from p.2)); ("chat_id", inl (m_chat_to p.2));
   ("flags", inl (flags_code (m_flags p.2))); ("unix_time", inl (m_ts p.2)); ("text", inr (m_message p.2))].

(** ** Execution *)

Definition answer (st : statement) (ps : list sql_param) (t : Tables) : option (list table_row) :=
  match st, ps with
  | NameTaken, [PString name] => Some (user_row <$> filter (fun u => u_name u = name) (t_user t))
  | ChatNameTaken, [PString name] => Some (chat_row <$> filter (fun c => c_name c = name) (t_chat t))
  | UserByName, [PString name] => Some (user_row <$> filter (fun u => u_name u = name) (t_user t))
  | UserById, [PUInt64 id] => Some (user_row <$> filter (fun u => u_id u = id) (t_user t))
  | UserByCity, [PString city] => Some (user_row <$> filter (fun u => u_city u = city) (t_user t))
  | ChatByName, [PString name] => Some (chat_row <$> filter (fun c => c_name c = name) (t_chat t))
  | ChatById, [PUInt64 id] => Some (chat_row <$> filter (fun c => c_id c = id) (t_chat t))
  | ChatsOfUser, [PUInt64 uid] => Some (link_row <$> filter (fun cu => cu_uid cu = uid) (t_chatuser t))
  | UsersOfChat, [PUInt64 chat] => Some (link_row <$> filter (fun cu => cu_chatid cu = chat) (t_chatuser t))
  | Link, [PUInt64 uid; PUInt64 chat] => Some (link_row <$> filter (fun cu => cu = mkChatuser chat uid) (t_chatuser t))
  | MessagesOfChat k, [PUInt64 chat; PUInt ts] =>
      Some (message_row <$> take_opt k (List.filter (fun p => wanted chat ts p.2) (rev (t_message t))))
  | Messages k, [] => Some (message_row <$> take_opt k (rev (t_message t)))
  | Cities, [] => Some ((fun c => [("city" : str, inr c)]) <$> remove_dups (u_city <$> t_user t))
  | NamesOfCity, [PString city] => Some (user_row <$> filter (fun u => u_city u = city) (t_user t))
  | LastInsertId, [] => Some [[("id" : str, inl (t_last_insert_id t))]]
  | _, _ => None
  end.

(** A key above those in use. *)
Definition next_id (ids : list Z) : Z := 1 + foldr Z.max 0 ids.

(** The time [NOW()] is fixed. *)
Definition the_time : Z := 1000000000.

#[export] Instance is_timestamp_dec ts : Decision (is_timestamp ts).
Proof. unfold is_timestamp. apply _. Defined.

Definition execute (st : statement) (ps : list sql_param) (t : Tables) : option unit * Tables :=
  match st, ps with
  | InsertChat, [PString name] =>
      if decide (fits_column 512 name) then (Some tt, insert_chat (mkChat (next_id (c_id <$> t_chat t)) name) t)
      else (None, t)
  | InsertUser, [PUInt64 chat; PString name; PString pass; PString stpath; PString ip; PString city] =>
      if decide (Forall (fits_column 512) [name; pass; stpath; city] /\ fits_column 32 ip)
      then (Some tt, insert_user (mkUser (next_id (u_id <$> t_user t)) chat name pass stpath ip city the_time) t)
      else (None, t)
  | InsertChatuser, [PUInt64 uid; PUInt64 chat] =>
      if decide (uid ∈ u_id <$> t_user t /\ chat ∈ c_id <$> t_chat t)
      then (Some tt, insert_chatuser (mkChatuser chat uid) t) else (None, t)
  | InsertMessage, [PUInt64 from; PUInt64 to; PUInt flags; PUInt ts; PString text] =>
      if decide (from ∈ u_id <$> t_user t /\ to ∈ c_id <$> t_chat t /\ is_timestamp ts /\ fits_column 512 text)
      then (Some tt, insert_message (next_id (t_message t).*1) (mkMessage (flags_of_code flags) from to ts text) t)
      else (None, t)
  | UpdateHeartbit, [PUInt ts; PUInt64 id] =>
      if decide (is_timestamp ts)
      then (Some tt, update_users (fun u => if decide (u_id u = id) then set_heartbit ts u else u) t)
      else (None, t)
  | UpdateFlags, [PUInt flags; PUInt64 id] =>
      (Some tt, update_messages
        (fun p => if decide (p.1 = id) then (p.1, set_m_flags (flags_of_code flags) p.2) else p) t)
  | _, _ => (None, t)
  end.

Definition no_tables : Tables := mkTables [] [] [] [] 0.

#[export] Instance TablesConnector : SqlConnector Tables := {|
  connect := fun _ _ _ => Some no_tables;
  setSchema := fun _ t => (Some tt, t);
  ResultRow := table_row;
  getUInt64 := column_z;
  getUInt := column_z;
  getString := column_s;
  executeQuery := fun sql ps t => st ← statement_of sql; answer st ps t;
  executeUpdate := fun sql ps t => match statement_of sql with Some st => execute st ps t | None => (None, t) end;
  result_outlives_statement := true |}.

(** ** The laws *)

Lemma next_id_above ids : Forall (fun i => i < next_id ids) ids /\ 0 < next_id ids.
Proof.
  unfold next_id. induction ids as [|i ids [IH ?]]; simpl; [split; [constructor|lia]|].
  split; [|lia]. constructor; [lia|]. eapply Forall_impl; [exact IH|]. simpl. lia.
Qed.

Lemma read_limit_clause opt : 0 <= o_max_count opt -> read_limit (limit_clause opt) = limit opt.
Proof.
  intros Hmax. unfold limit_clause, limit. case_decide; [done|].
  rewrite to_string_nonneg by done.
  change (read_limit (" LIMIT " ++ dec (o_max_count opt))) with (Some (Z.to_nat (digits_val 10 (dec (o_max_count opt))))).
  by rewrite dec_val.
Qed.

Lemma statement_of_messages opt : 0 <= o_max_count opt ->
  statement_of (SELECT_MESSAGES_OF_CHAT ++ limit_clause opt) = Some (MessagesOfChat (limit opt)) /\
  statement_of (SELECT_MESSAGES ++ limit_clause opt) = Some (Messages (limit opt)).
Proof.
  intros Hmax. unfold statement_of. rewrite !starts_app, !drop_app_length, !read_limit_clause by done. done.
Qed.

Lemma selects_map {A} (row_is : table_row -> A -> Prop) (f : A -> table_row) l :
  (forall a, row_is (f a) a) -> selects (H := TablesConnector) row_is (Some (f <$> l)) l.
Proof.
  intros Hf. exists l. split; [done|]. exists (f <$> l). split; [done|]. apply Forall2_fmap_l. by apply Forall_Forall2_diag, Forall_true.
Qed.

Lemma selects_map_in_order {A} (row_is : table_row -> A -> Prop) (f : A -> table_row) l :
  (forall a, row_is (f a) a) -> selects_in_order (H := TablesConnector) row_is (Some (f <$> l)) l.
Proof.
  intros Hf. exists (f <$> l). split; [done|]. apply Forall2_fmap_l. by apply Forall_Forall2_diag, Forall_true.
Qed.

Lemma flags_of_code_ok f : flags_of_code (flags_code f) = f.
Proof. by destruct f. Qed.

#[export] Instance TablesLaws : SqlLaws Tables.
Proof.
  refine {| tables := fun t => t; healthy := fun _ => True; time_on_update := false |}.
  - intros name t _ Hf. destruct (next_id_above (c_id <$> t_chat t)) as [Hi Hp].
    eexists _, _. split_and!; [|done|by apply Forall_fmap in Hi|exact Hp|reflexivity].
    simpl. by rewrite decide_True.
  - intros name t _ Hf. simpl. by rewrite decide_False.
  - intros chat name pass stpath ip city t _ Hf Hip. destruct (next_id_above (u_id <$> t_user t)) as [Hi Hp].
    eexists _, the_time, _. split_and!; [|done|by apply Forall_fmap in Hi|exact Hp|reflexivity].
    cbn [executeUpdate TablesConnector]. change (statement_of INSERT_USER) with (Some InsertUser).
    unfold execute. by rewrite decide_True.
  - intros chat name pass stpath ip city t _ Hf.
    cbn [executeUpdate TablesConnector]. change (statement_of INSERT_USER) with (Some InsertUser).
    unfold execute. by rewrite decide_False.
  - intros uid chat t _ Hu Hc. eexists. split_and!; [|done|reflexivity]. simpl. by rewrite decide_True.
  - intros m t _ Hu Hc Ht Hf. destruct (next_id_above (t_message t).*1) as [Hi Hp].
    eexists _, _. split_and!; [|done|by apply Forall_fmap in Hi|reflexivity].
    cbn [executeUpdate TablesConnector]. change (statement_of INSERT_MESSAGE) with (Some InsertMessage).
    unfold execute. rewrite decide_True by done. rewrite flags_of_code_ok. by destruct m.
  - intros from to flags ts text t _ Hf.
    cbn [executeUpdate TablesConnector]. change (statement_of INSERT_MESSAGE) with (Some InsertMessage).
    unfold execute. rewrite decide_False; [done|]. tauto.
  - intros ts id t _ Ht. eexists. split_and!; [|done|reflexivity]. simpl. by rewrite decide_True.
  - intros f id t _. exists the_time. eexists. split_and!; [|done|by unfold is_timestamp, the_time|reflexivity].
    cbn [executeUpdate TablesConnector]. change (statement_of UPDATE_FLAGS) with (Some UpdateFlags).
    unfold execute. by rewrite flags_of_code_ok.
  - intros t _. by apply (selects_map _ (fun id => [("id" : str, inl id)])).
  - intros name t _. by apply (selects_map _ user_row).
  - intros name t _. by apply (selects_map _ chat_row).
  - intros name t _. by apply (selects_map _ user_row).
  - intros id t _. by apply (selects_map _ user_row).
  - intros name t _. by apply (selects_map _ chat_row).
  - intros id t _. by apply (selects_map _ chat_row).
  - intros uid t _. by apply (selects_map _ link_row).
  - intros chat t _. by apply (selects_map _ link_row).
  - intros uid chat t _. by apply (selects_map _ link_row).
  - intros chat opt t _ _ Hmax _. cbn [executeQuery TablesConnector].
    rewrite (proj1 (statement_of_messages opt Hmax)). by apply (selects_map_in_order _ message_row).
  - intros opt t _ Hmax _. cbn [executeQuery TablesConnector].
    rewrite (proj2 (statement_of_messages opt Hmax)). by apply (selects_map_in_order _ message_row).
  - intros t _. exists (remove_dups (u_city <$> t_user t)). split; [intros c; apply elem_of_remove_dups|].
    by apply (selects_map _ (fun c => [("city" : str, inr c)])).
  - intros city t _. by apply (selects_map _ user_row).
Defined.

#[export] Instance TablesStandard : StandardSql Tables.
Proof. by split. Qed.

Lemma no_tables_valid : my_valid no_tables.
Proof. split; [done|apply rows_ok_empty|constructor]. Qed.
