(* ===== verification/Location.v ===== *)
(** * server/src/location_client.cpp: where does a new user live

    A registration asks a service on the network for the city of the peer's
    address.  The client resolves and connects, writes a request, reads
    until the service closes, and takes the city out of the JSON text in
    the answer.  The network is a parameter; [read] is a loop with fuel, one
    unit for each call of [read_some], and [None] when the loop has not
    ended within it.

    [get_document_value] writes a value of the document and parses the text
    again; the text of a number with a fraction, which the writer computes
    with Grisu2 (rapidjson/internal/dtoa.h), is a parameter. *)

From S2P Require Import Prelude CxxString Json.

(** ** Parameters *)

Class DoubleText := double_text : bool -> SpecFloat.spec_float -> Z -> str.

(** What resolving and connecting come to: [boost::asio::connect] throws
    when no address accepts. *)
Inductive connect_outcome := Unresolved | Unreachable (what : str) | Connected.

(** One call of [read_some]. *)
Inductive read_result := Received (bytes : str) | Eof | Failed.

(** [reads c request i] is the [i]-th [read_some] after the request was
    written (errors of the write are ignored); on a socket that is not
    connected every call fails. *)
Class LocationNetwork := {
  reaches : str -> str -> connect_outcome;
  reads : connect_outcome -> str -> nat -> read_result }.

Definition api_key_ : str := "2787668b805fa7cb7e6109a1b21299da3fded7e7".
Definition api_host_ : str := "dadata.ru".
Definition api_port_ : str := "80".

(** ** The document *)

Section document.
Context `{DoubleText}.

(** [value.Accept(writer)]: the text of a value. *)
Fixpoint serialized (v : json) : str :=
  match v with
  | JNull => "null"
  | JBool b => if b then "true" else "false"
  | JNum z => to_string z
  | JDouble minus d p => double_text minus d p
  | JString s => WriteString s
  | JArray l => "[" ++ commas serialized true l ++ "]"
  | JObject l => "{" ++ commas (fun '(k, v) => WriteString k ++ ":" ++ serialized v) true l ++ "}"
  end.

(** A document whose parse failed is the null value. *)
Definition Document (text : str) : json := default JNull (parse_document text).

(** [HasMember], then [document[key]]. *)
Definition HasMember (document : json) (key : str) : cxx bool :=
  m ← FindMember document key; mret (bool_decide (is_Some m)).
Definition member (document : json) (key : str) : cxx json :=
  m ← FindMember document key; match m with Some v => Ret v | None => AssertFail end.

(** [find] returns [npos] when there is no brace, and [substr] throws. *)
Definition parse_response (response : str) : cxx json :=
  match find response "{\q" 0 with
  | None => Throw out_of_range
  | Some start =>
      raw_json ← substr response start (length response - start);
      mret (Document (c_str raw_json))
  end.

Definition get_string_value (document : json) (key : str) : cxx str :=
  has ← HasMember document (c_str key);
  if negb has then mret []
  else
    v ← member document (c_str key);
    if negb (IsString v) then mret []
    else v ← member document (c_str key); GetString v.

(** The same object is source and target at every call: the result is the
    document after the call. *)
Definition get_document_value (document : json) (key : str) : cxx json :=
  has ← HasMember document (c_str key);
  if negb has then mret document
  else
    v ← member document (c_str key);
    if negb (IsObject v) then mret document
    else v ← member document (c_str key); mret (Document (c_str (serialized v))).

(** The part of [get_city_by_ip] after the answer was read. *)
Definition city_of_response (response : str) : cxx str :=
  if decide (response = []) then mret []
  else
    document ← parse_response response;
    document ← get_document_value document "location";
    document ← get_document_value document "data";
    get_string_value document "city".

(** The city is a C string. *)
Lemma get_string_no_nul document key city : get_string_value document key = Ret city -> no_nul city.
Proof.
  unfold get_string_value, member. destruct (HasMember document (c_str key)) as [has| |]; try discriminate. cbn.
  destruct has; cbn; [|intros [= <-]; constructor].
  destruct (FindMember document (c_str key)) as [[v|]| |]; try discriminate. cbn.
  destruct v; cbn; intros [= <-]; first [apply c_str_no_nul|constructor].
Qed.

(** ** The connection *)

Definition make_request (ip api_key : str) : str :=
  "GET " ++ "/suggestions/api/4_1/rs/iplocate/address?ip=" ++ ip ++ " HTTP/1.0\r\n" ++
  "Host: " ++ "suggestions.dadata.ru" ++ "\r\n" ++
  "Authorization: Token " ++ api_key ++ "\r\n" ++
  "Accept: application/json" ++ "\r\n" ++
  "Connection: keep-alive\r\n\r\n".

(** The [for (;;)] loop: only the end of the stream leaves it; any other
    error is logged and the read is tried again. *)
Fixpoint read (fuel : nat) (next : nat -> read_result) (result : str) : option str :=
  match fuel with
  | O => None
  | S fuel =>
      match next 0%nat with
      | Eof => Some result
      | Failed => read fuel (fun i => next (S i)) result
      | Received bytes => read fuel (fun i => next (S i)) (result ++ bytes)
      end
  end.

Context `{LocationNetwork}.

(** A host name that does not resolve is logged, and the call goes on. *)
Definition connect_to_api : cxx connect_outcome :=
  match reaches api_host_ api_port_ with
  | Unreachable what => Throw (runtime_error what)
  | c => Ret c
  end.

Definition get_city_by_ip (fuel : nat) (ip : str) : option (cxx str) :=
  match connect_to_api with
  | Ret c =>
      response ← read fuel (reads c (make_request ip api_key_)) [];
      mret (city_of_response response)
  | Throw e => Some (Throw e)
  | AssertFail => Some AssertFail
  end.

Lemma city_no_nul fuel ip city : get_city_by_ip fuel ip = Some (Ret city) -> no_nul city.
Proof.
  unfold get_city_by_ip. destruct connect_to_api as [c| |]; try discriminate.
  destruct (read fuel _ []) as [response|]; try discriminate. intros [= E]. unfold city_of_response in E.
  case_decide; [injection E as <-; constructor|].
  destruct (parse_response response) as [d1| |]; try discriminate. cbn in E.
  destruct (get_document_value d1 "location") as [d2| |]; try discriminate. cbn in E.
  destruct (get_document_value d2 "data") as [d3| |]; try discriminate. cbn in E.
  by eapply get_string_no_nul.
Qed.
End document.

(** ** The text of a value without fractions is what the writer writes *)

Lemma commas_ext {A} (f g : A -> str) first l :
  Forall (fun x => f x = g x) l -> commas f first l = commas g first l.
Proof. intros Hl. revert first. induction Hl as [|x l Hx Hl IH]; intros first; cbn [commas]; by rewrite ?Hx, ?IH. Qed.

Lemma serialized_print `{DoubleText} v : printable v -> serialized v = print v.
Proof.
  induction v as [| | | | |l IH|l IH] using json_nested_ind; intros Hp; try done.
  - apply printable_array in Hp. cbn [serialized print]. do 2 f_equal. apply commas_ext.
    exact (Forall_apply _ _ _ IH Hp).
  - apply printable_object in Hp. cbn [serialized print]. do 2 f_equal. apply commas_ext.
    eapply Forall_impl; [exact (Forall_apply _ _ _ IH Hp)|]. intros [k v] E. simpl in E. by rewrite E.
Qed.

Lemma serialized_again `{DoubleText} v : printable v -> Document (c_str (serialized v)) = v.
Proof.
  intros Hp. rewrite serialized_print, c_str_id by (done || by apply print_no_nul).
  unfold Document. by rewrite parse_printed.
Qed.

(** ** Reading *)

(** The bytes of the first [n] reads. *)
Fixpoint received (n : nat) (next : nat -> read_result) : str :=
  match n with
  | O => []
  | S n => (match next 0%nat with Received bytes => bytes | _ => [] end) ++ received n (fun i => next (S i))
  end.

(** The loop ends at the first end of the stream, and only there. *)
Lemma read_eof n next fuel result :
  next n = Eof -> (forall i, (i < n)%nat -> next i <> Eof) -> (n < fuel)%nat ->
  read fuel next result = Some (result ++ received n next).
Proof.
  revert n next result. induction fuel as [|fuel IH]; intros n next result Hn Hb Hf; [lia|].
  destruct n as [|n]; simpl; [by rewrite Hn, app_nil_r|].
  pose proof (Hb 0%nat ltac:(lia)) as H0.
  assert (forall r, read fuel (fun i => next (S i)) r = Some (r ++ received n (fun i => next (S i)))) as Hr.
  { intros r. apply IH; [done| |lia]. intros i Hi. apply Hb. lia. }
  destruct (next 0%nat); [by rewrite Hr, app_assoc|done|by rewrite Hr].
Qed.

Lemma read_never fuel next result : (forall i, next i <> Eof) -> read fuel next result = None.
Proof.
  revert next result. induction fuel as [|fuel IH]; intros next result Hn; [done|].
  simpl. destruct (next 0%nat) eqn:E; [|by destruct (Hn 0%nat)|]; apply IH; intros i; apply Hn.
Qed.

(** ** Properties *)

Lemma printable_found v key w : printable v -> FindMember v key = Ret (Some w) -> printable w.
Proof.
  destruct v as [| | | | | |l]; try done. rewrite printable_object. simpl. intros Hp E.
  injection E as E. destruct (List.find _ l) as [[k x]|] eqn:F; [|done]. injection E as <-.
  apply find_some in F as [F _]. rewrite Forall_forall in Hp. apply (Hp (k, x)). by apply list_elem_of_In.
Qed.

(** Going down into a member that is an object. *)
Lemma descend `{DoubleText} v key w :
  printable v -> FindMember v key = Ret (Some w) -> IsObject w = true -> get_document_value v key = Ret w.
Proof.
  intros Hp Hw Ho. pose proof (printable_found v key w Hp Hw) as Hpw.
  assert (FindMember v (c_str key) = Ret (Some w)) as Hw'.
  { rewrite <- Hw. unfold FindMember. by rewrite c_str_idem. }
  unfold get_document_value, HasMember, member. rewrite Hw'. simpl. rewrite Ho. simpl.
  by rewrite serialized_again.
Qed.

(** The first brace and quote of an answer whose head has no brace. *)
Lemma parse_response_found head text :
  ("{"%char ∉ head) -> starts "{\q" text = true ->
  parse_response (head ++ text) = Ret (Document (c_str text)).
Proof.
  intros Hh [t ->]%starts_spec. unfold parse_response. rewrite find_0.
  change ("{\q" ++ t) with (("{"%char :: [QUOTE]) ++ t). rewrite search_skip by done.
  unfold substr. rewrite (proj2 (Nat.leb_le _ _)) by (rewrite length_app; lia).
  simpl. unfold sub. rewrite drop_app_length, take_ge; [done|]. rewrite length_app. simpl. lia.
Qed.

(** C32: when the service answers, behind a head without braces, with an object
    whose member "location" has a member "data" with the string "city", the
    call gives that city, however the answer was cut into reads: the loop
    ends with the stream. *)
Theorem city_found `{DoubleText} `{LocationNetwork} ip c n head v loc data city :
  connect_to_api = Ret c ->
  let next := reads c (make_request ip api_key_) in
  next n = Eof -> (forall i, (i < n)%nat -> next i <> Eof) -> received n next = head ++ print v ->
  ("{"%char ∉ head) -> printable v ->
  FindMember v "location" = Ret (Some loc) -> IsObject loc = true ->
  FindMember loc "data" = Ret (Some data) -> IsObject data = true ->
  FindMember data "city" = Ret (Some (JString city)) ->
  forall fuel, (n < fuel)%nat -> get_city_by_ip fuel ip = Some (Ret (c_str city)).
Proof.
  intros Hc next Hn Hb Hr Hh Hp Hl Ol Hd Od Hcity fuel Hf.
  unfold get_city_by_ip. rewrite Hc. fold next. rewrite (read_eof n) by done. simpl. rewrite Hr.
  assert (starts "{\q" (print v) = true) as Hs.
  { destruct v as [| | | | | |[|[k w] l]]; done. }
  assert (Document (c_str (print v)) = v) as HD.
  { unfold Document. rewrite c_str_id by by apply print_no_nul. by rewrite parse_printed. }
  unfold city_of_response. rewrite decide_False.
  - rewrite parse_response_found, HD by done. simpl.
    rewrite (descend v "location" loc) by done. simpl.
    rewrite (descend loc "data" data (printable_found _ _ _ Hp Hl)) by done. simpl.
    unfold get_string_value, HasMember, member.
    assert (FindMember data (c_str "city") = Ret (Some (JString city))) as -> by done. done.
  - destruct head; [|done]. destruct (print_head v Hp) as (x & s & -> & _). done.
Qed.

(** Without a connection that the service closes in the end the call never
    returns: a host name that does not resolve is logged and the read on the
    socket, which is not open, fails again and again.  The thread that
    serves the registration is lost. *)
Theorem city_never_returns `{DoubleText} `{LocationNetwork} ip c :
  connect_to_api = Ret c -> (forall i, reads c (make_request ip api_key_) i <> Eof) ->
  forall fuel, get_city_by_ip fuel ip = None.
Proof. intros Hc Hr fuel. unfold get_city_by_ip. rewrite Hc. simpl. by rewrite read_never. Qed.

(** An answer with no JSON object in it throws [out_of_range], and one whose
    JSON is broken fails an assertion, which stops the server. *)
Theorem answer_without_json `{DoubleText} response :
  (~ occurs "{\q" response -> response <> [] -> city_of_response response = Throw out_of_range) /\
  (forall head text, response = head ++ text -> ("{"%char ∉ head) -> starts "{\q" text = true ->
     parse_document text = None -> city_of_response response = AssertFail).
Proof.
  split.
  - intros Hno Hne. unfold city_of_response, parse_response. rewrite decide_False by done.
    rewrite find_0. apply search_None in Hno. by rewrite Hno.
  - intros head text -> Hh Hs Hp. unfold city_of_response. rewrite decide_False.
    + rewrite parse_response_found by done. simpl. unfold Document.
      assert (parse_document (c_str text) = None) as ->.
      { revert Hp. unfold parse_document, Parse. by rewrite c_str_idem. }
      done.
    + apply starts_spec in Hs as [t ->]. by destruct head.
Qed.

(** ** Concrete networks *)

#[local] Instance no_fractions : DoubleText := fun _ _ _ => "0.5".

Definition sample_answer : json :=
  JObject [("location", JObject [("value", JString "Moscow"); ("data", JObject [("country", JString "Russia"); ("city", JString "Moscow")])])].

#[local] Instance sample_network : LocationNetwork := {|
  reaches := fun _ _ => Connected;
  reads := fun _ _ i =>
    match i with
    | 0%nat => Received "HTTP/1.0 200 OK\r\nContent-Type: application/json\r\n\r\n"
    | 1%nat => Received (print sample_answer)
    | _ => Eof
    end |}.

Lemma city_found_witness : get_city_by_ip 3 "188.32.1.1" = Some (Ret "Moscow").
Proof.
  apply (city_found "188.32.1.1" Connected 2 "HTTP/1.0 200 OK\r\nContent-Type: application/json\r\n\r\n" sample_answer
    (JObject [("value", JString "Moscow"); ("data", JObject [("country", JString "Russia"); ("city", JString "Moscow")])])
    (JObject [("country", JString "Russia"); ("city", JString "Moscow")]) "Moscow");
    try done; try (vm_compute; reflexivity).
  - intros i Hi. by destruct i as [|[|i]]; [..|lia].
  - vm_compute. set_solver.
Defined.

Definition unresolved_network : LocationNetwork := {|
  reaches := fun _ _ => Unresolved; reads := fun _ _ _ => Failed |}.

Lemma city_never_returns_witness : get_city_by_ip (H0 := unresolved_network) 100 "188.32.1.1" = None.
Proof. apply (city_never_returns (H0 := unresolved_network) "188.32.1.1" Unresolved); [reflexivity|intros; discriminate]. Defined.

(** A service that knows nothing of the address answers null; the client
    then looks for the city in the document it has and finds none. *)
Example unknown_address : city_of_response "HTTP/1.0 200 OK\r\n\r\n{\qlocation\q: null}" = Ret "".
Proof. vm_compute. reflexivity. Qed.
