(* ===== verification/ApiClient.v ===== *)
(** * server/src/apiclient.cpp: one connection of a client

    [ApiClient] as a machine: the members of the object, and one definition
    per method or completion handler.  A handler gives the new state and the
    calls it makes on the socket, the timer and the task queue, in order; it
    can fail an assertion of the JSON library or let an exception out.
    [pass_len] is the option of that name, [get_city_by_ip] the location
    client, [now] the result of [time(NULL)], [peer] the remote address.
    Session identifiers and times are only logged: the handlers leave them
    out. *)

From S2P Require Import Prelude CxxString Utils Json Common LockQueue Database Store ApiUtils Gzip Http ClientUtils Worker.

(** [get_city_by_ip] of server/src/location_client.cpp, which asks a
    service on the network: the city, an exception or a failed assertion,
    or [None] when the call does not return.  [Location] is the code; its
    function is an instance ([repository_lookup] of [Typing]). *)
Class LocationClient := get_city_by_ip : str -> option (cxx str).

(** ** Session identifiers

    They are put in the log only.  [thread_id] and [count] are the texts of
    the thread's id and of the clock, [rand] the results of the calls of
    [rand()]: ten, one for each character, and two. *)

Definition hex_char (d : Z) : ascii :=
  if d <? 10 then digit d else ascii_of_N (Z.to_N (87 + d)).
Fixpoint hex_go (fuel : nat) (n : Z) (acc : str) : str :=
  match fuel with
  | O => acc
  | S fuel => let acc := hex_char (n mod 16) :: acc in if n / 16 =? 0 then acc else hex_go fuel (n / 16) acc
  end.
(** [std::hex << z] of an [int] shows it as unsigned: eight digits at most. *)
Definition hex_int (z : Z) : str := hex_go 8 (u32 z) [].

Definition generate_session_id `{Crc32} (rand : list Z) (thread_id local_addr count : str) : str :=
  let ss := thread_id ++ local_addr ++ count ++ gen_random rand 10 in
  let hex := hex_int (crc32 ss) in
  let hex_str := zip_with (fun r c => if bool_decide (r mod 2 <> 0) && isalpha c then toupper c else c) (drop 10 rand) hex in
  hex_str ++ gen_random (drop (10 + length hex) rand) 2.

Lemma hex_go_length fuel n acc : (length (hex_go fuel n acc) <= fuel + length acc)%nat.
Proof.
  revert n acc. induction fuel as [|fuel IH]; intros n acc; simpl; [lia|].
  destruct (n / 16 =? 0); simpl; [lia|]. etrans; [apply IH|]. simpl. lia.
Qed.

(** An identifier has ten characters at most. *)
Lemma session_id_length `{Crc32} rand thread_id local_addr count :
  (length (generate_session_id rand thread_id local_addr count) <= 10)%nat.
Proof.
  assert (forall r n, (length (gen_random r n) <= n)%nat) as Hr
    by (intros r n; unfold gen_random; rewrite length_fmap, length_take; lia).
  unfold generate_session_id, hex_int. rewrite length_app, length_zip_with.
  set (n := u32 (crc32 _)). pose proof (hex_go_length 8 n []) as Hh. change (length (@nil ascii)) with 0%nat in Hh.
  pose proof (Hr (drop (10 + length (hex_go 8 n [])) rand) 2%nat). lia.
Qed.

(** ** Reading a request: [parse_meta] *)

Definition max_timestamp (msgs : list ApiMessage) : Z :=
  foldl (fun ts msg => if ts <? a_ts msg then a_ts msg else ts) 0 msgs.

(** [inl] is the error text; [inr] what the caller takes from the iterator. *)
Definition find_required_string_param (doc : json) (pattern : str) : cxx (str + str) :=
  it ← FindMember doc pattern;
  match it with
  | None => mret (inl ("bad request, " ++ pattern ++ " required"))
  | Some value =>
      if negb (IsString value) then mret (inl ("bad request, " ++ pattern ++ " is not string"))
      else
        s ← GetString value;
        if decide (s = []) then mret (inl ("bad request, " ++ pattern ++ " is empty"))
        else mret (inr s)
  end.

Definition find_required_uint_param (doc : json) (pattern : str) : cxx (str + Z) :=
  it ← FindMember doc pattern;
  match it with
  | None => mret (inl ("bad request, " ++ pattern ++ " required"))
  | Some value =>
      if negb (IsUint value) then mret (inl ("bad request, " ++ pattern ++ " is not uint"))
      else z ← GetUint value; mret (inr z)
  end.

(** [if (!fatal_error.empty()) return fatal_error;] after a search. *)
Definition required {A} (r : cxx (str + A)) (p : Params) (k : A -> cxx (str * Params)) : cxx (str * Params) :=
  r ← r;
  match r with
  | inl fatal_error => mret (fatal_error, p)
  | inr value => k value
  end.

Section ApiClient.
Context (pass_len : Z).

(** The result is the error text, empty for success, and the parameters as
    the function leaves them: those of the fields it got to. *)
Definition parse_meta (p : Params) (json : str) (command : cmd_t) : cxx (str * Params) :=
  match parse_document json with
  | None => mret ("bad request, invalid json" : str, p)
  | Some document =>
    required (find_required_string_param document "password") p (fun s =>
    let p := set_p_password s p in
    if decide (command = USER_CREATE \/ command = USER_LOGIN) then
      required (find_required_string_param document "user") p (fun s =>
      let p := set_p_user s p in
      if decide (command = USER_CREATE) then
        let min_len := if pass_len <? 0 then 8 else pass_len in
        if negb (password_check (p_password p) min_len) then mret ("weak password" : str, p)
        else mret ("" : str, p)
      else mret ("" : str, p))
    else
    required (find_required_uint_param document "uid") p (fun z =>
    let p := set_p_uid z p in
    if decide (command = CHAT_CREATE \/ command = CHAT_ADDUSER) then
      required (find_required_string_param document "chatname") p (fun s =>
      let p := set_p_chat_name s p in
      if decide (command = CHAT_ADDUSER) then
        required (find_required_string_param document "adduser") p (fun s =>
        mret ("" : str, set_p_chat_adduser s p))
      else mret ("" : str, p))
    else if decide (command = IDLE) then
      r ← find_required_uint_param document "heartbit";
      mret ("" : str, match r with inr z => set_p_ts z p | inl _ => p end)
    else if decide (command = USER_HISTORY \/ command = USER_STATUS) then
      required (find_required_string_param document "user") p (fun s =>
      let p := set_p_user s p in
      r ← find_required_uint_param document "count";
      mret ("" : str, match r with inr z => set_p_count z p | inl _ => p end))
    else if decide (command = MESSAGE_SEND \/ command = MESSAGE_SEND_CHAT) then
      required (find_required_string_param document "message") p (fun s =>
      let p := set_p_message s p in
      if decide (command = MESSAGE_SEND) then
        required (find_required_string_param document "to") p (fun s =>
        mret ("" : str, set_p_to_user s p))
      else
        required (find_required_string_param document "chatname") p (fun s =>
        mret ("" : str, set_p_chat_name s p)))
    else if decide (command = CHAT_WITH_LOCATION) then
      required (find_required_string_param document "city") p (fun s =>
      mret ("" : str, set_p_city s p))
    else mret ("" : str, p)))
  end.

(** ** Responses *)

Definition http_code_to_string (code : Z) : str :=
  if decide (code = 200) then "200 OK"
  else if decide (code = 400) then "400 Bad Request"
  else if decide (code = 403) then "403 Forbidden"
  else if decide (code = 404) then "404 Not Found"
  else if decide (code = 409) then "409 Conflict"
  else if decide (code = 429) then "429 Too Many Requests"
  else if decide (code = 500) then "500 Internal Server Error"
  else if decide (code = 503) then "503 Service Unavailable"
  else "200 OK".

Definition build_api_error_rsponse (http_code : Z) (api_code : ApiStatusCode) (desc : str) : cxx str :=
  api_response ← make_api_error api_code desc;
  mret ("HTTP/1.1 " ++ http_code_to_string http_code ++ "\r\n" ++
        "Content-Length: " ++ to_string (Z.of_nat (length api_response)) ++ "\r\n" ++
        "Access-Control-Allow-Origin: *\r\n" ++
        "Content-Type: application/json\r\n" ++
        "\r\n" ++ api_response).

Definition buildApiOkResponse (body : str) : str :=
  "HTTP/1.1 200 OK\r\n" ++
  "Content-Length: " ++ to_string (Z.of_nat (length body)) ++ "\r\n" ++
  "Content-Type: application/json\r\n" ++
  "Access-Control-Allow-Origin: *\r\n" ++
  "\r\n" ++ body.

(** ** The object *)

(** server/src/request.hpp *)
Record RequestDetails := mkDetails {
  params : Params;
  command : cmd_t;
  remote_address : str;
  resource : str;
  method : str }.

Record ApiClient := mkApiClient {
  m_HttpCode : Z;
  m_NewestMsgTimestamp : Z;
  m_LastClientPing : Z;
  m_RequestDetails : RequestDetails }.

(** The members after the constructor; the command is not initialised. *)
Definition ApiClient_init (command : cmd_t) : ApiClient :=
  mkApiClient 200 0 0 (mkDetails Params_default command [] [] []).

Definition set_code (code : Z) (c : ApiClient) : ApiClient :=
  mkApiClient code (m_NewestMsgTimestamp c) (m_LastClientPing c) (m_RequestDetails c).
Definition set_newest (ts : Z) (c : ApiClient) : ApiClient :=
  mkApiClient (m_HttpCode c) ts (m_LastClientPing c) (m_RequestDetails c).
Definition set_ping (ts : Z) (c : ApiClient) : ApiClient :=
  mkApiClient (m_HttpCode c) (m_NewestMsgTimestamp c) ts (m_RequestDetails c).
Definition set_details (d : RequestDetails) (c : ApiClient) : ApiClient :=
  mkApiClient (m_HttpCode c) (m_NewestMsgTimestamp c) (m_LastClientPing c) d.
Definition set_params (p : Params) (c : ApiClient) : ApiClient :=
  let d := m_RequestDetails c in
  set_details (mkDetails p (command d) (remote_address d) (resource d) (method d)) c.
Definition set_command (cmd : cmd_t) (c : ApiClient) : ApiClient :=
  let d := m_RequestDetails c in
  set_details (mkDetails (params d) cmd (remote_address d) (resource d) (method d)) c.

(** The handler given to [asyncRequest] with a response. *)
Inductive on_written := to_responseToClientWroteHandler | to_idle (max_ts : Z) | to_nothing.

(** The calls of the object: on its socket, its timer, the task queue. *)
Inductive action :=
| asyncHandshakeAsServer
| asyncRequest (response : str) (handler : on_written)
| readCmd                       (* [asyncResponse] with [requestFromClientReadHandler] *)
| putTask (task : Task)
| async_wait                    (* the timer, with [timerWaitTaskResultHandler] *)
| cancel_timer
| cancel_client.

#[local] Abbreviation result := (cxx (ApiClient * list action)).

Definition serveSslClient (c : ApiClient) : result := mret (c, [asyncHandshakeAsServer]).

Definition processClientRequest (error : option conn_error) (c : ApiClient) : result :=
  match error with
  | Some _ => mret (c, [])      (* through [requestFromClientReadHandler] *)
  | None => mret (c, [readCmd])
  end.

Definition sendOkResponse (body : str) (c : ApiClient) : result :=
  mret (c, [asyncRequest (buildApiOkResponse body) to_responseToClientWroteHandler]).

Definition sendMessages (now : Z) (msgs : list ApiMessage) (c : ApiClient) : result :=
  body ← ok_body_msgs msgs now;
  mret (c, [asyncRequest (buildApiOkResponse body) to_responseToClientWroteHandler]).

Definition sendMessagesToIdleConn (now : Z) (msgs : list ApiMessage) (c : ApiClient) : result :=
  let max_ts := max_timestamp msgs in
  body ← ok_body_msgs msgs now;
  mret (c, [asyncRequest (buildApiOkResponse body) (to_idle max_ts)]).

Definition sendOkResponseAndStartIdle (now : Z) (c : ApiClient) : result :=
  body ← ok_body_cmd (command (m_RequestDetails c)) now;
  mret (c, [asyncRequest (buildApiOkResponse body) to_nothing; async_wait]).

Definition sendErrorResponse (http_code : Z) (api_code : ApiStatusCode) (desc : str) (c : ApiClient) : result :=
  let c := set_code http_code c in
  response ← build_api_error_rsponse (m_HttpCode c) api_code desc;
  mret (c, [asyncRequest response to_responseToClientWroteHandler]).

(** The completion of a write. *)
Definition responseToClientWroteHandler (error : option conn_error) (c : ApiClient) : result :=
  mret (set_code 200 c, [readCmd]).

Definition wrote (handler : on_written) (error : option conn_error) (c : ApiClient) : result :=
  match handler with
  | to_responseToClientWroteHandler => responseToClientWroteHandler error c
  | to_idle max_ts =>
      match error with
      | Some _ => mret (c, [cancel_timer; cancel_client])
      | None => mret (set_newest max_ts c, [])
      end
  | to_nothing => mret (c, [])
  end.

Definition Task_of (d : RequestDetails) : Task := mkTask false (command d) (params d) [].

Definition handler_impl (req : HttpReply) (cmd : cmd_t) (c : ApiClient) : result :=
  let content_type := getHeader req "Content-Type" in
  if starts_with content_type "text/plain" || starts_with content_type "application/json" then
    '(err, p) ← parse_meta (params (m_RequestDetails c)) (_body req) cmd;
    let c := set_params p c in
    if decide (err <> []) then sendErrorResponse 400 ERR_BAD_REQUEST err c
    else
      let task := Task_of (m_RequestDetails c) in
      let task := if decide (cmd = USER_CREATE)
                  then mkTask (t_ping task) (t_cmd task) (t_request task) "localhost:3306" else task in
      mret (c, [putTask task])
  else sendErrorResponse 400 ERR_BAD_REQUEST "not allowed content type" c.

Definition v1_handler (req : HttpReply) (cmd : cmd_t) (c : ApiClient) : result :=
  handler_impl req cmd (set_command cmd c).

Definition timerWaitTaskResultHandler (aborted : bool) (now : Z) (c : ApiClient) : result :=
  if aborted then mret (c, [])
  else
    let p := params (m_RequestDetails c) in
    let c := if u64 (p_ts p) <? m_NewestMsgTimestamp c
             then set_params (set_p_ts (i64 (m_NewestMsgTimestamp c)) p) c else c in
    let task := Task_of (m_RequestDetails c) in
    let ping := 5 <? u64 (now - m_LastClientPing c) in
    let c := if ping then set_ping (u64 now) c else c in
    mret (c, [putTask (mkTask ping (t_cmd task) (t_request task) (t_storage task)); async_wait]).

(** The chain of comparisons with the resource, [/v1/idle] apart. *)
Definition route (resource : str) : option cmd_t :=
  if decide (resource = "/v1/message/send") then Some MESSAGE_SEND
  else if decide (resource = "/v1/message/sendchat") then Some MESSAGE_SEND_CHAT
  else if decide (resource = "/v1/user/login") then Some USER_LOGIN
  else if decide (resource = "/v1/user/create") then Some USER_CREATE
  else if decide (resource = "/v1/chat/create") then Some CHAT_CREATE
  else if decide (resource = "/v1/user/history") then Some USER_HISTORY
  else if decide (resource = "/v1/group/history") then Some CHAT_HISTORY
  else if decide (resource = "/v1/user/status") then Some USER_STATUS
  else if decide (resource = "/v1/chat/adduser") then Some CHAT_ADDUSER
  else if decide (resource = "/v1/locations") then Some GET_LOCATIONS
  else if decide (resource = "/v1/locations/users") then Some CHAT_WITH_LOCATION
  else None.

Context `{LocationClient}.

Definition requestFromClientReadHandler (peer : str) (now : Z) (error : option conn_error) (reply : HttpReply)
    (c : ApiClient) : option result :=
  match error with
  | Some _ => Some (mret (c, []))
  | None =>
      let d := m_RequestDetails c in
      let c := set_details (mkDetails (params d) (command d) peer (lowercased (_resource reply)) (_method reply)) c in
      let r := resource (m_RequestDetails c) in
      if decide (r = "/v1/idle") then Some (
        let c := set_command IDLE c in
        '(err, p) ← parse_meta (params (m_RequestDetails c)) (_body reply) IDLE;
        let c := set_params p c in
        if decide (err <> []) then sendErrorResponse 400 ERR_BAD_REQUEST err c
        else sendOkResponseAndStartIdle now c)
      else
        match route r with
        | Some USER_CREATE =>
            found ← get_city_by_ip peer;
            Some (city ← found;
              v1_handler reply USER_CREATE (set_params (set_p_city city (params (m_RequestDetails c))) c))
        | Some cmd => Some (v1_handler reply cmd c)
        | None => Some (sendErrorResponse 404 ERR_NOT_FOUND "bad request" c)
        end
  end.

(** The calls a worker makes on the object. *)
Definition worker_calls (now : Z) (call : client_call) (c : ApiClient) : result :=
  match call with
  | Worker.sendErrorResponse http_code api_code desc => sendErrorResponse http_code api_code desc c
  | Worker.sendOkResponse body => sendOkResponse body c
  | Worker.sendMessages msgs => sendMessages now msgs c
  | Worker.sendMessagesToIdleConn msgs => sendMessagesToIdleConn now msgs c
  end.
End ApiClient.

(** ** The router serves the resources of the client's commands *)

(** The commands the server has a route for, [IDLE] apart. *)
Definition routed (cmd : cmd_t) : bool :=
  match cmd with IDLE | CHAT_STATUS | MESSAGE_RECENT | CMD_LAST => false | _ => true end.

(** The router inverts [cmd2string]: a resource is given to the handler
    of a command exactly when it is the resource the client uses for that
    command; only the chat status and the recent messages have no route. *)
Theorem route_cmd2string resource cmd :
  route resource = Some cmd <-> resource = cmd2string cmd /\ routed cmd = true.
Proof.
  split.
  - unfold route. repeat case_decide; intros [= <-]; by split.
  - intros [-> Hr]. by destruct cmd.
Qed.

(** ** [parse_meta] stops the server exactly on a text that is no object *)

Lemma find_string_object l pattern : exists r, find_required_string_param (JObject l) pattern = Ret r.
Proof.
  unfold find_required_string_param, FindMember. cbn [mbind cxx_bind].
  destruct (snd <$> _) as [v|]; [|by eexists]. destruct v; try by eexists.
  cbn. case_decide; by eexists.
Qed.

Lemma find_uint_object l pattern : exists r, find_required_uint_param (JObject l) pattern = Ret r.
Proof.
  unfold find_required_uint_param, FindMember. cbn [mbind cxx_bind].
  destruct (snd <$> _) as [v|]; [|by eexists]. destruct v; try by eexists. unfold GetUint.
  destruct (IsUint (JNum z)) eqn:E; cbn [negb mbind cxx_bind]; by eexists.
Qed.

Definition returns {A} (m : cxx A) : Prop := exists a, m = Ret a.

Lemma required_returns {A} (r : cxx (str + A)) p k :
  returns r -> (forall a, returns (k a)) -> returns (required r p k).
Proof. intros [x ->] Hk. unfold required. cbn [mbind cxx_bind]. destruct x; [by eexists|apply Hk]. Qed.

Lemma bind_returns {A B} (m : cxx A) (k : A -> cxx B) :
  returns m -> (forall a, returns (k a)) -> returns (m ≫= k).
Proof. intros [x ->] Hk. apply Hk. Qed.

#[local] Hint Resolve find_string_object find_uint_object required_returns bind_returns : geochat.

Lemma parse_meta_object pass_len p l json cmd :
  parse_document json = Some (JObject l) -> returns (parse_meta pass_len p json cmd).
Proof.
  intros E. unfold parse_meta. rewrite E. cbv zeta. repeat
    (first [ apply required_returns; [apply find_string_object || apply find_uint_object|intros]
           | apply bind_returns; [apply find_uint_object|intros] | case_decide | case_match ]);
    try by eexists.
Qed.

(** A JSON text whose value is not an object, such as a number. *)
Definition no_object (json : str) : Prop := exists v, parse_document json = Some v /\ IsObject v = false.

Lemma parse_meta_cases pass_len p json cmd :
  (no_object json /\ parse_meta pass_len p json cmd = AssertFail) \/
  (~ no_object json /\ exists r, parse_meta pass_len p json cmd = Ret r).
Proof.
  destruct (parse_document json) as [v|] eqn:E; [destruct (IsObject v) eqn:O|].
  - right. split; [intros (v' & E' & O'); congruence|]. destruct v; try done. by eapply parse_meta_object.
  - left. split; [by exists v|]. unfold parse_meta. rewrite E. by destruct v.
  - right. split; [intros (v' & E' & _); congruence|]. unfold parse_meta. rewrite E. by eexists.
Qed.

(** C34: reading the body of a request fails an assertion, which stops the
    server, exactly when the body is a JSON text whose value is not an
    object; it gives the parameters or an error text exactly when the body is
    anything else, and never throws.  The password plays no part in it. *)
Theorem parse_meta_aborts pass_len p json cmd :
  (parse_meta pass_len p json cmd = AssertFail <-> no_object json) /\
  ((exists r, parse_meta pass_len p json cmd = Ret r) <-> ~ no_object json).
Proof. destruct (parse_meta_cases pass_len p json cmd) as [[H E]|[H [r E]]]; rewrite E; naive_solver. Qed.

Lemma parse_meta_stops pass_len p v cmd :
  printable v -> IsObject v = false -> parse_meta pass_len p (print v) cmd = AssertFail.
Proof. intros Hv Ho. unfold parse_meta. rewrite parse_printed by done. by destruct v. Qed.

(** ** What the client sends is what the server reads *)

(** The requests of client/src/client.cpp. *)
Inductive api_call :=
| Register (name pass : str) | LoginAs (name pass : str)
| Send (from : Z) (to msg pass : str) | SendChat (from : Z) (group msg pass : str)
| History_of (from : Z) (name : str) (count : Z) (pass : str)
| Status_of (from : Z) (name : str) (count : Z) (pass : str)
| NewChat (from : Z) (group pass : str) | AddUser (from : Z) (group user pass : str)
| Locations (from : Z) (ip pass : str) | UsersFrom (from : Z) (city pass : str)
| StartIdle (from ts : Z) (pass : str).

Definition call_cmd (a : api_call) : cmd_t :=
  match a with
  | Register _ _ => USER_CREATE | LoginAs _ _ => USER_LOGIN
  | Send _ _ _ _ => MESSAGE_SEND | SendChat _ _ _ _ => MESSAGE_SEND_CHAT
  | History_of _ _ _ _ => USER_HISTORY | Status_of _ _ _ _ => USER_STATUS
  | NewChat _ _ _ => CHAT_CREATE | AddUser _ _ _ _ => CHAT_ADDUSER
  | Locations _ _ _ => GET_LOCATIONS | UsersFrom _ _ _ => CHAT_WITH_LOCATION
  | StartIdle _ _ _ => IDLE
  end.

Definition call_body (a : api_call) : cxx str :=
  match a with
  | Register name pass | LoginAs name pass => build_user_pass_body name pass
  | Send from to msg pass => build_user_send_msg_body from 0 to msg pass
  | SendChat from group msg pass => build_groups_msg_body from group "" msg pass
  | History_of from name count pass | Status_of from name count pass =>
      build_user_history_msg_body from name count pass
  | NewChat from group pass => build_groups_msg_body from group "" "" pass
  | AddUser from group user pass => build_groups_msg_body from group user "" pass
  | Locations from ip pass => build_location_body from ip pass
  | UsersFrom from city pass => build_location_body from city pass
  | StartIdle from ts pass => build_user_send_msg_body from ts "" "" pass
  end.

(** What the server knows of the call afterwards. *)
Definition call_params (a : api_call) (p : Params) : Params :=
  match a with
  | Register name pass | LoginAs name pass => set_p_user name (set_p_password pass p)
  | Send from to msg pass => set_p_to_user to (set_p_message msg (set_p_uid from (set_p_password pass p)))
  | SendChat from group msg pass => set_p_chat_name group (set_p_message msg (set_p_uid from (set_p_password pass p)))
  | History_of from name count pass | Status_of from name count pass =>
      set_p_count count (set_p_user name (set_p_uid from (set_p_password pass p)))
  | NewChat from group pass => set_p_chat_name group (set_p_uid from (set_p_password pass p))
  | AddUser from group user pass =>
      set_p_chat_adduser user (set_p_chat_name group (set_p_uid from (set_p_password pass p)))
  | Locations from ip pass => set_p_uid from (set_p_password pass p)
  | UsersFrom from city pass => set_p_city city (set_p_uid from (set_p_password pass p))
  | StartIdle from ts pass =>
      (if decide (ts <> 0) then set_p_ts ts else fun p => p) (set_p_uid from (set_p_password pass p))
  end.

(** Texts the server accepts, and numbers of 32 bits: [IsUint]. *)
Definition good_text (s : str) : Prop := s <> [] /\ no_nul s.

Definition good_call (pass_len : Z) (a : api_call) : Prop :=
  match a with
  | Register name pass =>
      good_text name /\ good_text pass /\ password_check pass (if pass_len <? 0 then 8 else pass_len) = true
  | LoginAs name pass => good_text name /\ good_text pass
  | Send from to msg pass => in_u 32 from /\ good_text to /\ good_text msg /\ good_text pass
  | SendChat from group msg pass => in_u 32 from /\ good_text group /\ good_text msg /\ good_text pass
  | History_of from name count pass | Status_of from name count pass =>
      in_u 32 from /\ good_text name /\ in_u 32 count /\ good_text pass
  | NewChat from group pass => in_u 32 from /\ good_text group /\ good_text pass
  | AddUser from group user pass => in_u 32 from /\ good_text group /\ good_text user /\ good_text pass
  | Locations from ip pass => in_u 32 from /\ no_nul ip /\ good_text pass
  | UsersFrom from city pass => in_u 32 from /\ good_text city /\ good_text pass
  | StartIdle from ts pass => in_u 32 from /\ in_u 32 ts /\ good_text pass
  end.

(** The JSON object of a call. *)
Definition call_fields (a : api_call) : list (str * json) :=
  match a with
  | Register name pass | LoginAs name pass => [("user", JString name); ("password", JString pass)]
  | Send from to msg pass =>
      [("uid", JNum from); ("to", JString to); ("message", JString msg); ("password", JString pass)]
  | SendChat from group msg pass =>
      [("uid", JNum from); ("chatname", JString group); ("message", JString msg); ("password", JString pass)]
  | History_of from name count pass | Status_of from name count pass =>
      [("uid", JNum from); ("user", JString name); ("count", JNum count); ("password", JString pass)]
  | NewChat from group pass => [("uid", JNum from); ("chatname", JString group); ("password", JString pass)]
  | AddUser from group user pass =>
      [("uid", JNum from); ("chatname", JString group); ("adduser", JString user); ("password", JString pass)]
  | Locations from city pass | UsersFrom from city pass =>
      [("uid", JNum from); ("city", JString city); ("password", JString pass)]
  | StartIdle from ts pass =>
      [("uid", JNum from)] ++ (if decide (ts <> 0) then [("heartbit", JNum ts)] else []) ++
      [("to", JString ""); ("message", JString ""); ("password", JString pass)]
  end.

Lemma in_u32_64 z : in_u 32 z -> in_u 64 z.
Proof. unfold in_u. lia. Qed.

#[local] Hint Resolve in_u32_64 in_u64_nonneg printable_num : geochat.

Lemma call_fields_printable pass_len a : good_call pass_len a -> printable (JObject (call_fields a)).
Proof.
  intros Ha. apply printable_object.
  destruct a; cbn [good_call call_fields] in *; destruct_and?; repeat case_decide; cbn [app];
    repeat (apply Forall_cons_2; [first [exact I | by apply printable_num, in_u32_64]|]); apply Forall_nil_2.
Qed.

Lemma call_body_ok pass_len a : good_call pass_len a -> call_body a = Ret (print (JObject (call_fields a))).
Proof.
  intros Ha. pose proof (call_fields_printable _ _ Ha) as Hp.
  destruct a; cbn [good_call call_fields call_body] in *; destruct_and?;
    repeat match goal with H : good_text _ |- _ => destruct H end;
    apply write_is; try done; repeat rewrite c_str_id by (done || apply Forall_nil_2);
    repeat case_decide; try done; cbn [dom_calls app flat_map];
    repeat rewrite (proj2 (Z.ltb_ge _ 0)) by eauto with geochat; repeat rewrite c_str_id by (done || apply Forall_nil_2); done.
Qed.

Lemma get_string l name s :
  FindMember (JObject l) name = Ret (Some (JString s)) -> good_text s ->
  find_required_string_param (JObject l) name = Ret (inr s).
Proof.
  intros E [Hn Hz]. unfold find_required_string_param. rewrite E. cbn. rewrite c_str_id by done.
  by rewrite decide_False.
Qed.

Lemma get_uint l name z :
  FindMember (JObject l) name = Ret (Some (JNum z)) -> in_u 32 z ->
  find_required_uint_param (JObject l) name = Ret (inr z).
Proof.
  intros E Hz. unfold find_required_uint_param. rewrite E. cbn [mbind cxx_bind].
  assert (IsUint (JNum z) = true) as Hu by by apply bool_decide_eq_true_2.
  unfold GetUint. by rewrite Hu.
Qed.

Lemma required_inr {A} (a : A) p k : required (Ret (inr a)) p k = k a.
Proof. done. Qed.

(** One step of [parse_meta] on the fields of a call. *)
Ltac read_field :=
  first
  [ match goal with |- context [find_required_string_param (JObject ?l) ?n] =>
      erewrite (get_string l n) by first [find_members; reflexivity | assumption] end
  | match goal with |- context [find_required_uint_param (JObject ?l) ?n] =>
      erewrite (get_uint l n) by first [find_members; reflexivity | assumption] end
  | rewrite required_inr
  | rewrite decide_True by (reflexivity || (left; reflexivity) || (right; reflexivity))
  | rewrite decide_False by (intuition discriminate) ];
  cbv beta zeta.

Lemma client_call_understood_at pass_len p a :
  good_call pass_len a ->
  exists body, call_body a = Ret body /\
    parse_meta pass_len p body (call_cmd a) = Ret ("" : str, call_params a p).
Proof.
  intros Ha. eexists. split; [by eapply call_body_ok|]. unfold parse_meta.
  rewrite parse_printed by by eapply call_fields_printable.
  destruct a as [| | | | | | | | | |from ts pass];
    cbn [good_call call_fields call_cmd call_params] in *; destruct_and?;
    try (destruct (decide (ts <> 0)); cbn [app]); repeat read_field; try done.
  cbn [p_password set_p_user set_p_password]. by rewrite H2.
Qed.

(** The body the client builds for a call is read by the server as that
    call: [parse_meta] accepts it, and the parameters it leaves are those of the
    call; the other parameters keep what an earlier request left in them. *)
Theorem client_call_understood pass_len p a :
  good_call pass_len a ->
  exists body, call_body a = Ret body /\
    parse_meta pass_len p body (call_cmd a) = Ret ("" : str, call_params a p).
Proof. apply client_call_understood_at. Qed.

Definition sample_call : api_call := Send 7 "bob" "it's \q5\q\n" "secret_1".

Lemma client_call_understood_witness :
  exists body, call_body sample_call = Ret body /\
    parse_meta (-1) Params_default body MESSAGE_SEND = Ret ("" : str, call_params sample_call Params_default).
Proof.
  apply (client_call_understood (-1) Params_default sample_call).
  by repeat split; try discriminate; apply (bool_decide_unpack _); vm_compute.
Defined.

(** ** From the client's socket to the task queue *)

Definition client_request (a : api_call) (body : str) : str :=
  build_request (cmd2string (call_cmd a)) "application/json" body.

(** The parameters the task of a call has, on a connection with [p]. *)
Definition task_params (city : str) (a : api_call) (p : Params) : Params :=
  call_params a (match a with Register _ _ => set_p_city city p | _ => p end).

Definition call_storage (a : api_call) : str := match a with Register _ _ => "localhost:3306" | _ => [] end.

(** What the connection does for a call it has read. *)
Definition serves (now : Z) (city : str) (a : api_call) (p : Params) (actions : list action) : Prop :=
  match call_cmd a with
  | IDLE => exists body, ok_body_cmd IDLE now = Ret body /\
      actions = [asyncRequest (buildApiOkResponse body) to_nothing; async_wait]
  | cmd => actions = [putTask (mkTask false cmd (task_params city a p) (call_storage a))]
  end.

Lemma ok_body_cmd_total cmd now : exists body, ok_body_cmd cmd now = Ret body.
Proof.
  pose proof (wrap_range 64 now ltac:(lia)) as Hn. eexists. unfold ok_body_cmd.
  rewrite <- (wrap_small 64 (u64 now)) by done. by apply ok_body_cmd_ok.
Qed.

Lemma lowercased_resource cmd : lowercased (cmd2string cmd) = cmd2string cmd.
Proof. by destruct cmd. Qed.

Lemma resource_clean cmd : (CR ∉ cmd2string cmd) /\ SP ∉ cmd2string cmd.
Proof. destruct cmd; apply (bool_decide_unpack _); vm_compute; exact I. Qed.

Section endtoend.
Context (pass_len : Z) `{LocationClient}.

Lemma handler_impl_call reply a c body :
  getHeader reply "Content-Type" = "application/json" -> _body reply = body -> call_cmd a <> IDLE ->
  good_call pass_len a -> call_body a = Ret body -> command (m_RequestDetails c) = call_cmd a ->
  let p := call_params a (params (m_RequestDetails c)) in
  handler_impl pass_len reply (call_cmd a) c =
    Ret (set_params p c, [putTask (mkTask false (call_cmd a) p (call_storage a))]).
Proof.
  intros Hct Hb Hi Ha Hbody Hcmd. unfold handler_impl. rewrite Hct.
  change (starts_with "application/json" "text/plain" || starts_with "application/json" "application/json") with true.
  cbv match. destruct (client_call_understood_at pass_len (params (m_RequestDetails c)) a Ha) as (b & E & Hp).
  rewrite Hbody in E. injection E as <-. rewrite Hb, Hp. cbn [mbind cxx_bind].
  rewrite decide_False by tauto.
  unfold Task_of. cbn [set_params set_details m_RequestDetails command params]. rewrite Hcmd.
  by destruct a.
Qed.

(** The state before the request is looked at: what it says is noted. *)
Definition noted (peer : str) (cmd : cmd_t) (p : Params) (c : ApiClient) : ApiClient :=
  set_details (mkDetails p cmd peer (cmd2string cmd) "post") c.

Lemma read_handler_call peer now city a c reply body :
  getHeader reply "Content-Type" = "application/json" -> _body reply = body ->
  _resource reply = cmd2string (call_cmd a) -> _method reply = "post" ->
  good_call pass_len a -> call_body a = Ret body ->
  (call_cmd a = USER_CREATE -> get_city_by_ip peer = Some (Ret city)) ->
  exists actions, serves now city a (params (m_RequestDetails c)) actions /\
    requestFromClientReadHandler pass_len peer now None reply c =
    Some (Ret (noted peer (call_cmd a) (task_params city a (params (m_RequestDetails c))) c, actions)).
Proof.
  intros Hct Hb Hr Hm Ha Hbody Hcity. unfold requestFromClientReadHandler. rewrite Hr, Hm, lowercased_resource.
  cbn [set_details m_RequestDetails resource params command].
  destruct (decide (call_cmd a = IDLE)) as [Hi|Hi].
  - rewrite Hi. rewrite decide_True by done. destruct (ok_body_cmd_total IDLE now) as (ok & Hok).
    destruct (client_call_understood_at pass_len (params (m_RequestDetails c)) a Ha) as (b & E & Hp).
    rewrite Hbody in E. injection E as <-. cbn [set_command set_details m_RequestDetails params].
    rewrite Hb, <- Hi, Hp. cbn [mbind cxx_bind]. rewrite decide_False by tauto.
    unfold sendOkResponseAndStartIdle. cbn [set_params set_command set_details m_RequestDetails command].
    rewrite Hi, Hok. cbn [mbind cxx_bind mret cxx_ret]. eexists. split; [unfold serves; rewrite Hi; eauto|].
    unfold noted, set_params, set_details, task_params. cbn. by destruct a.
  - assert (routed (call_cmd a) = true) as Hrt by by destruct a.
    rewrite decide_False by (destruct a; first [by destruct Hi | by vm_compute]).
    assert (route (cmd2string (call_cmd a)) = Some (call_cmd a)) as -> by by destruct a.
    exists [putTask (mkTask false (call_cmd a) (task_params city a (params (m_RequestDetails c))) (call_storage a))].
    split; [unfold serves; destruct a; done|].
    unfold v1_handler. destruct a; cbn [call_cmd] in *;
      try (rewrite Hcity by done; cbn [mbind option_bind cxx_bind]); f_equal;
      match goal with |- handler_impl _ _ ?cmd ?c = _ =>
        match goal with H : good_call _ ?a |- _ =>
          pose proof (handler_impl_call reply a c body Hct Hb Hi Ha Hbody eq_refl) as E; cbn [call_cmd] in E; rewrite E
        end end; done.
Qed.
End endtoend.

(** The request of a call, as the server's connection delivers it. *)
Definition request_read (a : api_call) (body : str) : HttpReply :=
  set_body body (request_head (cmd2string (call_cmd a)) "application/json" body).

Lemma client_request_received `{Zlib} s a body rest :
  Z.of_nat (length body) < 2 ^ 64 -> stream s = client_request a body ++ rest ->
  exists s', asyncResponse s = Some (Ret (None, request_read a body, s')) /\ stream s' = rest.
Proof.
  intros Hlen Hs.
  destruct (build_request_received_at s (cmd2string (call_cmd a)) "application/json" body rest) as (s' & E & Hs' & _);
    [apply resource_clean..| |exact Hlen|exact Hs|by exists s'].
  split_and!; [done|done|vm_compute; set_solver].
Qed.

Lemma request_read_handled pass_len `{LocationClient} a body peer now city c :
  good_call pass_len a -> (call_cmd a = USER_CREATE -> get_city_by_ip peer = Some (Ret city)) -> call_body a = Ret body ->
  exists actions, serves now city a (params (m_RequestDetails c)) actions /\
    requestFromClientReadHandler pass_len peer now None (request_read a body) c =
    Some (Ret (noted peer (call_cmd a) (task_params city a (params (m_RequestDetails c))) c, actions)).
Proof. intros Ha Hcity Hbody. by apply (read_handler_call pass_len peer now city a c _ body). Qed.

(** C3: a call of the client reaches the worker as it was made.  The bytes
    the client writes are received as one request, whatever the segments they
    come in and whatever follows them; the connection hands the worker one task
    with the command and the parameters of the call, in the place of those an
    earlier request left, or, for an idle request, acknowledges it and starts
    polling. *)
Theorem client_call_served pass_len `{LocationClient} `{Zlib} s a body rest peer now city c :
  good_call pass_len a -> (call_cmd a = USER_CREATE -> get_city_by_ip peer = Some (Ret city)) ->
  call_body a = Ret body -> Z.of_nat (length body) < 2 ^ 64 -> stream s = client_request a body ++ rest ->
  exists reply s' actions, asyncResponse s = Some (Ret (None, reply, s')) /\ stream s' = rest /\
    serves now city a (params (m_RequestDetails c)) actions /\
    requestFromClientReadHandler pass_len peer now None reply c =
      Some (Ret (noted peer (call_cmd a) (task_params city a (params (m_RequestDetails c))) c, actions)).
Proof.
  intros Ha Hcity Hbody Hlen Hs. destruct (client_request_received s a body rest Hlen Hs) as (s' & E & Hs').
  destruct (request_read_handled pass_len a body peer now city c Ha Hcity Hbody) as (actions & Hserves & Hread).
  by exists (request_read a body), s', actions.
Qed.

#[local] Instance no_location : LocationClient := fun _ => Some (Throw (runtime_error "connect")).
#[local] Existing Instance no_zlib.

Definition sample_body : str :=
  match call_body sample_call with Ret b => b | _ => [] end.

Definition sample_socket : Socket :=
  mkSocket (take 10 (client_request sample_call sample_body)) []
    [drop 10 (client_request sample_call sample_body); "POST"] [].

Lemma client_call_served_witness :
  exists reply s' actions, asyncResponse sample_socket = Some (Ret (None, reply, s')) /\ stream s' = "POST" /\
    serves 5 [] sample_call (params (m_RequestDetails (ApiClient_init IDLE))) actions /\
    requestFromClientReadHandler (-1) "10.0.0.1" 5 None reply (ApiClient_init IDLE) =
      Some (Ret (noted "10.0.0.1" MESSAGE_SEND (task_params [] sample_call Params_default) (ApiClient_init IDLE), actions)).
Proof.
  apply (client_call_served (-1) sample_socket sample_call sample_body "POST" "10.0.0.1" 5 [] (ApiClient_init IDLE)).
  - by repeat split; try discriminate; apply (bool_decide_unpack _); vm_compute.
  - discriminate.
  - by vm_compute.
  - by vm_compute.
  - by vm_compute.
Defined.

(** ** A response of the server is what the client receives *)

Definition ok_headers (body : str) : headers_t :=
  [("Content-Length", to_string (Z.of_nat (length body))); ("Content-Type", "application/json");
   ("Access-Control-Allow-Origin", "*")].

Definition error_headers (body : str) : headers_t :=
  [("Content-Length", to_string (Z.of_nat (length body))); ("Access-Control-Allow-Origin", "*");
   ("Content-Type", "application/json")].

Definition response_head (code : Z) (hs : headers_t) : HttpReply :=
  mkReply code (join (head_lines ("HTTP/1.1 " ++ http_code_to_string code) hs) CRLF) [] [] [] hs.

(** The codes the server has a text for, the fallback apart. *)
Definition known_code (code : Z) : Prop := code ∈ [200; 400; 403; 404; 409; 429; 500; 503].

Lemma build_message3 start k1 v1 k2 v2 k3 v3 body :
  start ++ "\r\n" ++ (k1 ++ ": " ++ v1) ++ "\r\n" ++ (k2 ++ ": " ++ v2) ++ "\r\n" ++ (k3 ++ ": " ++ v3) ++ "\r\n"
    ++ "\r\n" ++ body =
  message start [(k1, v1); (k2, v2); (k3, v3)] body.
Proof.
  unfold message, head_lines, header_line. cbn [fmap list_fmap fst snd].
  rewrite !join_cons2, join_cons. unfold CRLF. cbn [fmap list_fmap List.concat].
  rewrite ?app_nil_r, <- ?app_assoc. simpl. rewrite <- ?app_assoc. done.
Qed.

Lemma ok_response_message body :
  buildApiOkResponse body = message ("HTTP/1.1 " ++ http_code_to_string 200) (ok_headers body) body.
Proof. unfold ok_headers. rewrite <- build_message3. unfold buildApiOkResponse. rewrite <- ?app_assoc. done. Qed.

Lemma error_response_message code api desc body :
  make_api_error api desc = Ret body ->
  build_api_error_rsponse code api desc =
    Ret (message ("HTTP/1.1 " ++ http_code_to_string code) (error_headers body) body).
Proof.
  intros E. unfold error_headers. rewrite <- build_message3. unfold build_api_error_rsponse. rewrite E.
  cbn [mbind cxx_bind mret cxx_ret]. rewrite <- ?app_assoc. done.
Qed.

(** The first line of a known code is read as that code. *)
Definition status_line_ok (code : Z) : bool :=
  match split ("HTTP/1.1 " ++ http_code_to_string code) " " with
  | p0 :: p1 :: _ => starts_with (lowercased p0) "http/" && bool_decide (stoi p1 = Ret code)
  | _ => false
  end && bool_decide (CR ∉ "HTTP/1.1 " ++ http_code_to_string code).

Lemma status_line code :
  known_code code -> exists p0 p1 ps, split ("HTTP/1.1 " ++ http_code_to_string code) " " = p0 :: p1 :: ps /\
    starts_with (lowercased p0) "http/" = true /\ stoi p1 = Ret code /\
    good_line ("HTTP/1.1 " ++ http_code_to_string code).
Proof.
  intros Hk. assert (status_line_ok code = true) as H.
  { assert (forallb status_line_ok [200; 400; 403; 404; 409; 429; 500; 503] = true) as Hall by by vm_compute.
    rewrite forallb_forall in Hall. by apply Hall, list_elem_of_In. }
  unfold status_line_ok in H. destruct (split _ _) as [|p0 [|p1 ps]]; try done.
  apply andb_true_iff in H as [[H1 H2]%andb_true_iff H3]. apply bool_decide_eq_true in H2, H3.
  exists p0, p1, ps. split_and!; try done.
Qed.

Section response.
Context `{Zlib}.

(** The two kinds of head the server writes. *)
Lemma response_received s code hs body rest :
  known_code code -> hs = ok_headers body \/ hs = error_headers body -> Z.of_nat (length body) < 2 ^ 64 ->
  stream s = message ("HTTP/1.1 " ++ http_code_to_string code) hs body ++ rest ->
  exists s', asyncResponse s = Some (Ret (None, set_body body (response_head code hs), s')) /\ stream s' = rest.
Proof.
  intros Hk Hhs Hlen Hs. destruct (status_line code Hk) as (p0 & p1 & ps & Hsplit & Hp0 & Hp1 & Hline).
  destruct (content_length_line (Z.of_nat (length body)) ltac:(lia)) as [L1 G1].
  assert (forall k v, good_line k /\ (":"%char ∉ k) /\ plain_value v ->
    good_line (header_line (k, v)) /\ good_header (k, v)) as Hkv by (intros k v (? & ? & ?); by apply header_value_line).
  destruct (Hkv "Content-Type" "application/json") as [L2 G2].
  { apply (bool_decide_unpack _). vm_compute. exact I. }
  destruct (Hkv "Access-Control-Allow-Origin" "*") as [L3 G3].
  { apply (bool_decide_unpack _). vm_compute. exact I. }
  assert (Forall good_line (head_lines ("HTTP/1.1 " ++ http_code_to_string code) hs) /\ Forall good_header hs) as [Hl Hg].
  { destruct Hhs as [-> | ->]; split; repeat (apply Forall_cons_2; [done|]); apply Forall_nil_2. }
  destruct (asyncResponse_message s _ hs body rest (response_head code hs) Hs Hl) as (s' & E & Es & _); [| |by exists s'].
  - rewrite (parse_head_lines _ _ _ _ _ Hl Hg Hsplit). cbv zeta. rewrite Hp0, Hp1. cbv match.
    unfold hasHeader, getHeader. cbn [_parsedHeaders set_parsed].
    assert (foldl (fun m kv => headers_set kv.1 kv.2 m) [] hs = hs /\
      headers_find "Content-Length" hs = Some ("Content-Length" : str, to_string (Z.of_nat (length body)))) as [-> ->]
      by by destruct Hhs as [-> | ->].
    cbv match. rewrite stoul_to_string by (unfold in_u; lia). done.
  - by destruct Hhs as [-> | ->].
Qed.

(** C21: what the server answers is what the client's connection delivers:
    for a success the status 200 and the body, for an error its status code and
    the JSON text of its description; several answers on one connection come
    apart in the order they were written. *)
Theorem server_response_received s rest body code api desc err response :
  Z.of_nat (length body) < 2 ^ 64 -> known_code code ->
  make_api_error api desc = Ret err -> Z.of_nat (length err) < 2 ^ 64 ->
  build_api_error_rsponse code api desc = Ret response ->
  stream s = buildApiOkResponse body ++ response ++ rest ->
  exists s1 s2, asyncResponse s = Some (Ret (None, set_body body (response_head 200 (ok_headers body)), s1)) /\
    asyncResponse s1 = Some (Ret (None, set_body err (response_head code (error_headers err)), s2)) /\
    stream s2 = rest.
Proof.
  intros Hb Hk He Hlen Hr Hs. rewrite (error_response_message _ _ _ _ He) in Hr. injection Hr as <-.
  rewrite ok_response_message in Hs.
  destruct (response_received s 200 (ok_headers body) body _ ltac:(by left) ltac:(by left) Hb Hs) as (s1 & E1 & S1).
  destruct (response_received s1 code (error_headers err) err rest Hk ltac:(by right) Hlen S1) as (s2 & E2 & S2).
  by exists s1, s2.
Qed.
End response.

Definition sample_error : str :=
  match make_api_error ERR_CONSTRAINT "wrong password" with Ret b => b | _ => [] end.
Definition sample_response : str :=
  match build_api_error_rsponse 403 ERR_CONSTRAINT "wrong password" with Ret b => b | _ => [] end.
Definition two_responses : Socket :=
  mkSocket [] [] [buildApiOkResponse "{}" ++ take 30 sample_response; drop 30 sample_response; "rest"] [].

Lemma server_response_received_witness :
  exists s1 s2, asyncResponse two_responses = Some (Ret (None, set_body "{}" (response_head 200 (ok_headers "{}")), s1)) /\
    asyncResponse s1 = Some (Ret (None, set_body sample_error (response_head 403 (error_headers sample_error)), s2)) /\
    stream s2 = "rest".
Proof.
  apply (server_response_received two_responses "rest" "{}" 403 ERR_CONSTRAINT "wrong password" sample_error sample_response).
  - by vm_compute.
  - do 2 right. left.
  - by vm_compute.
  - by vm_compute.
  - by vm_compute.
  - by vm_compute.
Defined.

(** ** Every request has one outcome *)

(** The answer at once, the task for the worker, or the idle mode. *)
Inductive outcome_of_request : list action -> Prop :=
| Answered response : outcome_of_request [asyncRequest response to_responseToClientWroteHandler]
| Queued task : outcome_of_request [putTask task]
| Polling response : outcome_of_request [asyncRequest response to_nothing; async_wait].

Lemma sendErrorResponse_total code api desc c :
  exists response, sendErrorResponse code api desc c =
    Ret (set_code code c, [asyncRequest response to_responseToClientWroteHandler]).
Proof.
  unfold sendErrorResponse, build_api_error_rsponse. rewrite make_api_error_ok. by eexists.
Qed.

(** The request asks for a registration, for which the city is looked up. *)
Definition registers (req : HttpReply) : Prop :=
  route (lowercased (_resource req)) = Some USER_CREATE.

Definition json_content (req : HttpReply) : bool :=
  starts_with (getHeader req "Content-Type") "text/plain" ||
  starts_with (getHeader req "Content-Type") "application/json".

(** The body of the request is given to [parse_meta]. *)
Definition body_parsed (req : HttpReply) : Prop :=
  lowercased (_resource req) = "/v1/idle" \/
  (is_Some (route (lowercased (_resource req))) /\ json_content req = true).

Section outcomes.
Context (pass_len : Z) `{LocationClient}.

(** The request needs no city or its lookup returned one. *)
Definition city_known (peer : str) (req : HttpReply) : Prop :=
  registers req -> exists city, get_city_by_ip peer = Some (Ret city).

Lemma error_outcome code api desc c :
  exists c' actions, sendErrorResponse code api desc c = Ret (c', actions) /\ outcome_of_request actions.
Proof. destruct (sendErrorResponse_total code api desc c) as [response ->]. eexists _, _. split; [done|constructor]. Qed.

(** What [handler_impl] makes of a request. *)
Lemma handler_impl_outcome req cmd c :
  (json_content req = true /\ no_object (_body req) /\ handler_impl pass_len req cmd c = AssertFail) \/
  (~ (json_content req = true /\ no_object (_body req)) /\
   exists c' actions, handler_impl pass_len req cmd c = Ret (c', actions) /\ outcome_of_request actions).
Proof.
  unfold handler_impl. fold (json_content req).
  destruct (json_content req); [|right; split; [by intros []|apply error_outcome]].
  destruct (parse_meta_cases pass_len (params (m_RequestDetails c)) (_body req) cmd) as [[Ho ->]|[Ho [[err p] ->]]];
    [by left|right]. split; [by intros []|]. cbn [mbind cxx_bind].
  destruct (decide (err <> [])); [apply error_outcome|]. eexists _, _. split; [done|constructor].
Qed.

(** What becomes of a request that was read. *)
Definition request_outcome (peer : str) (req : HttpReply) (r : option (cxx (ApiClient * list action))) : Prop :=
  match r with
  | Some (Ret (_, actions)) =>
      outcome_of_request actions /\ city_known peer req /\ ~ (body_parsed req /\ no_object (_body req))
  | Some AssertFail =>
      (registers req /\ get_city_by_ip peer = Some AssertFail) \/
      (city_known peer req /\ body_parsed req /\ no_object (_body req))
  | Some (Throw e) => registers req /\ get_city_by_ip peer = Some (Throw e)
  | None => registers req /\ get_city_by_ip peer = None
  end.

Lemma routed_outcome peer req cmd c :
  lowercased (_resource req) <> "/v1/idle" -> route (lowercased (_resource req)) = Some cmd -> city_known peer req ->
  request_outcome peer req (Some (v1_handler pass_len req cmd c)).
Proof.
  intros Hi Hr Hc. unfold v1_handler.
  destruct (handler_impl_outcome req cmd (set_command cmd c)) as [(Hj & Ho & ->)|(Hn & c' & actions & -> & Hout)].
  - right. split_and!; [done| |done]. right. split; [by eexists|done].
  - split_and!; [done..|]. intros [[?|[_ Hj]] Ho]; [done|by apply Hn].
Qed.

Lemma request_outcome_holds peer now reply c :
  request_outcome peer reply (requestFromClientReadHandler pass_len peer now None reply c).
Proof.
  unfold requestFromClientReadHandler. cbv zeta. cbn [set_details m_RequestDetails resource]. case_decide as Hi.
  - assert (route (lowercased (_resource reply)) = None) as Hr by by rewrite Hi.
    assert (city_known peer reply) as Hc by (intros Hg; unfold registers in Hg; congruence).
    match goal with |- context [parse_meta _ ?p _ _] =>
      destruct (parse_meta_cases pass_len p (_body reply) IDLE) as [[Ho ->]|[Ho [[err p'] ->]]] end.
    { right. split_and!; [done|by left|done]. }
    cbn [mbind cxx_bind].
    assert (forall actions, outcome_of_request actions -> outcome_of_request actions /\ city_known peer reply /\
      ~ (body_parsed reply /\ no_object (_body reply))) as Hret by (intros; split_and!; [done..|by intros []]).
    destruct (decide (err <> [])).
    + match goal with |- context [ApiClient.sendErrorResponse ?a ?b ?d ?x] =>
        destruct (error_outcome a b d x) as (c' & actions & -> & Hout) end. by apply Hret.
    + unfold sendOkResponseAndStartIdle. cbn [set_params set_command set_details m_RequestDetails command].
      destruct (ok_body_cmd_total IDLE now) as [body ->]. cbn [mbind cxx_bind]. apply Hret. constructor.
  - destruct (route _) as [cmd|] eqn:Hr.
    + assert (cmd <> USER_CREATE -> city_known peer reply) as Hc
        by (intros Hne Hg; unfold registers in Hg; congruence).
      destruct cmd; try (by apply routed_outcome; [..|apply Hc]).
      destruct (get_city_by_ip peer) as [[city|e|]|] eqn:Hcity; cbn [mbind option_bind cxx_bind]; try by split.
      * apply routed_outcome; [done..|]. by exists city.
      * by left.
    + match goal with |- context [ApiClient.sendErrorResponse ?a ?b ?d ?x] =>
        destruct (error_outcome a b d x) as (c' & actions & -> & Hout) end.
      split_and!; [done|intros Hg; unfold registers in Hg; congruence|].
      intros [[?|[[? Hg] _]] _]; congruence.
Qed.

(** C23: what becomes of a request that was read.  It gets exactly one
    outcome: an error answer at once, one task in the queue, or the
    acknowledgement that starts the polling; it is not answered twice here.
    It is lost without an answer exactly when it is a registration and the
    lookup of the city throws or does not return; and it stops the server
    exactly when the lookup fails an assertion, or the body reaches
    [parse_meta] and is JSON but no object. *)
Theorem request_one_outcome peer now reply c :
  request_outcome peer reply (requestFromClientReadHandler pass_len peer now None reply c).
Proof. apply request_outcome_holds. Qed.
End outcomes.
