(* ===== verification/Server.v ===== *)
(** * server/src/server.cpp: the server

    [Server] accepts connections, gives each an [ApiClient] on one of its
    I/O threads, and shares one [DatabaseWorker] among them.  The machines of
    ApiClient and of Pool are composed here: an event is the completion of
    an asynchronous operation of a connection, a step of a worker thread, an
    accepted connection or the signal to stop.  A handler runs to its end in
    one step.  An operation that was started is under way until its
    completion; which one completes next is not fixed. *)

From S2P Require Import Prelude CxxString Utils Json Common LockQueue Database Store ApiUtils Http ClientUtils Worker Promises Pool ApiClient.

(** A connection with its [ApiClient] and what is under way on it: the
    handshake, reads with [requestFromClientReadHandler], writes with their
    handlers, and waits of the timer. *)
Record Conn := mkConn {
  c_peer : str;
  c_client : ApiClient;
  c_handshake : bool;
  c_reads : nat;
  c_writes : list (str * on_written);
  c_waits : nat }.

(** Starts the operation of a call.  A cancelled operation completes with an
    error, which is an event like any other. *)
Definition start_action (c : Conn) (a : action) : Conn :=
  match a with
  | asyncHandshakeAsServer => mkConn (c_peer c) (c_client c) true (c_reads c) (c_writes c) (c_waits c)
  | asyncRequest response h =>
      mkConn (c_peer c) (c_client c) (c_handshake c) (c_reads c) (c_writes c ++ [(response, h)]) (c_waits c)
  | readCmd => mkConn (c_peer c) (c_client c) (c_handshake c) (Datatypes.S (c_reads c)) (c_writes c) (c_waits c)
  | async_wait => mkConn (c_peer c) (c_client c) (c_handshake c) (c_reads c) (c_writes c) (Datatypes.S (c_waits c))
  | putTask _ | cancel_timer | cancel_client => c
  end.

Definition set_client (a : ApiClient) (c : Conn) : Conn :=
  mkConn (c_peer c) a (c_handshake c) (c_reads c) (c_writes c) (c_waits c).

Definition tasks_of (actions : list action) : list Task :=
  omap (fun a => match a with putTask task => Some task | _ => None end) actions.

Section Server.
Context {S : Type} `{AbstractConnection S} `{Crc32} `{StdSort} (pass_len : Z) `{LocationClient}.

(** [s_down]: an assertion has stopped the process. *)
Record Server := mkServer {
  s_conns : gmap nat Conn;
  s_next : nat;
  s_worker : DatabaseWorker nat S;
  s_down : bool }.

(** The constructor and [run]: [m_Db(db::type_t::MYSQL, 5)], here [s_worker]. *)
Definition Server_run (s : S) : Server := mkServer ∅ 0 (start 5 s) false.

(** A handler of connection [conn] has run; [c] has the operation that
    completed removed.  An exception is caught by the loop of the I/O
    thread. *)
Definition handled (conn : nat) (c : Conn) (r : cxx (ApiClient * list action)) (sv : Server) : Server :=
  match r with
  | Ret (a, actions) =>
      mkServer (<[conn := foldl start_action (set_client a c) actions]> (s_conns sv)) (s_next sv)
        (foldl (fun w task => Pool.putTask conn task w) (s_worker sv) (tasks_of actions)) (s_down sv)
  | Throw _ => mkServer (<[conn := c]> (s_conns sv)) (s_next sv) (s_worker sv) (s_down sv)
  | AssertFail => mkServer (s_conns sv) (s_next sv) (s_worker sv) true
  end.

(** The same of a handler that may not come back ([None]): it makes no
    call, and its I/O thread is lost. *)
Definition handled_if (conn : nat) (c : Conn) (r : option (cxx (ApiClient * list action))) (sv : Server) : Server :=
  match r with
  | Some r => handled conn c r sv
  | None => mkServer (<[conn := c]> (s_conns sv)) (s_next sv) (s_worker sv) (s_down sv)
  end.

Definition set_pool (w : DatabaseWorker nat S) (sv : Server) : Server :=
  mkServer (s_conns sv) (s_next sv) w (s_down sv).

(** The call a thread of the worker is about to make on a connection. *)
Definition next_call (i : nat) (w : DatabaseWorker nat S) : option (nat * client_call) :=
  match m_Threads w !! i with
  | Some (InTask _ conn _ _ (Emit call _)) => Some (conn, call)
  | _ => None
  end.

Inductive server_event :=
| Accepted (peer : str) (command : cmd_t)
| Handshaken (conn : nat) (error : option conn_error)
| Received (conn : nat) (now : Z) (error : option conn_error) (reply : HttpReply)
| Written (conn : nat) (error : option conn_error)
| Fired (conn : nat) (aborted : bool) (now : Z)
| Thread (i : nat) (now : Z)
| handleStop.

(** [handleStop] stops the services of the I/O threads: after it no handler
    is called, and only the worker goes on. *)
Definition is_thread (e : server_event) : bool := match e with Thread _ _ => true | _ => false end.

(** [None]: the event cannot happen, its operation is not under way. *)
Definition serve (e : server_event) (sv : Server) : option Server :=
  if s_down sv || (need_stop (s_worker sv) && negb (is_thread e)) then None
  else match e with
  | Accepted peer command =>
      (* the handler of [startAccept]; it accepts again *)
      Some (handled (s_next sv) (mkConn peer (ApiClient_init command) false 0 [] 0) (serveSslClient (ApiClient_init command))
        (mkServer (s_conns sv) (Datatypes.S (s_next sv)) (s_worker sv) (s_down sv)))
  | Handshaken conn error =>
      c ← s_conns sv !! conn;
      if c_handshake c then
        Some (handled conn (mkConn (c_peer c) (c_client c) false (c_reads c) (c_writes c) (c_waits c))
          (processClientRequest error (c_client c)) sv)
      else None
  | Received conn now error reply =>
      c ← s_conns sv !! conn;
      match c_reads c with
      | O => None
      | Datatypes.S n =>
          Some (handled_if conn (mkConn (c_peer c) (c_client c) (c_handshake c) n (c_writes c) (c_waits c))
            (requestFromClientReadHandler pass_len (c_peer c) now error reply (c_client c)) sv)
      end
  | Written conn error =>
      c ← s_conns sv !! conn;
      match c_writes c with
      | [] => None
      | (_, h) :: writes =>
          Some (handled conn (mkConn (c_peer c) (c_client c) (c_handshake c) (c_reads c) writes (c_waits c))
            (wrote h error (c_client c)) sv)
      end
  | Fired conn aborted now =>
      c ← s_conns sv !! conn;
      match c_waits c with
      | O => None
      | Datatypes.S n =>
          Some (handled conn (mkConn (c_peer c) (c_client c) (c_handshake c) (c_reads c) (c_writes c) n)
            (timerWaitTaskResultHandler aborted now (c_client c)) sv)
      end
  | Thread i now =>
      let sv' := set_pool (advance i now (s_worker sv)) sv in
      if aborted (advance i now (s_worker sv)) then Some (mkServer (s_conns sv') (s_next sv') (s_worker sv') true)
      else match next_call i (s_worker sv) with
      | Some (conn, call) =>
          c ← s_conns sv !! conn;
          Some (handled conn c (worker_calls now call (c_client c)) sv')
      | None => Some sv'
      end
  | handleStop =>
      let w := s_worker sv in
      Some (set_pool (mkWorker true (m_Db w) (m_Tasks w) (m_Threads w) (aborted w) (put w) (reports w)) sv)
  end.

(** A sequence of events. *)
Definition serves (es : list server_event) (sv : Server) : option Server :=
  foldl (fun sv e => sv ≫= serve e) (Some sv) es.
End Server.
Arguments Server : clear implicits.

(** ** The workers of the server *)

Section Workers.
Context {S : Type} `{ConnectionLaws S} `{Crc32} `{StdSort} (pass_len : Z) `{LocationClient}.

(** The server while its storage has room for what the tasks in hand store. *)
Definition roomy_serve (sv sv' : Server S) : Prop :=
  room (s_worker sv) /\ exists e, serve pass_len e sv = Some sv'.

Lemma worker_calls_write now call c :
  exists a response h, worker_calls now call c = Ret (a, [asyncRequest response h]).
Proof.
  destruct call as [code api desc|body|msgs|msgs]; cbn [worker_calls].
  - destruct (sendErrorResponse_total code api desc c) as [r ->]. eauto.
  - unfold sendOkResponse. eauto.
  - unfold sendMessages. destruct (ok_body_msgs_total msgs now) as [body ->]. cbn. eauto.
  - unfold sendMessagesToIdleConn. cbv zeta. destruct (ok_body_msgs_total msgs now) as [body ->]. cbn. eauto.
Qed.

Lemma put_tasks_roomy conn tasks (w : DatabaseWorker nat S) :
  aborted w = false -> room w -> rtc roomy_step w (foldl (fun w task => Pool.putTask conn task w) w tasks).
Proof.
  revert w. induction tasks as [|task tasks IH]; intros w Ha Hr; [apply rtc_refl|].
  apply (rtc_l _ _ (Pool.putTask conn task w)); [|by apply IH]. split; [done|by constructor].
Qed.

(** For the state of the server a handler that does not come back is like
    one that throws. *)
Definition came_back {A} (r : option (cxx A)) : cxx A :=
  match r with Some r => r | None => Throw (runtime_error "never returns") end.

Lemma handled_if_spec conn c r (sv : Server S) : handled_if conn c r sv = handled conn c (came_back r) sv.
Proof. by destruct r. Qed.

Lemma came_back_ret {A} (r : option (cxx A)) a : came_back r = Ret a <-> r = Some (Ret a).
Proof. destruct r; naive_solver. Qed.

Lemma handled_pool conn c r (sv : Server S) :
  aborted (s_worker sv) = false -> room (s_worker sv) ->
  rtc roomy_step (s_worker sv) (s_worker (handled conn c r sv)).
Proof.
  intros Ha Hr. destruct r as [[a actions]| |]; [by apply put_tasks_roomy|apply rtc_refl..].
Qed.

(** The completion of an operation runs a handler. *)
Definition completes (e : server_event) : bool :=
  match e with Handshaken _ _ | Received _ _ _ _ | Written _ _ | Fired _ _ _ => true | _ => false end.

Lemma serve_completion e (sv sv' : Server S) :
  serve pass_len e sv = Some sv' -> completes e = true -> exists conn c r, sv' = handled conn c r sv.
Proof.
  unfold serve. intros E Hc. destruct (s_down sv || _); [done|]. destruct e as [| conn| conn| conn| conn| |]; try done;
    (destruct (s_conns sv !! conn) as [c|]; simpl in E; [|done]).
  - destruct (c_handshake c); [|done]. injection E as <-. eauto.
  - destruct (c_reads c); [done|]. injection E as <-. rewrite handled_if_spec. eauto.
  - destruct (c_writes c) as [|[response h] l]; [done|]. injection E as <-. eauto.
  - destruct (c_waits c); [done|]. injection E as <-. eauto.
Qed.

(** An event of the server is some steps of its worker. *)
Lemma serve_pool e sv sv' :
  serve pass_len e sv = Some sv' -> aborted (s_worker sv) = false -> room (s_worker sv) ->
  rtc roomy_step (s_worker sv) (s_worker sv').
Proof.
  intros E Ha Hr. destruct (completes e) eqn:Hc.
  { destruct (serve_completion _ _ _ E Hc) as (conn & c & r & ->). by apply handled_pool. }
  unfold serve in E. destruct (s_down sv || _); [done|]. destruct e as [peer cmd| | | | |i now|]; try done.
  - injection E as <-. apply rtc_refl.
  - assert (roomy_step (s_worker sv) (advance i now (s_worker sv))) as Hstep by (split; [done|by constructor]).
    destruct (aborted (advance i now (s_worker sv))); [injection E as <-; by apply rtc_once|].
    destruct (next_call i (s_worker sv)) as [[conn call]|]; [|injection E as <-; by apply rtc_once].
    destruct (s_conns sv !! conn) as [c|]; simpl in E; [|done]. injection E as <-.
    destruct (worker_calls_write now call (c_client c)) as (a & response & h & ->). by apply rtc_once.
  - injection E as <-. apply rtc_once. split; [done|by constructor].
Qed.

Lemma server_pool_ok s sv :
  valid s -> rtc roomy_serve (Server_run s) sv -> pool_ok s (s_worker sv).
Proof.
  intros V Hr. remember (Server_run s) as sv0 eqn:E0.
  assert (pool_ok s (s_worker sv0)) as Hok by (rewrite E0; by apply start_ok).
  clear E0. induction Hr as [|sv0 sv1 sv2 [Hroom [e He]] _ IH]; [done|]. apply IH.
  eapply pool_steps_ok; [done|]. eapply serve_pool; [done|by destruct Hok|done].
Qed.


(** ** Runs *)

Lemma serves_snoc es e (sv : Server S) : serves pass_len (es ++ [e]) sv = serves pass_len es sv ≫= serve pass_len e.
Proof. unfold serves. by rewrite foldl_app. Qed.

Lemma serves_rtc (P : server_event -> Prop) es (sv sv' : Server S) :
  serves pass_len es sv = Some sv' -> Forall P es ->
  rtc (fun sv sv' => exists e, P e /\ serve pass_len e sv = Some sv') sv sv'.
Proof.
  revert sv'. induction es as [|e es IH] using rev_ind; intros sv' Hes HP; [injection Hes as <-; apply rtc_refl|].
  rewrite serves_snoc in Hes. apply Forall_app in HP as [HP He].
  destruct (serves pass_len es sv) as [sv1|]; [|done]. simpl in Hes.
  eapply rtc_r; [by apply IH|]. exists e. split; [|done]. by inversion He.
Qed.

Lemma handled_puts conn c r (sv : Server S) : put (s_worker sv) `prefix_of` put (s_worker (handled conn c r sv)).
Proof.
  destruct r as [[a actions]| |]; [|done..]. cbn [handled s_worker].
  generalize (s_worker sv) as w. induction (tasks_of actions) as [|task tasks IH]; intros w; [done|].
  etrans; [|apply IH]. by apply prefix_app_r.
Qed.

Lemma serve_puts e sv sv' : serve pass_len e sv = Some sv' -> put (s_worker sv) `prefix_of` put (s_worker sv').
Proof.
  intros E. destruct (completes e) eqn:Hc.
  { destruct (serve_completion _ _ _ E Hc) as (conn & c & r & ->). apply handled_puts. }
  unfold serve in E. destruct (s_down sv || _); [done|]. destruct e as [peer cmd| | | | |i now|]; try done.
  - by injection E as <-.
  - destruct (aborted (advance i now (s_worker sv))); [injection E as <-; simpl; by rewrite advance_put|].
    destruct (next_call i (s_worker sv)) as [[conn call]|]; [|injection E as <-; simpl; by rewrite advance_put].
    destruct (s_conns sv !! conn) as [c|]; simpl in E; [|done]. injection E as <-.
    rewrite <- (advance_put i now (s_worker sv)). apply (handled_puts _ _ _ (set_pool (advance i now (s_worker sv)) sv)).
  - by injection E as <-.
Qed.

(** A run of tasks that always fit keeps to the room of the storage. *)
Lemma serves_roomy s es sv :
  valid s -> serves pass_len es (Server_run s) = Some sv -> Forall fits_any (put (s_worker sv)) ->
  rtc roomy_serve (Server_run s) sv.
Proof.
  intros V. revert sv. induction es as [|e es IH] using rev_ind; intros sv Hes Hf.
  - injection Hes as <-. apply rtc_refl.
  - rewrite serves_snoc in Hes. destruct (serves pass_len es (Server_run s)) as [sv1|] eqn:E1; [|done].
    simpl in Hes. pose proof (serve_puts _ _ _ Hes) as [l Hl].
    assert (Forall fits_any (put (s_worker sv1))) as Hf1 by (rewrite Hl in Hf; by apply Forall_app in Hf as [? _]).
    pose proof (IH sv1 eq_refl Hf1) as Hr. eapply rtc_r; [exact Hr|].
    pose proof (server_pool_ok s sv1 V Hr) as Hok. split; [|by exists e].
    eapply (ample_room 0); [apply Hok|by eapply fits_ample].
Qed.

(** C9: the server as a whole, with any number of connections, whatever they
    send and in whatever order
    their operations complete, while the storage has room: the database stays
    consistent, the workers fail no assertion, and whatever a task was
    positively answered is kept. *)
Theorem server_refines s sv :
  valid s -> rtc roomy_serve (Server_run s) sv ->
  aborted (s_worker sv) = false /\
  rtc db_step (view s) (view (m_Db (s_worker sv))) /\ consistent (view (m_Db (s_worker sv))) /\
  forall r, r ∈ reports (s_worker sv) -> answered_ok (r_calls r) ->
    promise (t_cmd (r_task r)) (r_now r) (r_task r) (view (m_Db (s_worker sv))).
Proof.
  intros V [Ha Vw Hc _ Hrep _]%server_pool_ok; [|done].
  split_and!; [done|by apply conn_calls_refine|by apply valid_consistent|].
  intros r Hr Hok. destruct (proj1 (Forall_forall _ _) Hrep r Hr) as (_ & _ & Hp). by apply Hp.
Qed.
End Workers.

(** ** One thing under way *)

Section UnderWay.
Context {S : Type} `{AbstractConnection S} `{Crc32} `{StdSort} (pass_len : Z) `{LocationClient}.
Implicit Types (w : DatabaseWorker nat S) (sv : Server S).

(** The answers that the worker still owes a connection: its tasks in the
    queue, and those in hand that have not called yet. *)
Definition owed_by (conn : nat) (t : thread nat S) : nat :=
  match t with InTask _ c _ [] _ => if decide (c = conn) then 1%nat else 0%nat | _ => 0%nat end.

Definition owed (conn : nat) w : nat :=
  (list_sum (owed_by conn <$> m_Threads w) + length (filter (fun ct => ct.1 = conn) (m_Queue (m_Tasks w))))%nat.

(** What is under way on a connection: its handshake, a read, a write, or a
    task whose answer is still to come. *)
Definition under_way (conn : nat) (c : Conn) w : nat :=
  ((if c_handshake c then 1 else 0) + c_reads c + length (c_writes c) + owed conn w)%nat.

Lemma sum_insert {A} (f : A -> nat) (l : list A) i x y :
  l !! i = Some x -> (list_sum (f <$> <[i:=y]> l) + f x = list_sum (f <$> l) + f y)%nat.
Proof.
  revert i. induction l as [|z l IH]; intros [|i] Hi; try done; simpl in Hi; csimpl.
  - injection Hi as ->. cbn [list_sum foldr]. lia.
  - specialize (IH _ Hi). change (list_sum (f z :: ?l)) with (f z + list_sum l)%nat.
    change (list_sum (f z :: (f <$> l))) with (f z + list_sum (f <$> l))%nat. lia.
Qed.

Lemma owed_put k conn task w : owed k (Pool.putTask conn task w) = (owed k w + if decide (conn = k) then 1 else 0)%nat.
Proof.
  unfold owed. simpl. rewrite filter_app, length_app, filter_cons, filter_nil. simpl.
  case_decide; simpl; lia.
Qed.

(** A thread calls its client once at most. *)
Definition bounded (t : thread nat S) : Prop :=
  match t with InTask _ _ _ said rest => at_most (1 - length said) rest | _ => True end.

Lemma advance_bounded i now w : Forall bounded (m_Threads w) -> Forall bounded (m_Threads (advance i now w)).
Proof.
  intros Hb. unfold advance.
  destruct (m_Threads w !! i) as [t|] eqn:Hi; [|done].
  pose proof (Forall_lookup_1 _ _ _ _ Hb Hi) as Ht.
  destruct t as [| |tnow conn task said rest|]; try done.
  - apply Forall_insert; [done|]. by destruct (need_stop w).
  - destruct (getTask (m_Tasks w)) as [[[conn task]|] q]; apply Forall_insert; try done. apply process_task_at_most.
  - destruct rest as [[a| |]|f next|c next]; try done; try (by apply Forall_insert).
    + apply Forall_insert; [done|]. simpl in *. apply Ht.
    + apply Forall_insert; [done|]. simpl in *. rewrite length_app. simpl.
      destruct said as [|x said]; [|by destruct (length said)]. done.
Qed.

(** A step of a thread pays one answer, or none. *)
Lemma advance_owed k i now w :
  Forall bounded (m_Threads w) ->
  (owed k (advance i now w) +
   match next_call i w with Some (conn, _) => if decide (conn = k) then 1 else 0 | None => 0 end <= owed k w)%nat.
Proof.
  intros Hb. unfold advance, next_call.
  destruct (m_Threads w !! i) as [t|] eqn:Hi; [|lia].
  pose proof (Forall_lookup_1 _ _ _ _ Hb Hi) as Ht.
  destruct t as [| |tnow conn task said rest|]; try lia.
  - unfold owed. simpl. pose proof (sum_insert (owed_by k) _ i _ (if need_stop w then Ended else AtQueue) Hi) as E.
    simpl in E. destruct (need_stop w); simpl in E; lia.
  - unfold getTask. destruct (m_Queue (m_Tasks w)) as [|[conn task] l] eqn:Hq; unfold owed; simpl; rewrite ?Hq.
    + pose proof (sum_insert (owed_by k) _ i _ AtTest Hi) as E. simpl in E. lia.
    + pose proof (sum_insert (owed_by k) _ i _ (InTask now conn task [] (process_task now task)) Hi) as E. simpl in E.
      rewrite filter_cons. simpl. case_decide; simpl; lia.
  - destruct rest as [[a| |]|f next|c next]; unfold owed; simpl; try lia.
    + pose proof (sum_insert (owed_by k) _ i _ AtTest Hi) as E. simpl in E. lia.
    + pose proof (sum_insert (owed_by k) _ i _ AtTest Hi) as E. simpl in E. lia.
    + pose proof (sum_insert (owed_by k) _ i _ (InTask tnow conn task said (next (m_Db w))) Hi) as E. simpl in E. lia.
    + pose proof (sum_insert (owed_by k) _ i _ (InTask tnow conn task (said ++ [c]) next) Hi) as E. simpl in E, Ht.
      destruct said as [|x said]; [|by destruct (length said)].
      simpl in E. cbn [app]. destruct (decide (conn = k)); lia.
Qed.

(** ** The calls of a handler *)

Definition weight (a : action) : nat :=
  match a with asyncRequest _ _ | readCmd | putTask _ => 1 | _ => 0 end.

(** The calls of one handler of a connection that does not poll. *)
Definition light (actions : list action) : Prop :=
  (list_sum (weight <$> actions) <= 1)%nat /\ (async_wait ∉ actions) /\ (asyncHandshakeAsServer ∉ actions).

Lemma start_actions conn actions c w :
  async_wait ∉ actions -> asyncHandshakeAsServer ∉ actions ->
  under_way conn (foldl start_action c actions)
    (foldl (fun w task => Pool.putTask conn task w) w (tasks_of actions)) =
    (under_way conn c w + list_sum (weight <$> actions))%nat /\
  c_waits (foldl start_action c actions) = c_waits c.
Proof.
  revert c w. induction actions as [|a actions IH]; intros c w Hw Hh; [simpl; lia|].
  apply not_elem_of_cons in Hw as [Hw1 Hw], Hh as [Hh1 Hh].
  change (list_sum (weight <$> (a :: actions))) with (weight a + list_sum (weight <$> actions))%nat.
  destruct a as [|response h| |task| | |]; try done.
  - destruct (IH (start_action c (asyncRequest response h)) w Hw Hh) as [E E2]. split; [|exact E2].
    etrans; [exact E|]. unfold under_way. simpl. rewrite length_app. simpl. lia.
  - destruct (IH (start_action c readCmd) w Hw Hh) as [E E2]. split; [|exact E2].
    etrans; [exact E|]. unfold under_way. simpl. lia.
  - destruct (IH c (Pool.putTask conn task w) Hw Hh) as [E E2]. split; [|exact E2].
    etrans; [exact E|]. unfold under_way. rewrite owed_put, decide_True by done. simpl. lia.
  - apply (IH c w Hw Hh).
  - apply (IH c w Hw Hh).
Qed.

Lemma light_one a : a <> async_wait -> a <> asyncHandshakeAsServer -> light [a].
Proof. intros Ha Hb. split_and!; [destruct a; simpl; lia|by intros ?%list_elem_of_singleton..]. Qed.

Lemma light_none : light [].
Proof. split_and!; [simpl; lia|apply not_elem_of_nil..]. Qed.

Lemma error_light code api desc c a actions :
  ApiClient.sendErrorResponse code api desc c = Ret (a, actions) -> light actions.
Proof. destruct (sendErrorResponse_total code api desc c) as [r ->]. intros [= _ <-]. by apply light_one. Qed.

Lemma handler_light req cmd c a actions : handler_impl pass_len req cmd c = Ret (a, actions) -> light actions.
Proof.
  unfold handler_impl. destruct (_ || _); [|apply error_light].
  destruct (parse_meta _ _ _ _) as [[err p]| |]; cbn [mbind cxx_bind]; try discriminate.
  case_decide; [apply error_light|]. intros [= _ <-]. by apply light_one.
Qed.

Lemma request_light peer now error reply c a actions :
  lowercased (_resource reply) <> "/v1/idle" \/ error <> None ->
  requestFromClientReadHandler pass_len peer now error reply c = Some (Ret (a, actions)) -> light actions.
Proof.
  intros Hq. unfold requestFromClientReadHandler. destruct error as [e|]; [intros [= _ <-]; apply light_none|].
  destruct Hq as [Hq|]; [|done]. cbv zeta. cbn [set_details m_RequestDetails resource].
  rewrite decide_False by done.
  destruct (route _) as [cmd|]; [|intros E%(inj Some); revert E; apply error_light].
  destruct cmd; try (intros E%(inj Some); revert E; apply handler_light).
  destruct (get_city_by_ip peer) as [[city| |]|]; [|done..]. intros E%(inj Some). revert E. apply handler_light.
Qed.

Lemma wrote_light h error c a actions : wrote h error c = Ret (a, actions) -> light actions.
Proof.
  destruct h; cbn [wrote].
  - intros [= _ <-]. by apply light_one.
  - destruct error; intros [= _ <-]; [|apply light_none]. split_and!; [simpl; lia|..];
      by intros [?|[?|?%not_elem_of_nil]%elem_of_cons]%elem_of_cons.
  - intros [= _ <-]. apply light_none.
Qed.

(** ** The invariant *)

Definition idle_free (conn : nat) (c : Conn) w : Prop := c_waits c = 0%nat /\ (under_way conn c w <= 1)%nat.

Record one_thing (conn : nat) sv : Prop := {
  ot_bounded : Forall bounded (m_Threads (s_worker sv));
  ot_fresh : forall k, (s_next sv <= k)%nat -> s_conns sv !! k = None /\ owed k (s_worker sv) = 0%nat;
  ot_conn : forall c, s_conns sv !! conn = Some c -> idle_free conn c (s_worker sv) }.

Lemma known_conn conn sv k c : one_thing conn sv -> s_conns sv !! k = Some c -> (k < s_next sv)%nat.
Proof.
  intros Hot Hk. destruct (Nat.lt_ge_cases k (s_next sv)) as [|Hge]; [done|].
  apply (ot_fresh _ _ Hot) in Hge as [Hge _]. congruence.
Qed.

Lemma puts_threads k tasks w : m_Threads (foldl (fun w task => Pool.putTask k task w) w tasks) = m_Threads w.
Proof. revert w. induction tasks as [|t tasks IH]; intros w; [done|]. simpl. by rewrite IH. Qed.

Lemma puts_owed j k tasks w : j <> k -> owed j (foldl (fun w task => Pool.putTask k task w) w tasks) = owed j w.
Proof.
  intros Hj. revert w. induction tasks as [|t tasks IH]; intros w; [done|]. simpl.
  rewrite IH, owed_put, decide_False by congruence. lia.
Qed.

(** A handler of connection [k], whose operation was removed from [c]. *)
Lemma handled_one_thing conn k c r sv :
  one_thing conn sv -> (k < s_next sv)%nat ->
  (k = conn -> c_waits c = 0%nat /\ under_way conn c (s_worker sv) = 0%nat /\
     forall a actions, r = Ret (a, actions) -> light actions) ->
  one_thing conn (handled k c r sv).
Proof.
  intros [Hb Hf Hc] Hk Hconn. destruct r as [[a actions]|e|]; cbn [handled]; [| |by split].
  - split; cbn [s_conns s_next s_worker].
    + by rewrite puts_threads.
    + intros j Hj. rewrite lookup_insert_ne, puts_owed by lia. by apply Hf.
    + intros c'. destruct (decide (k = conn)) as [->|Hne].
      * rewrite lookup_insert_eq. intros [= <-]. destruct (Hconn eq_refl) as (Hw & Hu & Hl).
        destruct (Hl _ _ eq_refl) as (Hsum & Hnw & Hnh).
        destruct (start_actions conn actions (set_client a c) (s_worker sv) Hnw Hnh) as [E1 E2].
        split; [by rewrite E2|]. rewrite E1. change (under_way conn (set_client a c) (s_worker sv)) with (under_way conn c (s_worker sv)).
        lia.
      * rewrite lookup_insert_ne by done. intros Hc'. destruct (Hc _ Hc') as [Hw Hu]. split; [done|].
        unfold under_way in *. rewrite puts_owed by done. done.
  - split; cbn [s_conns s_next s_worker]; [done|..].
    + intros j Hj. rewrite lookup_insert_ne by lia. by apply Hf.
    + intros c'. destruct (decide (k = conn)) as [->|Hne].
      * rewrite lookup_insert_eq. intros [= <-]. destruct (Hconn eq_refl) as (Hw & Hu & _). split; [done|lia].
      * rewrite lookup_insert_ne by done. apply Hc.
Qed.

(** The request that makes a connection poll. *)
Definition starts_polling (conn : nat) (e : server_event) : Prop :=
  match e with
  | Received k _ None reply => k = conn /\ lowercased (_resource reply) = "/v1/idle"
  | _ => False
  end.

Lemma advance_one_thing conn i now sv :
  one_thing conn sv -> one_thing conn (set_pool (advance i now (s_worker sv)) sv).
Proof.
  intros [Hb Hf Hc]. split; cbn [set_pool s_conns s_next s_worker].
  - by apply advance_bounded.
  - intros k Hk. destruct (Hf k Hk) as [H1' H2']. split; [done|].
    pose proof (advance_owed k i now _ Hb). lia.
  - intros c Hc'. destruct (Hc c Hc') as [Hw Hu]. split; [done|].
    pose proof (advance_owed conn i now _ Hb). unfold under_way in *. lia.
Qed.

Lemma serve_one_thing conn e sv sv' :
  serve pass_len e sv = Some sv' -> ~ starts_polling conn e -> one_thing conn sv -> one_thing conn sv'.
Proof.
  intros E Hq Hot. unfold serve in E. destruct (s_down sv || _); [done|].
  destruct e as [peer cmd|k err|k now err reply|k err|k ab now|i now|].
  - injection E as <-. destruct Hot as [Hb Hf Hc]. split; cbn [s_conns s_next s_worker]; [done|..].
    + intros j Hj. rewrite lookup_insert_ne by lia. apply Hf. lia.
    + intros c. destruct (decide (s_next sv = conn)) as [<-|Hne].
      * rewrite lookup_insert_eq. intros [= <-]. split; [done|]. unfold under_way. simpl.
        destruct (Hf (s_next sv)) as [_ ->]; lia.
      * rewrite lookup_insert_ne by done. apply Hc.
  - destruct (s_conns sv !! k) as [c|] eqn:Hk; simpl in E; [|done]. destruct (c_handshake c) eqn:Hh; [|done].
    injection E as <-. apply handled_one_thing; [done|by eapply known_conn|]. intros ->.
    destruct (ot_conn _ _ Hot _ Hk) as [Hw Hu]. unfold under_way in *. simpl. rewrite Hh in Hu.
    split_and!; [done|lia|]. intros a actions Hr. destruct err; injection Hr as _ <-; [apply light_none|by apply light_one].
  - destruct (s_conns sv !! k) as [c|] eqn:Hk; simpl in E; [|done]. destruct (c_reads c) as [|n] eqn:Hn; [done|].
    injection E as <-. rewrite handled_if_spec. apply handled_one_thing; [done|by eapply known_conn|]. intros ->.
    destruct (ot_conn _ _ Hot _ Hk) as [Hw Hu]. unfold under_way in *. simpl. rewrite Hn in Hu.
    split_and!; [done|lia|]. intros a actions Hr%came_back_ret. eapply request_light; [|exact Hr].
    destruct err; [by right|]. left. intros Hidle. by apply Hq.
  - destruct (s_conns sv !! k) as [c|] eqn:Hk; simpl in E; [|done]. destruct (c_writes c) as [|[response h] l] eqn:Hl; [done|].
    injection E as <-. apply handled_one_thing; [done|by eapply known_conn|]. intros ->.
    destruct (ot_conn _ _ Hot _ Hk) as [Hw Hu]. unfold under_way in *. simpl. rewrite Hl in Hu. simpl in Hu.
    split_and!; [done|lia|]. intros a actions Hr. by eapply wrote_light.
  - destruct (s_conns sv !! k) as [c|] eqn:Hk; simpl in E; [|done]. destruct (c_waits c) as [|n] eqn:Hn; [done|].
    injection E as <-. apply handled_one_thing; [done|by eapply known_conn|]. intros ->.
    destruct (ot_conn _ _ Hot _ Hk) as [Hw _]. congruence.
  - pose proof (advance_one_thing conn i now sv Hot) as Hot'.
    destruct (aborted (advance i now (s_worker sv))); [injection E as <-; by destruct Hot'|].
    destruct (next_call i (s_worker sv)) as [[k call]|] eqn:Hcall; [|by injection E as <-].
    destruct (s_conns sv !! k) as [c|] eqn:Hk; simpl in E; [|done]. injection E as <-.
    apply handled_one_thing; [done|by apply (known_conn conn sv k c)|]. intros ->.
    destruct (ot_conn _ _ Hot _ Hk) as [Hw Hu].
    pose proof (advance_owed conn i now _ (ot_bounded _ _ Hot)) as Hpaid. rewrite Hcall, decide_True in Hpaid by done.
    unfold under_way in *. cbn [set_pool s_worker].
    split_and!; [done|lia|]. intros a actions Hr.
    destruct (worker_calls_write now call (c_client c)) as (a' & response & h & E). rewrite E in Hr.
    injection Hr as _ <-. by apply light_one.
  - injection E as <-. by destruct Hot.
Qed.

Lemma run_one_thing conn s : one_thing conn (Server_run s).
Proof. split; simpl; [by repeat constructor|done|]. intros c Hc. by rewrite lookup_empty in Hc. Qed.

(** C10: on a connection that does not poll at most one thing is under way at
    any time: its handshake, a read, a write, or a task that is still to be
    answered.  So its answers leave one after the other and in the order of
    its requests, whichever of the threads make them. *)
Theorem one_thing_under_way conn s sv c :
  rtc (fun sv sv' => exists e, ~ starts_polling conn e /\ serve pass_len e sv = Some sv') (Server_run s) sv ->
  s_conns sv !! conn = Some c ->
  c_waits c = 0%nat /\ (under_way conn c (s_worker sv) <= 1)%nat.
Proof.
  intros Hr. pose proof (run_one_thing conn s) as Hot. remember (Server_run s) as sv0 eqn:E0. clear E0.
  induction Hr as [sv0|sv0 sv1 sv2 (e & Hq & He) _ IH]; [intros Hc; by apply (ot_conn _ _ Hot)|].
  apply IH. by eapply serve_one_thing.
Qed.
End UnderWay.
