(* ===== verification/Answers.v ===== *)
(** * The answer of a task is the last thing it does

    A task of the worker ends with its answer, if it gives one: after the
    call on the client the branch touches the storage no more.  So what a
    positive answer promises holds at the moment the answer is written, not
    only when the task is finished.  The tasks of a connection that are still
    to be answered are those of [Server.owed], here as a list. *)

From S2P Require Import Prelude CxxString Utils Common LockQueue Database Store ApiUtils Worker Promises Pool ApiClient Server.

(** ** The calls of a branch *)

Section Calls.
Context {S : Type} `{AbstractConnection S} `{Crc32} `{StdSort}.

(** What a task of the command [cmd] may answer. *)
Definition may_answer (cmd : cmd_t) (c : client_call) : Prop :=
  match c with
  | Worker.sendErrorResponse code _ _ => known_code code /\ code <> 200
  | Worker.sendOkResponse _ => True
  | Worker.sendMessages _ => cmd = USER_HISTORY
  | Worker.sendMessagesToIdleConn _ => cmd = IDLE
  end.

(** Every call satisfies [P] and ends the branch. *)
Fixpoint finals {A} (P : client_call -> Prop) (m : M (S:=S) A) : Prop :=
  match m with
  | Finish _ => True
  | Access _ next => forall s, finals P (next s)
  | Emit c next => P c /\ exists o, next = Finish o
  end.

Lemma finals_silent {A B} P (m : M A) (k : A -> M B) :
  at_most 0 m -> (forall x, finals P (k x)) -> finals P (m ≫= k).
Proof.
  unfold mbind, M_bind. intros Hm Hk. induction m as [[x| |]|f next IH|c next IH]; simpl; try done.
  intros s. apply IH, Hm.
Qed.

Lemma finals_gets {A B} P (f : S -> A) (k : A -> M B) : (forall x, finals P (k x)) -> finals P (x ← gets f; k x).
Proof. intros Hk s. apply Hk. Qed.

Lemma finals_lift {A B} P (r : cxx A) (k : A -> M B) : (forall x, finals P (k x)) -> finals P (x ← lift r; k x).
Proof. intros Hk. by destruct r; simpl. Qed.

Lemma finals_call P c : P c -> finals P (client c).
Proof. intros Hc. split; [done|by eexists]. Qed.

(** The codes of the errors the branches answer. *)
Lemma error_call cmd code api desc :
  code = 403 \/ code = 404 \/ code = 409 \/ code = 500 -> may_answer cmd (Worker.sendErrorResponse code api desc).
Proof.
  intros Hc. split; [|lia]. unfold known_code. destruct Hc as [-> |[-> |[-> | ->]]]; apply (bool_decide_unpack _); vm_compute; exact I.
Qed.

Lemma finals_error {B} cmd code api desc (k : User -> M B) :
  code = 403 \/ code = 404 \/ code = 409 \/ code = 500 ->
  finals (may_answer cmd) (user ← (client (Worker.sendErrorResponse code api desc) ;; mret User_empty); unless_found user ;; k user).
Proof. intros Hc. split; [by apply error_call|]. by eexists. Qed.

Lemma finals_check_pass {B} cmd (k : User -> M B) task :
  (forall u, finals (may_answer cmd) (k u)) ->
  finals (may_answer cmd) (user ← lookup_check_pass task; unless_found user ;; k user).
Proof.
  intros Hk s. simpl. case_decide; [apply (finals_error cmd 409 _ _ k); lia|].
  case_decide; [apply (finals_error cmd 403 _ _ k); lia|]. unfold unless_found. simpl. case_decide; [done|]. apply Hk.
Qed.

Lemma finals_by_name {B} cmd (k : User -> M B) name task check :
  (forall u, finals (may_answer cmd) (k u)) ->
  finals (may_answer cmd) (user ← lookup_check_pass_by_name name task check; unless_found user ;; k user).
Proof.
  intros Hk s. simpl. destruct (lookupUserByName name s) as [|u [|]].
  - apply (finals_error cmd 404 _ _ k); lia.
  - case_decide; [apply (finals_error cmd 403 _ _ k); lia|]. unfold unless_found. simpl. case_decide; [done|]. apply Hk.
  - apply (finals_error cmd 500 _ _ k); lia.
Qed.

(** Follows a branch to the call at its end. *)
Ltac finals_tac :=
  repeat first
    [ apply finals_check_pass; intros ?
    | apply finals_by_name; intros ?
    | apply finals_gets; intros ?
    | apply finals_lift; intros ?
    | apply finals_silent; [first [done | apply to_api_format_silent | apply to_api_format_batch_silent | apply poll_chats_silent]|intros ?]
    | apply finals_call; first [done | apply error_call; lia]
    | case_decide
    | match goal with |- finals _ (match ?l with _ => _ end) => destruct l end
    | done ].

Lemma process_task_finals now task : finals (may_answer (t_cmd task)) (process_task now task).
Proof.
  unfold process_task, do_idle, do_user_status, do_user_history, do_message_send, do_user_create, do_user_login,
    do_chat_create, do_chat_adduser, do_message_send_chat, do_get_locations, do_chat_with_location.
  destruct (t_cmd task); cbv zeta; finals_tac.
Qed.
End Calls.

(** ** The tasks of a connection that are still to be answered *)

Section Pending.
Context {S : Type} `{AbstractConnection S} `{Crc32} `{StdSort}.
Implicit Types w : DatabaseWorker nat S.

(** A thread that has called its client has nothing left to do. *)
Definition thread_final (t : thread nat S) : Prop :=
  match t with
  | InTask _ _ task said rest => said = [] /\ finals (may_answer (t_cmd task)) rest \/ exists o, rest = Finish o
  | _ => True
  end.

Lemma advance_finals i now w : Forall thread_final (m_Threads w) -> Forall thread_final (m_Threads (advance i now w)).
Proof.
  intros Hf. unfold advance. destruct (m_Threads w !! i) as [t|] eqn:Hi; [|done].
  pose proof (Forall_lookup_1 _ _ _ _ Hf Hi) as Ht.
  destruct t as [| |tnow conn task said rest|]; try done.
  - apply Forall_insert; [done|]. by destruct (need_stop w).
  - destruct (getTask (m_Tasks w)) as [[[conn task]|] q]; apply Forall_insert; try done.
    left. split; [done|]. apply process_task_finals.
  - destruct rest as [[a| |]|f next|c next]; try done; try (by apply Forall_insert).
    + apply Forall_insert; [done|]. destruct Ht as [[-> Ht]|[o Ho]]; [left|done]. split; [done|]. apply Ht.
    + apply Forall_insert; [done|]. destruct Ht as [[_ [_ Ht]]|[o Ho]]; [by right|done].
Qed.

Definition awaited (conn : nat) (t : thread nat S) : list Task :=
  match t with InTask _ c task [] _ => if decide (c = conn) then [task] else [] | _ => [] end.

Definition pending (conn : nat) w : list Task :=
  (m_Threads w ≫= awaited conn) ++ (snd <$> filter (fun ct => ct.1 = conn) (m_Queue (m_Tasks w))).

Lemma owed_pending conn w : owed conn w = length (pending conn w).
Proof.
  unfold owed, pending. rewrite length_app, length_fmap. f_equal.
  induction (m_Threads w) as [|t ts IH]; [done|]. csimpl. rewrite length_app, <- IH.
  change (list_sum (?x :: ?l)) with (x + list_sum l)%nat. f_equal.
  destruct t as [| |tnow c task said rest|]; try done. destruct said; [|done]. simpl. by case_decide.
Qed.

Lemma pending_put k conn task w : pending k (Pool.putTask conn task w) = pending k w ++ (if decide (conn = k) then [task] else []).
Proof.
  unfold pending. cbn [Pool.putTask set_put set_tasks m_Threads m_Tasks push m_Queue].
  rewrite filter_app, fmap_app, app_assoc. f_equal. rewrite filter_cons, filter_nil. cbn [fst]. by case_decide.
Qed.

Lemma pending_puts k conn tasks w :
  pending k (foldl (fun w task => Pool.putTask conn task w) w tasks) = pending k w ++ (if decide (conn = k) then tasks else []).
Proof.
  revert w. induction tasks as [|t tasks IH]; intros w; [simpl; case_decide; by rewrite app_nil_r|].
  cbn [foldl]. rewrite IH, pending_put, <- app_assoc. by case_decide.
Qed.

Lemma insert_awaited k (ts : list (thread nat S)) i t task :
  task ∈ (<[i:=t]> ts ≫= awaited k) -> task ∈ (ts ≫= awaited k) \/ task ∈ awaited k t.
Proof.
  intros (t' & Ht & [j Hj]%list_elem_of_lookup)%list_elem_of_bind.
  apply list_lookup_insert_Some in Hj as [(-> & -> & _)|[_ Hj]]; [by right|].
  left. apply list_elem_of_bind. exists t'. split; [done|]. by eapply list_elem_of_lookup_2.
Qed.

Lemma lookup_awaited k (ts : list (thread nat S)) i t task :
  ts !! i = Some t -> task ∈ awaited k t -> task ∈ (ts ≫= awaited k).
Proof. intros Hi Ht. apply list_elem_of_bind. exists t. split; [done|]. by eapply list_elem_of_lookup_2. Qed.

(** A thread adds no task. *)
Lemma advance_pending k i now w task : task ∈ pending k (advance i now w) -> task ∈ pending k w.
Proof.
  assert (forall t t' q, m_Threads w !! i = Some t ->
    (forall x, x ∈ awaited k t' -> x ∈ awaited k t \/ x ∈ (snd <$> filter (fun ct => ct.1 = k) (m_Queue (m_Tasks w)))) ->
    (forall x, x ∈ (snd <$> filter (fun ct => ct.1 = k) (m_Queue q)) -> x ∈ (snd <$> filter (fun ct => ct.1 = k) (m_Queue (m_Tasks w)))) ->
    task ∈ (<[i:=t']> (m_Threads w) ≫= awaited k) ++ (snd <$> filter (fun ct => ct.1 = k) (m_Queue q)) -> task ∈ pending k w) as Hgo.
  { intros t t' q Hi Ht Hq [Hin|Hin]%elem_of_app; apply elem_of_app; [|right; by apply Hq].
    apply insert_awaited in Hin as [Hin|[Hin|Hin]%Ht]; [by left| |by right]. left. by eapply lookup_awaited. }
  unfold advance. destruct (m_Threads w !! i) as [t|] eqn:Hi; [|done].
  destruct t as [| |tnow c t said rest|]; [| | |done].
  - apply (Hgo AtTest); [done| |done]. by destruct (need_stop w); intros x Hx%elem_of_nil.
  - destruct (getTask (m_Tasks w)) as [[[conn t]|] q] eqn:Hq; unfold getTask in Hq.
    + destruct (m_Queue (m_Tasks w)) as [|[c t1] l] eqn:El; [done|]. injection Hq as <- <- <-.
      apply (Hgo AtQueue); [done|..]; intros x; simpl; rewrite filter_cons; simpl; case_decide; csimpl;
        rewrite ?list_elem_of_singleton, ?elem_of_cons, ?elem_of_nil; tauto.
    + apply (Hgo AtQueue); [done|by intros x Hx%elem_of_nil|]. destruct (m_Queue (m_Tasks w)) eqn:El; [|done].
      injection Hq as <-. cbn [set_thread set_threads set_tasks m_Tasks]. by rewrite El.
  - destruct rest as [[a| |]|f next|call next]; try done.
    + apply (Hgo _ AtTest (m_Tasks w) eq_refl); [by intros x Hx%elem_of_nil|done].
    + apply (Hgo _ AtTest (m_Tasks w) eq_refl); [by intros x Hx%elem_of_nil|done].
    + apply (Hgo _ (InTask tnow c t said (next (m_Db w))) (m_Tasks w) eq_refl); [by left|done].
    + apply (Hgo _ (InTask tnow c t (said ++ [call]) next) (m_Tasks w) eq_refl); [|done].
      intros x Hx. exfalso. destruct said; by apply elem_of_nil in Hx.
Qed.

(** The call a thread is about to make answers a task of its connection. *)
Lemma next_call_task i w conn call :
  Forall thread_final (m_Threads w) -> next_call i w = Some (conn, call) ->
  exists now task o, m_Threads w !! i = Some (InTask now conn task [] (Emit call (Finish o))) /\
    task ∈ pending conn w /\ may_answer (t_cmd task) call.
Proof.
  unfold next_call. intros Hf E. destruct (m_Threads w !! i) as [[| |now k task said [| |c next]|]|] eqn:Hi; try done.
  injection E as -> ->. destruct (Forall_lookup_1 _ _ _ _ Hf Hi) as [[-> [Hc [o ->]]]|[o Ho]]; [|done].
  exists now, task, o. split_and!; [done| |done]. apply elem_of_app. left. eapply lookup_awaited; [done|].
  simpl. rewrite decide_True by done. by left.
Qed.
End Pending.

(** ** What is promised is there when it is said *)

Section Said.
Context {S : Type} `{ConnectionLaws S} `{Crc32} `{StdSort}.

(** When a thread is about to give a positive answer, what the answer
    promises is in the database already. *)
Lemma said_is_done s0 (w : DatabaseWorker nat S) i now conn task call o :
  pool_ok s0 w -> m_Threads w !! i = Some (InTask now conn task [] (Emit call (Finish o))) -> positive call ->
  promise (t_cmd task) now task (view (m_Db w)).
Proof.
  intros Hok Hi Hc. pose proof (thread_at _ _ _ _ Hok Hi) as (_ & _ & Hp). apply Hp. exists call. split; [by left|done].
Qed.

(** What was done stays. *)
Lemma done_lasts s0 (w w' : DatabaseWorker nat S) :
  pool_ok s0 w -> rtc roomy_step w w' -> grows (view (m_Db w)) (view (m_Db w')).
Proof.
  intros Hok Hr. assert (pool_ok (m_Db w) w) as Hhere by (destruct Hok; by split).
  apply conn_calls_grow; [apply Hok|]. by apply (ok_calls _ _ (pool_steps_ok _ _ _ Hhere Hr)).
Qed.
End Said.
