(* ===== verification/Typing.v ===== *)
(** * The types of the requests: what a task may contain

    The C++ types of [RequestDetails] are wider than what the server puts in
    them: an id or a count comes from 32 bits, a text ends at its first
    terminator, and a command fills in the fields it needs.  This file
    states the types of the parameters and of the tasks, and shows that every
    handler of a connection keeps them, so that they hold of every task on
    every run of the server. *)

From S2P Require Import Prelude CxxString Utils Json Location Common LockQueue Database Store ApiUtils Http ClientUtils Worker Promises Pool ApiClient Server.

(** ** Types *)

Record typed_params (p : Params) : Prop := {
  tp_uid : in_u 32 (p_uid p);
  tp_ts : in_s 64 (p_ts p);
  tp_count : in_u 32 (p_count p);
  tp_texts : Forall no_nul [p_message p; p_to_user p; p_user p; p_password p; p_ip_address p; p_city p;
                            chat_name (p_chat p); chat_adduser (p_chat p)] }.

(** The commands that a request can have. *)
Definition accepted (cmd : cmd_t) : bool := routed cmd || bool_decide (cmd = IDLE).

Definition given (s : str) : Prop := s <> [].

(** The fields that a command needs. *)
Definition complete (pass_len : Z) (cmd : cmd_t) (p : Params) : Prop :=
  given (p_password p) /\
  match cmd with
  | USER_CREATE => given (p_user p) /\ password_check (p_password p) (if pass_len <? 0 then 8 else pass_len) = true
  | USER_LOGIN | USER_HISTORY | USER_STATUS => given (p_user p)
  | CHAT_CREATE => given (chat_name (p_chat p))
  | CHAT_ADDUSER => given (chat_name (p_chat p)) /\ given (chat_adduser (p_chat p))
  | MESSAGE_SEND => given (p_message p) /\ given (p_to_user p)
  | MESSAGE_SEND_CHAT => given (p_message p) /\ given (chat_name (p_chat p))
  | CHAT_WITH_LOCATION => given (p_city p)
  | _ => True
  end.

Definition typed_task (task : Task) : Prop := typed_params (t_request task) /\ accepted (t_cmd task) = true.

(** ** Reading a request *)

Lemma found_string doc pattern r :
  find_required_string_param doc pattern = Ret r -> match r with inr s => given s /\ no_nul s | inl e => e <> [] end.
Proof.
  unfold find_required_string_param. destruct (FindMember doc pattern) as [[v|]| |]; cbn; try discriminate.
  - destruct v; cbn; try (intros [= <-]; discriminate). case_decide as Hs; intros [= <-]; [discriminate|].
    split; [done|apply c_str_no_nul].
  - by intros [= <-].
Qed.

Lemma found_uint doc pattern r :
  find_required_uint_param doc pattern = Ret r -> match r with inr z => in_u 32 z | inl e => e <> [] end.
Proof.
  unfold find_required_uint_param. destruct (FindMember doc pattern) as [[v|]| |]; cbn; try discriminate.
  - destruct v; cbn; try (intros [= <-]; discriminate). unfold GetUint. cbn.
    case_bool_decide; cbn; intros [= <-]; done || discriminate.
  - by intros [= <-].
Qed.

(** What a search leaves: an error text and the parameters as they were, or
    a value for what follows. *)
Lemma required_cases {A} (r : cxx (str + A)) p k res (Good : A -> Prop) (Q : str * Params -> Prop) :
  required r p k = Ret res ->
  (forall x, r = Ret x -> match x with inr a => Good a | inl e => e <> [] end) ->
  (forall e, e <> [] -> Q (e, p)) -> (forall a, Good a -> k a = Ret res -> Q res) -> Q res.
Proof.
  intros E Hr Herr Hk. unfold required in E. destruct r as [x| |]; try discriminate E. cbn in E.
  specialize (Hr x eq_refl). destruct x as [e|a]; [|by eapply Hk]. injection E as <-. by apply Herr.
Qed.

Ltac typed_text :=
  intros Hs [? ? ? Ht]; split; try done; repeat (apply Forall_cons in Ht as [? Ht]); by repeat constructor.

Lemma typed_password s p : no_nul s -> typed_params p -> typed_params (set_p_password s p).
Proof. typed_text. Qed.
Lemma typed_user s p : no_nul s -> typed_params p -> typed_params (set_p_user s p).
Proof. typed_text. Qed.
Lemma typed_message s p : no_nul s -> typed_params p -> typed_params (set_p_message s p).
Proof. typed_text. Qed.
Lemma typed_to_user s p : no_nul s -> typed_params p -> typed_params (set_p_to_user s p).
Proof. typed_text. Qed.
Lemma typed_city s p : no_nul s -> typed_params p -> typed_params (set_p_city s p).
Proof. typed_text. Qed.
Lemma typed_chat_name s p : no_nul s -> typed_params p -> typed_params (set_p_chat_name s p).
Proof. typed_text. Qed.
Lemma typed_chat_adduser s p : no_nul s -> typed_params p -> typed_params (set_p_chat_adduser s p).
Proof. typed_text. Qed.
Lemma typed_uid z p : in_u 32 z -> typed_params p -> typed_params (set_p_uid z p).
Proof. intros Hz [? ? ? Ht]. by split. Qed.
Lemma typed_count z p : in_u 32 z -> typed_params p -> typed_params (set_p_count z p).
Proof. intros Hz [? ? ? Ht]. by split. Qed.
Lemma typed_ts z p : in_s 64 z -> typed_params p -> typed_params (set_p_ts z p).
Proof. intros Hz [? ? ? Ht]. by split. Qed.

Lemma typed_default : typed_params Params_default.
Proof. split; [done..|]. repeat constructor. Qed.

Create HintDb typing.
#[local] Hint Resolve typed_password typed_user typed_message typed_to_user typed_city typed_chat_name typed_chat_adduser
  typed_uid typed_count typed_ts : typing.

(** What [parse_meta] leaves. *)
Definition meta_ok (pass_len : Z) (cmd : cmd_t) (res : str * Params) : Prop :=
  typed_params res.2 /\ (res.1 = [] -> complete pass_len cmd res.2).

Lemma meta_error pass_len cmd p e : typed_params p -> e <> [] -> meta_ok pass_len cmd (e, p).
Proof. by split. Qed.

(** One search of [parse_meta]. *)
Ltac field E :=
  eapply (required_cases _ _ _ _ _ _ E);
  [ let r := fresh "r" in let Hr := fresh "Hr" in intros r Hr; first [exact (found_string _ _ _ Hr) | exact (found_uint _ _ _ Hr)]
  | let e := fresh "e" in let He := fresh "He" in intros e He; apply meta_error; eauto with typing
  | clear E; let v := fresh "v" in let Hv := fresh "Hv" in intros v Hv E; cbv beta in Hv; try match type of Hv with given _ /\ _ => destruct Hv end ].

Lemma typed_i64 z : in_u 32 z -> in_s 64 z.
Proof. unfold in_u, in_s. lia. Qed.

Lemma parse_meta_typed pass_len p json cmd res :
  typed_params p -> parse_meta pass_len p json cmd = Ret res -> meta_ok pass_len cmd res.
Proof.
  intros Hp E. unfold parse_meta in E. destruct (parse_document json) as [doc|]; [|injection E as <-; by apply meta_error].
  cbv zeta in E. field E. destruct (decide (cmd = USER_CREATE \/ cmd = USER_LOGIN)) as [Hc|Hc].
  { field E. destruct (decide (cmd = USER_CREATE)) as [->|Hn].
    - destruct (password_check _ _) eqn:Hw; injection E as <-; split; eauto with typing; done.
    - destruct Hc as [| ->]; [done|]. injection E as <-. split; eauto with typing. done. }
  field E. destruct (decide (cmd = CHAT_CREATE \/ cmd = CHAT_ADDUSER)) as [Hc2|Hc2].
  { field E. destruct (decide (cmd = CHAT_ADDUSER)) as [->|Hn].
    - field E. injection E as <-. split; eauto 7 with typing; done.
    - destruct Hc2 as [->|]; [|done]. injection E as <-. split; eauto with typing. done. }
  destruct (decide (cmd = IDLE)) as [->|Hi].
  { destruct (find_required_uint_param doc "heartbit") as [r| |] eqn:Hr; try discriminate E.
    apply found_uint in Hr. injection E as <-. destruct r; (split; [eauto using typed_i64 with typing|done]). }
  destruct (decide (cmd = USER_HISTORY \/ cmd = USER_STATUS)) as [Hc3|Hc3].
  { field E. destruct (find_required_uint_param doc "count") as [r| |] eqn:Hr; try discriminate E.
    apply found_uint in Hr. injection E as <-. destruct r; (split; [eauto 7 with typing|by destruct Hc3 as [-> | ->]]). }
  destruct (decide (cmd = MESSAGE_SEND \/ cmd = MESSAGE_SEND_CHAT)) as [Hc4|Hc4].
  { field E. destruct (decide (cmd = MESSAGE_SEND)) as [->|Hn].
    - field E. injection E as <-. split; eauto 7 with typing; done.
    - destruct Hc4 as [| ->]; [done|]. field E. injection E as <-. split; eauto 7 with typing; done. }
  destruct (decide (cmd = CHAT_WITH_LOCATION)) as [->|Hn].
  { field E. injection E as <-. split; eauto with typing. done. }
  injection E as <-. split; [eauto with typing|]. intros _. destruct cmd; tauto || done.
Qed.

(** ** The handlers of a connection *)

Definition typed_client (c : ApiClient) : Prop := typed_params (params (m_RequestDetails c)).
Definition client_cmd (c : ApiClient) : cmd_t := command (m_RequestDetails c).

Definition good_task (pass_len : Z) (task : Task) : Prop :=
  typed_task task /\ complete pass_len (t_cmd task) (t_request task) /\
  t_storage task = if decide (t_cmd task = USER_CREATE) then "localhost:3306" else [].

Section Handlers.
Context (pass_len : Z) `{LocationClient}.
Hypothesis city_plain : forall ip city, get_city_by_ip ip = Some (Ret city) -> no_nul city.

(** What a handler that reads a request leaves: typed parameters, an accepted
    command where there was one, and typed tasks with all they need; it
    starts a timer for a request to poll only. *)
Record reads_well (c a : ApiClient) (actions : list action) : Prop := {
  rw_typed : typed_client a;
  rw_cmd : accepted (client_cmd c) = true -> accepted (client_cmd a) = true;
  rw_tasks : Forall (good_task pass_len) (tasks_of actions);
  rw_wait : async_wait ∈ actions -> client_cmd a = IDLE }.

Lemma error_reads_well code api desc c0 c a actions :
  typed_client c -> (accepted (client_cmd c0) = true -> accepted (client_cmd c) = true) ->
  ApiClient.sendErrorResponse code api desc c = Ret (a, actions) -> reads_well c0 a actions.
Proof.
  intros Hc Hcmd E. destruct (sendErrorResponse_total code api desc c) as [r E']. rewrite E' in E. injection E as <- <-.
  split; [done|done|constructor|]. by intros ?%list_elem_of_singleton.
Qed.

Lemma route_accepted r cmd : route r = Some cmd -> accepted cmd = true.
Proof. intros [_ Hr]%route_cmd2string. unfold accepted. by rewrite Hr. Qed.

Lemma handler_reads_well req cmd c0 c a actions :
  typed_client c -> accepted cmd = true -> v1_handler pass_len req cmd c = Ret (a, actions) -> reads_well c0 a actions.
Proof.
  intros Hc Hcmd. unfold v1_handler, handler_impl. destruct (_ || _); [|by apply error_reads_well].
  destruct (parse_meta pass_len _ _ cmd) as [[err p]| |] eqn:E; try discriminate. cbn [mbind cxx_bind].
  apply parse_meta_typed in E as [Hp Hok]; [|done]. case_decide as He; [by apply error_reads_well|].
  specialize (Hok He). simpl in Hp, Hok.
  intros [= <- <-]. split; [done|done| |by intros ?%list_elem_of_singleton].
  apply Forall_singleton. unfold good_task, typed_task.
  case_decide as Hu; split_and!; try done; simpl; by case_decide.
Qed.

Lemma request_reads_well peer now error reply c a actions :
  typed_client c -> requestFromClientReadHandler pass_len peer now error reply c = Some (Ret (a, actions)) ->
  reads_well c a actions.
Proof.
  intros Hc. unfold requestFromClientReadHandler. destruct error as [e|].
  { intros [= <- <-]. split; [done|done|constructor|by intros ?%not_elem_of_nil]. }
  cbv zeta. case_decide as Hi.
  - intros E%(inj Some). revert E. destruct (parse_meta pass_len _ _ IDLE) as [[err p]| |] eqn:E; try discriminate.
    cbn [mbind cxx_bind]. apply parse_meta_typed in E as [Hp _]; [|done].
    case_decide; [by apply error_reads_well|]. unfold sendOkResponseAndStartIdle.
    destruct (ok_body_cmd _ now) as [body| |]; try discriminate. intros [= <- <-]. by split.
  - destruct (route _) as [cmd|] eqn:Hr; [|intros E%(inj Some); revert E; by apply error_reads_well]. apply route_accepted in Hr.
    destruct cmd; try (intros E%(inj Some); revert E; by apply handler_reads_well).
    destruct (get_city_by_ip peer) as [[city| |]|] eqn:Hcity; try discriminate. cbn [mbind option_bind cxx_bind].
    intros E%(inj Some). revert E. apply handler_reads_well; [|done]. apply typed_city; [by eapply city_plain|done].
Qed.

(** The timer puts a task of whatever the connection has on record. *)
Lemma timer_puts ab now c a actions :
  typed_client c -> timerWaitTaskResultHandler ab now c = Ret (a, actions) ->
  typed_client a /\ client_cmd a = client_cmd c /\
  Forall (fun task => typed_params (t_request task) /\ t_cmd task = client_cmd c) (tasks_of actions).
Proof.
  intros Hc. unfold timerWaitTaskResultHandler. destruct ab; [intros [= <- <-]; split_and!; [done|done|apply Forall_nil_2]|].
  cbv zeta. intros [= <- <-].
  set (c1 := if u64 _ <? _ then _ else c).
  assert (typed_client c1 /\ client_cmd c1 = client_cmd c) as [H1 E1].
  { unfold c1. destruct (_ <? _); [|done]. split; [|done]. apply typed_ts; [by apply (swrap_range 64)|done]. }
  destruct (5 <? _); (split_and!; [exact H1|exact E1|]); by apply Forall_singleton.
Qed.
End Handlers.

(** ** The invariant of the server *)

Section Invariant.
Context {S : Type} `{AbstractConnection S} `{Crc32} `{StdSort} (pass_len : Z) `{LocationClient}.
Hypothesis city_plain : forall ip city, get_city_by_ip ip = Some (Ret city) -> no_nul city.
(** The connections that are never asked to poll. *)
Variable quiet : nat -> Prop.
Implicit Types (sv : Server S).

Record typed_conn (k : nat) (c : Conn) : Prop := {
  tc_client : typed_client (c_client c);
  tc_waits : c_waits c <> 0%nat -> accepted (client_cmd (c_client c)) = true;
  tc_quiet : quiet k -> c_waits c = 0%nat }.

Definition put_well (k : nat) (task : Task) : Prop := typed_task task /\ (quiet k -> good_task pass_len task).

Record typed_server sv : Prop := {
  ts_conns : forall k c, s_conns sv !! k = Some c -> typed_conn k c;
  ts_puts : forall k task, (k, task) ∈ put (s_worker sv) -> put_well k task }.

Lemma puts_list (k : nat) tasks (w : DatabaseWorker nat S) :
  put (foldl (fun w task => Pool.putTask k task w) w tasks) = put w ++ (pair k <$> tasks).
Proof.
  revert w. induction tasks as [|t tasks IH]; intros w; [by rewrite app_nil_r|]. simpl.
  rewrite IH. simpl. by rewrite <- app_assoc.
Qed.

Lemma start_waits c actions :
  c_client (foldl start_action c actions) = c_client c /\
  (c_waits (foldl start_action c actions) <> 0%nat -> c_waits c <> 0%nat \/ async_wait ∈ actions) /\
  (async_wait ∉ actions -> c_waits (foldl start_action c actions) = c_waits c).
Proof.
  revert c. induction actions as [|x actions IH]; intros c; [by split_and!; [|left|]|]. simpl.
  destruct (IH (start_action c x)) as (E & Hw & Hn). split_and!.
  - rewrite E. by destruct x.
  - intros [H1'|H1']%Hw; [|right; by right]. destruct x; try (by left). right. by left.
  - intros [Hx Ha]%not_elem_of_cons. rewrite (Hn Ha). by destruct x.
Qed.

(** A handler of connection [k] that leaves typed parameters and tasks, and
    starts a timer for an accepted command only. *)
Lemma handled_typed k c r sv :
  typed_server sv -> typed_conn k c ->
  (forall a actions, r = Ret (a, actions) ->
     typed_client a /\ Forall (put_well k) (tasks_of actions) /\
     (accepted (client_cmd (c_client c)) = true -> accepted (client_cmd a) = true) /\
     (async_wait ∈ actions -> accepted (client_cmd a) = true /\ ~ quiet k)) ->
  typed_server (handled k c r sv).
Proof.
  intros [Hconns Hputs] [Hc Hw Hq] Hr. destruct r as [[a actions]|e|]; cbn [handled]; [| |by split].
  - destruct (Hr a actions eq_refl) as (Ha & Htasks & Hcmd & Hwait).
    destruct (start_waits (set_client a c) actions) as (E & Hsome & Hnone).
    split; cbn [s_conns s_worker].
    + intros j cj [[<- <-]|[_ Hj]]%lookup_insert_Some; [|by apply Hconns]. split.
      * by rewrite E.
      * rewrite E. intros [?|?]%Hsome; [by apply Hcmd, Hw|by apply Hwait].
      * intros Hk. rewrite Hnone; [by apply Hq|]. intros [_ Hnq]%Hwait. done.
    + intros j task. rewrite puts_list. intros [Hin|Hin]%elem_of_app; [by apply Hputs|].
      apply list_elem_of_fmap in Hin as (t & [= -> ->] & Ht). by apply (proj1 (Forall_forall _ _) Htasks).
  - split; cbn [s_conns s_worker]; [|done].
    intros j cj [[<- <-]|[_ Hj]]%lookup_insert_Some; [by split|by apply Hconns].
Qed.

(** The same for a handler that only goes on with the connection. *)
Lemma silent_typed k c r sv :
  typed_server sv -> typed_conn k c ->
  (forall a actions, r = Ret (a, actions) ->
     m_RequestDetails a = m_RequestDetails (c_client c) /\ tasks_of actions = [] /\ (async_wait ∉ actions)) ->
  typed_server (handled k c r sv).
Proof.
  intros Hsv Hc Hr. apply handled_typed; [done|done|]. intros a actions E.
  destruct (Hr a actions E) as (Hd & -> & Hn). unfold typed_client, client_cmd. rewrite Hd.
  split_and!; [apply Hc|constructor|done|done].
Qed.

Lemma wrote_silent h error c a actions :
  wrote h error c = Ret (a, actions) ->
  m_RequestDetails a = m_RequestDetails c /\ tasks_of actions = [] /\ (async_wait ∉ actions).
Proof.
  destruct h; cbn [wrote]; [|destruct error|]; intros [= <- <-]; (split_and!; [done|done|]);
    repeat (apply not_elem_of_cons; split; [discriminate|]); apply not_elem_of_nil.
Qed.

Lemma worker_call_silent now call c a actions :
  worker_calls now call c = Ret (a, actions) ->
  m_RequestDetails a = m_RequestDetails c /\ tasks_of actions = [] /\ (async_wait ∉ actions).
Proof.
  intros E. destruct (worker_calls_write now call c) as (a' & response & h & E'). rewrite E in E'. injection E' as <- ->.
  split_and!; [|done|by intros ?%list_elem_of_singleton]. destruct call as [code api desc|body|msgs|msgs]; cbn [worker_calls] in E.
  - destruct (sendErrorResponse_total code api desc c) as [r E']. rewrite E' in E. by injection E as <- _.
  - by injection E as <- _.
  - unfold sendMessages in E. destruct (ok_body_msgs msgs now); try discriminate. by injection E as <- _.
  - unfold sendMessagesToIdleConn in E. cbv zeta in E. destruct (ok_body_msgs msgs now); try discriminate. by injection E as <- _.
Qed.

Lemma request_starts_wait peer now error reply c a actions :
  requestFromClientReadHandler pass_len peer now error reply c = Some (Ret (a, actions)) ->
  async_wait ∈ actions -> error = None /\ lowercased (_resource reply) = "/v1/idle".
Proof.
  intros E Hin. destruct error as [e|]; [injection E as _ <-; by apply not_elem_of_nil in Hin|]. split; [done|].
  destruct (decide (lowercased (_resource reply) = "/v1/idle")) as [|Hn]; [done|].
  apply (request_light pass_len _ _ _ _ _ _ _ (or_introl Hn)) in E as (_ & Hno & _). done.
Qed.

Lemma advance_puts_typed i now sv :
  typed_server sv -> typed_server (set_pool (advance i now (s_worker sv)) sv).
Proof. intros [Hc Hp]. split; cbn [set_pool s_conns s_worker]; [done|]. by rewrite advance_put. Qed.

Lemma serve_typed e sv sv' :
  serve pass_len e sv = Some sv' -> (forall k, quiet k -> ~ starts_polling k e) -> typed_server sv -> typed_server sv'.
Proof.
  intros E Hq Hsv. unfold serve in E. destruct (s_down sv || _); [done|].
  destruct e as [peer cmd|k err|k now err reply|k err|k ab now|i now|].
  - injection E as <-.
    apply (handled_typed (s_next sv) (mkConn peer (ApiClient_init cmd) false 0 [] 0) (serveSslClient (ApiClient_init cmd))
      (mkServer (s_conns sv) (Datatypes.S (s_next sv)) (s_worker sv) (s_down sv))).
    + by destruct Hsv.
    + split; [apply typed_default|done|done].
    + intros a actions [= <- <-]. split_and!; [apply typed_default|constructor|done|by intros ?%list_elem_of_singleton].
  - destruct (s_conns sv !! k) as [c|] eqn:Hk; simpl in E; [|done]. destruct (c_handshake c); [|done].
    injection E as <-. destruct (ts_conns _ Hsv _ _ Hk) as [H1' H2' H3']. apply silent_typed; [done|by split|].
    intros a actions Hr. destruct err; injection Hr as <- <-; split_and!; try done; [apply not_elem_of_nil|].
    by intros ?%list_elem_of_singleton.
  - destruct (s_conns sv !! k) as [c|] eqn:Hk; simpl in E; [|done]. destruct (c_reads c) as [|n]; [done|].
    injection E as <-. rewrite handled_if_spec.
    destruct (ts_conns _ Hsv _ _ Hk) as [H1' H2' H3']. apply handled_typed; [done|by split|].
    intros a actions Hr%came_back_ret. destruct (request_reads_well pass_len city_plain _ _ _ _ _ _ _ H1' Hr) as [Ha Hcmd Ht Hw].
    split_and!; [done| |done|].
    + eapply Forall_impl; [exact Ht|]. intros t Hgood. split; [apply Hgood|done].
    + intros Hin. split; [by rewrite (Hw Hin)|]. intros Hk'. apply (Hq k Hk').
      destruct (request_starts_wait _ _ _ _ _ _ _ Hr Hin) as [-> Hres]. by split.
  - destruct (s_conns sv !! k) as [c|] eqn:Hk; simpl in E; [|done]. destruct (c_writes c) as [|[response h] l]; [done|].
    injection E as <-. destruct (ts_conns _ Hsv _ _ Hk) as [H1' H2' H3']. apply silent_typed; [done|by split|].
    intros a actions Hr. by eapply wrote_silent.
  - destruct (s_conns sv !! k) as [c|] eqn:Hk; simpl in E; [|done]. destruct (c_waits c) as [|n] eqn:Hn; [done|].
    injection E as <-. destruct (ts_conns _ Hsv _ _ Hk) as [H1' H2' H3'].
    assert (~ quiet k) as Hnq by (intros Hk'; specialize (H3' Hk'); congruence).
    assert (accepted (client_cmd (c_client c)) = true) as Hacc by (apply H2'; congruence).
    apply handled_typed; [done|split; try done|].
    intros a actions Hr. destruct (timer_puts _ _ _ _ _ H1' Hr) as (Ha & Hcmd & Ht). rewrite Hcmd.
    split_and!; [done| |done|by split].
    eapply Forall_impl; [exact Ht|]. intros t [Htp Hcm]. split; [|done]. split; [done|by rewrite Hcm].
  - pose proof (advance_puts_typed i now sv Hsv) as Hsv'.
    destruct (aborted (advance i now (s_worker sv))); [injection E as <-; by destruct Hsv'|].
    destruct (next_call i (s_worker sv)) as [[k call]|]; [|by injection E as <-].
    destruct (s_conns sv !! k) as [c|] eqn:Hk; simpl in E; [|done]. injection E as <-.
    apply silent_typed; [done|by apply (ts_conns _ Hsv)|]. intros a actions Hr. by eapply worker_call_silent.
  - injection E as <-. by destruct Hsv.
Qed.

Lemma run_typed s : typed_server (Server_run s).
Proof. split; cbn; [intros k c Hc; by rewrite lookup_empty in Hc|]. intros k task Hin. by apply not_elem_of_nil in Hin. Qed.

Lemma serves_typed es s sv :
  serves pass_len es (Server_run s) = Some sv -> (forall k, quiet k -> Forall (fun e => ~ starts_polling k e) es) ->
  typed_server sv.
Proof.
  revert sv. induction es as [|e es IH] using rev_ind; intros sv Hes Hq; [injection Hes as <-; apply run_typed|].
  unfold serves in Hes. rewrite foldl_app in Hes. cbn [foldl] in Hes. fold (serves pass_len es (Server_run s)) in Hes.
  destruct (serves pass_len es (Server_run s)) as [sv1|]; [|done]. cbn in Hes.
  eapply serve_typed; [exact Hes| |apply IH; [done|]].
  - intros k Hk. specialize (Hq k Hk). apply Forall_app in Hq as [_ Hq]. by inversion Hq.
  - intros k Hk. specialize (Hq k Hk). by apply Forall_app in Hq as [? _].
Qed.
End Invariant.

(** ** The lookup of the repository

    The function of [Location] is a [LocationClient]: with fuel for the reads
    of the network, where they end; where they do not, [None] is its result
    with any fuel. *)

Definition repository_lookup `{DoubleText} `{LocationNetwork} (fuel : nat) : LocationClient :=
  Location.get_city_by_ip fuel.

Lemma repository_city_plain `{DoubleText} `{LocationNetwork} fuel ip city :
  repository_lookup fuel ip = Some (Ret city) -> no_nul city.
Proof. apply city_no_nul. Qed.

(** ** The tasks of the server *)

Section Tasks.
Context {S : Type} `{AbstractConnection S} `{Crc32} `{StdSort} (pass_len : Z) `{LocationClient}.

(** C5: when the lookup of a city gives no text with a NUL (the repository's
    does not, [repository_city_plain]), whatever the connections send and in
    whatever order things complete, every task that is put in the queue is
    well typed: its id and count are of 32 bits, its time is a [time_t], its
    texts end where a C string ends, and its command is one that has a
    resource. On a connection that is never asked to poll it also has every
    field its command needs, and a new account has a strong password and the
    storage of the server. *)
Theorem tasks_typed es s sv conn task :
  (forall ip city, get_city_by_ip ip = Some (Ret city) -> no_nul city) ->
  serves pass_len es (Server_run s) = Some sv -> (conn, task) ∈ put (s_worker sv) ->
  typed_task task /\ (Forall (fun e => ~ starts_polling conn e) es -> good_task pass_len task).
Proof.
  intros Hcity Hes Hin.
  pose proof (serves_typed pass_len Hcity (fun k => k = conn /\ Forall (fun e => ~ starts_polling conn e) es) es s sv Hes) as Ht.
  destruct (ts_puts _ _ _ (Ht ltac:(by intros k [-> Hk])) conn task Hin) as [Htyped Hgood].
  split; [done|]. intros Hq. by apply Hgood.
Qed.
End Tasks.
