(* ===== verification/Polling.v ===== *)
(** * What a polling connection asks for: server/src/apiclient.cpp

    The timer of a polling connection puts a task of the details of the last
    request and waits again, for ever.  The details are those of the last
    request that was read, whatever it asked for.  The lemmas follow one
    connection through the events of the server; the theorem says how often
    a request that is read while the timer is under way is executed. *)

From S2P Require Import Prelude CxxString Utils Json Common LockQueue Database Store ApiUtils Http ClientUtils Worker Promises Pool ApiClient Server Typing.

(** The tasks put for connection [k], in order. *)
Definition tasks_on (k : nat) (puts : list (nat * Task)) : list Task :=
  omap (fun x => if decide (x.1 = k) then Some x.2 else None) puts.

(** The task asks for [cmd] with the parameters [p], the time apart. *)
Definition asks_for (cmd : cmd_t) (p : Params) (task : Task) : Prop :=
  t_cmd task = cmd /\ set_p_ts 0 (t_request task) = set_p_ts 0 p.

(** The timer of [k] fires. *)
Definition fires (k : nat) (e : server_event) : bool :=
  match e with Fired j false _ => bool_decide (j = k) | _ => false end.

(** Neither is another request read on [k] nor its timer cancelled. *)
Definition keeps_poll (k : nat) (e : server_event) : Prop :=
  match e with
  | Received j _ None _ | Fired j true _ => j <> k
  | _ => True
  end.

Section Polling.
Context {S : Type} `{AbstractConnection S} `{Crc32} `{StdSort} (pass_len : Z) `{LocationClient}.
Implicit Types (sv : Server S).

(** Connection [k] is there with its timer under way, and what it has on
    record is [cmd] and [p], the time apart. *)
Definition polls (k : nat) (cmd : cmd_t) (p : Params) sv : Prop :=
  (k < s_next sv)%nat /\
  exists c, s_conns sv !! k = Some c /\ c_waits c <> 0%nat /\ command (m_RequestDetails (c_client c)) = cmd /\
    set_p_ts 0 (params (m_RequestDetails (c_client c))) = set_p_ts 0 p.

Lemma tasks_on_app k l1 l2 : tasks_on k (l1 ++ l2) = tasks_on k l1 ++ tasks_on k l2.
Proof. apply omap_app. Qed.

Lemma tasks_on_pair k j tasks : tasks_on k (pair j <$> tasks) = if decide (j = k) then tasks else [].
Proof.
  unfold tasks_on. induction tasks as [|t tasks IH]; csimpl; [by case_decide|].
  rewrite IH. by case_decide.
Qed.

(** The tasks a handler of [j] puts for [k]. *)
Lemma handled_tasks k j c r sv :
  tasks_on k (put (s_worker (handled j c r sv))) =
  tasks_on k (put (s_worker sv)) ++
    match r with Ret (_, actions) => if decide (j = k) then tasks_of actions else [] | _ => [] end.
Proof.
  destruct r as [[a actions]| |]; cbn [handled s_worker]; [|by rewrite app_nil_r..].
  by rewrite puts_list, tasks_on_app, tasks_on_pair.
Qed.

(** A handler of another connection leaves this one alone. *)
Lemma handled_other k j c r cmd p sv : j <> k -> polls k cmd p sv -> polls k cmd p (handled j c r sv).
Proof.
  intros Hj [Hk (ck & Hck & Hp)]. destruct r as [[a actions]| |]; (split; [done|]); exists ck; split; try done;
    cbn [handled s_conns]; by rewrite lookup_insert_ne.
Qed.

(** One of its own leaves it polling when it keeps the details, but for the
    time, and the timer is under way then. *)
Lemma handled_own k c r cmd p sv :
  polls k cmd p sv -> command (m_RequestDetails (c_client c)) = cmd ->
  set_p_ts 0 (params (m_RequestDetails (c_client c))) = set_p_ts 0 p ->
  (forall a actions, r = Ret (a, actions) ->
     command (m_RequestDetails a) = cmd /\ set_p_ts 0 (params (m_RequestDetails a)) = set_p_ts 0 p /\
     (c_waits c <> 0%nat \/ async_wait ∈ actions)) ->
  (r <> AssertFail -> (forall a actions, r <> Ret (a, actions)) -> c_waits c <> 0%nat) ->
  polls k cmd p (handled k c r sv).
Proof.
  intros [Hk (ck & Hck & Hp)] Hc Hps Hr Hx. destruct r as [[a actions]|e|]; cbn [handled]; [| |by split; [|exists ck]].
  - destruct (Hr a actions eq_refl) as (Ha & Has & Hw). split; [done|].
    exists (foldl start_action (set_client a c) actions). cbn [s_conns]. rewrite lookup_insert_eq. split; [done|].
    assert (forall c0, c_waits c0 <> 0%nat \/ async_wait ∈ actions -> c_waits (foldl start_action c0 actions) <> 0%nat) as Hwaits.
    { clear. induction actions as [|x actions IH]; intros c0 [?|Hw]; [done|by apply elem_of_nil in Hw|..]; apply IH.
      - left. by destruct x.
      - apply elem_of_cons in Hw as [<-|?]; [by left|by right]. }
    destruct (start_waits (set_client a c) actions) as (E & _ & _). rewrite E.
    split_and!; [by apply Hwaits|done|done].
  - split; [done|]. exists c. cbn [s_conns]. rewrite lookup_insert_eq. split_and!; [done| |done|done]. by apply Hx.
Qed.

(** The timer puts one task of what is on record, and waits again. *)
Lemma timer_task now c cmd p :
  command (m_RequestDetails c) = cmd -> set_p_ts 0 (params (m_RequestDetails c)) = set_p_ts 0 p ->
  exists a task, timerWaitTaskResultHandler false now c = Ret (a, [putTask task; async_wait]) /\
    command (m_RequestDetails a) = cmd /\ set_p_ts 0 (params (m_RequestDetails a)) = set_p_ts 0 p /\ asks_for cmd p task.
Proof.
  intros Hc Hp. unfold timerWaitTaskResultHandler. cbv zeta.
  set (c1 := if u64 _ <? _ then _ else c).
  assert (command (m_RequestDetails c1) = cmd /\ set_p_ts 0 (params (m_RequestDetails c1)) = set_p_ts 0 p) as [Hc1 Hp1].
  { unfold c1. by destruct (_ <? _). }
  eexists _, _. split; [done|]. destruct (5 <? _); split_and!; done.
Qed.

(** What an event does to a connection that polls: it goes on, and gets so
    many tasks more, each of what is on record. *)
Definition poll_step (k : nat) (cmd : cmd_t) (p : Params) (n : nat) sv sv' : Prop :=
  polls k cmd p sv' /\
  exists tasks, tasks_on k (put (s_worker sv')) = tasks_on k (put (s_worker sv)) ++ tasks /\
    Forall (asks_for cmd p) tasks /\ length tasks = n.

Lemma poll_step_none k cmd p sv sv' :
  polls k cmd p sv' -> tasks_on k (put (s_worker sv')) = tasks_on k (put (s_worker sv)) -> poll_step k cmd p 0 sv sv'.
Proof. intros Hp E. split; [done|]. exists []. by rewrite app_nil_r. Qed.

Lemma other_step k j c r cmd p sv : j <> k -> polls k cmd p sv -> poll_step k cmd p 0 sv (handled j c r sv).
Proof.
  intros Hj Hp. apply poll_step_none; [by apply handled_other|].
  rewrite handled_tasks. destruct r as [[a actions]| |]; [rewrite decide_False by done|..]; by rewrite app_nil_r.
Qed.

(** A handler of the connection that keeps the details and puts no task. *)
Lemma silent_step k c0 c r cmd p sv :
  polls k cmd p sv -> s_conns sv !! k = Some c0 -> c_client c = c_client c0 -> c_waits c = c_waits c0 ->
  (forall a actions, r = Ret (a, actions) -> m_RequestDetails a = m_RequestDetails (c_client c0) /\ tasks_of actions = []) ->
  poll_step k cmd p 0 sv (handled k c r sv).
Proof.
  intros Hp Hc0 Ec Ew Hr. pose proof Hp as [Hk (ck & Hck & Hw & Hcmd & Hps)]. rewrite Hc0 in Hck. injection Hck as <-.
  apply poll_step_none.
  - apply handled_own; rewrite ?Ec, ?Ew; try done. intros a actions Ha. destruct (Hr a actions Ha) as [-> _]. by auto.
  - rewrite handled_tasks. destruct r as [[a actions]| |]; [|by rewrite app_nil_r..].
    destruct (Hr a actions eq_refl) as [_ ->]. case_decide; by rewrite app_nil_r.
Qed.

Lemma fired_step k c n now cmd p sv :
  polls k cmd p sv -> s_conns sv !! k = Some c ->
  poll_step k cmd p 1 sv (handled k (mkConn (c_peer c) (c_client c) (c_handshake c) (c_reads c) (c_writes c) n)
    (timerWaitTaskResultHandler false now (c_client c)) sv).
Proof.
  intros Hp Hc. pose proof Hp as [Hk (ck & Hck & Hw & Hcmd & Hps)]. rewrite Hc in Hck. injection Hck as <-.
  destruct (timer_task now (c_client c) cmd p Hcmd Hps) as (a & task & -> & Ha & Has & Htask). split.
  - apply handled_own; [done..| |by intros _ Hr; destruct (Hr a [putTask task; async_wait])].
    intros a' actions [= <- <-]. split_and!; [done..|]. right. right. left.
  - exists [task]. rewrite handled_tasks, decide_True by done. split_and!; [done|by apply Forall_singleton|done].
Qed.

(** The server's own state moves, the connections do not. *)
Lemma pool_step k cmd p sv sv' :
  polls k cmd p sv -> s_conns sv' = s_conns sv -> s_next sv' = s_next sv -> put (s_worker sv') = put (s_worker sv) ->
  poll_step k cmd p 0 sv sv'.
Proof. intros Hp Ec En Ep. apply poll_step_none; [|by rewrite Ep]. unfold polls. by rewrite Ec, En. Qed.

(** What one event does to the connection. *)
Lemma serve_polls e k cmd p sv sv' :
  serve pass_len e sv = Some sv' -> keeps_poll k e -> polls k cmd p sv ->
  poll_step k cmd p (if fires k e then 1 else 0) sv sv'.
Proof.
  intros E Hkeep Hp. unfold serve in E. destruct (s_down sv || _); [done|].
  destruct e as [peer cmd0|j err|j now err reply|j err|j ab now|i now|]; cbn [fires].
  - injection E as <-. pose proof Hp as [Hk Hc].
    apply (other_step k (s_next sv) (mkConn peer (ApiClient_init cmd0) false 0 [] 0) (serveSslClient (ApiClient_init cmd0)) cmd p
      (mkServer (s_conns sv) (Datatypes.S (s_next sv)) (s_worker sv) (s_down sv))); [lia|]. split; [simpl; lia|exact Hc].
  - destruct (s_conns sv !! j) as [c|] eqn:Hj; simpl in E; [|done]. destruct (c_handshake c); [|done]. injection E as <-.
    destruct (decide (j = k)) as [->|Hne]; [|by apply other_step]. apply (silent_step k c); try done.
    intros a actions Hr. by destruct err; injection Hr as <- <-.
  - destruct (s_conns sv !! j) as [c|] eqn:Hj; simpl in E; [|done]. destruct (c_reads c) as [|n]; [done|].
    injection E as <-. rewrite handled_if_spec. destruct (decide (j = k)) as [->|Hne]; [|by apply other_step].
    destruct err as [err|]; [|done]. apply (silent_step k c); try done. by intros a actions [= <- <-].
  - destruct (s_conns sv !! j) as [c|] eqn:Hj; simpl in E; [|done]. destruct (c_writes c) as [|[response h] l]; [done|].
    injection E as <-. destruct (decide (j = k)) as [->|Hne]; [|by apply other_step]. apply (silent_step k c); try done.
    intros a actions Hr. by destruct (wrote_silent _ _ _ _ _ Hr) as (? & ? & _).
  - destruct (s_conns sv !! j) as [c|] eqn:Hj; simpl in E; [|done]. destruct (c_waits c) as [|n]; [done|].
    injection E as <-. destruct (decide (j = k)) as [->|Hne].
    + destruct ab; [done|]. rewrite bool_decide_eq_true_2 by done. by apply fired_step.
    + destruct ab; [|rewrite bool_decide_eq_false_2 by done]; by apply other_step.
  - pose proof (advance_put i now (s_worker sv)) as Hput.
    destruct (aborted (advance i now (s_worker sv))); [injection E as <-; by apply pool_step|].
    destruct (next_call i (s_worker sv)) as [[j call]|]; [|injection E as <-; by apply pool_step].
    destruct (s_conns sv !! j) as [c|] eqn:Hj; simpl in E; [|done]. injection E as <-.
    destruct (pool_step k cmd p sv (set_pool (advance i now (s_worker sv)) sv)) as [Hp' _]; [done..|].
    enough (poll_step k cmd p 0 (set_pool (advance i now (s_worker sv)) sv)
      (handled j c (worker_calls now call (c_client c)) (set_pool (advance i now (s_worker sv)) sv))) as [Hh Ht]
      by (split; [done|]; cbn [set_pool s_worker] in Ht |- *; by rewrite Hput in Ht).
    destruct (decide (j = k)) as [->|Hne]; [|by apply other_step]. apply (silent_step k c); try done.
    intros a actions Ha. by destruct (worker_call_silent _ _ _ _ _ Ha) as (? & ? & _).
  - injection E as <-. by apply pool_step.
Qed.

Lemma serves_polls es k cmd p sv sv' :
  serves pass_len es sv = Some sv' -> Forall (keeps_poll k) es -> polls k cmd p sv ->
  poll_step k cmd p (length (filter (fires k) es)) sv sv'.
Proof.
  revert sv'. induction es as [|e es IH] using rev_ind; intros sv' Hes Hk Hp.
  { injection Hes as <-. by apply poll_step_none. }
  rewrite serves_snoc in Hes. destruct (serves pass_len es sv) as [sv1|] eqn:E1; [|done]. cbn in Hes.
  apply Forall_app in Hk as [Hks [Hke _]%Forall_cons]. destruct (IH sv1 eq_refl Hks Hp) as (Hp1 & l1 & E & Hf1 & Hl1).
  destruct (serve_polls e k cmd p sv1 sv' Hes Hke Hp1) as (Hp' & l2 & E' & Hf2 & Hl2).
  split; [done|]. exists (l1 ++ l2). rewrite E', E, <- app_assoc. split_and!; [done|by apply Forall_app|].
  rewrite length_app, filter_app, length_app, Hl1, Hl2. f_equal. rewrite filter_cons. by destruct (fires k e).
Qed.

(** The connections of a run have the numbers up to the next one. *)
Definition numbered sv : Prop := forall k c, s_conns sv !! k = Some c -> (k < s_next sv)%nat.

Lemma handled_numbered j c r sv : (j < s_next sv)%nat -> numbered sv -> numbered (handled j c r sv).
Proof.
  intros Hj Hn k ck. destruct r as [[a actions]| |]; cbn [handled s_conns s_next]; [..|apply Hn];
    intros [[<- _]|[_ Hk]]%lookup_insert_Some; eauto.
Qed.

Lemma serve_numbered e sv sv' : serve pass_len e sv = Some sv' -> numbered sv -> numbered sv'.
Proof.
  intros E Hn. unfold serve in E. destruct (s_down sv || _); [done|].
  destruct e as [peer cmd0|j err|j now err reply|j err|j ab now|i now|];
    try (destruct (s_conns sv !! j) as [c|] eqn:Hj; simpl in E; [|done]).
  - injection E as <-. apply (handled_numbered (s_next sv) (mkConn peer (ApiClient_init cmd0) false 0 [] 0)
      (serveSslClient (ApiClient_init cmd0)) (mkServer (s_conns sv) (Datatypes.S (s_next sv)) (s_worker sv) (s_down sv)));
      [simpl; lia|]. intros k c Hk%Hn. simpl. lia.
  - destruct (c_handshake c); [|done]. injection E as <-. apply handled_numbered; eauto.
  - destruct (c_reads c); [done|]. injection E as <-. rewrite handled_if_spec. apply handled_numbered; eauto.
  - destruct (c_writes c) as [|[]]; [done|]. injection E as <-. apply handled_numbered; eauto.
  - destruct (c_waits c); [done|]. injection E as <-. apply handled_numbered; eauto.
  - destruct (aborted _); [by injection E as <-|]. destruct (next_call _ _) as [[j call]|]; [|by injection E as <-].
    destruct (s_conns sv !! j) as [c|] eqn:Hj; simpl in E; [|done]. injection E as <-. apply handled_numbered; [by eapply Hn|done].
  - by injection E as <-.
Qed.

Lemma serves_numbered es s sv : serves pass_len es (Server_run s) = Some sv -> numbered sv.
Proof.
  revert sv. induction es as [|e es IH] using rev_ind; intros sv Hes; [injection Hes as <-; by intros k c|].
  rewrite serves_snoc in Hes. destruct (serves pass_len es (Server_run s)) as [sv1|]; [|done].
  eapply serve_numbered; [exact Hes|by apply IH].
Qed.

(** C26: a polling connection executes whatever request it read last, again and
    again.  Let any run of the server come to a state where the timer of a
    connection is under way, and let the connection then read the request of a
    call of the client other than a poll.  The call is put as a task, and, as
    long as no other request is read on the connection and its timer is not
    cancelled, put again each time the timer fires, with the same command and
    parameters but for the time; the timer is always under way again. *)
Theorem request_repeated es s sv k c a body city now sv1 es' sv2 :
  serves pass_len es (Server_run s) = Some sv -> s_conns sv !! k = Some c -> c_waits c <> 0%nat ->
  good_call pass_len a -> call_cmd a <> IDLE -> call_body a = Ret body ->
  (call_cmd a = USER_CREATE -> get_city_by_ip (c_peer c) = Some (Ret city)) ->
  serve pass_len (Received k now None (request_read a body)) sv = Some sv1 ->
  serves pass_len es' sv1 = Some sv2 -> Forall (keeps_poll k) es' ->
  let p := task_params city a (params (m_RequestDetails (c_client c))) in
  exists again,
    tasks_on k (put (s_worker sv2)) =
      tasks_on k (put (s_worker sv)) ++ [mkTask false (call_cmd a) p (call_storage a)] ++ again /\
    Forall (asks_for (call_cmd a) p) again /\ length again = length (filter (fires k) es') /\
    exists c', s_conns sv2 !! k = Some c' /\ c_waits c' <> 0%nat.
Proof.
  intros Hes Hk Hw Ha Hi Hb Hcity E Hes' Hkeep p.
  destruct (request_read_handled pass_len a body (c_peer c) now city (c_client c) Ha Hcity Hb) as (actions & Hs & Hr).
  assert (actions = [putTask (mkTask false (call_cmd a) p (call_storage a))]) as ->
    by (unfold ApiClient.serves in Hs; by destruct (call_cmd a)).
  unfold serve in E. destruct (s_down sv || _); [done|]. rewrite Hk in E. cbn [mbind option_bind] in E.
  destruct (c_reads c) as [|n]; [done|]. rewrite Hr in E. injection E as <-.
  match type of Hes' with serves _ _ ?sv1 = _ => assert (polls k (call_cmd a) p sv1) as Hp end.
  { split; [exact (serves_numbered _ _ _ Hes k c Hk)|]. eexists. cbn [handled_if handled s_conns]. rewrite lookup_insert_eq.
    split_and!; [reflexivity|exact Hw|reflexivity..]. }
  destruct (serves_polls _ _ _ _ _ _ Hes' Hkeep Hp) as ([_ (c' & Hc' & Hw' & _)] & again & E & Hf & Hl).
  exists again. split_and!; [|done..|by exists c'].
  rewrite E.
  match goal with |- context [put (s_worker (mkServer _ _ (Pool.putTask k ?t ?w) _))] =>
    change (put (s_worker (mkServer _ _ (Pool.putTask k t w) _))) with (put w ++ [(k, t)]) end.
  rewrite tasks_on_app, <- app_assoc. do 2 f_equal.
  unfold tasks_on. simpl. by rewrite decide_True.
Qed.
End Polling.
