(* ===== verification/Client.v ===== *)
(** * client/src/client.cpp: the console client

    [Client] as a machine: the members of the object and one definition per
    handler.  A handler gives the new state and what it does, in order: lines
    shown, requests written, reads and connects started.  A handler can fail
    an assertion of the JSON library on a reply.  The connections themselves
    are those of [Http], the console and the threads those of [Threads]. *)

From S2P Require Import Prelude CxxString Utils Json Common Database ApiUtils Http ClientUtils Worker ApiClient.
Import Input Commands.

Inductive mode_t := USUAL | CHAT_U | CHAT_G.

#[export] Instance mode_t_eq_dec : EqDecision mode_t.
Proof. solve_decision. Defined.

Record Client := mkClient {
  state_user : str; state_mode : mode_t;
  m_Host : str; m_Port : Z;
  m_IdleState : bool;
  m_LastCmd : cmd_t;
  m_User : str; m_Password : str;
  m_SelfId : Z; m_SelfChatId : Z; m_HeartBit : Z }.

#[export] Instance Client_eq_dec : EqDecision Client.
Proof. solve_decision. Defined.

Definition Client_init (host : str) (port : Z) (user password : str) : Client :=
  mkClient [] USUAL host port false NONE user password 0 0 0.

Definition set_state (user : str) (mode : mode_t) (c : Client) : Client :=
  mkClient user mode (m_Host c) (m_Port c) (m_IdleState c) (m_LastCmd c) (m_User c) (m_Password c) (m_SelfId c) (m_SelfChatId c) (m_HeartBit c).
Definition set_idle (b : bool) (c : Client) : Client :=
  mkClient (state_user c) (state_mode c) (m_Host c) (m_Port c) b (m_LastCmd c) (m_User c) (m_Password c) (m_SelfId c) (m_SelfChatId c) (m_HeartBit c).
Definition set_last (cmd : cmd_t) (c : Client) : Client :=
  mkClient (state_user c) (state_mode c) (m_Host c) (m_Port c) (m_IdleState c) cmd (m_User c) (m_Password c) (m_SelfId c) (m_SelfChatId c) (m_HeartBit c).
Definition set_password (pass : str) (c : Client) : Client :=
  mkClient (state_user c) (state_mode c) (m_Host c) (m_Port c) (m_IdleState c) (m_LastCmd c) (m_User c) pass (m_SelfId c) (m_SelfChatId c) (m_HeartBit c).
Definition set_self (id chatid heartbit : Z) (c : Client) : Client :=
  mkClient (state_user c) (state_mode c) (m_Host c) (m_Port c) (m_IdleState c) (m_LastCmd c) (m_User c) (m_Password c) id chatid heartbit.

(** [input::help] of client/src/apiclient_utils.hpp. *)
Definition help : str :=
  "Commands are:\n" ++
  "   HELP\n" ++
  "   LOGIN <user> <pass>\n" ++
  "   REGISTER <user> <pass>\n" ++
  "   REGISTER_G <group>\n" ++
  "   CHAT_WITH <user>\n" ++
  "   CHAT_WITH_LOCATION <location>\n" ++
  "   GET_LOCATIONS\n" ++
  "   ADD_TO_G <user> <group>\n" ++
  "   UNCHAT\n" ++
  "   HISTORY <user> [N]\n" ++
  "   HISTORY_G <group> [N]\n" ++
  "   DIRECT_MSG <user> <msg>\n" ++
  "   DIRECT_MSG_G <group> <msg>\n" ++
  "   STATUS <user>\n" ++
  "   STATUS_G <group>\n" ++
  "   QUIT\n".

(** What the client does.  [m_Http] and [m_HttpIdle] are its two
    connections; [createConnect] replaces one by a new, closed one. *)
Inductive action :=
| showMsg (line : str)
| showMessage (from to message : str)
| kill_self
| http_asyncRequest (req : str)
| http_asyncResponse
| http_createConnect
| http_asyncConnect
| idle_asyncRequest (req : str)
| idle_asyncResponse
| idle_createConnect
| idle_asyncConnect
| timeout_cancel
| sleep_ms (ms : Z).

#[local] Abbreviation result := (cxx (Client * list action)).

Definition sendRequest (cmd : cmd_t) (req : str) (c : Client) : Client * list action :=
  (set_last cmd c, [http_asyncRequest req]).

(** A branch of [onUserInput] that builds a body and sends it. *)
Definition sends (cmd : cmd_t) (api : Common.cmd_t) (body : cxx str) (c : Client) : result :=
  body ← body;
  let req := build_request (Common.cmd2string api) "application/json" body in
  mret (sendRequest cmd req c).

Definition onUserInput (msg : str) (c : Client) : result :=
  let args := parse msg in
  if bool_decide (msg <> []) && bool_decide (state_mode c = CHAT_U)
     && negb (bool_decide (cmd args = UNCHAT \/ cmd args = DIRECT_MSG_USER)) then
    sends DIRECT_MSG_USER MESSAGE_SEND
      (build_user_send_msg_body (m_SelfId c) 0 (state_user c) msg (m_Password c)) c
  else
    match cmd args with
    | NONE => mret (c, [showMsg "unrecognized command. type \qHELP\q for help"])
    | UNCHAT => mret (set_state "" USUAL c, [showMsg "switch to usual mode"])
    | QUIT => mret (c, [showMsg "Bye! Client will exit NOW"; kill_self])
    | HELP => mret (c, [showMsg help])
    | REGISTER_USER =>
        sends REGISTER_USER USER_CREATE (build_user_pass_body (reg_name args) (reg_pass args)) c
    | LOGIN =>
        '(c, actions) ← sends LOGIN USER_LOGIN (build_user_pass_body (login_name args) (login_pass args)) c;
        mret (set_password (login_pass args) c, actions)
    | DIRECT_MSG_USER =>
        sends DIRECT_MSG_USER MESSAGE_SEND
          (build_user_send_msg_body (m_SelfId c) 0 (direct_name args) (direct_message args) (m_Password c)) c
    | HISTORY_USER =>
        sends HISTORY_USER USER_HISTORY
          (build_user_history_msg_body (m_SelfId c) (history_name args) (history_count args) (m_Password c)) c
    | STATUS_USER =>
        sends STATUS_USER USER_STATUS
          (build_user_history_msg_body (m_SelfId c) (status_name args) 0 (m_Password c)) c
    | CHAT_WITH_USER => mret (set_state (chat_name args) CHAT_U c, [showMsg ("chat with: " ++ chat_name args)])
    | REGISTER_GROUP =>
        sends REGISTER_GROUP CHAT_CREATE
          (build_groups_msg_body (m_SelfId c) (group_groupname args) "" "" (m_Password c)) c
    | ADD_TO_GROUP =>
        sends ADD_TO_GROUP CHAT_ADDUSER
          (build_groups_msg_body (m_SelfId c) (group_groupname args) (group_username args) "" (m_Password c)) c
    | DIRECT_MSG_GROUP =>
        sends DIRECT_MSG_GROUP MESSAGE_SEND_CHAT
          (build_groups_msg_body (m_SelfId c) (direct_name args) "" (direct_message args) (m_Password c)) c
    | CHAT_WITH_LOCATION =>
        sends CHAT_WITH_LOCATION Common.CHAT_WITH_LOCATION
          (build_location_body (m_SelfId c) (location_location args) (m_Password c)) c
    | GET_LOCATIONS =>
        sends GET_LOCATIONS Common.GET_LOCATIONS (build_location_body (m_SelfId c) "192.168.1.9" (m_Password c)) c
    | HISTORY_GROUP | STATUS_GROUP => mret (c, [showMsg "unsupported command"])
    end.

Definition onHttpConnect (e : option conn_error) (c : Client) : result :=
  match e with
  | Some _ => mret (c, [sleep_ms 1000; http_asyncConnect])
  | None =>
      let shown := showMsg ("connected to server: " ++ m_Host c ++ ":" ++ to_string (m_Port c)) in
      if decide (m_User c <> [] /\ m_Password c <> []) then
        '(c, actions) ← sends LOGIN USER_LOGIN (build_user_pass_body (m_User c) (m_Password c)) c;
        mret (c, shown :: actions)
      else mret (c, [shown])
  end.

Definition onHttpWrite (error : option conn_error) (c : Client) : result :=
  match error with
  | Some _ => mret (c, [timeout_cancel])
  | None => mret (c, [http_asyncResponse])
  end.

Definition shown_message (r : msg_response_t) : action := showMessage (a_from r) (a_to r) (a_msg r).

(** The replies whose messages are shown: a history, or what an idle
    connection brings. *)
Definition show_messages (body : str) : cxx (list action) :=
  '(err, response) ← parse_msg_response body [];
  if decide (err <> []) then mret [showMsg ("error: " ++ err)]
  else mret (shown_message <$> response).

Definition status_line (resp : response_t) : str :=
  let last_online := if r_heartbit resp <? r_server_ts resp then r_server_ts resp - r_heartbit resp else 0 in
  if last_online <? 5 then "user online"
  else "user was online at about " ++ to_string last_online ++ " seconds ago".

(** [idle_open] is [m_HttpIdle->isOpen()]. *)
Definition onHttpRead (idle_open : bool) (error : option conn_error) (reply : HttpReply) (c : Client) : result :=
  match error with
  | Some _ => mret (c, [timeout_cancel; http_createConnect; http_asyncConnect])
  | None =>
    if decide (_status reply <> 200) then
      mret (c, [timeout_cancel; showMsg (to_string (_status reply)); showMsg (_body reply)])
    else
      let before := [timeout_cancel; showMsg "200 OK"] in
      match m_LastCmd c with
      | LOGIN =>
          '(err, resp) ← parse_response_aswer (_body reply) response_init;
          if decide (err <> []) then mret (c, before ++ [showMsg err])
          else
            mret (set_self (r_uid resp) (r_chatid resp) (r_heartbit resp) c,
                  before ++ (if idle_open then [] else [idle_asyncConnect]))
      | HISTORY_USER =>
          shown ← show_messages (_body reply);
          mret (c, before ++ shown)
      | STATUS_USER =>
          '(err, resp) ← parse_response_aswer (_body reply) response_init;
          if decide (err <> []) then mret (c, before ++ [showMsg err])
          else mret (c, before ++ [showMsg (status_line resp)])
      | GET_LOCATIONS =>
          '(err, resp) ← parse_location_response (_body reply) (mkLocResponse 0 []);
          if decide (err <> []) then mret (c, before ++ [showMsg err])
          else mret (c, before ++ ((fun l => showMsg ("location: " ++ l)) <$> locations resp))
      | CHAT_WITH_LOCATION =>
          '(err, resp) ← parse_chat_loc_response (_body reply) (mkChatLocResponse 0 []);
          if decide (err <> []) then mret (c, before ++ [showMsg err])
          else mret (c, before ++ ((fun u => showMsg ("user: " ++ u)) <$> users resp))
      | _ => mret (c, before)
      end
  end.

Definition onHttpIdleConnect (e : option conn_error) (c : Client) : result :=
  match e with
  | Some _ => mret (c, [sleep_ms 100; idle_asyncConnect])
  | None =>
      body ← build_user_send_msg_body (m_SelfId c) (m_HeartBit c) "" "" (m_Password c);
      mret (c, [idle_asyncRequest (build_request (Common.cmd2string IDLE) "application/json" body)])
  end.

Definition onHttpIdleWrite (error : option conn_error) (c : Client) : result :=
  match error with
  | Some _ => mret (c, [])
  | None => mret (c, [idle_asyncResponse])
  end.

Definition onHttpIdleRead (error : option conn_error) (reply : HttpReply) (c : Client) : result :=
  let is_error := match error with Some _ => true | None => negb (bool_decide (_status reply = 200)) end in
  if is_error then
    mret (set_idle false c,
          [showMsg "connection is broken, please relogin"; idle_createConnect; http_createConnect; http_asyncConnect])
  else if negb (m_IdleState c) then
    mret (set_idle true c, [idle_asyncResponse])
  else
    shown ← show_messages (_body reply);
    mret (c, shown ++ [idle_asyncResponse]).

(** ** What is typed is what is sent *)

(** The call of the API a command stands for, from this client. *)
Definition api_of (c : Client) (t : typed) : option api_call :=
  match t with
  | Login user pass => Some (LoginAs user pass)
  | Commands.Register user pass => Some (ApiClient.Register user pass)
  | Register_g group => Some (NewChat (m_SelfId c) group (m_Password c))
  | Add_to_g user group => Some (AddUser (m_SelfId c) group user (m_Password c))
  | History user n => Some (History_of (m_SelfId c) user n (m_Password c))
  | Direct_msg user msg => Some (Send (m_SelfId c) user msg (m_Password c))
  | Direct_msg_g group msg => Some (SendChat (m_SelfId c) group msg (m_Password c))
  | Status user => Some (Status_of (m_SelfId c) user 0 (m_Password c))
  | Get_locations => Some (Locations (m_SelfId c) "192.168.1.9" (m_Password c))
  | Chat_with_location location => Some (UsersFrom (m_SelfId c) location (m_Password c))
  | _ => None
  end.

(** The client after a request: the command is noted, and the password of a
    login. *)
Definition after_sending (t : typed) (c : Client) : Client :=
  let c := set_last (cmd (meaning t)) c in
  match t with Login _ pass => set_password pass c | _ => c end.

Lemma sends_ok cmd api body b c :
  body = Ret b ->
  sends cmd api body c = Ret (set_last cmd c, [http_asyncRequest (build_request (Common.cmd2string api) "application/json" b)]).
Proof. by intros ->. Qed.

(** The branch of [onUserInput] for a command, its body left folded. *)
Ltac in_branch :=
  cbn [meaning args_default with_login with_reg with_chat with_group with_history with_direct with_status with_location
       cmd login_name login_pass reg_name reg_pass chat_name group_groupname group_username
       history_name history_count direct_name direct_message status_name location_location call_body].

Lemma typed_command_branch c t a body :
  well_typed t -> state_mode c <> CHAT_U -> api_of c t = Some a -> call_body a = Ret body ->
  onUserInput (render t) c = Ret (after_sending t c, [http_asyncRequest (client_request a body)]).
Proof.
  intros Ht Hm Ha Hb. unfold onUserInput. rewrite (parse_render_at t Ht).
  rewrite (bool_decide_eq_false_2 (state_mode c = CHAT_U)) by done. rewrite andb_false_r. cbn [andb].
  destruct t; try discriminate Ha; injection Ha as <-; in_branch; by rewrite (sends_ok _ _ _ _ _ Hb).
Qed.

(** A command typed as the help says makes the client write one
    request: the one of the call the command stands for, with the id and
    password of the client. What the server makes of those bytes is in
    [ApiClient]. *)
Theorem typed_command_sent c t a body :
  well_typed t -> state_mode c <> CHAT_U -> api_of c t = Some a -> call_body a = Ret body ->
  onUserInput (render t) c = Ret (after_sending t c, [http_asyncRequest (client_request a body)]).
Proof.
  apply typed_command_branch.
Qed.

(** In a chat with a user every line but the two commands that are let
    through is sent to that user as it was typed, also the lines that read as
    commands. *)
Theorem chat_line_sent c msg body :
  state_mode c = CHAT_U -> msg <> [] -> cmd (parse msg) <> UNCHAT -> cmd (parse msg) <> DIRECT_MSG_USER ->
  call_body (Send (m_SelfId c) (state_user c) msg (m_Password c)) = Ret body ->
  onUserInput msg c = Ret (set_last DIRECT_MSG_USER c,
    [http_asyncRequest (client_request (Send (m_SelfId c) (state_user c) msg (m_Password c)) body)]).
Proof.
  intros Hm Hne Hu Hd Hb. unfold onUserInput.
  rewrite !bool_decide_eq_true_2, bool_decide_eq_false_2 by tauto. cbn [andb negb]. unfold sends.
  cbn [call_body] in Hb. rewrite Hb. done.
Qed.

(** ** What is answered is what is shown *)

Definition ok_reply (body : str) : HttpReply := set_body body (set_status 200 no_reply).

(** The answer to a login, as the server writes it, makes the client the
    user of that id and chat, and opens the connection on which it polls unless
    that is open. *)
Theorem login_answered c u now idle_open :
  user_in_range u -> in_u 64 now -> m_LastCmd c = LOGIN ->
  exists body, ok_body_user u now = Ret body /\
    onHttpRead idle_open None (ok_reply body) c =
      Ret (set_self (u_id u) (u_self_chat_id u) (u_heartbit u) c,
           [timeout_cancel; showMsg "200 OK"] ++ (if idle_open then [] else [idle_asyncConnect])).
Proof.
  intros Hu Hn Hl. destruct (user_reply_understood_at u now response_init Hu Hn) as (body & Hb & Hp).
  exists body. split; [done|]. unfold onHttpRead. cbn [ok_reply set_body set_status _status _body].
  rewrite decide_False by tauto. rewrite Hl, Hp. cbn [mbind cxx_bind]. by rewrite decide_False by tauto.
Qed.

Lemma polled_messages_shown_at c msgs now :
  Forall (fun m => in_u 64 (a_ts m)) msgs -> in_u 64 now ->
  exists body, ok_body_msgs msgs now = Ret body /\
    onHttpIdleRead None (ok_reply body) c =
      Ret (set_idle true c,
           (if m_IdleState c then shown_message <$> (as_shown <$> msgs) else []) ++ [idle_asyncResponse]).
Proof.
  intros Hm Hn. destruct (msgs_reply_understood_at msgs now Hm Hn) as (body & Hb & Hp).
  exists body. split; [done|]. unfold onHttpIdleRead. cbn [ok_reply set_body set_status _status _body].
  rewrite bool_decide_eq_true_2 by done. cbn [negb]. destruct (m_IdleState c) eqn:Hi; cbn [negb]; [|done].
  unfold show_messages. rewrite Hp. cbn [mbind cxx_bind]. rewrite decide_False by tauto.
  cbn [mbind cxx_bind mret cxx_ret]. by destruct c; cbn in Hi; subst.
Qed.

(** The first answer of a polling connection is taken as its
    acknowledgement; after it, the messages of an answer are shown, all of them
    and in order, and the next answer is waited for. *)
Theorem polled_messages_shown c msgs now :
  Forall (fun m => in_u 64 (a_ts m)) msgs -> in_u 64 now ->
  exists body, ok_body_msgs msgs now = Ret body /\
    onHttpIdleRead None (ok_reply body) c =
      Ret (set_idle true c,
           (if m_IdleState c then shown_message <$> (as_shown <$> msgs) else []) ++ [idle_asyncResponse]).
Proof. apply polled_messages_shown_at. Qed.

(** ** Two ways to lose the account *)

(** A login that the server refuses still replaces the password, while
    the id stays the one of the account in use, so that the next requests of a
    user who was logged in are refused. *)
Theorem refused_login_spoils_password c name pass err idle_open :
  no_space name -> no_space pass -> state_mode c <> CHAT_U -> good_text name -> good_text pass ->
  exists c1 req c2 actions,
    onUserInput (render (Login name pass)) c = Ret (c1, [http_asyncRequest req]) /\
    onHttpRead idle_open None (set_body err (set_status 403 no_reply)) c1 = Ret (c2, actions) /\
    m_SelfId c2 = m_SelfId c /\ m_Password c2 = pass.
Proof.
  intros Hn Hp Hm Hgn Hgp.
  pose proof (call_body_ok 0 (LoginAs name pass) (conj Hgn Hgp)) as Hb.
  pose proof (typed_command_branch c (Login name pass) _ _ (conj Hn Hp) Hm eq_refl Hb) as E.
  eexists _, _, _, _. split_and!; [exact E|reflexivity|done|done].
Qed.

(** When a second command is typed before the answer to a login came,
    that answer is read as the one to the second command, and the client does
    not take the id it brings. *)
Theorem login_answer_overtaken c1 t c2 actions idle_open reply c3 actions' a body :
  well_typed t -> state_mode c1 <> CHAT_U -> api_of c1 t = Some a -> call_body a = Ret body ->
  (forall user pass, t <> Login user pass) ->
  onUserInput (render t) c1 = Ret (c2, actions) ->
  onHttpRead idle_open None reply c2 = Ret (c3, actions') ->
  m_SelfId c3 = m_SelfId c1.
Proof.
  intros Ht Hm Ha Hb Hl Hin Hr. rewrite (typed_command_branch c1 t a body Ht Hm Ha Hb) in Hin.
  injection Hin as <- _.
  assert (m_LastCmd (after_sending t c1) <> LOGIN) as Hcmd
    by (destruct t; try discriminate; by destruct (Hl user pass)).
  assert (m_SelfId (after_sending t c1) = m_SelfId c1) as <- by by destruct t.
  revert Hr. unfold onHttpRead, mbind, cxx_bind. repeat case_match; by intros [= <- <-].
Qed.

(** ** The properties at a logged-in client *)

Definition logged_in : Client :=
  set_self 7 12 100 (set_password "secret_1" (Client_init "geo.chat" 7788 [] [])).

Definition hello : typed := Direct_msg "bob" "it's quarter past 5".
Definition hello_call : api_call := Send 7 "bob" "it's quarter past 5" "secret_1".
Definition hello_body : str := match call_body hello_call with Ret b => b | _ => [] end.

Lemma hello_typed : well_typed hello.
Proof. by repeat split; try discriminate; vm_compute. Qed.

Lemma typed_command_sent_witness :
  onUserInput "DIRECT_MSG bob it's quarter past 5" logged_in =
    Ret (set_last DIRECT_MSG_USER logged_in, [http_asyncRequest (client_request hello_call hello_body)]).
Proof. apply (typed_command_sent logged_in hello); [exact hello_typed|discriminate|done|by vm_compute]. Defined.

Definition chatting : Client := set_state "bob" CHAT_U logged_in.
Definition quit_call : api_call := Send 7 "bob" "quit" "secret_1".
Definition quit_body : str := match call_body quit_call with Ret b => b | _ => [] end.

Lemma chat_line_sent_witness :
  onUserInput "quit" chatting =
    Ret (set_last DIRECT_MSG_USER chatting, [http_asyncRequest (client_request quit_call quit_body)]).
Proof. apply (chat_line_sent chatting "quit"); by vm_compute. Defined.

Lemma login_answered_witness :
  exists body, ok_body_user sample_user 105 = Ret body /\
    onHttpRead false None (ok_reply body) (set_last LOGIN (Client_init "h" 1 [] [])) =
      Ret (set_self 7 12 100 (set_last LOGIN (Client_init "h" 1 [] [])),
           [timeout_cancel; showMsg "200 OK"; idle_asyncConnect]).
Proof.
  apply (login_answered (set_last LOGIN (Client_init "h" 1 [] [])) sample_user 105 false); [by repeat split|done|done].
Defined.

Lemma polled_messages_shown_witness :
  exists body, ok_body_msgs sample_msgs 9 = Ret body /\
    onHttpIdleRead None (ok_reply body) (set_idle true logged_in) =
      Ret (set_idle true logged_in,
           [showMessage "al\qice" "bob" "one\n"; showMessage "bob" "al\qice" "two"; idle_asyncResponse]).
Proof. apply (polled_messages_shown (set_idle true logged_in) sample_msgs 9); [by repeat constructor|done]. Defined.

Lemma refused_login_spoils_password_witness :
  exists c1 req c2 actions,
    onUserInput "LOGIN alise oops" logged_in = Ret (c1, [http_asyncRequest req]) /\
    onHttpRead true None (set_body "{}" (set_status 403 no_reply)) c1 = Ret (c2, actions) /\
    m_SelfId c2 = 7 /\ m_Password c2 = "oops".
Proof.
  apply (refused_login_spoils_password logged_in "alise" "oops" "{}" true);
    [vm_compute; set_solver|vm_compute; set_solver|discriminate|..];
    (split; [discriminate|apply (bool_decide_unpack _); by vm_compute]).
Defined.

(** A login and a message typed one after the other; the answer to the login
    arrives then. *)
Definition hurried : Client := set_last LOGIN (Client_init "h" 1 [] "secret_1").
Definition hurried_call : api_call := Send 0 "bob" "it's quarter past 5" "secret_1".
Definition hurried_body : str := match call_body hurried_call with Ret b => b | _ => [] end.
Definition login_reply : HttpReply :=
  ok_reply (match ok_body_user sample_user 105 with Ret b => b | _ => [] end).

Lemma login_answer_overtaken_witness :
  let c2 := set_last DIRECT_MSG_USER hurried in
  onHttpRead false None login_reply c2 = Ret (c2, [timeout_cancel; showMsg "200 OK"]) /\ m_SelfId c2 = 0.
Proof.
  split; [by vm_compute|].
  apply (login_answer_overtaken hurried hello (set_last DIRECT_MSG_USER hurried)
    [http_asyncRequest (client_request hurried_call hurried_body)] false login_reply
    (set_last DIRECT_MSG_USER hurried) [timeout_cancel; showMsg "200 OK"] hurried_call hurried_body);
    [exact hello_typed|discriminate|done|by vm_compute|discriminate|by vm_compute|by vm_compute].
Defined.
