(* ===== verification/ClientRun.v ===== *)
(** * The console client at work: client/src/client.cpp with its threads

    The terminal, the thread of the events, the handlers of [Client] and its
    two connections put together.  An event is a round of the terminal, a
    round of the events thread, or the completion of an operation that is
    under way on a connection; which comes next is not fixed.  A handler runs
    to its end in one step.

    The client holds each connection by one shared pointer, and the handlers
    of [AsyncHttpClient] refer to the object by a plain pointer: a connect or
    a read that completes after [createConnect] has replaced the object uses
    it after its end.  The machine says so; what happens next it does not.
    The time limit of the start cancels what is under way on a connection,
    which then completes with an error, as it may at any time. *)

From S2P Require Import Prelude CxxString Utils Json Common LockQueue Database ApiUtils Http ClientUtils Worker ApiClient Threads Client.
Import Input Commands.

(** ** The connections *)

Inductive kind := Connecting | Shaking | Writing | Reading.

#[export] Instance kind_eq_dec : EqDecision kind.
Proof. solve_decision. Defined.

(** An operation under way: on which connection, with the handlers of
    [m_Http] or of [m_HttpIdle]. *)
Record op := mkOp { o_idle : bool; o_conn : nat; o_kind : kind }.

#[export] Instance op_eq_dec : EqDecision op.
Proof. solve_decision. Defined.

(** The objects made by [createConnect] have numbers.  [n_http] and [n_idle]
    are those [m_Http] and [m_HttpIdle] point to; [n_open] those whose
    [m_IsOpen] is set, [n_ready] those whose handshake is done; [n_sent] the
    requests given to [asyncRequest], with their connection. *)
Record Net := mkNet {
  n_http : nat; n_idle : nat; n_next : nat;
  n_open : list nat; n_ready : list nat;
  n_ops : list op;
  n_sent : list (nat * str) }.

Definition conn_of (idle : bool) (n : Net) : nat := if idle then n_idle n else n_http n.

Definition start_op (idle : bool) (k : kind) (n : Net) : Net :=
  mkNet (n_http n) (n_idle n) (n_next n) (n_open n) (n_ready n)
    (n_ops n ++ [mkOp idle (conn_of idle n) k]) (n_sent n).
Definition drop_op (i : nat) (n : Net) : Net :=
  mkNet (n_http n) (n_idle n) (n_next n) (n_open n) (n_ready n) (delete i (n_ops n)) (n_sent n).
Definition note_sent (idle : bool) (req : str) (n : Net) : Net :=
  mkNet (n_http n) (n_idle n) (n_next n) (n_open n) (n_ready n) (n_ops n) (n_sent n ++ [(conn_of idle n, req)]).
Definition note_open (conn : nat) (n : Net) : Net :=
  mkNet (n_http n) (n_idle n) (n_next n) (conn :: n_open n) (n_ready n) (n_ops n) (n_sent n).
Definition note_ready (conn : nat) (n : Net) : Net :=
  mkNet (n_http n) (n_idle n) (n_next n) (n_open n) (conn :: n_ready n) (n_ops n) (n_sent n).
Definition replace_conn (idle : bool) (n : Net) : Net :=
  mkNet (if idle then n_http n else n_next n) (if idle then n_next n else n_idle n) (S (n_next n))
    (n_open n) (n_ready n) (n_ops n) (n_sent n).

(** What an action of a handler does to the connections. *)
Definition perform (n : Net) (a : action) : Net :=
  match a with
  | http_asyncConnect => start_op false Connecting n
  | http_asyncRequest req => start_op false Writing (note_sent false req n)
  | http_asyncResponse => start_op false Reading n
  | http_createConnect => replace_conn false n
  | idle_asyncConnect => start_op true Connecting n
  | idle_asyncRequest req => start_op true Writing (note_sent true req n)
  | idle_asyncResponse => start_op true Reading n
  | idle_createConnect => replace_conn true n
  | showMsg _ | showMessage _ _ _ | kill_self | timeout_cancel | sleep_ms _ => n
  end.

(** The lines an action puts on the screen. *)
Definition shown (a : action) : list str :=
  match a with
  | showMsg line => [Threads.showMsg line]
  | showMessage from to message => [Threads.showMessage from to message]
  | _ => []
  end.

Definition is_kill (a : action) : bool := match a with kill_self => true | _ => false end.

(** ** The program *)

Record Program := mkProgram {
  p_console : Console;
  p_client : Client;
  p_net : Net;
  p_screen : list str;
  p_killed : bool }.

Definition set_console (k : Console) (p : Program) : Program :=
  mkProgram k (p_client p) (p_net p) (p_screen p) (p_killed p).
Definition set_net (n : Net) (p : Program) : Program :=
  mkProgram (p_console p) (p_client p) n (p_screen p) (p_killed p).

(** [Stopped]: an assertion of the JSON library, or an exception that leaves
    the thread of the events.  [Dangling]: a member of an object is called
    after its end. *)
Inductive outcome := Runs (p : Program) | Stopped | Dangling.

(** [kill(getpid(), SIGINT)] ends the process: no handler is installed. *)
Definition acted (c : Client) (actions : list action) (p : Program) : Program :=
  mkProgram (p_console p) c (foldl perform (p_net p) actions) (p_screen p ++ (actions ≫= shown))
    (p_killed p || existsb is_kill actions).

(** A handler of the I/O thread, whose loop catches exceptions, and the
    callback of the events thread, whose loop does not. *)
Definition io_handled (r : cxx (Client * list action)) (p : Program) : outcome :=
  match r with
  | Ret (c, actions) => Runs (acted c actions p)
  | Throw _ => Runs p
  | AssertFail => Stopped
  end.
Definition input_handled (r : cxx (Client * list action)) (p : Program) : outcome :=
  match r with
  | Ret (c, actions) => Runs (acted c actions p)
  | Throw _ | AssertFail => Stopped
  end.

(** How an operation completes.  A connect has an error of the system, or
    of [makeConnected] when the system's was none.  A read has the error and
    the reply; [copied] when the body comes in chunks and the head had been
    read before, since those handlers copy the object; [opened] is
    [is_open()] of the socket of [m_HttpIdle]. *)
Inductive completion :=
| Connected (tcp named : option conn_error)
| Shaken (e : option conn_error)
| Written (e : option conn_error)
| Received (copied opened : bool) (e : option conn_error) (reply : HttpReply).

(** [m_HttpIdle->isOpen()].  A connect closes the socket and opens it; else
    a socket that was connected stays open. *)
Definition idle_isOpen (opened : bool) (n : Net) : bool :=
  bool_decide (n_idle n ∈ n_open n) &&
  (opened || negb (bool_decide (mkOp true (n_idle n) Connecting ∈ n_ops n))).

Definition on_connect (idle : bool) (e : option conn_error) (p : Program) : outcome :=
  io_handled (if idle then onHttpIdleConnect e (p_client p) else onHttpConnect e (p_client p)) p.

(** The object of the operation is still there. *)
Definition alive (n : Net) (o : op) : bool := bool_decide (o_conn o = conn_of (o_idle o) n).

(** The operation [o] completes; it is not among those of [p] any more. *)
Definition complete (o : op) (d : completion) (p : Program) : option outcome :=
  let c := p_client p in
  match o_kind o, d with
  | Connecting, Connected tcp named =>
      Some (if alive (p_net p) o then
        match tcp with
        | Some e => on_connect (o_idle o) (Some e) p
        | None =>
            let p := set_net (note_open (o_conn o) (p_net p)) p in
            match named with
            | Some e => on_connect (o_idle o) (Some e) p
            | None => Runs (set_net (start_op (o_idle o) Shaking (p_net p)) p)
            end
        end
      else Dangling)
  | Shaking, Shaken e =>
      Some (if alive (p_net p) o then
        on_connect (o_idle o) e
          (if e is Some _ then p else set_net (note_ready (o_conn o) (p_net p)) p)
      else Dangling)
  | Writing, Written e =>
      Some (io_handled (if o_idle o then onHttpIdleWrite e c else onHttpWrite e c) p)
  | Reading, Received copied opened e reply =>
      Some (if alive (p_net p) o || copied then
        io_handled (if o_idle o then onHttpIdleRead e reply c
                    else onHttpRead (idle_isOpen opened (p_net p)) e reply c) p
      else Dangling)
  | _, _ => None
  end.

Inductive event :=
| Terminal
| Work
| Completed (i : nat) (d : completion).

(** [None]: the event cannot happen. *)
Definition run_event (e : event) (p : Program) : option outcome :=
  if p_killed p then None
  else
    let k := p_console p in
    match e with
    | Terminal =>
        let k' := match Threads.typed k with
          | line :: rest => mkConsole rest (pollingUserInput (Some line) (events k)) (called k)
          | [] => mkConsole [] (pollingUserInput None (events k)) (called k)
          end in
        Some (Runs (set_console k' p))
    | Work =>
        let '(ev, q) := processQueue (events k) in
        let p := set_console (mkConsole (Threads.typed k) q (called k ++ option_list (msg <$> ev))) p in
        match ev with
        | Some ev => Some (input_handled (onUserInput (msg ev) (p_client p)) p)
        | None => Some (Runs p)
        end
    | Completed i d =>
        o ← n_ops (p_net p) !! i;
        complete o d (set_net (drop_op i (p_net p)) p)
    end.

(** The client when its threads are started ([Client::run]): two closed
    connections, the first of which connects. *)
Definition client_program (host : str) (port : Z) (user password : str) (lines : list str) : Program :=
  mkProgram (console_start lines) (Client_init host port user password)
    (start_op false Connecting (mkNet 0 1 2 [] [] [] [])) [] false.

(** The steps whose events satisfy [ok]. *)
Definition step_of (ok : event -> Program -> Prop) (p p' : Program) : Prop :=
  exists e, ok e p /\ run_event e p = Some (Runs p').
Definition client_step : Program -> Program -> Prop := step_of (fun _ _ => True).

(** ** What the handlers ask of the connections *)

#[export] Instance parse_response_aswer_no_throw json r : NoThrow (parse_response_aswer json r).
Proof. unfold parse_response_aswer, member_uint64. nothrow. Qed.
#[export] Instance parse_msgs_no_throw l r : NoThrow (parse_msgs l r).
Proof.
  revert r. induction l as [|v l IH]; intros r; cbn [parse_msgs]; [apply _|].
  unfold msg_response, member_uint64, member_string. nothrow.
Qed.
#[export] Instance parse_msg_response_no_throw json r : NoThrow (parse_msg_response json r).
Proof. unfold parse_msg_response. nothrow. Qed.
#[export] Instance collect_no_throw key l out : NoThrow (collect key l out).
Proof. revert out. induction l as [|x l IH]; intros out; cbn [collect]; nothrow. Qed.
#[export] Instance member_list_no_throw v name key out : NoThrow (member_list v name key out).
Proof. unfold member_list. nothrow. Qed.
#[export] Instance parse_location_response_no_throw json r : NoThrow (parse_location_response json r).
Proof. unfold parse_location_response, member_uint64. nothrow. Qed.
#[export] Instance parse_chat_loc_response_no_throw json r : NoThrow (parse_chat_loc_response json r).
Proof. unfold parse_chat_loc_response, member_uint64. nothrow. Qed.
#[export] Instance sends_no_throw command api body c : NoThrow body -> NoThrow (sends command api body c).
Proof. intros Hb. unfold sends. nothrow. Qed.

(** Every body the client sends is written by [write]. *)
Ltac unfold_bodies :=
  unfold build_user_pass_body, build_user_send_msg_body, build_user_history_msg_body, build_groups_msg_body,
    build_location_body.

#[export] Instance onUserInput_no_throw msg c : NoThrow (onUserInput msg c).
Proof. unfold onUserInput. unfold_bodies. nothrow. Qed.
#[export] Instance onHttpConnect_no_throw e c : NoThrow (onHttpConnect e c).
Proof. unfold onHttpConnect. unfold_bodies. nothrow. Qed.
#[export] Instance onHttpRead_no_throw open e reply c : NoThrow (onHttpRead open e reply c).
Proof. unfold onHttpRead, show_messages. nothrow. Qed.
#[export] Instance onHttpIdleConnect_no_throw e c : NoThrow (onHttpIdleConnect e c).
Proof. unfold onHttpIdleConnect. unfold_bodies. nothrow. Qed.
#[export] Instance onHttpIdleRead_no_throw e reply c : NoThrow (onHttpIdleRead e reply c).
Proof. unfold onHttpIdleRead, show_messages. nothrow. Qed.

(** The actions that concern the connections. *)
Definition is_net (a : action) : Prop :=
  match a with
  | showMsg _ | showMessage _ _ _ | kill_self | timeout_cancel | sleep_ms _ => False
  | _ => True
  end.

#[export] Instance is_net_dec a : Decision (is_net a).
Proof. destruct a; apply _. Defined.

Lemma perform_net actions n : foldl perform n actions = foldl perform n (filter is_net actions).
Proof.
  revert n. induction actions as [|a l IH]; intros n; [done|].
  rewrite filter_cons. case_decide as Ha; cbn [foldl]; [apply IH|]. rewrite IH. by destruct a.
Qed.

(** The command on record after the request of a call: by it the client
    reads the answer. *)
Definition answer_of (a : api_call) : option cmd_t :=
  match a with
  | ApiClient.Register _ _ => Some REGISTER_USER
  | LoginAs _ _ => Some LOGIN
  | Send _ _ _ _ => Some DIRECT_MSG_USER
  | SendChat _ _ _ _ => Some DIRECT_MSG_GROUP
  | History_of _ _ _ _ => Some HISTORY_USER
  | Status_of _ _ _ _ => Some STATUS_USER
  | NewChat _ _ _ => Some REGISTER_GROUP
  | AddUser _ _ _ _ => Some ADD_TO_GROUP
  | Locations _ _ _ => Some GET_LOCATIONS
  | UsersFrom _ _ _ => Some CHAT_WITH_LOCATION
  | StartIdle _ _ _ => None
  end.

(** The one request of a call, with its command on record. *)
Definition requests (c : Client) (actions : list action) : Prop :=
  exists a body, call_body a = Ret body /\ answer_of a = Some (m_LastCmd c) /\
    filter is_net actions = [http_asyncRequest (client_request a body)].

Definition quiet (c c' : Client) (actions : list action) : Prop :=
  filter is_net actions = [] /\ m_LastCmd c' = m_LastCmd c.

Lemma sends_requests command a c c' actions :
  answer_of a = Some command -> sends command (call_cmd a) (call_body a) c = Ret (c', actions) ->
  requests c' actions.
Proof.
  intros Ha E. unfold sends in E. destruct (call_body a) as [body| |] eqn:Hb; [|done..].
  injection E as <- <-. by exists a, body.
Qed.

Lemma onUserInput_net msg c c' actions :
  onUserInput msg c = Ret (c', actions) -> requests c' actions \/ quiet c c' actions.
Proof.
  unfold onUserInput. case_match.
  { intros E. left. by eapply (sends_requests _ (Send _ _ _ _)) in E. }
  destruct (cmd (parse msg)); intros E; try (right; injection E as <- <-; by split); left.
  - destruct (sends _ _ _ _) as [[c1 l]| |] eqn:Es; [|done..]. injection E as <- <-.
    eapply (sends_requests LOGIN (LoginAs _ _)) in Es as (a & body & Hb & Ha & Hl); [|done]. by exists a, body.
  - by eapply (sends_requests _ (ApiClient.Register _ _)) in E.
  - by eapply (sends_requests _ (NewChat _ _ _)) in E.
  - by eapply (sends_requests _ (Locations _ _ _)) in E.
  - by eapply (sends_requests _ (UsersFrom _ _ _)) in E.
  - by eapply (sends_requests _ (AddUser _ _ _ _)) in E.
  - by eapply (sends_requests _ (History_of _ _ _ _)) in E.
  - by eapply (sends_requests _ (Send _ _ _ _)) in E.
  - by eapply (sends_requests _ (SendChat _ _ _ _)) in E.
  - by eapply (sends_requests _ (Status_of _ _ _ _)) in E.
Qed.

Lemma onHttpConnect_net e c c' actions :
  onHttpConnect e c = Ret (c', actions) ->
  match e with
  | Some _ => filter is_net actions = [http_asyncConnect] /\ m_LastCmd c' = m_LastCmd c
  | None => requests c' actions \/ quiet c c' actions
  end.
Proof.
  unfold onHttpConnect. destruct e as [e|]; intros E; [by injection E as <- <-|].
  case_decide; [|right; by injection E as <- <-]. left.
  destruct (sends _ _ _ _) as [[c1 l]| |] eqn:Es; [|done..]. injection E as <- <-.
  by eapply (sends_requests LOGIN (LoginAs _ _)) in Es.
Qed.

Lemma onHttpWrite_net e c c' actions :
  onHttpWrite e c = Ret (c', actions) ->
  filter is_net actions = (if e is Some _ then [] else [http_asyncResponse]) /\ c' = c.
Proof. destruct e; intros [= <- <-]; by split. Qed.

Lemma net_of_shown l (f : str -> str) : filter is_net ((fun x => showMsg (f x)) <$> l) = [].
Proof. by induction l. Qed.

Lemma show_messages_net body l : show_messages body = Ret l -> filter is_net l = [].
Proof.
  unfold show_messages. destruct (parse_msg_response body []) as [[err r]| |]; [|done..].
  simpl. case_decide; intros [= <-]; [done|]. by induction r.
Qed.

Lemma onHttpRead_net open e reply c c' actions :
  onHttpRead open e reply c = Ret (c', actions) ->
  m_LastCmd c' = m_LastCmd c /\
  match e with
  | Some _ => filter is_net actions = [http_createConnect; http_asyncConnect]
  | None => filter is_net actions = [] \/ open = false /\ filter is_net actions = [idle_asyncConnect]
  end.
Proof.
  unfold onHttpRead. destruct e as [e|]; [by intros [= <- <-]|]. case_decide; [intros [= <- <-]; by auto|].
  destruct (m_LastCmd c) eqn:Ec; try (intros [= <- <-]; by auto).
  - destruct (parse_response_aswer _ _) as [[err r]| |]; [|done..]. simpl.
    case_decide; intros [= <- <-]; [by auto|]. split; [done|]. destruct open; by auto.
  - destruct (parse_location_response _ _) as [[err r]| |]; [|done..]. simpl.
    case_decide; intros [= <- <-]; [by auto|]. rewrite !filter_cons, net_of_shown. by auto.
  - destruct (parse_chat_loc_response _ _) as [[err r]| |]; [|done..]. simpl.
    case_decide; intros [= <- <-]; [by auto|]. rewrite !filter_cons, net_of_shown. by auto.
  - destruct (show_messages _) as [l| |] eqn:El; [|done..]. intros [= <- <-].
    rewrite !filter_cons, (show_messages_net _ _ El). by auto.
  - destruct (parse_response_aswer _ _) as [[err r]| |]; [|done..]. simpl.
    case_decide; intros [= <- <-]; by auto.
Qed.

Lemma onHttpIdleConnect_net e c c' actions :
  onHttpIdleConnect e c = Ret (c', actions) ->
  c' = c /\
  match e with
  | Some _ => filter is_net actions = [idle_asyncConnect]
  | None => exists a body, call_body a = Ret body /\ call_cmd a = IDLE /\
      filter is_net actions = [idle_asyncRequest (client_request a body)]
  end.
Proof.
  unfold onHttpIdleConnect. destruct e as [e|]; [by intros [= <- <-]|].
  destruct (build_user_send_msg_body _ _ _ _ _) as [body| |] eqn:Hb; [|done..].
  intros [= <- <-]. split; [done|]. by exists (StartIdle (m_SelfId c) (m_HeartBit c) (m_Password c)), body.
Qed.

Lemma onHttpIdleWrite_net e c c' actions :
  onHttpIdleWrite e c = Ret (c', actions) ->
  filter is_net actions = (if e is Some _ then [] else [idle_asyncResponse]) /\ c' = c.
Proof. destruct e; intros [= <- <-]; by split. Qed.

(** A read of the idle connection that breaks it. *)
Definition breaks (e : option conn_error) (reply : HttpReply) : bool :=
  match e with Some _ => true | None => negb (bool_decide (_status reply = 200)) end.

Lemma onHttpIdleRead_net e reply c c' actions :
  onHttpIdleRead e reply c = Ret (c', actions) ->
  m_LastCmd c' = m_LastCmd c /\
  filter is_net actions =
    if breaks e reply then [idle_createConnect; http_createConnect; http_asyncConnect] else [idle_asyncResponse].
Proof.
  unfold onHttpIdleRead. fold (breaks e reply). destruct (breaks e reply); [by intros [= <- <-]|].
  destruct (negb (m_IdleState c)); [by intros [= <- <-]|].
  destruct (show_messages _) as [l| |] eqn:El; [|done..]. intros [= <- <-]. split; [done|].
  by rewrite filter_app, (show_messages_net _ _ El).
Qed.

(** ** What an event does to the connections *)

(** The operation has completed with an error. *)
Definition failed (d : completion) : bool :=
  match d with
  | Connected (Some _) _ | Connected None (Some _) | Shaken (Some _) | Written (Some _) | Received _ _ (Some _) _ => true
  | _ => false
  end.

(** The effect of an event on the connections [n] and the command [c] on
    record, when the program goes on. *)
Inductive effect (n : Net) (c : cmd_t) : event -> Net -> cmd_t -> Prop :=
| no_effect e : e = Terminal \/ e = Work -> effect n c e n c
| typed_request a body c' :
    call_body a = Ret body -> answer_of a = Some c' ->
    effect n c Work (start_op false Writing (note_sent false (client_request a body) n)) c'
| connect_again i d o m :
    n_ops n !! i = Some o -> alive (drop_op i n) o = true ->
    o_kind o = Shaking /\ m = drop_op i n \/
    o_kind o = Connecting /\ (m = drop_op i n \/ m = note_open (o_conn o) (drop_op i n)) -> failed d = true ->
    effect n c (Completed i d) (start_op (o_idle o) Connecting m) c
| handshake_starts i d o :
    n_ops n !! i = Some o -> alive (drop_op i n) o = true -> o_kind o = Connecting -> failed d = false ->
    effect n c (Completed i d) (start_op (o_idle o) Shaking (note_open (o_conn o) (drop_op i n))) c
| http_ready i d conn :
    n_ops n !! i = Some (mkOp false conn Shaking) -> conn = n_http n -> failed d = false ->
    effect n c (Completed i d) (note_ready conn (drop_op i n)) c
| http_ready_login i d conn a body c' :
    n_ops n !! i = Some (mkOp false conn Shaking) -> conn = n_http n ->
    call_body a = Ret body -> answer_of a = Some c' -> failed d = false ->
    effect n c (Completed i d)
      (start_op false Writing (note_sent false (client_request a body) (note_ready conn (drop_op i n)))) c'
| idle_ready i d conn a body :
    n_ops n !! i = Some (mkOp true conn Shaking) -> conn = n_idle n ->
    call_body a = Ret body -> call_cmd a = IDLE -> failed d = false ->
    effect n c (Completed i d)
      (start_op true Writing (note_sent true (client_request a body) (note_ready conn (drop_op i n)))) c
| write_failed i o e :
    n_ops n !! i = Some o -> o_kind o = Writing ->
    effect n c (Completed i (Written (Some e))) (drop_op i n) c
| write_done i o d :
    n_ops n !! i = Some o -> o_kind o = Writing -> failed d = false ->
    effect n c (Completed i d) (start_op (o_idle o) Reading (drop_op i n)) c
| http_read_failed i conn copied opened e reply :
    n_ops n !! i = Some (mkOp false conn Reading) -> conn = n_http n \/ copied = true ->
    effect n c (Completed i (Received copied opened (Some e) reply))
      (start_op false Connecting (replace_conn false (drop_op i n))) c
| http_read i conn copied opened reply :
    n_ops n !! i = Some (mkOp false conn Reading) -> conn = n_http n \/ copied = true ->
    effect n c (Completed i (Received copied opened None reply)) (drop_op i n) c
| http_read_login i conn copied opened reply :
    n_ops n !! i = Some (mkOp false conn Reading) -> conn = n_http n \/ copied = true ->
    idle_isOpen opened (drop_op i n) = false ->
    effect n c (Completed i (Received copied opened None reply)) (start_op true Connecting (drop_op i n)) c
| idle_read_failed i conn copied opened e reply :
    n_ops n !! i = Some (mkOp true conn Reading) -> conn = n_idle n \/ copied = true -> breaks e reply = true ->
    effect n c (Completed i (Received copied opened e reply))
      (start_op false Connecting (replace_conn false (replace_conn true (drop_op i n)))) c
| idle_read i conn copied opened e reply :
    n_ops n !! i = Some (mkOp true conn Reading) -> conn = n_idle n \/ copied = true -> breaks e reply = false ->
    effect n c (Completed i (Received copied opened e reply)) (start_op true Reading (drop_op i n)) c.

Lemma io_handled_runs r p p' :
  NoThrow r -> io_handled r p = Runs p' ->
  exists c' actions, r = Ret (c', actions) /\ p' = acted c' actions p.
Proof.
  intros Hr E. destruct r as [[c' actions]|e|]; [|by destruct (Hr e)|done]. injection E as <-. by eauto.
Qed.

Lemma input_handled_runs r p p' :
  input_handled r p = Runs p' -> exists c' actions, r = Ret (c', actions) /\ p' = acted c' actions p.
Proof. intros E. destruct r as [[c' actions]| |]; [|done..]. injection E as <-. by eauto. Qed.

(** The connections after a handler, from its actions that concern them. *)
Lemma acted_net c' actions p l : filter is_net actions = l -> p_net (acted c' actions p) = foldl perform (p_net p) l.
Proof. intros <-. apply perform_net. Qed.

Lemma input_effect msg p p' :
  input_handled (onUserInput msg (p_client p)) p = Runs p' ->
  effect (p_net p) (m_LastCmd (p_client p)) Work (p_net p') (m_LastCmd (p_client p')).
Proof.
  intros (c' & actions & E & ->)%input_handled_runs. apply onUserInput_net in E as [(a & body & Hb & Ha & Hl)|[Hl Hc]].
  - rewrite (acted_net _ _ _ _ Hl). by apply typed_request.
  - rewrite (acted_net _ _ _ _ Hl). cbn [acted p_client foldl]. rewrite Hc. apply no_effect. by right.
Qed.

Lemma connect_failed idle e p p' :
  on_connect idle (Some e) p = Runs p' ->
  p_net p' = start_op idle Connecting (p_net p) /\ m_LastCmd (p_client p') = m_LastCmd (p_client p).
Proof.
  unfold on_connect. intros (c' & actions & E & ->)%io_handled_runs; [|destruct idle; apply _]. destruct idle.
  - apply onHttpIdleConnect_net in E as [-> Hl]. by rewrite (acted_net _ _ _ _ Hl).
  - apply onHttpConnect_net in E as [Hl Hc]. by rewrite (acted_net _ _ _ _ Hl).
Qed.

Lemma alive_conn n idle conn k : alive n (mkOp idle conn k) = true -> conn = conn_of idle n.
Proof. apply bool_decide_eq_true. Qed.

Section Completions.
Context (n : Net) (i : nat) (idle : bool) (conn : nat) (p p' : Program) (Hn : p_net p = drop_op i n).

#[local] Abbreviation effects d :=
  (effect n (m_LastCmd (p_client p)) (Completed i d) (p_net p') (m_LastCmd (p_client p'))).

Lemma connected_effect tcp named :
  n_ops n !! i = Some (mkOp idle conn Connecting) ->
  complete (mkOp idle conn Connecting) (Connected tcp named) p = Some (Runs p') -> effects (Connected tcp named).
Proof.
  intros Ho [= E]. cbn [o_kind o_idle o_conn] in E. rewrite Hn in E. destruct (alive _ _) eqn:Ha; [|done].
  destruct tcp as [e|]; [|destruct named as [e|]].
  - apply connect_failed in E as [-> ->]. rewrite Hn. by apply (connect_again n _ i _ (mkOp idle conn Connecting)); auto.
  - apply connect_failed in E as [-> ->]. by apply (connect_again n _ i _ (mkOp idle conn Connecting)); auto.
  - injection E as <-. by apply (handshake_starts n _ i _ (mkOp idle conn Connecting)).
Qed.

Lemma shaken_effect e :
  n_ops n !! i = Some (mkOp idle conn Shaking) ->
  complete (mkOp idle conn Shaking) (Shaken e) p = Some (Runs p') -> effects (Shaken e).
Proof.
  intros Ho [= E]. cbn [o_kind o_idle o_conn] in E. rewrite Hn in E. destruct (alive _ _) eqn:Ha; [|done].
  destruct e as [e|].
  { apply connect_failed in E as [-> ->]. rewrite Hn. by apply (connect_again n _ i _ (mkOp idle conn Shaking)); auto. }
  apply alive_conn in Ha. unfold on_connect in E.
  apply io_handled_runs in E as (c' & actions & E & ->); [|destruct idle; apply _]. destruct idle.
  - apply onHttpIdleConnect_net in E as [-> (a & body & Hb & Hi & Hl)]. rewrite (acted_net _ _ _ _ Hl).
    by apply idle_ready.
  - apply onHttpConnect_net in E as [(a & body & Hb & Hc & Hl)|[Hl Hc]]; rewrite (acted_net _ _ _ _ Hl).
    + by apply http_ready_login.
    + cbn [acted p_client foldl]. rewrite Hc. by apply http_ready.
Qed.

Lemma written_effect e :
  n_ops n !! i = Some (mkOp idle conn Writing) ->
  complete (mkOp idle conn Writing) (Written e) p = Some (Runs p') -> effects (Written e).
Proof.
  intros Ho [= E]. cbn [o_kind o_idle o_conn] in E.
  apply io_handled_runs in E as (c' & actions & E & ->); [|destruct idle, e; apply _].
  assert (filter is_net actions = (if e is Some _ then [] else [if idle then idle_asyncResponse else http_asyncResponse])
    /\ c' = p_client p) as [Hl ->].
  { destruct idle; [by apply onHttpIdleWrite_net in E|by apply onHttpWrite_net in E]. }
  rewrite (acted_net _ _ _ _ Hl), Hn. destruct e as [e|]; [by eapply write_failed|].
  destruct idle; by eapply (write_done _ _ _ (mkOp _ _ _)).
Qed.

Lemma received_effect copied opened e reply :
  n_ops n !! i = Some (mkOp idle conn Reading) ->
  complete (mkOp idle conn Reading) (Received copied opened e reply) p = Some (Runs p') ->
  effects (Received copied opened e reply).
Proof.
  intros Ho [= E]. cbn [o_kind o_idle o_conn] in E. rewrite Hn in E. destruct (_ || _) eqn:Ha; [|done].
  assert (conn = conn_of idle (drop_op i n) \/ copied = true) as Hc.
  { apply orb_true_iff in Ha as [->%alive_conn|]; by auto. }
  apply io_handled_runs in E as (c' & actions & E & ->); [|destruct idle; apply _]. destruct idle.
  - apply onHttpIdleRead_net in E as [Hcmd Hl]. rewrite (acted_net _ _ _ _ Hl), Hn. cbn [acted p_client]. rewrite Hcmd.
    destruct (breaks e reply) eqn:He; [by eapply idle_read_failed|by eapply idle_read].
  - apply onHttpRead_net in E as [Hcmd Hl]. cbn [acted p_client p_net]. rewrite Hcmd. destruct e as [e|].
    + rewrite perform_net, Hl, Hn. by eapply http_read_failed.
    + destruct Hl as [Hl|[Ho' Hl]]; rewrite perform_net, Hl, Hn; [by eapply http_read|].
      by eapply http_read_login.
Qed.

End Completions.

(** Every step of the program has one of the effects. *)
Lemma run_event_effect e p p' :
  run_event e p = Some (Runs p') ->
  effect (p_net p) (m_LastCmd (p_client p)) e (p_net p') (m_LastCmd (p_client p')).
Proof.
  unfold run_event. destruct (p_killed p); [done|]. destruct e as [| |i d].
  - intros [= <-]. apply no_effect. by left.
  - destruct (processQueue _) as [[ev|] q]; intros [= E]; [exact (input_effect (msg ev) (set_console _ p) _ E)|].
    subst p'. apply no_effect. by right.
  - destruct (n_ops (p_net p) !! i) as [[idle conn k]|] eqn:Ho; [|done]. simpl. intros E.
    destruct k, d; try discriminate E.
    + by eapply (connected_effect _ _ _ _ (set_net _ p)) in E.
    + by eapply (shaken_effect _ _ _ _ (set_net _ p)) in E.
    + by eapply (written_effect _ _ _ _ (set_net _ p)) in E.
    + by eapply (received_effect _ _ _ _ (set_net _ p)) in E.
Qed.

(** ** Runs *)

(** What the allowed events keep holds on every run. *)
Lemma run_ind ok (I : Program -> Prop) p p' :
  (forall e p p', ok e p -> I p -> run_event e p = Some (Runs p') -> I p') ->
  I p -> rtc (step_of ok) p p' -> I p'.
Proof. intros Hstep H0 Hr. induction Hr as [|p p1 p' (e & Hok & He) Hr IH]; [done|]. apply IH. by eapply Hstep. Qed.

Lemma run_invariant ok (I : Net -> cmd_t -> Prop) p p' :
  (forall e p n' c', ok e p -> I (p_net p) (m_LastCmd (p_client p)) ->
     effect (p_net p) (m_LastCmd (p_client p)) e n' c' -> I n' c') ->
  I (p_net p) (m_LastCmd (p_client p)) -> rtc (step_of ok) p p' -> I (p_net p') (m_LastCmd (p_client p')).
Proof.
  intros Hstep. apply (run_ind ok (fun p => I (p_net p) (m_LastCmd (p_client p)))).
  intros e q q' Hok Hq He. eapply Hstep; [done|done|]. by apply run_event_effect.
Qed.

Lemma ops_drop i n : n_ops (drop_op i n) = delete i (n_ops n).
Proof. done. Qed.

(** An operation other than the one that completes is still under way. *)
Lemma in_drop i o x n : n_ops n !! i = Some o -> x ∈ n_ops n -> x <> o -> x ∈ n_ops (drop_op i n).
Proof.
  intros Ho Hx Hne. rewrite ops_drop. rewrite (delete_Permutation _ _ _ Ho) in Hx.
  by apply elem_of_cons in Hx as [->|Hx].
Qed.

Lemma in_drop_at i j x n : n_ops n !! j = Some x -> j <> i -> x ∈ n_ops (drop_op i n).
Proof.
  intros Hx Hj. rewrite ops_drop. apply list_elem_of_lookup.
  destruct (decide (j < i)%nat); [exists j; by rewrite list_lookup_delete_lt|].
  exists (j - 1)%nat. rewrite list_lookup_delete_ge by lia. by replace (Datatypes.S (j - 1)) with j by lia.
Qed.

Lemma in_drop_inv i x n : x ∈ n_ops (drop_op i n) -> x ∈ n_ops n.
Proof. apply list_elem_of_delete_inv. Qed.

(** ** The connections have numbers of their own *)

Record numbered (n : Net) : Prop := {
  num_http : (n_http n < n_next n)%nat;
  num_idle : (n_idle n < n_next n)%nat;
  num_distinct : n_http n <> n_idle n;
  num_open : Forall (fun i => i < n_next n)%nat (n_open n);
  num_ops : Forall (fun o => o_conn o < n_next n)%nat (n_ops n) }.

Lemma numbered_conn n idle : numbered n -> (conn_of idle n < n_next n)%nat.
Proof. intros N. destruct idle; apply N. Qed.

Lemma numbered_start idle k n : numbered n -> numbered (start_op idle k n).
Proof.
  intros N. split; try apply N. simpl. apply Forall_app. split; [apply N|].
  repeat constructor. by apply numbered_conn.
Qed.
Lemma numbered_drop i n : numbered n -> numbered (drop_op i n).
Proof. intros N. split; try apply N. apply Forall_delete, N. Qed.
Lemma numbered_sent idle req n : numbered n -> numbered (note_sent idle req n).
Proof. intros N. split; apply N. Qed.
Lemma numbered_ready conn n : numbered n -> numbered (note_ready conn n).
Proof. intros N. split; apply N. Qed.
Lemma numbered_open conn n : numbered n -> (conn < n_next n)%nat -> numbered (note_open conn n).
Proof. intros N Hc. split; try apply N. constructor; [done|apply N]. Qed.
Lemma numbered_replace idle n : numbered n -> numbered (replace_conn idle n).
Proof.
  intros [Hh Hi Hd Ho Hops]. split; simpl; [destruct idle; lia..| |].
  all: eapply Forall_impl; [eassumption|]; simpl; lia.
Qed.

#[local] Hint Resolve numbered_start numbered_drop numbered_sent numbered_ready numbered_open numbered_replace : geochat.

Lemma numbered_step n c e n' c' : numbered n -> effect n c e n' c' -> numbered n'.
Proof.
  intros N He.
  assert (forall i o, n_ops n !! i = Some o -> (o_conn o < n_next n)%nat) as Hop.
  { intros i o Ho. by eapply Forall_lookup_1 in Ho; [|apply N]. }
  destruct He; eauto with geochat.
  match goal with H : _ \/ _ |- _ => destruct H as [[_ ->]|[_ [->| ->]]] end; eauto 6 with geochat.
Qed.

Definition reachable_by (ok : event -> Program -> Prop) (p : Program) : Prop :=
  exists host port user password lines, rtc (step_of ok) (client_program host port user password lines) p.

Lemma numbered_reachable ok p : reachable_by ok p -> numbered (p_net p).
Proof.
  intros (host & port & user & password & lines & Hr).
  apply (run_invariant ok (fun n _ => numbered n)) in Hr; [done| |].
  - intros e q n' c' _ N. by apply numbered_step.
  - split; simpl; [lia..|constructor|]. repeat constructor.
Qed.

(** Case analysis on what a connect that fails leaves. *)
Ltac retried := match goal with H : _ /\ _ \/ _ /\ (_ \/ _) |- _ => destruct H as [[? ->]|[? [-> | ->]]] end.

(** ** What is written *)

Definition is_request (req : str) : Prop := exists a body, call_body a = Ret body /\ req = client_request a body.

Lemma sent_step n c e n' c' x :
  effect n c e n' c' -> x ∈ n_sent n' -> x ∈ n_sent n \/ is_request x.2.
Proof.
  unfold is_request. destruct 1; try retried; cbn [n_sent start_op note_sent note_ready note_open drop_op replace_conn]; auto.
  all: intros [? | ->%list_elem_of_singleton]%elem_of_app; [by left|right; by eauto].
Qed.

(** On every run everything the client writes is the request of a call of the
    API. *)
Lemma written_requests ok p conn req :
  reachable_by ok p -> (conn, req) ∈ n_sent (p_net p) -> is_request req.
Proof.
  intros (host & port & user & password & lines & Hr).
  apply (run_invariant ok (fun n _ => Forall (fun x => is_request x.2) (n_sent n))) in Hr.
  - intros Hx. rewrite Forall_forall in Hr. by apply (Hr (conn, req)).
  - intros e q n' c' _ IH He. apply Forall_forall. intros x Hx.
    rewrite Forall_forall in IH. destruct (sent_step _ _ _ _ _ _ He Hx); auto.
  - constructor.
Qed.

(** ** The first connection *)

(** What has become of it, from what has completed on it: the client has to
    connect it; its handshake was done; a request could not be written
    since. *)
Inductive link_status := Trying | Up | Lost.

(** The connections are those before the event.  A read that fails, on the
    first connection or as the end of the polling one, has it replaced. *)
Definition link_after (e : event) (n : Net) (st : link_status) : link_status :=
  match e with
  | Completed i d =>
      match n_ops n !! i with
      | Some (mkOp false _ Connecting) => Trying
      | Some (mkOp false _ Shaking) => if failed d then Trying else Up
      | Some (mkOp false conn Writing) =>
          if failed d && bool_decide (conn = n_http n) then match st with Up => Lost | _ => st end else st
      | Some (mkOp false _ Reading) => if failed d then Trying else st
      | Some (mkOp true _ Reading) =>
          match d with Received _ _ err reply => if breaks err reply then Trying else st | _ => st end
      | _ => st
      end
  | _ => st
  end.

(** The runs of the client, with the status of its first connection. *)
Inductive watched : Program -> link_status -> Prop :=
| watched_start host port user password lines : watched (client_program host port user password lines) Trying
| watched_step e p p' st :
    watched p st -> run_event e p = Some (Runs p') -> watched p' (link_after e (p_net p) st).

Definition attempt (n : Net) : Prop :=
  exists k, (k = Connecting \/ k = Shaking) /\ mkOp false (n_http n) k ∈ n_ops n.

Definition status_holds (st : link_status) (n : Net) : Prop :=
  match st with
  | Trying => attempt n
  | Up | Lost => n_http n ∈ n_ready n
  end.

Lemma attempt_start_http k n : k = Connecting \/ k = Shaking -> attempt (start_op false k n).
Proof. intros Hk. exists k. split; [done|]. apply elem_of_app. right. by apply list_elem_of_singleton. Qed.

(** An event that leaves the first connection, what was ready, and the
    attempts under way keeps the status. *)
Lemma status_kept st n n' :
  n_http n' = n_http n -> n_ready n ⊆ n_ready n' -> (attempt n -> attempt n') ->
  status_holds st n -> status_holds st n'.
Proof. intros Hh Hr Ha. destruct st; simpl; [done|..]; rewrite Hh; apply Hr. Qed.

Lemma attempt_drop i o n :
  n_ops n !! i = Some o -> o_idle o = true \/ o_kind o = Writing \/ o_kind o = Reading -> attempt n -> attempt (drop_op i n).
Proof.
  intros Ho Hk (k & Hk' & Hx). exists k. split; [done|].
  eapply in_drop; [done|done|]. intros <-. simpl in Hk. by destruct Hk' as [-> | ->], Hk as [|[|]].
Qed.

Lemma attempt_start idle k n : attempt n -> attempt (start_op idle k n).
Proof. intros (k' & ? & ?). exists k'. split; [done|]. apply elem_of_app. by left. Qed.

#[local] Hint Resolve attempt_start attempt_drop : geochat.

Lemma status_step st n c e n' c' : status_holds st n -> effect n c e n' c' -> status_holds (link_after e n st) n'.
Proof.
  intros Hn He. destruct He as [e [-> | ->]| | i d [[] conn k] m Ho Ha Hk Hf | i d [[] conn k] Ho Ha Hk Hf
    | i d conn Ho -> Hf | i d conn a body c' Ho -> _ _ Hf | i d conn a body Ho -> _ _ Hf
    | i [[] conn k] e Ho Hk | i [[] conn k] d Ho Hk Hf | i conn copied opened e reply Ho _ | i conn copied opened reply Ho _
    | i conn copied opened reply Ho _ _ | i conn copied opened e reply Ho _ Hb | i conn copied opened e reply Ho _ Hb ];
    unfold link_after; rewrite ?Ho; cbn [o_idle o_kind o_conn] in *.
  - exact Hn.
  - exact Hn.
  - apply (status_kept _ n); [done..|intros Hat; exact (attempt_start _ _ _ Hat)|exact Hn].
  - assert (attempt n -> attempt (start_op true Connecting m)) as Hkeep.
    { intros Hat. apply attempt_start. pose proof (attempt_drop _ _ _ Ho ltac:(by left) Hat). by retried. }
    destruct Hk as [[-> ->]|[-> [-> | ->]]]; (apply (status_kept _ n); [done..|exact Hkeep|exact Hn]).
  - destruct Hk as [[-> ->]|[-> _]]; rewrite ?Hf; apply attempt_start_http; by left.
  - subst k. apply (status_kept _ n); [done..| |exact Hn]. intros Hat.
    exact (attempt_start _ _ _ (attempt_drop _ _ _ Ho ltac:(by left) Hat)).
  - subst k. apply attempt_start_http. by right.
  - rewrite Hf. by left.
  - rewrite Hf. by left.
  - apply (status_kept _ n); [done|by intros x Hx; right| |exact Hn]. intros Hat.
    exact (attempt_start _ _ _ (attempt_drop _ _ _ Ho ltac:(by left) Hat)).
  - subst k. apply (status_kept _ n); [done..|eapply attempt_drop; [done|by auto]|exact Hn].
  - subst k. apply (status_kept _ n); [done..|eapply attempt_drop; [done|by auto]|].
    cbn [failed andb]. case_bool_decide; [|done]. by destruct st.
  - subst k. apply (status_kept _ n); [done..| |]; [|destruct d; (done || exact Hn)]. intros Hat.
    eapply attempt_start, attempt_drop; [done|by auto|done].
  - subst k. rewrite Hf. cbn [andb]. apply (status_kept _ n); [done..| |exact Hn]. intros Hat.
    eapply attempt_start, attempt_drop; [done|by auto|done].
  - apply attempt_start_http. by left.
  - apply (status_kept _ n); [done..|eapply attempt_drop; [done|by auto]|exact Hn].
  - apply (status_kept _ n); [done..| |exact Hn]. intros Hat. eapply attempt_start, attempt_drop; [done|by auto|done].
  - rewrite Hb. apply attempt_start_http. by left.
  - rewrite Hb. apply (status_kept _ n); [done..| |exact Hn]. intros Hat. eapply attempt_start, attempt_drop; [done|by auto|done].
Qed.

Lemma watched_holds p st : watched p st -> status_holds st (p_net p).
Proof.
  induction 1 as [host port user password lines|e p p' st _ IH He]; [by apply attempt_start_http; left|].
  eapply status_step; [exact IH|by apply run_event_effect].
Qed.

(** C35: the client does not give up its first connection.  Follow any run:
    from the start, after every connect, handshake or read of it that fails,
    and when the polling connection breaks, until a handshake is done, an
    attempt to connect the connection in use is under way; after that
    handshake the connection in use is one whose handshake was done.  A
    request that cannot be written changes nothing of this: the connection
    is kept as it is ([Lost]), until a read on it fails. *)
Theorem client_reconnects p st :
  watched p st ->
  match st with
  | Trying => exists k, (k = Connecting \/ k = Shaking) /\ mkOp false (n_http (p_net p)) k ∈ n_ops (p_net p)
  | Up | Lost => n_http (p_net p) ∈ n_ready (p_net p)
  end.
Proof. intros Hw. exact (watched_holds p st Hw). Qed.

(** Every run is watched. *)
Lemma reachable_watched p : reachable_by (fun _ _ => True) p -> exists st, watched p st.
Proof.
  intros (host & port & user & password & lines & Hr).
  apply (run_ind (fun _ _ => True) (fun p => exists st, watched p st)) in Hr; [done| |].
  - intros e q q' _ [st Hst] He. eexists. by eapply watched_step.
  - exists Trying. constructor.
Qed.

(** ** The polling connection *)

Definition listens (n : Net) : Prop := exists x, x ∈ n_ops n /\ o_idle x = true.

(** The polling connection is open and nothing is under way on it. *)
Definition deaf (n : Net) : Prop := n_idle n ∈ n_open n /\ ~ listens n.

Lemma listens_start_idle k n : listens (start_op true k n).
Proof. exists (mkOp true (n_idle n) k). split; [|done]. apply elem_of_app. right. by apply list_elem_of_singleton. Qed.

Lemma listens_start k n : listens (start_op false k n) <-> listens n.
Proof.
  unfold listens. simpl. split; intros (x & Hx & Hi); exists x.
  - apply elem_of_app in Hx as [Hx | ->%list_elem_of_singleton]; by auto.
  - split; [|done]. apply elem_of_app. by left.
Qed.

Lemma listens_drop i o n : n_ops n !! i = Some o -> o_idle o = false -> listens (drop_op i n) <-> listens n.
Proof.
  intros Ho Hi. split; intros (x & Hx & Hxi); exists x; split; try done; [by eapply in_drop_inv|].
  eapply in_drop; [done|done|congruence].
Qed.

Lemma deaf_iff n n' :
  n_idle n' = n_idle n -> (n_idle n ∈ n_open n' <-> n_idle n ∈ n_open n) -> (listens n' <-> listens n) -> deaf n' <-> deaf n.
Proof. intros Hi Ho Hl. unfold deaf. rewrite Hi. tauto. Qed.

Lemma listens_op i o n : n_ops n !! i = Some o -> o_idle o = true -> listens n.
Proof. intros Ho Hi. exists o. split; [by eapply list_elem_of_lookup_2|done]. Qed.

Lemma http_not_idle n conn k i x :
  numbered n -> alive (drop_op i n) (mkOp false conn k) = true -> n_idle n ∈ conn :: x <-> n_idle n ∈ x.
Proof.
  intros N ->%alive_conn. rewrite elem_of_cons. split; [|by right]. intros [E|?]; [|done].
  by destruct (num_distinct n N).
Qed.

(** An event makes the client deaf only in one way, and nothing makes it
    hear again. *)
Lemma effect_deaf n c e n' c' :
  numbered n -> effect n c e n' c' ->
  (deaf n' <-> deaf n) \/ listens n' /\ ~ deaf n \/ listens n /\ ~ deaf n' \/
  listens n /\ exists i conn err, e = Completed i (Written (Some err)) /\ n_ops n !! i = Some (mkOp true conn Writing).
Proof.
  intros N [| | i d [[] conn k] m Ho Ha Hk | i d [[] conn k] Ho Ha Hk | i d conn Ho | i d conn a body c1 Ho | i d conn a body Ho
    | i [[] conn k] e1 Ho Hk | i [[] conn k] d Ho Hk | i conn copied opened e1 reply Ho | i conn copied opened reply Ho
    | i conn copied opened reply Ho Hc Hopn | i conn copied opened e1 reply Ho | i conn copied opened e1 reply Ho ].
  all: try (right; left; split; [apply listens_start_idle|intros [_ Hd]; apply Hd; by eapply listens_op]).
  - by left.
  - left. apply deaf_iff; [done..|by rewrite listens_start].
  - left. pose proof (listens_drop _ _ _ Ho eq_refl). retried; apply deaf_iff; try done;
      try (by apply (http_not_idle n conn Connecting i)); rewrite listens_start; done.
  - left. apply deaf_iff; [done|by apply (http_not_idle n conn Connecting i)|].
    rewrite listens_start. by apply (listens_drop _ _ _ Ho).
  - left. apply deaf_iff; [done..|]. by apply (listens_drop _ _ _ Ho).
  - left. apply deaf_iff; [done..|]. rewrite listens_start. by apply (listens_drop _ _ _ Ho).
  - simpl in Hk. subst k. right; right; right. split; [by eapply listens_op|]. by exists i, conn, e1.
  - left. apply deaf_iff; [done..|]. by apply (listens_drop _ _ _ Ho).
  - left. apply deaf_iff; [done..|]. rewrite listens_start. by apply (listens_drop _ _ _ Ho).
  - left. apply deaf_iff; [done..|]. rewrite listens_start. by apply (listens_drop _ _ _ Ho).
  - left. apply deaf_iff; [done..|]. by apply (listens_drop _ _ _ Ho).
  - right; left. split; [apply listens_start_idle|]. intros [Hopen Hd]. unfold idle_isOpen in Hopn.
    rewrite bool_decide_eq_true_2 in Hopn by done. cbn [andb] in Hopn.
    apply orb_false_iff in Hopn as [_ Hx%negb_false_iff%bool_decide_eq_true].
    apply Hd. eexists. split; [by eapply in_drop_inv|done].
  - right; right; left. split; [by eapply listens_op|]. intros [Hopen _]. simpl in Hopen.
    pose proof (num_open n N) as Hlt. rewrite Forall_forall in Hlt. apply Hlt in Hopen. lia.
Qed.

(** A polling connection whose handshake or request is under way is open. *)
Definition idle_opened (n : Net) : Prop :=
  forall x, x ∈ n_ops n -> o_idle x = true -> o_kind x = Shaking \/ o_kind x = Writing -> o_conn x ∈ n_open n.

Lemma idle_opened_drop i n : idle_opened n -> idle_opened (drop_op i n).
Proof. intros Hn x Hx. apply Hn. by eapply in_drop_inv. Qed.

Lemma idle_opened_start idle k n :
  (idle = true -> k = Shaking \/ k = Writing -> n_idle n ∈ n_open n) -> idle_opened n -> idle_opened (start_op idle k n).
Proof.
  intros Hk Hn x Hx Hi Hs. apply elem_of_app in Hx as [Hx | ->%list_elem_of_singleton]; [by apply Hn|].
  cbn [o_idle o_kind o_conn] in *. subst idle. by apply Hk.
Qed.

Lemma idle_opened_more conn n : idle_opened n -> idle_opened (note_open conn n).
Proof. intros Hn x Hx Hi Hk. right. by apply Hn. Qed.

Lemma idle_opened_step n c e n' c' : idle_opened n -> effect n c e n' c' -> idle_opened n'.
Proof.
  intros Hn He. destruct He as [| | i d [idle conn k] m Ho Ha Hk Hf | i d [idle conn k] Ho Ha Hk Hf | | | i d conn a body Ho -> _ _ _
    | | i [idle conn k] d Ho Hk Hf | | | | | ]; try done;
    try (by apply idle_opened_drop).
  - apply (idle_opened_start false Writing (note_sent false _ n)); [done|exact Hn].
  - apply idle_opened_start; [by intros _ [|]|].
    retried; first [by apply idle_opened_drop | by apply idle_opened_more, idle_opened_drop].
  - apply idle_opened_start; [|by apply idle_opened_more, idle_opened_drop]. cbn [o_idle o_conn]. intros -> _.
    apply alive_conn in Ha. rewrite Ha. left.
  - apply (idle_opened_start false Writing (note_sent false _ (note_ready _ (drop_op i n)))); [done|by apply (idle_opened_drop i n)].
  - apply (idle_opened_start true Writing (note_sent true _ (note_ready _ (drop_op i n)))); [|by apply (idle_opened_drop i n)].
    intros _ _. apply (Hn _ (list_elem_of_lookup_2 _ _ _ Ho)); auto.
  - apply idle_opened_start; [by intros _ [|]|by apply idle_opened_drop].
  - apply (idle_opened_start false Connecting (replace_conn false (drop_op i n))); [done|by apply (idle_opened_drop i n)].
  - apply idle_opened_start; [by intros _ [|]|by apply idle_opened_drop].
  - apply (idle_opened_start false Connecting (replace_conn false (replace_conn true (drop_op i n)))); [done|by apply (idle_opened_drop i n)].
  - apply idle_opened_start; [by intros _ [|]|by apply idle_opened_drop].
Qed.

Lemma idle_opened_reachable ok p : reachable_by ok p -> idle_opened (p_net p).
Proof.
  intros (host & port & user & password & lines & Hr).
  apply (run_invariant ok (fun n _ => idle_opened n)) in Hr; [done| |].
  - intros e q n' c' _. apply idle_opened_step.
  - intros x ->%list_elem_of_singleton. done.
Qed.

(** At place [i] a write of the request for polling is under way, and
    nothing else is under way for polling. *)
Definition asks_alone (i : nat) (n : Net) : Prop :=
  (exists conn, n_ops n !! i = Some (mkOp true conn Writing)) /\
  forall j x, j <> i -> n_ops n !! j = Some x -> o_idle x = false.

Lemma asks_alone_drop i n : asks_alone i n <-> (exists conn, n_ops n !! i = Some (mkOp true conn Writing)) /\ ~ listens (drop_op i n).
Proof.
  unfold asks_alone. split; intros [Ho Ha]; (split; [done|]).
  - intros (x & Hx & Hi). rewrite ops_drop in Hx.
    apply list_elem_of_lookup in Hx as [j Hj]. destruct (decide (j < i)%nat).
    + rewrite list_lookup_delete_lt in Hj by done. rewrite (Ha j x) in Hi; done || lia.
    + rewrite list_lookup_delete_ge in Hj by lia. rewrite (Ha (S j) x) in Hi; done || lia.
  - intros j x Hj Hx. apply not_true_is_false. intros Hi. apply Ha. exists x. split; [|done]. by eapply in_drop_at.
Qed.

(** The write fails: nothing is left of it. *)
Lemma write_fails i err conn n c c' n' :
  effect n c (Completed i (Written (Some err))) n' c' -> n_ops n !! i = Some (mkOp true conn Writing) -> n' = drop_op i n.
Proof. intros He Ho. inversion He; simplify_eq/=; try done; naive_solver. Qed.

(** An accepted login: its answer is read on the first connection. *)
Definition accepts_login (e : event) (p : Program) : Prop :=
  exists i conn copied opened reply r,
    e = Completed i (Received copied opened None reply) /\ n_ops (p_net p) !! i = Some (mkOp false conn Reading) /\
    m_LastCmd (p_client p) = LOGIN /\ _status reply = 200 /\
    parse_response_aswer (_body reply) response_init = Ret ([], r).

(** When nobody listens, an accepted login connects the polling connection
    exactly when it is not open. *)
Lemma login_listens e p p' :
  ~ listens (p_net p) -> accepts_login e p -> run_event e p = Some (Runs p') ->
  listens (p_net p') <-> n_idle (p_net p) ∉ n_open (p_net p).
Proof.
  intros Hl (i & conn & copied & opened & reply & r & -> & Ho & Hc & Hs & Hr). unfold run_event.
  destruct (p_killed p); [done|]. rewrite Ho. cbn [mbind option_bind]. unfold complete. cbn [o_kind o_idle].
  destruct (_ || copied); [|done]. unfold onHttpRead. cbn [p_client set_net]. rewrite Hc, Hs, Hr.
  rewrite decide_False by lia. cbn [mbind cxx_bind]. rewrite decide_False by tauto. intros [= <-].
  pose proof (listens_drop _ _ _ Ho eq_refl) as Hdrop. cbn [p_net set_net].
  assert (idle_isOpen opened (drop_op i (p_net p)) = bool_decide (n_idle (p_net p) ∈ n_open (p_net p))) as ->.
  { unfold idle_isOpen. cbn [n_idle n_open drop_op n_ops]. rewrite (bool_decide_eq_false_2 (mkOp true _ _ ∈ _)).
    - by rewrite orb_true_r, andb_true_r.
    - intros Hx. apply Hl, Hdrop. by eexists. }
  case_bool_decide as Hopen; cbn [acted foldl app perform p_net].
  - split; [by intros Hx%Hdrop|done].
  - split; [done|]. intros _. apply listens_start_idle.
Qed.

(** C16: the client can become deaf: its polling connection is open, nothing is
    under way for it, so that no message is shown any more.  It becomes so
    exactly when the write of a request for polling fails, nothing else is
    under way for polling and the polling connection is open; whenever such a
    write on the polling connection in use is all that is under way for
    polling, its failure does it; and from then on nothing that is typed or
    received makes the client listen again.  A login does not: when nobody
    listens, an accepted login connects the polling connection exactly when
    the client is not deaf, which is how polling goes on after its connection
    broke. *)
Theorem deaf_client p :
  reachable_by (fun _ _ => True) p ->
  (forall e p', run_event e p = Some (Runs p') -> ~ deaf (p_net p) ->
     deaf (p_net p') <-> n_idle (p_net p) ∈ n_open (p_net p) /\
       exists i err, e = Completed i (Written (Some err)) /\ asks_alone i (p_net p)) /\
  (forall i err, p_killed p = false -> n_ops (p_net p) !! i = Some (mkOp true (n_idle (p_net p)) Writing) ->
     asks_alone i (p_net p) ->
     exists p', run_event (Completed i (Written (Some err))) p = Some (Runs p') /\ deaf (p_net p')) /\
  (forall p', rtc client_step p p' -> deaf (p_net p) -> deaf (p_net p')) /\
  (forall e p', ~ listens (p_net p) -> accepts_login e p -> run_event e p = Some (Runs p') ->
     listens (p_net p') <-> ~ deaf (p_net p)).
Proof.
  intros Hp. pose proof (numbered_reachable _ _ Hp) as N. pose proof (idle_opened_reachable _ _ Hp) as Hopen.
  assert (forall i err p', run_event (Completed i (Written (Some err))) p = Some (Runs p') -> asks_alone i (p_net p) ->
    p_net p' = drop_op i (p_net p) /\ ~ listens (p_net p')) as Hfails.
  { intros i err p' He [[conn Ho] Ha]%asks_alone_drop. apply run_event_effect in He.
    by rewrite (write_fails _ _ _ _ _ _ _ He Ho). }
  split_and!.
  - intros e p' He Hn. split.
    + intros Hd. pose proof (run_event_effect _ _ _ He) as Hf. pose proof Hf as Hf'. apply effect_deaf in Hf; [|done].
      destruct Hf as [?|[[Hl _]|[[_ ?]|[_ (i & conn & err & -> & Ho)]]]]; [tauto|by destruct Hd|done|].
      unfold deaf in Hd. rewrite (write_fails _ _ _ _ _ _ _ Hf' Ho) in Hd. destruct Hd as [Hopn Hl]. split; [done|].
      exists i, err. split; [done|]. apply asks_alone_drop. eauto.
    + intros (Hopn & i & err & -> & Ha). destruct (Hfails _ _ _ He Ha) as [En Hl]. split; [|done]. by rewrite En.
  - intros i err Hk Ho Ha. assert (exists p', run_event (Completed i (Written (Some err))) p = Some (Runs p')) as [p' He].
    { unfold run_event. rewrite Hk, Ho. by eexists. }
    exists p'. split; [done|]. destruct (Hfails _ _ _ He Ha) as [En Hl]. split; [|done]. rewrite En.
    apply (Hopen _ (list_elem_of_lookup_2 _ _ _ Ho)); auto.
  - intros p' Hr Hd.
    apply (run_invariant _ (fun n _ => numbered n /\ deaf n)) in Hr; [apply Hr| |by split].
    intros e q n' c' _ [N' Hq] He. split; [by eapply numbered_step|].
    apply effect_deaf in He; [|done]. destruct He as [?|[[_ ?]|[[? _]|[? _]]]]; [tauto|done|by destruct Hq..].
  - intros e p' Hl Ha He. rewrite (login_listens e p p') by done. unfold deaf. tauto.
Qed.

(** ** Objects used after their end *)

(** The connections an event replaces. *)
Definition replaced (e : event) (n : Net) : list nat :=
  match e with
  | Completed i (Received _ _ err reply) =>
      match n_ops n !! i with
      | Some (mkOp false _ Reading) => if err is Some _ then [n_http n] else []
      | Some (mkOp true _ Reading) => if breaks err reply then [n_idle n; n_http n] else []
      | _ => []
      end
  | _ => []
  end.

(** An event replaces a connection on which a connect or a read other than
    the one that completes is under way. *)
Definition cuts (e : event) (p : Program) : Prop :=
  exists i d j x, e = Completed i d /\ j <> i /\ n_ops (p_net p) !! j = Some x /\ o_kind x <> Writing /\
    o_conn x ∈ replaced e (p_net p).

Definition careful (e : event) (p : Program) : Prop := ~ cuts e p.

(** Every operation under way whose handler refers to its object has it. *)
Definition in_place (n : Net) : Prop := forall x, x ∈ n_ops n -> o_kind x <> Writing -> o_conn x = conn_of (o_idle x) n.

Lemma in_place_start idle k n : in_place n -> in_place (start_op idle k n).
Proof.
  intros Hn x Hx Hk. apply elem_of_app in Hx as [Hx | ->%list_elem_of_singleton]; [by apply Hn|done].
Qed.

Lemma in_place_drop i n : in_place n -> in_place (drop_op i n).
Proof. intros Hn x Hx. apply Hn. by eapply in_drop_inv. Qed.

(** What is left is in place when nothing else was under way on the
    connections that are replaced. *)
Lemma in_place_cut i d n m :
  in_place n -> (forall j x, j <> i -> n_ops n !! j = Some x -> o_kind x <> Writing -> o_conn x ∉ replaced (Completed i d) n) ->
  n_ops m = n_ops (drop_op i n) ->
  (forall idle, conn_of idle n ∉ replaced (Completed i d) n -> conn_of idle m = conn_of idle n) -> in_place m.
Proof.
  intros Hn Hcut Hops Hm x Hx Hk. rewrite Hops in Hx. apply list_elem_of_lookup in Hx as [j Hj].
  rewrite ops_drop, list_lookup_delete in Hj.
  assert (exists j, j <> i /\ n_ops n !! j = Some x) as (j' & Hne & Hj').
  { destruct (decide (j < i)%nat); eexists; (split; [|exact Hj]); lia. }
  rewrite (Hn x) by (done || by eapply list_elem_of_lookup_2). symmetry. apply Hm.
  rewrite <- (Hn x) by (done || by eapply list_elem_of_lookup_2). by eapply Hcut.
Qed.

Lemma in_place_step p e n' c' :
  careful e p -> in_place (p_net p) -> effect (p_net p) (m_LastCmd (p_client p)) e n' c' -> in_place n'.
Proof.
  intros Hc Hn He.
  assert (forall i d, e = Completed i d -> forall j x, j <> i -> n_ops (p_net p) !! j = Some x -> o_kind x <> Writing ->
    o_conn x ∉ replaced (Completed i d) (p_net p)) as Hcut.
  { intros i d -> j x Hj Hx Hk Hr. apply Hc. by exists i, d, j, x. }
  destruct He; try (by repeat first [apply in_place_start | apply in_place_drop | done]).
  - apply in_place_start. retried; by apply in_place_drop.
  - apply in_place_start. eapply in_place_cut; [exact Hn|by eapply Hcut|done|].
    intros [] Hr; [done|]. destruct Hr. cbn [replaced]. match goal with H : _ !! i = _ |- _ => rewrite H end. by left.
  - apply in_place_start. eapply in_place_cut; [exact Hn|by eapply Hcut|done|].
    intros idle Hr. destruct Hr. cbn [replaced]. match goal with H : _ !! i = _ |- _ => rewrite H end.
    match goal with H : breaks _ _ = true |- _ => rewrite H end. destruct idle; [by left|by right; left].
Qed.

Lemma in_place_reachable p : reachable_by careful p -> in_place (p_net p).
Proof.
  intros (host & port & user & password & lines & Hr).
  apply (run_invariant _ (fun n _ => in_place n)) in Hr; [done| |].
  - intros e q n' c'. apply in_place_step.
  - by intros x ->%list_elem_of_singleton.
Qed.

(** How an operation that has lost its object completes. *)
Definition completion_of (k : kind) : completion :=
  match k with
  | Connecting => Connected None None
  | Shaking => Shaken None
  | Writing => Written None
  | Reading => Received false true None no_reply
  end.

Lemma io_handled_object r p : io_handled r p <> Dangling.
Proof. by destruct r as [[]| |]. Qed.
Lemma input_handled_object r p : input_handled r p <> Dangling.
Proof. by destruct r as [[]| |]. Qed.

Lemma complete_dangling o d p :
  complete o d p = Some Dangling -> alive (p_net p) o = false /\ o_kind o <> Writing.
Proof.
  destruct o as [idle conn k]. unfold complete. cbn [o_kind o_idle o_conn]. intros E.
  destruct k, d as [tcp named|e|e|copied opened e reply]; try discriminate E; injection E as E.
  - destruct (alive _ _); [|done]. destruct tcp, named; (done || by apply io_handled_object in E).
  - destruct (alive _ _); [|done]. by apply io_handled_object in E.
  - by apply io_handled_object in E.
  - destruct (alive _ _), copied; (done || by apply io_handled_object in E).
Qed.

Lemma complete_lost o p : alive (p_net p) o = false -> o_kind o <> Writing -> complete o (completion_of (o_kind o)) p = Some Dangling.
Proof. intros Ha Hk. destruct o as [idle conn []]; unfold complete; cbn [o_kind completion_of]; try rewrite Ha; done. Qed.

Lemma run_event_dangling e p :
  run_event e p = Some Dangling ->
  exists x, x ∈ n_ops (p_net p) /\ o_kind x <> Writing /\ o_conn x <> conn_of (o_idle x) (p_net p).
Proof.
  unfold run_event. destruct (p_killed p); [done|]. destruct e as [| |i d]; [done| |].
  - destruct (processQueue _) as [[ev|] q]; intros [= E]. by apply input_handled_object in E.
  - destruct (n_ops (p_net p) !! i) as [o|] eqn:Ho; [|done]. intros [Ha Hk]%complete_dangling.
    exists o. split_and!; [by eapply list_elem_of_lookup_2|done|]. by apply bool_decide_eq_false in Ha.
Qed.

Lemma replaced_inv e n k :
  k ∈ replaced e n ->
  exists i conn copied opened err reply, e = Completed i (Received copied opened err reply) /\
    (n_ops n !! i = Some (mkOp false conn Reading) /\ err <> None /\ k = n_http n \/
     n_ops n !! i = Some (mkOp true conn Reading) /\ breaks err reply = true /\ (k = n_idle n \/ k = n_http n)).
Proof.
  intros Hk. destruct e as [| |i [| | |copied opened err reply]]; try by apply elem_of_nil in Hk.
  cbn [replaced] in Hk. destruct (n_ops n !! i) as [[[] conn []]|] eqn:Ho; try by apply elem_of_nil in Hk.
  - destruct (breaks err reply) eqn:Hb; [|by apply elem_of_nil in Hk].
    apply elem_of_cons in Hk as [Hk|Hk%list_elem_of_singleton]; exists i, conn, copied, opened, err, reply; by auto 6.
  - destruct err as [err|]; [|by apply elem_of_nil in Hk]. apply list_elem_of_singleton in Hk.
    exists i, conn, copied, opened, (Some err), reply. by auto 6.
Qed.

(** The event that replaces a connection in use leaves the program running,
    with the operation under way and its object gone. *)
Lemma replaced_lost e n c n' c' x :
  numbered n -> effect n c e n' c' -> o_conn x ∈ replaced e n -> alive n' x = false /\
  exists l i d, e = Completed i d /\ n_ops n' = delete i (n_ops n) ++ l.
Proof.
  intros N He (i & conn & copied & opened & err & reply & -> & Hx)%replaced_inv.
  pose proof (num_http n N). pose proof (num_idle n N). pose proof (num_distinct n N).
  destruct Hx as [(Ho & Herr & Hx)|(Ho & Hb & Hx)]; inversion He; simplify_eq; try congruence;
    try (match goal with H : _ = Terminal \/ _ |- _ => by destruct H end); try (by retried).
  - split; [|eexists _, _, _; split; [done|]; cbn [n_ops start_op replace_conn drop_op]; reflexivity]. apply bool_decide_eq_false_2. simpl. destruct (o_idle x); simpl; lia.
  - split; [|eexists _, _, _; split; [done|]; cbn [n_ops start_op replace_conn drop_op]; reflexivity]. apply bool_decide_eq_false_2. simpl. destruct (o_idle x), Hx; simpl; lia.
Qed.

Lemma received_keeps_running i copied opened err reply p p' o :
  run_event (Completed i (Received copied opened err reply)) p = Some (Runs p') ->
  n_ops (p_net p) !! i = Some o -> o_kind o = Reading -> (if o_idle o then breaks err reply = true else err <> None) ->
  p_killed p' = false.
Proof.
  destruct o as [idle conn k]. simpl. intros He Ho -> Hf. revert He. unfold run_event. destruct (p_killed p) eqn:Hk; [done|].
  rewrite Ho. simpl. unfold complete. cbn [o_kind]. destruct (alive _ _ || copied); [|done]. destruct idle.
  - unfold onHttpIdleRead. fold (breaks err reply). rewrite Hf. simpl. intros [= <-]. simpl. by rewrite Hk.
  - destruct err as [err|]; [|done]. simpl. intros [= <-]. simpl. by rewrite Hk.
Qed.

(** C15: the client uses an object after its end exactly when a connection is
    replaced while another connect or read is under way on it: as long as
    that does not happen nothing that completes does so, and when it happens
    the operation that has lost its object does so by completing.
    A handler is one step here. *)
Theorem client_dangles p :
  reachable_by careful p ->
  (forall e, run_event e p <> Some Dangling) /\
  (forall e p', cuts e p -> run_event e p = Some (Runs p') -> exists e', run_event e' p' = Some Dangling).
Proof.
  intros Hp. pose proof (in_place_reachable p Hp) as Hn. split.
  - intros e (x & Hx & Hk & Hc)%run_event_dangling. by destruct Hc, (Hn x).
  - intros e p' (i & d & j & x & -> & Hj & Hx & Hk & Hr) He.
    pose proof (run_event_effect _ _ _ He) as Hf.
    apply replaced_lost with (x := x) in Hf as (Ha & l & i' & d' & [= <- <-] & Hops); [|by eapply numbered_reachable|done].
    assert (p_killed p' = false) as Hrun.
    { apply replaced_inv in Hr as (i' & conn & copied & opened & err & reply & [= <- ->] & [(Ho & ? & _)|(Ho & ? & _)]);
        by eapply (received_keeps_running _ _ _ _ _ _ _ _ He Ho). }
    assert (x ∈ n_ops (p_net p')) as [j' Hj']%list_elem_of_lookup.
    { rewrite Hops. apply elem_of_app. left. by apply (in_drop_at i j). }
    exists (Completed j' (completion_of (o_kind x))). unfold run_event. rewrite Hrun, Hj'. by apply complete_lost.
Qed.

(** ** The answer to what was asked *)

Definition http_ops (n : Net) : list op := filter (fun x => o_idle x = false) (n_ops n).

(** The last request on the first connection is that of a call whose answer
    is read under the command [c]. *)
Definition asked (n : Net) (c : cmd_t) : Prop :=
  exists a body, call_body a = Ret body /\ answer_of a = Some c /\
    last (filter (fun x => x.1 = n_http n) (n_sent n)) = Some (n_http n, client_request a body).

(** A user who waits for the answer to a line before the next one, while
    nothing is under way on the first connection when the second one
    breaks. *)
Definition patient (e : event) (p : Program) : Prop :=
  match e with
  | Terminal => True
  | Work => m_Queue (events (p_console p)) <> [] -> http_ops (p_net p) = []
  | Completed i (Received _ _ err reply) =>
      (exists conn, n_ops (p_net p) !! i = Some (mkOp true conn Reading)) -> breaks err reply = true -> http_ops (p_net p) = []
  | Completed _ _ => True
  end.

Lemma http_ops_start idle k n :
  http_ops (start_op idle k n) = http_ops n ++ (if idle then [] else [mkOp false (n_http n) k]).
Proof. unfold http_ops. cbn [n_ops start_op]. rewrite filter_app. by destruct idle. Qed.

Lemma http_ops_drop i o n :
  n_ops n !! i = Some o ->
  exists l1 l2, http_ops n = l1 ++ (if o_idle o then [] else [o]) ++ l2 /\ http_ops (drop_op i n) = l1 ++ l2.
Proof.
  intros Ho. unfold http_ops. rewrite ops_drop, delete_take_drop.
  exists (filter (fun x => o_idle x = false) (take i (n_ops n))), (filter (fun x => o_idle x = false) (drop (Datatypes.S i) (n_ops n))).
  split; [|apply filter_app]. rewrite <- (take_drop_middle _ _ _ Ho) at 1.
  rewrite filter_app, filter_cons. by destruct (o_idle o).
Qed.

Lemma http_ops_drop_idle i o n : n_ops n !! i = Some o -> o_idle o = true -> http_ops (drop_op i n) = http_ops n.
Proof. intros Ho Hi. destruct (http_ops_drop _ _ _ Ho) as (l1 & l2 & -> & ->). by rewrite Hi. Qed.

Definition one_asked (n : Net) (c : cmd_t) : Prop :=
  http_ops n = [] \/
  exists k, http_ops n = [mkOp false (n_http n) k] /\ (k = Writing \/ k = Reading -> asked n c).

(** The one operation on the first connection completes. *)
Lemma one_asked_drop n c i o :
  one_asked n c -> n_ops n !! i = Some o -> o_idle o = false ->
  http_ops (drop_op i n) = [] /\ http_ops n = [o] /\ o_conn o = n_http n /\ (o_kind o = Writing \/ o_kind o = Reading -> asked n c).
Proof.
  intros Hn Ho Hi. destruct (http_ops_drop _ _ _ Ho) as (l1 & l2 & Heq & ->). rewrite Hi in Heq.
  destruct Hn as [Hn|(k & Hn & Hk)]; rewrite Hn in Heq; [by destruct l1|].
  destruct l1 as [|y l1]; [|by destruct l1]. simpl in Heq. injection Heq as <- <-. by rewrite Hn.
Qed.

Lemma asked_now n a body c : call_body a = Ret body -> answer_of a = Some c -> asked (note_sent false (client_request a body) n) c.
Proof.
  intros Hb Ha. exists a, body. split_and!; [done|done|]. cbn [n_sent note_sent n_http conn_of].
  rewrite filter_app, last_app. by rewrite filter_cons_True.
Qed.

(** A completion on the polling connection leaves the first one alone. *)
Lemma ops_aside n n' i o l :
  n_ops n !! i = Some o -> o_idle o = true -> n_ops n' = delete i (n_ops n) ++ l ->
  Forall (fun x => o_idle x = true) l -> http_ops n' = http_ops n.
Proof.
  intros Ho Hi Hops Hl. rewrite <- (http_ops_drop_idle _ _ _ Ho Hi). unfold http_ops. rewrite Hops, filter_app, ops_drop.
  replace (filter (fun x => o_idle x = false) l) with (@nil op); [by rewrite app_nil_r|].
  clear Hops. induction Hl as [|x l Hx Hl IH]; [done|]. rewrite filter_cons_False by congruence. exact IH.
Qed.

Lemma one_asked_idle n n' c i o l :
  one_asked n c -> n_ops n !! i = Some o -> o_idle o = true ->
  n_ops n' = delete i (n_ops n) ++ l -> Forall (fun x => o_idle x = true) l -> n_http n' = n_http n ->
  filter (fun x => x.1 = n_http n) (n_sent n') = filter (fun x => x.1 = n_http n) (n_sent n) ->
  one_asked n' c.
Proof.
  intros Hn Ho Hi Hops Hl Hh Hs. revert Hn. unfold one_asked, asked. rewrite (ops_aside _ _ _ _ _ Ho Hi Hops Hl), Hh, Hs. tauto.
Qed.

Lemma one_asked_start k n c : http_ops n = [] -> (k = Writing \/ k = Reading -> asked n c) -> one_asked (start_op false k n) c.
Proof. intros Hn Hk. right. exists k. by rewrite http_ops_start, Hn. Qed.

Lemma idle_sent n req :
  numbered n -> filter (fun x => x.1 = n_http n) (n_sent n ++ [(n_idle n, req)]) = filter (fun x => x.1 = n_http n) (n_sent n).
Proof.
  intros N. rewrite filter_app, filter_cons_False, filter_nil, app_nil_r; [done|]. simpl. pose proof (num_distinct n N). congruence.
Qed.

(** The events that are allowed, on the connections. *)
Definition waits (n : Net) (e : event) (n' : Net) : Prop :=
  match e with
  | Terminal => True
  | Work => http_ops n = [] \/ n_ops n' = n_ops n
  | Completed i (Received _ _ err reply) =>
      (exists conn, n_ops n !! i = Some (mkOp true conn Reading)) -> breaks err reply = true -> http_ops n = []
  | Completed _ _ => True
  end.

(** The cases of a completion on the polling connection. *)
Ltac of_idle Hn Ho :=
  eapply (one_asked_idle _ _ _ _ _ _ Hn Ho eq_refl);
    [cbn [n_ops start_op note_sent note_ready note_open drop_op]; (reflexivity || by rewrite app_nil_r)
    |by repeat constructor|done|try done].

Lemma one_asked_step n c e n' c' : numbered n -> waits n e n' -> one_asked n c -> effect n c e n' c' -> one_asked n' c'.
Proof.
  intros N Hw Hn He.
  destruct He as [| a body c1 Hb Ha | i d [[] conn k] m Ho Ha Hk | i d [[] conn k] Ho Ha Hk | i d conn Ho
    | i d conn a body c1 Ho _ Hb Ha | i d conn a body Ho ->
    | i [[] conn k] e1 Ho Hk | i [[] conn k] d Ho Hk | i conn copied opened e1 reply Ho | i conn copied opened reply Ho
    | i conn copied opened reply Ho Hc Hopn | i conn copied opened e1 reply Ho _ Hb | i conn copied opened e1 reply Ho ].
  all: try (destruct (one_asked_drop _ _ _ _ Hn Ho eq_refl) as (Hdrop & Hops & Hconn & Hasked)).
  - done.
  - assert (http_ops n = []) as Hno.
    { destruct Hw as [?|Hl]; [done|]. apply (f_equal length) in Hl. cbn [n_ops start_op note_sent] in Hl.
      rewrite length_app in Hl. simpl in Hl. lia. }
    apply one_asked_start; [done|]. intros _. by apply asked_now.
  - retried; of_idle Hn Ho.
  - retried; (apply one_asked_start; [done|by intros []]).
  - of_idle Hn Ho.
  - apply one_asked_start; [done|by intros []].
  - by left.
  - apply one_asked_start; [done|]. intros _. by apply asked_now.
  - of_idle Hn Ho. exact (idle_sent n _ N).
  - of_idle Hn Ho.
  - by left.
  - of_idle Hn Ho.
  - apply one_asked_start; [done|]. intros _. apply Hasked. by left.
  - apply one_asked_start; [done|by intros []].
  - by left.
  - left. rewrite http_ops_start, Hdrop. done.
  - apply one_asked_start; [|by intros []]. trans (http_ops (drop_op i n)); [done|].
    rewrite (http_ops_drop_idle i _ n Ho eq_refl). apply Hw; [by eexists|done].
  - of_idle Hn Ho.
Qed.

Lemma work_empty p p' : run_event Work p = Some (Runs p') -> m_Queue (events (p_console p)) = [] -> p_net p' = p_net p.
Proof.
  unfold run_event. destruct (p_killed p); [done|]. unfold processQueue, getTask. destruct (events _) as [q]. simpl.
  intros E ->. by injection E as <-.
Qed.

Lemma patient_waits e p p' : patient e p -> run_event e p = Some (Runs p') -> waits (p_net p) e (p_net p').
Proof.
  intros Hp He. destruct e as [| |i d]; [done| |by destruct d].
  destruct (decide (m_Queue (events (p_console p)) = [])) as [Hq|Hq]; [right|left; by apply Hp].
  by rewrite (work_empty p p').
Qed.

(** C17: the answers to a user who waits for them, while the polling
    connection does not replace the first one ([patient]). When an answer arrives, the
    command on record, under which the client reads it, is that of the last
    request it wrote on the connection, and nothing else is under way there.
    ([login_answer_overtaken] is what happens to a user who does not wait.) *)
Theorem answers_attributed p i conn :
  reachable_by patient p -> n_ops (p_net p) !! i = Some (mkOp false conn Reading) ->
  conn = n_http (p_net p) /\ asked (p_net p) (m_LastCmd (p_client p)) /\
  (forall j x, n_ops (p_net p) !! j = Some x -> o_idle x = false -> j = i).
Proof.
  intros (host & port & user & password & lines & Hr) Ho.
  apply (run_ind _ (fun p => numbered (p_net p) /\ one_asked (p_net p) (m_LastCmd (p_client p)))) in Hr.
  - destruct Hr as [_ Hn]. destruct (one_asked_drop _ _ _ _ Hn Ho eq_refl) as (Hdrop & Hops & Hconn & Hasked).
    split_and!; [done|by apply Hasked; right|]. intros j x Hx Hi. destruct (decide (j = i)) as [|Hj]; [done|exfalso].
    assert (x ∈ http_ops (drop_op i (p_net p))) as Hin; [|by rewrite Hdrop in Hin; apply elem_of_nil in Hin].
    apply list_elem_of_filter. split; [done|]. by apply (in_drop_at i j).
  - intros e q q' Hok [N Hq] He. pose proof (run_event_effect _ _ _ He) as Hf.
    split; [by eapply numbered_step|]. eapply one_asked_step; [done|by eapply patient_waits|done..].
  - split; [|right; exists Connecting; split; [done|by intros []]].
    split; simpl; [lia..|constructor|]. repeat constructor.
Qed.

(** ** A client that logs in and sends a message *)

(** A run whose events pass a test. *)
Fixpoint run_checked (test : event -> Program -> bool) (es : list event) (p : Program) : option Program :=
  match es with
  | [] => Some p
  | e :: es =>
      if test e p then match run_event e p with Some (Runs p) => run_checked test es p | _ => None end else None
  end.

Definition after_events (test : event -> Program -> bool) (es : list event) (p : Program) : Program :=
  default p (run_checked test es p).

Lemma run_checked_steps (ok : event -> Program -> Prop) test es p :
  (forall e p, test e p = true -> ok e p) -> is_Some (run_checked test es p) -> rtc (step_of ok) p (after_events test es p).
Proof.
  intros Htest [p' Hp]. unfold after_events. rewrite Hp. simpl. revert p Hp.
  induction es as [|e es IH]; intros p Hp; cbn [run_checked] in Hp; [by injection Hp as ->|].
  destruct (test e p) eqn:Ht; [|done]. destruct (run_event e p) as [[p1| |]|] eqn:E; try done.
  eapply rtc_l; [exists e; split; [by apply Htest|done]|by apply IH].
Qed.

Definition is_work (e : event) : bool := match e with Work => true | _ => false end.
Definition any_event (e : event) (p : Program) : bool := true.
Definition replaces_nothing (e : event) (p : Program) : bool := bool_decide (replaced e (p_net p) = []).
Definition types_alone (e : event) (p : Program) : bool :=
  replaces_nothing e p && (negb (is_work e) || bool_decide (http_ops (p_net p) = [])).

Definition alice_start : Program := client_program "geo" 7788 "alice" "secret_a" ["direct_msg bob hi" : str].
Definition alice_logs_in : list event :=
  [ Completed 0 (Connected None None); Completed 0 (Shaken None); Completed 0 (Written None);
    Completed 0 (Received false true None (ok_reply "{\qid\q:1,\qchatid\q:1,\qheartbit\q:5}"));
    Completed 0 (Connected None None); Completed 0 (Shaken None) ].

(** The request for polling is not written. *)
Definition alice_deaf : list event := alice_logs_in ++ [Completed 0 (Written (Some (net_error "reset")))].

(** It is, and a message is typed and sent. *)
Definition alice_waits : list event :=
  alice_logs_in ++ [Completed 0 (Written None); Terminal; Work; Completed 1 (Written None)].

(** The server goes away while the client waits for the answer. *)
Definition idle_lost : event := Completed 0 (Received false true (Some (net_error "eof")) no_reply).

Lemma replaces_nothing_careful e p : replaces_nothing e p = true -> careful e p.
Proof.
  intros Hr%bool_decide_eq_true (i & d & j & x & -> & _ & _ & _ & Hx). rewrite Hr in Hx. by apply elem_of_nil in Hx.
Qed.

Lemma alice_reaches ok test es :
  (forall e p, test e p = true -> ok e p) -> is_Some (run_checked test es alice_start) ->
  reachable_by ok (after_events test es alice_start).
Proof. intros Ht Hs. exists "geo", 7788, "alice", "secret_a", ["direct_msg bob hi" : str]. by apply run_checked_steps. Qed.

Ltac runs := apply (bool_decide_unpack _); vm_compute; exact I.

(** The status along a list of events. *)
Fixpoint status_after (es : list event) (p : Program) (st : link_status) : link_status :=
  match es with
  | [] => st
  | e :: es =>
      match run_event e p with
      | Some (Runs p') => status_after es p' (link_after e (p_net p) st)
      | _ => st
      end
  end.

Lemma run_watched es p st :
  is_Some (run_checked any_event es p) -> watched p st -> watched (after_events any_event es p) (status_after es p st).
Proof.
  unfold after_events. intros [q Hq] Hw. rewrite Hq. cbn [default].
  revert p st Hq Hw. induction es as [|e es IH]; intros p st Hq Hw; cbn [run_checked status_after any_event] in *;
    [by injection Hq as <-|].
  destruct (run_event e p) as [[p'| |]|] eqn:He; [|done..]. apply IH; [done|]. by eapply watched_step.
Qed.

(** The answer to alice's message does not come: a new connection is being
    connected. *)
Definition answer_lost : list event := alice_waits ++ [Completed 1 (Received false true (Some (net_error "reset")) no_reply)].

Lemma client_reconnects_witness :
  status_after alice_waits alice_start Trying = Up /\
  exists k, (k = Connecting \/ k = Shaking) /\
    mkOp false (n_http (p_net (after_events any_event answer_lost alice_start))) k ∈
      n_ops (p_net (after_events any_event answer_lost alice_start)).
Proof.
  split; [vm_compute; reflexivity|].
  apply (client_reconnects (after_events any_event answer_lost alice_start) Trying).
  assert (status_after answer_lost alice_start Trying = Trying) as <- by (vm_compute; reflexivity).
  apply run_watched; [runs|constructor].
Defined.

(** Alice, who is deaf, sends her message and is told that it was sent. *)
Definition still_deaf : Program :=
  after_events any_event [Terminal; Work; Completed 0 (Written None); Completed 0 (Received false true None (ok_reply "{}"))]
    (after_events any_event alice_deaf alice_start).

Lemma deaf_client_witness :
  (exists p', run_event (Completed 0 (Written (Some (net_error "reset")))) (after_events any_event alice_logs_in alice_start)
     = Some (Runs p') /\ deaf (p_net p')) /\
  deaf (p_net still_deaf).
Proof.
  split.
  - destruct (deaf_client (after_events any_event alice_logs_in alice_start)) as (_ & Hdeaf & _).
    + apply alice_reaches; [done|runs].
    + apply (Hdeaf 0%nat); clear Hdeaf.
      * vm_compute. reflexivity.
      * vm_compute. reflexivity.
      * split; [eexists; vm_compute; reflexivity|].
        assert (n_ops (p_net (after_events any_event alice_logs_in alice_start)) = [mkOp true 1 Writing]) as ->
          by (vm_compute; reflexivity).
        intros [|j] x Hj Hx; [by destruct Hj|discriminate Hx].
  - destruct (deaf_client (after_events any_event alice_deaf alice_start)) as (_ & _ & Hdeaf & _).
    + apply alice_reaches; [done|runs].
    + apply Hdeaf; clear Hdeaf.
      * apply run_checked_steps; [done|runs].
      * vm_compute. split; [by left|]. intros (x & Hx & _). by apply elem_of_nil in Hx.
Defined.

Definition goes_on (o : option outcome) : bool := match o with Some (Runs _) => true | _ => false end.

Lemma still_runs o : goes_on o = true -> exists p', o = Some (Runs p').
Proof. destruct o as [[p'| |]|]; [by exists p'|done..]. Qed.

Lemma client_dangles_witness :
  exists e p', run_event idle_lost (after_events replaces_nothing alice_waits alice_start) = Some (Runs p') /\
    run_event e p' = Some Dangling.
Proof.
  assert (exists p', run_event idle_lost (after_events replaces_nothing alice_waits alice_start) = Some (Runs p')) as [p' E].
  { apply still_runs. vm_compute. reflexivity. }
  destruct (client_dangles (after_events replaces_nothing alice_waits alice_start)) as [_ Hd].
  - apply alice_reaches; [apply replaces_nothing_careful|runs].
  - destruct (Hd idle_lost p') as [e He]; [|exact E|exists e, p'; split; [exact E|exact He]].
    exists 0%nat, (Received false true (Some (net_error "eof")) no_reply), 1%nat, (mkOp false 0 Reading).
    vm_compute. split_and!; [done..|right; by left].
Defined.

Lemma types_alone_patient e p : types_alone e p = true -> patient e p.
Proof.
  intros [Hr%bool_decide_eq_true Hw]%andb_true_iff. destruct e as [| |i d]; [done| |].
  - intros _. by apply bool_decide_eq_true in Hw.
  - destruct d as [| | |copied opened err reply]; [done..|]. intros [conn Ho] Hb. cbn [replaced] in Hr. by rewrite Ho, Hb in Hr.
Qed.

Lemma answers_attributed_witness :
  asked (p_net (after_events types_alone alice_waits alice_start)) DIRECT_MSG_USER.
Proof.
  apply (answers_attributed (after_events types_alone alice_waits alice_start) 1 0).
  - apply alice_reaches; [apply types_alone_patient|runs].
  - vm_compute. reflexivity.
Defined.
