(* ===== verification/System.v ===== *)
(** * A client and the server together

    The client program of ClientRun and the server of Server with a network
    between them.  The first connection of the client, over which it sends
    what is typed, is a link to a connection of the server: two streams of
    bytes, reliable and in order.  A side that reads a message with success
    has read it off its stream.  Everything else is free: when each thread and
    handler runs, whatever the other connections of the server carry, those of
    other clients and the polling connection of this one among them, and
    whatever arrives on the latter.

    A link is followed as long as it is intact.  It is lost, and from then on
    everything may arrive, when an operation on it fails, when a write is
    started while another is under way (it pulls away the buffer of that one),
    when a message is as long as the address space, and when the client
    replaces the connection.  Bytes are on their way as soon as a write is
    started.

    The theorem says that the client is told the truth: when the answer to a
    command arrives with the status 200, what was asked for is done. *)

From S2P Require Import Prelude CxxString Utils Json Common LockQueue Database Store ApiUtils Gzip Http ClientUtils Worker Promises Pool ApiClient Server Answers Threads Client ClientRun.
Import Input.

(** ** The link *)

(** The connection of the server, the bytes that the client has written and
    the server has not read, and the other way. *)
Record Link := mkLink { l_conn : nat; l_up : str; l_down : str }.

(** The first message of a stream and the bytes after it.  How the network
    cuts the stream makes no difference ([asyncResponse_segments]). *)
Definition heard `{Zlib} (bytes : str) : option (HttpReply * str) :=
  match asyncResponse (mkSocket [] [] [bytes] []) with
  | Some (Ret (None, reply, s)) => Some (reply, stream s)
  | _ => None
  end.

(** Messages are written while another write is under way, or are too long. *)
Definition garbled (busy : bool) (msgs : list str) : bool :=
  busy || (2 ^ 64 <=? Z.of_nat (length (concat msgs))).

Definition write_up (busy : bool) (msgs : list str) (l : Link) : option Link :=
  match msgs with
  | [] => Some l
  | _ => if garbled busy msgs then None else Some (mkLink (l_conn l) (l_up l ++ concat msgs) (l_down l))
  end.
Definition write_down (busy : bool) (msgs : list str) (l : Link) : option Link :=
  match msgs with
  | [] => Some l
  | _ => if garbled busy msgs then None else Some (mkLink (l_conn l) (l_up l) (l_down l ++ concat msgs))
  end.

(** *** The side of the client *)

(** The requests an event has started to write on the first connection. *)
Definition new_requests (n n' : Net) : list str :=
  snd <$> filter (fun x => x.1 = n_http n') (drop (length (n_sent n)) (n_sent n')).

Definition is_writing (n : Net) : bool := bool_decide (mkOp false (n_http n) Writing ∈ n_ops n).

(** An operation on the first connection fails, or connects it anew. *)
Definition client_fails (e : event) (n : Net) : bool :=
  match e with
  | Completed i d =>
      match n_ops n !! i with
      | Some o =>
          negb (o_idle o) && bool_decide (o_conn o = n_http n) &&
          match d with Shaken None | Written None | Received _ _ None _ => false | _ => true end
      | None => false
      end
  | _ => false
  end.

Definition client_link (e : event) (n n' : Net) (l : Link) : option Link :=
  if client_fails e n || negb (bool_decide (n_http n' = n_http n)) then None
  else write_up (is_writing n) (new_requests n n') l.

(** *** The side of the server *)

Definition writes_of {S} (conn : nat) (sv : Server S) : list str :=
  match s_conns sv !! conn with Some c => fst <$> c_writes c | None => [] end.

(** The writes of the connection when the one that completes is removed. *)
Definition writes_left {S} (e : server_event) (conn : nat) (sv : Server S) : list str :=
  match e with
  | Server.Written k _ => if decide (k = conn) then tail (writes_of conn sv) else writes_of conn sv
  | _ => writes_of conn sv
  end.

Definition server_fails (e : server_event) (conn : nat) : bool :=
  match e with
  | Handshaken k (Some _) | Server.Received k _ (Some _) _ | Server.Written k (Some _) => bool_decide (k = conn)
  | _ => false
  end.

Definition server_link {S} (e : server_event) (sv sv' : Server S) (l : Link) : option Link :=
  let left := writes_left e (l_conn l) sv in
  if server_fails e (l_conn l) then None
  else write_down (negb (bool_decide (left = []))) (drop (length left) (writes_of (l_conn l) sv')) l.

(** ** The system *)

Section System.
Context {S : Type} `{AbstractConnection S} `{Crc32} `{StdSort} (pass_len : Z) `{LocationClient} `{Zlib}.

Record System := mkSystem { y_client : Program; y_server : Server S; y_link : option Link }.

(** [Accepts]: the connect of operation [i] of the client is accepted by the
    server.  [ClientHears], [ServerHears]: the side reads a message of the
    link with success. *)
Inductive sys_event :=
| ClientMoves (e : event)
| ClientHears (i : nat) (copied opened : bool)
| ServerMoves (e : server_event)
| ServerHears (now : Z)
| Accepts (i : nat) (peer : str) (cmd : Common.cmd_t).

(** The read of the first connection completes with success. *)
Definition client_hears (e : event) (n : Net) : bool :=
  match e with
  | Completed i (Received _ _ None _) => bool_decide (n_ops n !! i = Some (mkOp false (n_http n) Reading))
  | _ => false
  end.
Definition server_hears (e : server_event) (conn : nat) : bool :=
  match e with Server.Received k _ None _ => bool_decide (k = conn) | _ => false end.

(** The client runs until it stops. *)
Definition client_moves (e : event) (p : Program) : option Program :=
  match run_event e p with Some (Runs p') => Some p' | _ => None end.

(** The event of the client that a [ClientHears] is. *)
Definition hears (i : nat) (copied opened : bool) (reply : HttpReply) : event :=
  Completed i (Received copied opened None reply).

Definition sys_step (ev : sys_event) (y : System) : option System :=
  let p := y_client y in
  let sv := y_server y in
  match ev with
  | ClientMoves e =>
      if client_hears e (p_net p) && bool_decide (is_Some (y_link y)) then None
      else
        p' ← client_moves e p;
        Some (mkSystem p' sv (y_link y ≫= client_link e (p_net p) (p_net p')))
  | ClientHears i copied opened =>
      l ← y_link y;
      '(reply, rest) ← heard (l_down l);
      if client_hears (hears i copied opened reply) (p_net p) then
        p' ← client_moves (hears i copied opened reply) p;
        Some (mkSystem p' sv
          (client_link (hears i copied opened reply) (p_net p) (p_net p') (mkLink (l_conn l) (l_up l) rest)))
      else None
  | ServerMoves e =>
      if match y_link y with Some l => server_hears e (l_conn l) | None => false end then None
      else
        sv' ← serve pass_len e sv;
        Some (mkSystem p sv' (y_link y ≫= server_link e sv sv'))
  | ServerHears now =>
      l ← y_link y;
      '(reply, rest) ← heard (l_up l);
      let e := Server.Received (l_conn l) now None reply in
      sv' ← serve pass_len e sv;
      Some (mkSystem p sv' (server_link e sv sv' (mkLink (l_conn l) rest (l_down l))))
  | Accepts i peer cmd =>
      if bool_decide (n_ops (p_net p) !! i = Some (mkOp false (n_http (p_net p)) Connecting)) then
        p' ← client_moves (Completed i (Connected None None)) p;
        sv' ← serve pass_len (Accepted peer cmd) sv;
        Some (mkSystem p' sv' (Some (mkLink (s_next sv) [] [])))
      else None
  end.

(** The user waits for the answer to a line before the next one
    ([ClientRun.patient]). *)
Definition sys_patient (ev : sys_event) (y : System) : Prop :=
  match ev with ClientMoves e => patient e (y_client y) | _ => True end.

Definition sys_start (s : S) (p : Program) : System := mkSystem p (Server_run s) None.
End System.
Arguments System : clear implicits.

(** ** What is heard *)

Section Heard.
Context `{Zlib}.

Lemma heard_nothing : heard [] = None.
Proof. done. Qed.

Lemma heard_of bytes reply s :
  asyncResponse (mkSocket [] [] [bytes] []) = Some (Ret (None, reply, s)) -> heard bytes = Some (reply, stream s).
Proof. unfold heard. by intros ->. Qed.

Lemma heard_request a body :
  Z.of_nat (length (client_request a body)) < 2 ^ 64 -> heard (client_request a body) = Some (request_read a body, []).
Proof.
  intros Hlen. destruct (client_request_received (mkSocket [] [] [client_request a body] []) a body []) as (s & E & Hs).
  - revert Hlen. unfold client_request, build_request. rewrite !length_app. lia.
  - unfold stream. simpl. by rewrite !app_nil_r.
  - rewrite (heard_of _ _ _ E). by rewrite Hs.
Qed.

Lemma heard_response code hs body :
  let bytes := message ("HTTP/1.1 " ++ http_code_to_string code) hs body in
  known_code code -> hs = ok_headers body \/ hs = error_headers body -> Z.of_nat (length bytes) < 2 ^ 64 ->
  heard bytes = Some (set_body body (response_head code hs), []).
Proof.
  intros bytes Hk Hhs Hlen.
  destruct (response_received (mkSocket [] [] [bytes] []) code hs body [] Hk Hhs) as (s & E & Hs).
  - revert Hlen. unfold bytes, message. rewrite !length_app. lia.
  - unfold stream. simpl. by rewrite !app_nil_r.
  - rewrite (heard_of _ _ _ E). by rewrite Hs.
Qed.

Lemma heard_ok body :
  Z.of_nat (length (buildApiOkResponse body)) < 2 ^ 64 ->
  exists reply, heard (buildApiOkResponse body) = Some (reply, []).
Proof.
  rewrite ok_response_message. intros Hlen. eexists. apply heard_response; [by left|by left|exact Hlen].
Qed.

Lemma heard_error code api desc c c' response h :
  ApiClient.sendErrorResponse code api desc c = Ret (c', [asyncRequest response h]) -> known_code code ->
  Z.of_nat (length response) < 2 ^ 64 -> exists reply, heard response = Some (reply, []) /\ _status reply = code.
Proof.
  unfold ApiClient.sendErrorResponse. cbn [set_code m_HttpCode]. unfold build_api_error_rsponse.
  intros E Hk. destruct (make_api_error api desc) as [body| |] eqn:He; [|done..].
  pose proof (error_response_message code api desc body He) as Hm. unfold build_api_error_rsponse in Hm. rewrite He in Hm.
  rewrite Hm in E. cbn [mbind cxx_bind mret cxx_ret] in E. injection E as _ <- _.
  intros Hlen. eexists. split; [apply heard_response; [done|by right|exact Hlen]|done].
Qed.
End Heard.

(** ** The turns of the client *)

(** Nothing is asked: the connection is being made, or rests. *)
Definition at_rest (n : Net) : Prop :=
  http_ops n = [] \/ exists k, (k = Connecting \/ k = Shaking) /\ http_ops n = [mkOp false (n_http n) k].

(** The last request on the first connection is that of the call [a]. *)
Definition asking (n : Net) (c : cmd_t) (a : api_call) (body : str) : Prop :=
  call_body a = Ret body /\ answer_of a = Some c /\
  last (filter (fun x => x.1 = n_http n) (n_sent n)) = Some (n_http n, client_request a body).

(** Its answer is waited for. *)
Definition waiting_for (n : Net) (c : cmd_t) (a : api_call) (body : str) : Prop :=
  asking n c a body /\ exists k, (k = Writing \/ k = Reading) /\ http_ops n = [mkOp false (n_http n) k].

Lemma rest_not_waiting_for n c a body : at_rest n -> waiting_for n c a body -> False.
Proof. intros [E|(k & Hk & E)] [_ (k' & Hk' & E')]; rewrite E in E'; [done|]. injection E' as ->. naive_solver. Qed.

Lemma at_rest_same n n' : http_ops n' = http_ops n -> n_http n' = n_http n -> at_rest n -> at_rest n'.
Proof. unfold at_rest. by intros -> ->. Qed.

Lemma waiting_same n n' c a body :
  http_ops n' = http_ops n -> n_http n' = n_http n ->
  filter (fun x => x.1 = n_http n) (n_sent n') = filter (fun x => x.1 = n_http n) (n_sent n) ->
  waiting_for n c a body -> waiting_for n' c a body.
Proof. unfold waiting_for, asking. by intros -> -> ->. Qed.

Lemma new_requests_none n n' : n_sent n' = n_sent n -> new_requests n n' = [].
Proof. unfold new_requests. intros ->. by rewrite drop_all. Qed.

Lemma new_requests_one n n' conn req :
  n_sent n' = n_sent n ++ [(conn, req)] -> new_requests n n' = if decide (conn = n_http n') then [req] else [].
Proof.
  unfold new_requests. intros ->. rewrite drop_app_length, filter_cons, filter_nil. cbn [fst]. by case_decide.
Qed.

(** What an event that leaves the first connection in place does: nothing
    that concerns it, or it asks, or (below) it hears. *)
Definition client_turn (n n' : Net) (c c' : cmd_t) : Prop :=
  (new_requests n n' = [] /\ (at_rest n -> at_rest n') /\ forall a body, waiting_for n c a body -> waiting_for n' c' a body) \/
  exists a body, new_requests n n' = [client_request a body] /\ at_rest n /\ waiting_for n' c' a body.

Lemma turn_aside n n' c i o l :
  n_ops n !! i = Some o -> o_idle o = true ->
  n_ops n' = delete i (n_ops n) ++ l -> Forall (fun x => o_idle x = true) l -> n_http n' = n_http n ->
  n_sent n' = n_sent n \/ (exists req, n_sent n' = n_sent n ++ [(n_idle n, req)] /\ n_idle n <> n_http n) ->
  client_turn n n' c c.
Proof.
  intros Ho Hi Hops Hl Hh Hs. left.
  assert (http_ops n' = http_ops n) as Hsame by by eapply ops_aside.
  assert (filter (fun x => x.1 = n_http n) (n_sent n') = filter (fun x => x.1 = n_http n) (n_sent n)) as Hf.
  { destruct Hs as [->|(req & -> & Hne)]; [done|]. by rewrite filter_app, filter_cons_False, filter_nil, app_nil_r. }
  split_and!; [|by apply at_rest_same|intros a body; by apply waiting_same].
  destruct Hs as [Hs|(req & Hs & Hne)]; [by apply new_requests_none|].
  rewrite (new_requests_one _ _ _ _ Hs). by rewrite decide_False by congruence.
Qed.

Lemma at_rest_start k n : http_ops n = [] -> k = Connecting \/ k = Shaking -> at_rest (start_op false k n).
Proof. intros Hn Hk. right. exists k. split; [done|]. by rewrite http_ops_start, Hn. Qed.

Lemma waiting_start n c a body :
  call_body a = Ret body -> answer_of a = Some c -> http_ops n = [] ->
  waiting_for (start_op false Writing (note_sent false (client_request a body) n)) c a body.
Proof.
  intros Hb Ha Hn. split.
  - split_and!; [done|done|]. cbn [n_sent start_op note_sent n_http conn_of]. rewrite filter_app, last_app.
    by rewrite filter_cons_True.
  - exists Writing. split; [by left|]. rewrite http_ops_start. change (http_ops (note_sent _ _ _)) with (http_ops n). by rewrite Hn.
Qed.

(** The first connection is asked, or does something else on its own. *)
Lemma turn_own n n' c c' o :
  n_sent n' = n_sent n -> n_http n' = n_http n -> http_ops n = [o] -> o_conn o = n_http n ->
  (o_kind o = Connecting \/ o_kind o = Shaking -> at_rest n') ->
  (forall a body, waiting_for n c a body -> waiting_for n' c' a body) -> client_turn n n' c c'.
Proof.
  intros Hs Hh Hops Hconn Hr Hw. left. split_and!; [by apply new_requests_none| |done].
  intros [E|(k & Hk & E)]; rewrite E in Hops; [done|]. injection Hops as <-. by apply Hr.
Qed.

Lemma not_waiting_for n c o :
  http_ops n = [o] -> o_kind o = Connecting \/ o_kind o = Shaking -> forall a body, ~ waiting_for n c a body.
Proof. intros Hops Hk a body [_ (k & Hk' & E)]. rewrite E in Hops. injection Hops as <-. naive_solver. Qed.

(** Whether the completion of a write is one of the first connection. *)
Lemma write_kept n i conn c a body :
  http_ops n = [mkOp false conn Writing] -> http_ops (drop_op i n) = [] -> waiting_for n c a body ->
  waiting_for (start_op false Reading (drop_op i n)) c a body.
Proof.
  intros Hops Hdrop [Ha _]. split; [exact Ha|]. exists Reading. split; [by right|]. by rewrite http_ops_start, Hdrop.
Qed.

Ltac aside Ho :=
  eapply (turn_aside _ _ _ _ _ _ Ho eq_refl);
    [cbn [n_ops start_op note_sent note_ready note_open drop_op]; (reflexivity || by rewrite app_nil_r)
    |by repeat constructor|done|try (by left)].

Lemma client_turns n c e n' c' :
  numbered n -> waits n e n' -> one_asked n c -> effect n c e n' c' ->
  client_fails e n = false -> client_hears e n = false -> n_http n' = n_http n -> client_turn n n' c c'.
Proof.
  intros N Hw Hn He Hfails Hhears Hhttp.
  destruct He as [| a body c1 Hb Ha | i d [[] conn k] m Ho Ha Hk | i d [[] conn k] Ho Ha Hk | i d conn Ho
    | i d conn a body c1 Ho Hc Hb Ha | i d conn a body Ho ->
    | i [[] conn k] e1 Ho Hk | i [[] conn k] d Ho Hk | i conn copied opened e1 reply Ho | i conn copied opened reply Ho
    | i conn copied opened reply Ho Hc Hopn | i conn copied opened e1 reply Ho _ Hb | i conn copied opened e1 reply Ho ].
  all: try (destruct (one_asked_drop _ _ _ _ Hn Ho eq_refl) as (Hdrop & Hops & Hconn & Hasked)).
  - left. split_and!; [by apply new_requests_none|done..].
  - assert (http_ops n = []) as Hno.
    { destruct Hw as [?|Hl]; [done|]. apply (f_equal length) in Hl. cbn [n_ops start_op note_sent] in Hl.
      rewrite length_app in Hl. simpl in Hl. lia. }
    right. exists a, body. split_and!; [|by left|by apply waiting_start].
    rewrite (new_requests_one _ _ (n_http n) (client_request a body)) by done. by rewrite decide_True.
  - retried; aside Ho.
  - eapply turn_own; [by retried|by retried|exact Hops|done| |].
    + intros _. retried; apply at_rest_start; auto.
    + intros a body Hw'. exfalso. eapply not_waiting_for; [exact Hops| |exact Hw']. destruct Hk as [[? _]|[? _]]; auto.
  - aside Ho.
  - eapply turn_own; [done|done|exact Hops|done| |].
    + intros _. apply at_rest_start; auto.
    + intros a body Hw'. exfalso. eapply not_waiting_for; [exact Hops| |exact Hw']. auto.
  - eapply turn_own; [done|done|exact Hops|done| |].
    + intros _. by left.
    + intros a body Hw'. exfalso. eapply not_waiting_for; [exact Hops| |exact Hw']. auto.
  - right. exists a, body. split_and!.
    + rewrite (new_requests_one _ _ (n_http n) (client_request a body)) by done. by rewrite decide_True.
    + right. exists Shaking. split; [by right|]. by rewrite Hops, Hc.
    + by apply waiting_start.
  - aside Ho. right. eexists. split; [done|]. pose proof (num_distinct n N). cbn. congruence.
  - aside Ho.
  - exfalso. revert Hfails. unfold client_fails. rewrite Ho. cbn [o_idle o_conn]. cbn [o_conn] in Hconn.
    by rewrite bool_decide_eq_true_2.
  - aside Ho.
  - cbn [o_kind] in Hk. subst k. eapply turn_own; [done|done|exact Hops|done|by intros []|].
    intros a body. by eapply write_kept.
  - simpl in Hhttp. pose proof (num_http n N). lia.
  - exfalso. revert Hhears. unfold client_hears. cbn [o_conn] in Hconn. by rewrite bool_decide_eq_true_2; [|rewrite Ho, Hconn].
  - exfalso. revert Hhears. unfold client_hears. cbn [o_conn] in Hconn. by rewrite bool_decide_eq_true_2; [|rewrite Ho, Hconn].
  - simpl in Hhttp. pose proof (num_http n N). lia.
  - aside Ho.
Qed.

(** The answer is read: the connection rests. *)
Lemma client_rests n c e n' c' :
  one_asked n c -> effect n c e n' c' -> client_hears e n = true ->
  new_requests n n' = [] /\ n_http n' = n_http n /\ at_rest n'.
Proof.
  intros Hn He Hh. unfold client_hears in Hh. destruct e as [| |i d]; try done.
  destruct d as [| | |copied opened [e|] reply]; try done. apply bool_decide_eq_true in Hh.
  destruct (one_asked_drop _ _ _ _ Hn Hh eq_refl) as (Hdrop & Hops & Hconn & Hasked).
  inversion He; subst;
    repeat match goal with
    | H : _ = Terminal \/ _ |- _ => by destruct H
    | H : n_ops n !! i = Some ?x |- _ => rewrite Hh in H; first [discriminate H | injection H as <- | injection H as]
    end; cbn [o_kind] in *; try done; try (by naive_solver).
  - split_and!; [by apply new_requests_none|done|by left].
  - split_and!; [by apply new_requests_none|done|]. left. rewrite http_ops_start, Hdrop. done.
Qed.

(** The connection is accepted: the handshake is next. *)
Lemma client_shakes n c i n' c' :
  one_asked n c -> n_ops n !! i = Some (mkOp false (n_http n) Connecting) ->
  effect n c (Completed i (Connected None None)) n' c' -> at_rest n'.
Proof.
  intros Hn Ho He. destruct (one_asked_drop _ _ _ _ Hn Ho eq_refl) as (Hdrop & Hops & Hconn & Hasked).
  inversion He; subst;
    repeat match goal with
    | H : _ = Terminal \/ _ |- _ => by destruct H
    | H : n_ops n !! i = Some ?x |- _ => rewrite Ho in H; first [discriminate H | injection H as <- | injection H as]
    end; cbn [o_kind o_idle] in *; try done; try (by naive_solver).
  apply at_rest_start; auto.
Qed.

(** ** The turns of the server *)

Definition responses_of (actions : list ApiClient.action) : list str :=
  omap (fun a => match a with asyncRequest response _ => Some response | _ => None end) actions.

Lemma writes_started (c : Conn) actions :
  fst <$> c_writes (foldl start_action c actions) = (fst <$> c_writes c) ++ responses_of actions.
Proof.
  revert c. induction actions as [|a actions IH]; intros c; [by rewrite app_nil_r|]. cbn [foldl]. rewrite IH.
  destruct a; cbn [start_action c_writes responses_of omap list_omap]; try done. by rewrite fmap_app, <- app_assoc.
Qed.

Section ServerTurn.
Context {S : Type} `{ConnectionLaws S} `{Crc32} `{StdSort} (pass_len : Z) `{LocationClient} `{Zlib}.
Implicit Types sv : Server S.

Lemma handled_turn j k c r sv :
  writes_of k (handled j c r sv) =
    (if decide (j = k) then
       match r with
       | Ret (_, actions) => (fst <$> c_writes c) ++ responses_of actions
       | Throw _ => fst <$> c_writes c
       | AssertFail => writes_of k sv
       end
     else writes_of k sv) /\
  pending k (s_worker (handled j c r sv)) =
    pending k (s_worker sv) ++
      (if decide (j = k) then match r with Ret (_, actions) => tasks_of actions | _ => [] end else []).
Proof.
  unfold writes_of. destruct r as [[a actions]|e|]; cbn [handled s_conns s_worker];
    destruct (decide (j = k)) as [->|Hne]; rewrite ?lookup_insert_eq, ?lookup_insert_ne, ?app_nil_r by done; try done.
  - split; [by rewrite writes_started|]. rewrite pending_puts. by rewrite decide_True.
  - split; [done|]. rewrite pending_puts, decide_False by done. by rewrite app_nil_r.
Qed.

(** The responses an event has started to write on connection [k]. *)
Definition new_responses (e : server_event) (k : nat) sv sv' : list str :=
  drop (length (writes_left e k sv)) (writes_of k sv').

(** What an event is for connection [k]: nothing that concerns it, but for
    tasks that get done; a request that is read; or an answer of the worker. *)
Inductive server_turn (e : server_event) (k : nat) sv sv' : Prop :=
| says_nothing :
    new_responses e k sv sv' = [] -> pending k (s_worker sv') ⊆ pending k (s_worker sv) -> server_turn e k sv sv'
| reads_request now reply c r :
    e = Server.Received k now None reply -> s_conns sv !! k = Some c -> c_reads c <> 0%nat ->
    r = came_back (requestFromClientReadHandler pass_len (c_peer c) now None reply (c_client c)) ->
    new_responses e k sv sv' = match r with Ret (_, actions) => responses_of actions | _ => [] end ->
    pending k (s_worker sv') =
      pending k (s_worker sv) ++ match r with Ret (_, actions) => tasks_of actions | _ => [] end ->
    server_turn e k sv sv'
| answers i now call c response :
    e = Thread i now -> s_conns sv !! k = Some c -> next_call i (s_worker sv) = Some (k, call) ->
    (exists a h, worker_calls now call (c_client c) = Ret (a, [asyncRequest response h])) ->
    new_responses e k sv sv' = [response] -> s_worker sv' = advance i now (s_worker sv) -> server_turn e k sv sv'.

(** A handler that neither writes nor puts a task. *)
Definition silent {A} (r : cxx (A * list ApiClient.action)) : Prop :=
  match r with Ret (_, actions) => responses_of actions = [] /\ tasks_of actions = [] | _ => True end.

Lemma turn_handled e j k c r sv sv0 :
  writes_of k sv0 = writes_of k sv -> pending k (s_worker sv0) ⊆ pending k (s_worker sv) ->
  (j <> k -> writes_left e k sv = writes_of k sv) ->
  (j = k -> fst <$> c_writes c = writes_left e k sv /\ silent r /\ r <> AssertFail) ->
  server_turn e k sv (handled j c r sv0).
Proof.
  intros Hw Hp Hne Heq. destruct (handled_turn j k c r sv0) as [Ew Ep].
  apply says_nothing; unfold new_responses; rewrite ?Ew, ?Ep; destruct (decide (j = k)) as [->|Hj].
  - destruct (Heq eq_refl) as (Hl & Hs & Hr). rewrite Hl. destruct r as [[a actions]| |]; [|apply drop_all|done].
    destruct Hs as [-> _]. by rewrite app_nil_r, drop_all.
  - rewrite Hw, Hne by done. apply drop_all.
  - destruct (Heq eq_refl) as (_ & Hs & _). replace (match r with Ret (_, actions) => tasks_of actions | _ => [] end) with (@nil Task);
      [by rewrite app_nil_r|]. destruct r as [[a actions]| |]; [|done..]. by destruct Hs.
  - by rewrite app_nil_r.
Qed.

Lemma turn_silent e k sv sv' :
  writes_left e k sv = writes_of k sv -> writes_of k sv' = writes_of k sv ->
  pending k (s_worker sv') ⊆ pending k (s_worker sv) -> server_turn e k sv sv'.
Proof. intros Hl Hw Hp. apply says_nothing; [|done]. unfold new_responses. rewrite Hl, Hw. apply drop_all. Qed.

Lemma serve_turn e k sv sv' :
  serve pass_len e sv = Some sv' -> one_thing k sv -> (k < s_next sv)%nat -> server_turn e k sv sv'.
Proof.
  intros E Hot Hk. unfold serve in E. destruct (s_down sv || _); [done|].
  destruct e as [peer cmd|j err|j now err reply|j err|j ab now|i now|].
  - injection E as <-. apply (turn_handled _ (s_next sv) k (mkConn peer (ApiClient_init cmd) false 0 [] 0)
      (serveSslClient (ApiClient_init cmd)) sv (mkServer (s_conns sv) (Datatypes.S (s_next sv)) (s_worker sv) (s_down sv)));
      [done|done|done|lia].
  - destruct (s_conns sv !! j) as [c|] eqn:Hj; simpl in E; [|done]. destruct (c_handshake c); [|done].
    injection E as <-. apply turn_handled; [done..|]. intros ->.
    split; [unfold writes_left, writes_of; by rewrite Hj|]. by destruct err.
  - destruct (s_conns sv !! j) as [c|] eqn:Hj; simpl in E; [|done]. destruct (c_reads c) as [|n] eqn:Hn; [done|].
    injection E as <-. rewrite handled_if_spec. destruct (decide (j = k)) as [->|Hne]; [|by apply turn_handled].
    destruct err as [err|].
    + apply turn_handled; [done..|]. intros _. split; [unfold writes_left, writes_of; by rewrite Hj|done].
    + match goal with |- server_turn _ _ _ (handled k ?c ?r sv) => destruct (handled_turn k k c r sv) as [Ew Ep] end.
      rewrite decide_True in Ew by done. rewrite decide_True in Ep by done.
      eapply reads_request; [done|exact Hj|by rewrite Hn|reflexivity| |].
      * unfold new_responses. rewrite Ew. cbn [writes_left]. unfold writes_of. rewrite Hj. cbn [c_writes].
        destruct (came_back _) as [[a actions]| |]; [apply drop_app_length|apply drop_all..].
      * rewrite Ep. by destruct (came_back _) as [[a actions]| |].
  - destruct (s_conns sv !! j) as [c|] eqn:Hj; simpl in E; [|done]. destruct (c_writes c) as [|[response h] l] eqn:Hl; [done|].
    injection E as <-. apply turn_handled; [done|done| |].
    + intros Hne. cbn [writes_left]. by rewrite decide_False.
    + intros ->. split; [cbn [writes_left]; rewrite decide_True by done; unfold writes_of; by rewrite Hj, Hl|].
      destruct h, err; by vm_compute.
  - destruct (s_conns sv !! j) as [c|] eqn:Hj; simpl in E; [|done]. destruct (c_waits c) as [|n] eqn:Hn; [done|].
    injection E as <-. apply turn_handled; [done..|]. intros ->. destruct (ot_conn _ _ Hot _ Hj) as [Hw _]. congruence.
  - assert (pending k (advance i now (s_worker sv)) ⊆ pending k (s_worker sv)) as Hp by (intros task; apply advance_pending).
    destruct (aborted (advance i now (s_worker sv))); [injection E as <-; by apply turn_silent|].
    destruct (next_call i (s_worker sv)) as [[j call]|] eqn:Hcall; [|injection E as <-; by apply turn_silent].
    destruct (s_conns sv !! j) as [c|] eqn:Hj; simpl in E; [|done]. injection E as <-.
    destruct (worker_calls_write now call (c_client c)) as (a & response & h & Hr). rewrite Hr.
    match goal with |- server_turn _ _ _ (handled j ?c ?r ?s) => destruct (handled_turn j k c r s) as [Ew Ep] end.
    destruct (decide (j = k)) as [->|Hne].
    + eapply answers; [done|exact Hj|exact Hcall|by eauto| |done].
      unfold new_responses. rewrite Ew. cbn [writes_left]. unfold writes_of. rewrite Hj. apply drop_app_length.
    + apply turn_handled; [done..|]. done.
  - injection E as <-. by apply turn_silent.
Qed.
End ServerTurn.

(** ** What was asked for is done *)

(** The user [uid] has this password. *)
Definition account `{Crc32} (uid : Z) (pass : str) (d : DB) : Prop :=
  exists u, db_users d !! uid = Some u /\ u_password u = to_string (crc32 pass).
Definition named_account `{Crc32} (name pass : str) (d : DB) : Prop :=
  exists i u, db_users d !! i = Some u /\ u_name u = name /\ u_password u = to_string (crc32 pass).

(** Whoever asked is a user, and what the call changes is changed.  The time
    of a message is the clock of the server. *)
Definition done_in `{Crc32} (a : api_call) (d : DB) : Prop :=
  match a with
  | ApiClient.Register name pass | LoginAs name pass => named_account name pass d
  | Send from to msg pass => account from pass d /\ exists now i u, db_users d !! i = Some u /\ u_name u = to /\
      stored (mkMessage UNREAD from (u_self_chat_id u) now msg) d
  | SendChat from group msg pass => account from pass d /\ exists now i c, db_chats d !! i = Some c /\ c_name c = group /\
      stored (mkMessage UNREAD from i now msg) d
  | NewChat from group pass => account from pass d /\
      exists i c, db_chats d !! i = Some c /\ c_name c = group /\ (i, from) ∈ db_members d
  | AddUser from group user pass => account from pass d /\
      exists i c j u, db_chats d !! i = Some c /\ c_name c = group /\
        db_users d !! j = Some u /\ u_name u = user /\ (i, j) ∈ db_members d
  | History_of from _ _ pass | Status_of from _ _ pass | Locations from _ pass | UsersFrom from _ pass
  | StartIdle from _ pass => account from pass d
  end.

(** The task of a call: the one the server makes of it. *)
Definition task_of (pass_len : Z) (a : api_call) (task : Task) : Prop :=
  good_call pass_len a -> t_cmd task = call_cmd a /\ exists city p, t_request task = task_params city a p.

Lemma promise_done `{Crc32} pass_len a now task d :
  task_of pass_len a task -> good_call pass_len a -> promise (t_cmd task) now task d -> done_in a d.
Proof.
  intros Ht Ha. destruct (Ht Ha) as (-> & city & p & Hr). unfold promise, allowed, performed, encrypted_pass. rewrite Hr.
  intros [Hal Hp]. destruct a as [| | | | | | | | | |from ts pass]; simpl in *; try (by eauto); try (by split; eauto).
  by case_decide.
Qed.

(** It stays done. *)
Lemma account_stays `{Crc32} uid pass d d' : grows d d' -> account uid pass d -> account uid pass d'.
Proof. apply (allowed_stays USER_STATUS (mkTask false USER_STATUS (set_p_uid uid (set_p_password pass Params_default)) [])). Qed.

Lemma named_account_stays `{Crc32} name pass d d' : grows d d' -> named_account name pass d -> named_account name pass d'.
Proof. apply (allowed_stays USER_LOGIN (mkTask false USER_LOGIN (set_p_user name (set_p_password pass Params_default)) [])). Qed.

Lemma done_stays `{Crc32} a d d' : grows d d' -> done_in a d -> done_in a d'.
Proof.
  intros Hg. set (task := mkTask false (call_cmd a) (call_params a Params_default) []).
  pose proof (fun now => performed_stays (call_cmd a) now task d d' Hg) as Hp.
  destruct a; simpl in *; try (by apply account_stays); try (by apply named_account_stays);
    intros [Ha Hd]; (split; [by eapply account_stays|]); try (by apply (Hp 0));
    destruct Hd as [now Hd]; exists now; by apply Hp.
Qed.

Section Turns.
Context {S : Type} `{ConnectionLaws S} `{Crc32} `{StdSort} (pass_len : Z) `{LocationClient} `{Zlib}.
Implicit Types sv : Server S.

(** Whose turn it is on a link: nobody's; the request of the client is on
    its way; the server has it; its answer is on its way. *)
Inductive turn (l : Link) (n : Net) (c : cmd_t) sv : Prop :=
| at_peace :
    at_rest n -> l_up l = [] -> l_down l = [] -> pending (l_conn l) (s_worker sv) = [] -> turn l n c sv
| asked_for a body :
    waiting_for n c a body -> l_up l = client_request a body -> Z.of_nat (length (client_request a body)) < 2 ^ 64 ->
    l_down l = [] -> pending (l_conn l) (s_worker sv) = [] -> turn l n c sv
| in_hands a body :
    waiting_for n c a body -> l_up l = [] -> l_down l = [] ->
    Forall (task_of pass_len a) (pending (l_conn l) (s_worker sv)) -> turn l n c sv
| answered_by a body :
    waiting_for n c a body -> l_up l = [] -> pending (l_conn l) (s_worker sv) = [] ->
    (forall reply rest, heard (l_down l) = Some (reply, rest) ->
       rest = [] /\ (_status reply = 200 -> good_call pass_len a -> done_in a (view (m_Db (s_worker sv))))) ->
    turn l n c sv.

Lemma turn_client e n n' c c' l l' sv :
  numbered n -> waits n e n' -> one_asked n c -> effect n c e n' c' -> client_hears e n = false ->
  client_link e n n' l = Some l' -> turn l n c sv -> turn l' n' c' sv /\ l_conn l' = l_conn l.
Proof.
  intros N Hw Hn He Hh Hl Ht. unfold client_link in Hl.
  destruct (client_fails e n) eqn:Hf; [done|]. case_bool_decide as Hhttp; [|done]. cbn [orb negb] in Hl.
  destruct (client_turns n c e n' c' N Hw Hn He Hf Hh Hhttp) as [(Hnew & Hr & Hk)|(a & body & Hnew & Hr & Hk)];
    rewrite Hnew in Hl; cbn [write_up] in Hl.
  - injection Hl as <-. split; [|done].
    destruct Ht as [Hrest|a body Hwait|a body Hwait|a body Hwait]; [apply at_peace|eapply asked_for|eapply in_hands|eapply answered_by];
      eauto.
  - destruct (garbled _ _) eqn:Hg; [done|]. injection Hl as <-. split; [|done].
    destruct Ht as [_ Hu Hd Hp|a' body' Hwait|a' body' Hwait|a' body' Hwait]; try by destruct (rest_not_waiting_for n c a' body').
    apply orb_false_iff in Hg as [_ Hg%Z.leb_gt]. cbn [concat] in *. rewrite app_nil_r in *.
    apply (asked_for _ _ _ _ a body); cbn [l_up l_down l_conn]; try done. by rewrite Hu.
Qed.

Lemma hears_keeps e n n' l :
  client_hears e n = true -> new_requests n n' = [] -> n_http n' = n_http n -> client_link e n n' l = Some l.
Proof.
  intros Hh Hnew Hhttp. unfold client_hears in Hh. destruct e as [| |i d]; try done.
  destruct d as [| | |copied opened [err|] reply]; try done. apply bool_decide_eq_true in Hh.
  unfold client_link, client_fails. rewrite Hh, Hnew, andb_false_r. by rewrite bool_decide_eq_true_2.
Qed.

Lemma turn_heard e n n' c c' l reply rest sv :
  one_asked n c -> effect n c e n' c' -> client_hears e n = true -> heard (l_down l) = Some (reply, rest) ->
  turn l n c sv ->
  let l' := mkLink (l_conn l) (l_up l) rest in
  client_link e n n' l' = Some l' /\ turn l' n' c' sv /\
  exists a body, asking n c a body /\
    (_status reply = 200 -> good_call pass_len a -> done_in a (view (m_Db (s_worker sv)))).
Proof.
  intros Hn He Hh Hheard Ht l'. destruct (client_rests _ _ _ _ _ Hn He Hh) as (Hnew & Hhttp & Hr).
  destruct Ht as [_ _ Hd|a body _ _ _ Hd|a body _ _ Hd|a body Hwait Hu Hp Ha]; try (by rewrite Hd, heard_nothing in Hheard).
  destruct (Ha _ _ Hheard) as [-> Hdone]. split_and!; [by apply hears_keeps|by apply at_peace|].
  exists a, body. split; [apply Hwait|done].
Qed.

(** What is done for the tasks of the link, the ones in hand. *)
Lemma turn_stays l n c sv sv' :
  turn l n c sv -> pending (l_conn l) (s_worker sv') ⊆ pending (l_conn l) (s_worker sv) ->
  grows (view (m_Db (s_worker sv))) (view (m_Db (s_worker sv'))) -> turn l n c sv'.
Proof.
  intros Ht Hp Hg.
  assert (pending (l_conn l) (s_worker sv) = [] -> pending (l_conn l) (s_worker sv') = []) as Hnil.
  { intros E. rewrite E in Hp. by apply list_nil_subseteq in Hp. }
  destruct Ht as [Hr Hu Hd Hn|a body Hw Hu Hlen Hd Hn|a body Hw Hu Hd Hf|a body Hw Hu Hn Ha].
  - apply at_peace; auto.
  - eapply asked_for; eauto.
  - eapply in_hands; eauto. apply Forall_forall. intros task Ht%Hp. by apply (proj1 (Forall_forall _ _) Hf).
  - eapply answered_by; eauto. intros reply rest Hh. destruct (Ha _ _ Hh) as [? Hd]. split; [done|].
    intros Hs Hgood. eapply done_stays; [done|by apply Hd].
Qed.

Lemma answered_none i k c call now sv :
  one_thing k sv -> s_conns sv !! k = Some c -> next_call i (s_worker sv) = Some (k, call) ->
  pending k (advance i now (s_worker sv)) = [].
Proof.
  intros Hot Hc Hcall. destruct (ot_conn _ _ Hot _ Hc) as [_ Hu].
  pose proof (advance_owed k i now _ (ot_bounded _ _ Hot)) as Hpaid. rewrite Hcall, decide_True in Hpaid by done.
  apply nil_length_inv. rewrite <- owed_pending. unfold under_way in Hu. lia.
Qed.

(** The answer of the worker to the task of the call [a]. *)
Lemma answer_true s0 i k call now c a response h a0 sv :
  pool_ok s0 (s_worker sv) -> Forall thread_final (m_Threads (s_worker sv)) ->
  next_call i (s_worker sv) = Some (k, call) -> Forall (task_of pass_len a) (pending k (s_worker sv)) ->
  worker_calls now call c = Ret (a0, [asyncRequest response h]) -> Z.of_nat (length response) < 2 ^ 64 ->
  exists reply, heard response = Some (reply, []) /\
    (_status reply = 200 -> good_call pass_len a -> done_in a (view (m_Db (s_worker sv)))).
Proof.
  intros Hok Hf Hcall Ht Hw Hlen.
  destruct (next_call_task _ _ _ _ Hf Hcall) as (tnow & task & o & Hi & Htask & Hmay).
  rewrite Forall_forall in Ht. specialize (Ht _ Htask).
  assert (forall body, response = buildApiOkResponse body -> positive call ->
    exists reply, heard response = Some (reply, []) /\
      (_status reply = 200 -> good_call pass_len a -> done_in a (view (m_Db (s_worker sv))))) as Hsaid.
  { intros body -> Hc. destruct (heard_ok body Hlen) as [reply Hr]. exists reply. split; [done|]. intros _ Ha.
    eapply promise_done; [done|done|]. by eapply said_is_done. }
  destruct call as [code api desc|body|msgs|msgs]; cbn [worker_calls] in Hw.
  - destruct Hmay as [Hk Hne]. destruct (heard_error _ _ _ _ _ _ _ Hw Hk Hlen) as (reply & Hr & <-). by exists reply.
  - injection Hw as _ <- _. by apply (Hsaid body).
  - unfold sendMessages in Hw. destruct (ok_body_msgs_total msgs now) as [body E]. rewrite E in Hw. injection Hw as _ <- _.
    by apply (Hsaid body).
  - unfold sendMessagesToIdleConn in Hw. destruct (ok_body_msgs_total msgs now) as [body E]. rewrite E in Hw.
    injection Hw as _ <- _. by apply (Hsaid body).
Qed.

Lemma write_down_one busy response l l' :
  write_down busy [response] l = Some l' ->
  l' = mkLink (l_conn l) (l_up l) (l_down l ++ response) /\ Z.of_nat (length response) < 2 ^ 64.
Proof.
  unfold write_down. destruct (garbled _ _) eqn:Hg; [done|]. apply orb_false_iff in Hg as [_ Hg%Z.leb_gt].
  cbn [concat] in *. rewrite app_nil_r in *. by intros [= <-].
Qed.

(** The server does something else than read a request of the link. *)
Lemma turn_server s0 e l l' n c sv sv' :
  pool_ok s0 (s_worker sv) -> room (s_worker sv) -> Forall thread_final (m_Threads (s_worker sv)) ->
  one_thing (l_conn l) sv -> (l_conn l < s_next sv)%nat ->
  serve pass_len e sv = Some sv' -> server_hears e (l_conn l) = false -> server_link e sv sv' l = Some l' ->
  turn l n c sv -> turn l' n c sv' /\ l_conn l' = l_conn l.
Proof.
  intros Hok Hroom Hf Hot Hk He Hh Hl Ht.
  assert (grows (view (m_Db (s_worker sv))) (view (m_Db (s_worker sv')))) as Hg.
  { eapply done_lasts; [done|]. eapply serve_pool; [done|by destruct Hok|done]. }
  unfold server_link in Hl. destruct (server_fails _ _); [done|].
  destruct (serve_turn pass_len _ _ _ _ He Hot Hk) as [Hnew Hp|now reply cn r -> Hcn|i now call cn response _ Hcn Hcall (a0 & h & Hw) Hnew Hadv].
  - unfold new_responses in Hnew. rewrite Hnew in Hl. injection Hl as <-. split; [|done]. by eapply turn_stays.
  - simpl in Hh. by rewrite bool_decide_eq_true_2 in Hh.
  - unfold new_responses in Hnew. rewrite Hnew in Hl. apply write_down_one in Hl as [-> Hlen]. split; [|done].
    destruct (next_call_task _ _ _ _ Hf Hcall) as (_ & task & _ & _ & Htask & _).
    destruct Ht as [_ _ _ Hn|a body _ _ _ _ Hn|a body Hwait Hu Hd Hfor|a body _ _ Hn]; try by rewrite Hn in Htask; apply elem_of_nil in Htask.
    destruct (answer_true _ _ _ _ _ _ _ _ _ _ _ Hok Hf Hcall Hfor Hw Hlen) as (reply & Hheard & Hdone).
    eapply answered_by; [exact Hwait|done| |].
    + cbn [l_conn]. rewrite Hadv. by eapply answered_none.
    + cbn [l_down]. rewrite Hd. cbn [app]. intros reply' rest Hh'. rewrite Hheard in Hh'. injection Hh' as <- <-.
      split; [done|]. intros Hs Ha. eapply done_stays; [exact Hg|]. by apply Hdone.
Qed.

(** A request that does not start the polling is answered with an error, or
    makes a task. *)
Definition answers_or_tasks (r : cxx (ApiClient * list ApiClient.action)) : Prop :=
  match r with
  | Ret (a, actions) =>
      (exists task, actions = [putTask task]) \/
      exists code api desc c, known_code code /\ code <> 200 /\ ApiClient.sendErrorResponse code api desc c = Ret (a, actions)
  | _ => True
  end.

Lemma error_or_task code api desc c :
  code = 400 \/ code = 404 -> answers_or_tasks (ApiClient.sendErrorResponse code api desc c).
Proof.
  intros Hc. unfold answers_or_tasks. destruct (sendErrorResponse_total code api desc c) as [r Hr]. rewrite Hr. right.
  exists code, api, desc, c. split_and!; [|lia|done].
  destruct Hc as [-> | ->]; apply (bool_decide_unpack _); vm_compute; exact I.
Qed.

Lemma handler_answers req cmd c : answers_or_tasks (handler_impl pass_len req cmd c).
Proof.
  unfold handler_impl. destruct (_ || _); [|apply error_or_task; auto].
  destruct (parse_meta _ _ _ _) as [[err p]| |]; [|done..]. cbn [mbind cxx_bind].
  case_decide; [apply error_or_task; auto|]. left. by eexists.
Qed.

Lemma request_answers peer now reply c :
  lowercased (_resource reply) <> "/v1/idle" ->
  answers_or_tasks (came_back (requestFromClientReadHandler pass_len peer now None reply c)).
Proof.
  intros Hq. unfold requestFromClientReadHandler. cbv zeta. cbn [set_details m_RequestDetails resource].
  rewrite decide_False by done. destruct (route _) as [cmd|]; [|apply error_or_task; auto].
  destruct cmd; try apply handler_answers. destruct (get_city_by_ip peer) as [[city| |]|]; [|done..]. apply handler_answers.
Qed.

Lemma request_task a body peer now c a0 task :
  call_body a = Ret body -> call_cmd a <> IDLE ->
  requestFromClientReadHandler pass_len peer now None (request_read a body) c = Some (Ret (a0, [putTask task])) ->
  task_of pass_len a task.
Proof.
  intros Hb Hi Hr Ha. destruct (decide (call_cmd a = USER_CREATE)) as [Hc|Hc].
  - destruct (get_city_by_ip peer) as [[city|e|]|] eqn:Hcity.
    2,3,4: by destruct a; try discriminate Hc; unfold requestFromClientReadHandler in Hr; simpl in Hr; rewrite Hcity in Hr.
    destruct (request_read_handled pass_len a body peer now city c Ha (fun _ => Hcity) Hb) as (actions & Hs & E).
    rewrite E in Hr. injection Hr as _ ->. destruct a; try discriminate Hc. injection Hs as ->. split; [done|]. by eexists city, _.
  - assert (call_cmd a = USER_CREATE -> get_city_by_ip peer = Some (Ret [])) as Hcity by done.
    destruct (request_read_handled pass_len a body peer now [] c Ha Hcity Hb) as (actions & Hs & E).
    rewrite E in Hr. injection Hr as _ ->. clear E Hb Hcity Ha. unfold ApiClient.serves in Hs.
    destruct a; cbn [call_cmd] in *; try congruence; injection Hs as ->; (split; [reflexivity|]); by eexists [], _.
Qed.

(** The server reads the request of the link. *)
Lemma turn_reads now l l' n c reply rest sv sv' :
  one_thing (l_conn l) sv -> (l_conn l < s_next sv)%nat ->
  heard (l_up l) = Some (reply, rest) ->
  serve pass_len (Server.Received (l_conn l) now None reply) sv = Some sv' ->
  server_link (Server.Received (l_conn l) now None reply) sv sv' (mkLink (l_conn l) rest (l_down l)) = Some l' ->
  turn l n c sv ->
  ~ starts_polling (l_conn l) (Server.Received (l_conn l) now None reply) /\ turn l' n c sv' /\ l_conn l' = l_conn l.
Proof.
  intros Hot Hcn0 Hh He Hl Ht.
  destruct Ht as [_ Hu|a body Hw Hu Hlen Hd Hn|a body _ Hu|a body _ Hu]; try by rewrite Hu, heard_nothing in Hh.
  rewrite Hu, (heard_request a body Hlen) in Hh. injection Hh as <- <-.
  destruct Hw as [(Hb & Hans & Hlast) Hk]. assert (call_cmd a <> IDLE) as Hi by by destruct a.
  assert (lowercased (_resource (request_read a body)) <> "/v1/idle") as Hres.
  { cbn [request_read set_body _resource request_head]. by destruct a. }
  assert (~ starts_polling (l_conn l) (Server.Received (l_conn l) now None (request_read a body))) as Hq by by intros [_ ?].
  split; [done|]. pose proof (serve_turn pass_len _ _ _ _ He Hot Hcn0) as Hs. unfold server_link in Hl. cbn [l_conn server_fails] in Hl.
  assert (forall l1, l_up l1 = [] -> l_down l1 = [] -> Forall (task_of pass_len a) (pending (l_conn l1) (s_worker sv')) ->
    turn l1 n c sv') as Hhands by (intros l1 ?? Hf; by eapply (in_hands _ _ _ _ a body)).
  destruct Hs as [Hnew Hp|now' reply' cn r [= <- <-] Hcn _ -> Hnew Hp|i now' call cn response Hthread].
  - unfold new_responses in Hnew. rewrite Hnew in Hl. injection Hl as <-. split; [|done]. apply Hhands; [done|done|].
    rewrite Hn in Hp. cbn [l_conn]. by rewrite (list_nil_subseteq _ Hp).
  - pose proof (request_answers (c_peer cn) now (request_read a body) (c_client cn) Hres) as Hr.
    pose proof (request_task a body (c_peer cn) now (c_client cn)) as Htask.
    unfold new_responses in Hnew. rewrite Hn in Hp.
    destruct (came_back _) as [[a0 actions]|e|] eqn:Hback; cbn [app] in Hp.
    + destruct Hr as [[task ->]|(code & api & desc & c0 & Hk0 & Hne & Hr)].
      * rewrite Hnew in Hl. injection Hl as <-. split; [|done]. apply Hhands; [done|done|]. cbn [l_conn]. rewrite Hp.
        apply Forall_singleton. by apply (Htask a0), came_back_ret.
      * destruct (sendErrorResponse_total code api desc c0) as [response E]. rewrite E in Hr. injection Hr as <- <-.
        rewrite Hnew in Hl. apply write_down_one in Hl as [-> Hlen']. split; [|done].
        destruct (heard_error _ _ _ _ _ _ _ E Hk0 Hlen') as (reply & Hheard & Hst).
        apply (answered_by _ _ _ _ a body); cbn [l_up l_down l_conn]; [done|done|by rewrite Hp|].
        rewrite Hd. cbn [app]. intros reply' rest Hh'. rewrite Hheard in Hh'. injection Hh' as <- <-. split; [done|]. congruence.
    + rewrite Hnew in Hl. injection Hl as <-. split; [|done]. apply Hhands; [done|done|]. cbn [l_conn]. by rewrite Hp.
    + rewrite Hnew in Hl. injection Hl as <-. split; [|done]. apply Hhands; [done|done|]. cbn [l_conn]. by rewrite Hp.
  - done.
Qed.
End Turns.

(** ** The invariant *)

Section Told.
Context {S : Type} `{ConnectionLaws S} `{Crc32} `{StdSort} (pass_len : Z) `{LocationClient} `{Zlib}.
Implicit Types (sv : Server S) (y : System S).

Lemma serve_finals e sv sv' :
  serve pass_len e sv = Some sv' -> Forall thread_final (m_Threads (s_worker sv)) ->
  Forall thread_final (m_Threads (s_worker sv')).
Proof.
  assert (forall k c r sv, m_Threads (s_worker (handled k c r sv)) = m_Threads (s_worker sv)) as Hh.
  { intros k c [[a actions]| |] sv0; [apply puts_threads|done..]. }
  intros E Hf. destruct (completes e) eqn:Hc.
  { destruct (serve_completion _ _ _ _ E Hc) as (k & c & r & ->). by rewrite Hh. }
  pose proof (fun i now => advance_finals i now _ Hf) as Ha.
  unfold serve in E. destruct (s_down sv || _); [done|]. destruct e as [peer cmd| | | | |i now|]; try done.
  - by injection E as <-.
  - destruct (aborted (advance i now (s_worker sv))); [injection E as <-; apply Ha|].
    destruct (next_call i (s_worker sv)) as [[k call]|]; [|injection E as <-; apply Ha].
    destruct (s_conns sv !! k) as [c|]; simpl in E; [|done]. injection E as <-. rewrite Hh. apply Ha.
  - by injection E as <-.
Qed.

Lemma serve_next e sv sv' : serve pass_len e sv = Some sv' -> (s_next sv <= s_next sv')%nat.
Proof.
  assert (forall k c r sv, s_next (handled k c r sv) = s_next sv) as Hh by by intros k c [[a actions]| |] sv0.
  intros E. destruct (completes e) eqn:Hc.
  { destruct (serve_completion _ _ _ _ E Hc) as (k & c & r & ->). by rewrite Hh. }
  unfold serve in E. destruct (s_down sv || _); [done|]. destruct e as [peer cmd| | | | |i now|]; try done.
  - injection E as <-. simpl. lia.
  - destruct (aborted (advance i now (s_worker sv))); [by injection E as <-|].
    destruct (next_call i (s_worker sv)) as [[k call]|]; [|by injection E as <-].
    destruct (s_conns sv !! k) as [c|]; simpl in E; [|done]. injection E as <-. by rewrite Hh.
  - by injection E as <-.
Qed.

(** A connection that is not there has nothing under way. *)
Lemma one_thing_later j k sv : one_thing j sv -> (s_next sv <= k)%nat -> one_thing k sv.
Proof.
  intros [Hb Hf _] Hk. split; [done..|]. intros c Hc. destruct (Hf k Hk) as [Hn _]. congruence.
Qed.

Lemma serve_fresh e sv sv' :
  serve pass_len e sv = Some sv' -> one_thing (s_next sv) sv -> one_thing (s_next sv') sv'.
Proof.
  intros E Hot. pose proof (serve_next _ _ _ E) as Hn. eapply serve_one_thing; [done| |by eapply one_thing_later].
  destruct e as [| |j now [err|] reply| | | |]; try (by intros []). intros [-> _]. unfold serve in E.
  destruct (s_down sv || _); [done|]. destruct (ot_fresh _ _ Hot _ Hn) as [Hnone _]. by rewrite Hnone in E.
Qed.

(** One event of the system. *)
Definition sys_next y y' : Prop :=
  exists ev, sys_patient ev y /\ room (s_worker (y_server y)) /\ sys_step pass_len ev y = Some y'.

Record server_ok (s0 : S) sv : Prop := {
  sv_pool : pool_ok s0 (s_worker sv);
  sv_finals : Forall thread_final (m_Threads (s_worker sv));
  sv_fresh : one_thing (s_next sv) sv }.

Record client_ok (p : Program) : Prop := {
  cl_numbered : numbered (p_net p);
  cl_asked : one_asked (p_net p) (m_LastCmd (p_client p)) }.

Definition link_ok (p : Program) sv (l : Link) : Prop :=
  turn pass_len l (p_net p) (m_LastCmd (p_client p)) sv /\ one_thing (l_conn l) sv /\ (l_conn l < s_next sv)%nat.

Record sys_ok (s0 : S) y : Prop := {
  so_client : client_ok (y_client y);
  so_server : server_ok s0 (y_server y);
  so_link : forall l, y_link y = Some l -> link_ok (y_client y) (y_server y) l }.

Lemma serve_ok s0 e sv sv' :
  server_ok s0 sv -> room (s_worker sv) -> serve pass_len e sv = Some sv' -> server_ok s0 sv'.
Proof.
  intros [Hp Hf Hn] Hr E. split; [|by eapply serve_finals|by eapply serve_fresh].
  eapply pool_steps_ok; [done|]. eapply serve_pool; [done|by destruct Hp|done].
Qed.

Lemma moves_effect e p p' :
  client_moves e p = Some p' ->
  run_event e p = Some (Runs p') /\
  effect (p_net p) (m_LastCmd (p_client p)) e (p_net p') (m_LastCmd (p_client p')).
Proof.
  unfold client_moves. destruct (run_event e p) as [[p1| |]|] eqn:E; try done. intros [= <-].
  split; [done|by apply run_event_effect].
Qed.

Lemma moves_ok e p p' : client_ok p -> patient e p -> client_moves e p = Some p' -> client_ok p'.
Proof.
  intros [N Ha] Hp [Hr He]%moves_effect. split; [by eapply numbered_step|].
  eapply one_asked_step; [done|by eapply patient_waits|done..].
Qed.

Lemma hears_patient e p : client_hears e (p_net p) = true -> patient e p.
Proof.
  unfold client_hears. destruct e as [| |i d]; try done. destruct d as [| | |copied opened [err|] reply]; try done.
  intros Ho%bool_decide_eq_true [conn Hc]. congruence.
Qed.

Lemma moves_link e p p' sv l l' :
  client_ok p -> patient e p -> client_moves e p = Some p' -> client_hears e (p_net p) = false ->
  client_link e (p_net p) (p_net p') l = Some l' -> link_ok p sv l -> link_ok p' sv l'.
Proof.
  intros [N Ha] Hp [Hr He]%moves_effect Hh Hl (Ht & Hot & Hk).
  destruct (turn_client pass_len _ _ _ _ _ _ _ _ N (patient_waits _ _ _ Hp Hr) Ha He Hh Hl Ht) as [Ht' Hc].
  unfold link_ok. by rewrite Hc.
Qed.

Lemma serves_link s0 e p sv sv' l l' :
  server_ok s0 sv -> room (s_worker sv) -> serve pass_len e sv = Some sv' -> server_hears e (l_conn l) = false ->
  server_link e sv sv' l = Some l' -> link_ok p sv l -> link_ok p sv' l'.
Proof.
  intros [Hp Hf Hn] Hr E Hh Hl (Ht & Hot & Hk).
  destruct (turn_server pass_len _ _ _ _ _ _ _ _ Hp Hr Hf Hot Hk E Hh Hl Ht) as [Ht' Hc].
  pose proof (serve_next _ _ _ E). unfold link_ok. rewrite Hc. split_and!; [done| |lia].
  eapply serve_one_thing; [done| |done]. destruct e as [| |j now [err|] reply| | | |]; try (by intros []).
  intros [-> _]. simpl in Hh. by rewrite bool_decide_eq_true_2 in Hh.
Qed.

Lemma accepts_link p sv i peer cmd p' sv' :
  client_ok p -> one_thing (s_next sv) sv -> n_ops (p_net p) !! i = Some (mkOp false (n_http (p_net p)) Connecting) ->
  client_moves (Completed i (Connected None None)) p = Some p' ->
  serve pass_len (Accepted peer cmd) sv = Some sv' -> link_ok p' sv' (mkLink (s_next sv) [] []).
Proof.
  intros [N Ha] Hot Ho [Hr He]%moves_effect E. split_and!; cbn [l_conn].
  - apply at_peace; [by eapply client_shakes|done|done|]. apply nil_length_inv. cbn [l_conn]. rewrite <- owed_pending.
    destruct (ot_fresh _ _ Hot (s_next sv)) as [_ <-]; [done|].
    unfold serve in E. destruct (s_down sv || _); [done|]. by injection E as <-.
  - eapply serve_one_thing; [done|by intros []|done].
  - unfold serve in E. destruct (s_down sv || _); [done|]. injection E as <-. simpl. lia.
Qed.

(** The client hears the answer that is on the link. *)
Lemma hears_inv i copied opened y y' :
  sys_step pass_len (ClientHears i copied opened) y = Some y' ->
  exists l reply rest,
    y_link y = Some l /\ heard (l_down l) = Some (reply, rest) /\
    client_hears (hears i copied opened reply) (p_net (y_client y)) = true /\
    client_moves (hears i copied opened reply) (y_client y) = Some (y_client y') /\ y_server y' = y_server y /\
    y_link y' = client_link (hears i copied opened reply) (p_net (y_client y)) (p_net (y_client y'))
      (mkLink (l_conn l) (l_up l) rest).
Proof.
  cbn [sys_step]. destruct (y_link y) as [l|] eqn:Hl; [|done]. cbn [mbind option_bind].
  destruct (heard (l_down l)) as [[reply rest]|] eqn:Hh; [|done]. cbn [mbind option_bind].
  destruct (client_hears (hears i copied opened reply) _) eqn:Hc; [|done].
  destruct (client_moves (hears i copied opened reply) _) as [p'|] eqn:Hm; [|done]. cbn [mbind option_bind]. intros [= <-].
  exists l, reply, rest. by split_and!.
Qed.

Lemma step_ok s0 ev y y' :
  sys_ok s0 y -> sys_patient ev y -> room (s_worker (y_server y)) -> sys_step pass_len ev y = Some y' -> sys_ok s0 y'.
Proof.
  intros [Hc Hs Hl] Hp Hr Hstep. destruct ev as [e|i copied opened|e|now|i peer cmd].
  - cbn [sys_step] in Hstep. destruct (client_hears e _ && _) eqn:Hh; [done|].
    destruct (client_moves e (y_client y)) as [p'|] eqn:Hm; [|done]. injection Hstep as <-.
    split; cbn [y_client y_server y_link]; [by eapply moves_ok|done|].
    intros l' (l & Hll & Hl')%bind_Some. eapply moves_link; [done..| |done|by apply Hl].
    apply andb_false_iff in Hh as [Hh|Hh%bool_decide_eq_false]; [done|]. destruct Hh. by eexists.
  - destruct (hears_inv _ _ _ _ _ Hstep) as (l & reply & rest & Hll & Hh & Hch & Hm & Hsv & Hl').
    destruct (moves_effect _ _ _ Hm) as [_ He]. destruct (Hl _ Hll) as (Ht & Hot & Hk).
    destruct (turn_heard pass_len _ _ _ _ _ _ _ _ _ (cl_asked _ Hc) He Hch Hh Ht) as (Hk' & Ht' & _).
    split; [by eapply moves_ok, Hm; [|apply hears_patient]|by rewrite Hsv|].
    rewrite Hl', Hk', Hsv. by intros l' [= <-].
  - cbn [sys_step] in Hstep. destruct (match y_link y with Some l => _ | None => false end) eqn:Hh; [done|].
    destruct (serve pass_len e (y_server y)) as [sv'|] eqn:He; [|done]. injection Hstep as <-.
    split; cbn [y_client y_server y_link]; [done|by eapply serve_ok|].
    intros l' (l & Hll & Hl')%bind_Some. rewrite Hll in Hh. eapply serves_link; [done..|by apply Hl].
  - cbn [sys_step] in Hstep. destruct (y_link y) as [l|] eqn:Hll; [|done]. cbn [mbind option_bind] in Hstep.
    destruct (heard (l_up l)) as [[reply rest]|] eqn:Hh; [|done]. cbn [mbind option_bind] in Hstep.
    destruct (serve pass_len _ (y_server y)) as [sv'|] eqn:He; [|done]. cbn [mbind option_bind] in Hstep. injection Hstep as <-.
    destruct (Hl _ eq_refl) as (Ht & Hot & Hk). pose proof (serve_next _ _ _ He) as Hn.
    split; cbn [y_client y_server y_link]; [done|by eapply serve_ok|]. intros l' Hl'.
    destruct (turn_reads pass_len _ _ _ _ _ _ _ _ _ Hot Hk Hh He Hl' Ht) as (Hq & Ht' & Hcn).
    unfold link_ok. rewrite Hcn. split_and!; [done|by eapply serve_one_thing|lia].
  - cbn [sys_step] in Hstep. case_bool_decide as Ho; [|done].
    destruct (client_moves (Completed i (Connected None None)) (y_client y)) as [p'|] eqn:Hm; [|done].
    destruct (serve pass_len _ (y_server y)) as [sv'|] eqn:He; [|done]. cbn [mbind option_bind] in Hstep. injection Hstep as <-.
    split; cbn [y_client y_server y_link]; [by eapply moves_ok, Hm|by eapply serve_ok|]. intros l [= <-].
    eapply accepts_link; [done|apply Hs|done..].
Qed.

Lemma start_sys_ok s host port user password lines :
  valid s -> sys_ok s (sys_start s (client_program host port user password lines)).
Proof.
  intros V. split; [| |done].
  - split; [|right; exists Connecting; split; [done|by intros []]].
    split; simpl; [lia..|constructor|]. repeat constructor.
  - split; [by apply start_ok|by repeat constructor|apply run_one_thing].
Qed.

Lemma sys_reachable_ok s0 y y' : sys_ok s0 y -> rtc sys_next y y' -> sys_ok s0 y'.
Proof.
  intros Hok Hr. induction Hr as [|y y1 y2 (ev & Hp & Hroom & Hs) _ IH]; [done|]. apply IH. by eapply step_ok.
Qed.

Lemma step_server ev y y' :
  sys_step pass_len ev y = Some y' -> y_server y' = y_server y \/ exists e, serve pass_len e (y_server y) = Some (y_server y').
Proof.
  destruct ev as [e|i copied opened|e|now|i peer cmd]; intros Hstep.
  - cbn [sys_step] in Hstep. destruct (_ && _); [done|].
    destruct (client_moves e (y_client y)) as [p'|]; [|done]. injection Hstep as <-. by left.
  - destruct (hears_inv _ _ _ _ _ Hstep) as (l & reply & rest & _ & _ & _ & _ & Hsv & _). by left.
  - cbn [sys_step] in Hstep. destruct (match y_link y with Some l => _ | None => false end); [done|].
    destruct (serve pass_len e (y_server y)) as [sv'|] eqn:He; [|done]. injection Hstep as <-. right. by exists e.
  - cbn [sys_step] in Hstep. destruct (y_link y) as [l|]; [|done]. cbn [mbind option_bind] in Hstep.
    destruct (heard (l_up l)) as [[reply rest]|]; [|done]. cbn [mbind option_bind] in Hstep.
    destruct (serve pass_len _ (y_server y)) as [sv'|] eqn:He; [|done]. injection Hstep as <-. right. by eexists.
  - cbn [sys_step] in Hstep. destruct (bool_decide _); [|done].
    destruct (client_moves (Completed i (Connected None None)) (y_client y)) as [p'|]; [|done]. cbn [mbind option_bind] in Hstep.
    destruct (serve pass_len _ (y_server y)) as [sv'|] eqn:He; [|done]. injection Hstep as <-. right. by eexists.
Qed.

(** What the database of the server holds for ever is kept by the system. *)
Lemma system_grows s0 y y' :
  sys_ok s0 y -> rtc sys_next y y' ->
  grows (view (m_Db (s_worker (y_server y)))) (view (m_Db (s_worker (y_server y')))).
Proof.
  intros Hok Hr. revert Hok. induction Hr as [|y y1 y2 (ev & Hp & Hroom & Hs) _ IH]; intros Hok; [reflexivity|].
  etrans; [|apply IH; by eapply step_ok].
  destruct (step_server _ _ _ Hs) as [->|[e He]]; [reflexivity|].
  pose proof (sv_pool _ _ (so_server _ _ Hok)) as Hpool.
  eapply done_lasts; [done|]. eapply serve_pool; [done|by destruct Hpool|done].
Qed.

(** A run of events whose user types alone ([types_alone]). *)
Definition sys_alone (ev : sys_event) y : bool :=
  match ev with ClientMoves e => types_alone e (y_client y) | _ => true end.

Fixpoint plays (evs : list sys_event) y : option (System S) :=
  match evs with
  | [] => Some y
  | ev :: evs => if sys_alone ev y then y' ← sys_step pass_len ev y; plays evs y' else None
  end.

Lemma plays_puts evs y y' :
  plays evs y = Some y' -> put (s_worker (y_server y)) `prefix_of` put (s_worker (y_server y')).
Proof.
  revert y. induction evs as [|ev evs IH]; intros y; cbn [plays]; [by intros [= <-]|].
  destruct (sys_alone ev y); [|done]. destruct (sys_step pass_len ev y) as [y1|] eqn:Hs; [|done]. intros E.
  etrans; [|by apply IH]. destruct (step_server _ _ _ Hs) as [->|[e He]]; [done|]. by eapply serve_puts.
Qed.

Lemma fits_room s0 y : sys_ok s0 y -> Forall fits_any (put (s_worker (y_server y))) -> room (s_worker (y_server y)).
Proof.
  intros Hok Hf. pose proof (sv_pool _ _ (so_server _ _ Hok)) as Hpool.
  eapply (ample_room 0); [apply Hpool|by eapply fits_ample].
Qed.

(** Tasks that always fit leave room. *)
Lemma plays_steps s0 evs y y' :
  sys_ok s0 y -> plays evs y = Some y' -> Forall fits_any (put (s_worker (y_server y'))) -> rtc sys_next y y'.
Proof.
  revert y. induction evs as [|ev evs IH]; intros y Hok Hp Hf; [injection Hp as <-; apply rtc_refl|].
  pose proof (plays_puts _ _ _ Hp) as [more Hm]. cbn [plays] in Hp. destruct (sys_alone ev y) eqn:Ha; [|done].
  destruct (sys_step pass_len ev y) as [y1|] eqn:Hs; [|done].
  assert (room (s_worker (y_server y))) as Hroom.
  { eapply fits_room; [done|]. rewrite Hm in Hf. by apply Forall_app in Hf as [? _]. }
  assert (sys_patient ev y) as Hpat by (destruct ev; try done; by apply types_alone_patient).
  apply (rtc_l _ _ y1); [by exists ev|]. apply IH; [by eapply step_ok|done|done].
Qed.

(** C1: the client is told the truth.  A client program and the server run
    together, each with its threads, whatever the other connections of the
    server do, while the user waits for the answer to a line before the next
    one and the storage has room.  When the client hears an answer with the
    status 200 on its first connection, what its last request there asked for
    is done in the database of the server, the client reads the answer as the
    one to that request, and done it stays. *)
Theorem told_is_done s host port user password lines y i copied opened y' :
  valid s -> rtc sys_next (sys_start s (client_program host port user password lines)) y ->
  room (s_worker (y_server y)) -> sys_step pass_len (ClientHears i copied opened) y = Some y' ->
  exists l reply rest a body,
    y_link y = Some l /\ heard (l_down l) = Some (reply, rest) /\
    asking (p_net (y_client y)) (m_LastCmd (p_client (y_client y))) a body /\
    (_status reply = 200 -> good_call pass_len a -> forall y'', rtc sys_next y' y'' ->
       done_in a (view (m_Db (s_worker (y_server y''))))).
Proof.
  intros V Hr Hroom Hstep. pose proof (sys_reachable_ok _ _ _ (start_sys_ok s host port user password lines V) Hr) as Hok.
  destruct (hears_inv _ _ _ _ _ Hstep) as (l & reply & rest & Hl & Hh & Hc & Hm & Hsv & Hl').
  destruct (moves_effect _ _ _ Hm) as [_ He]. destruct (so_link _ _ Hok _ Hl) as (Ht & _ & _).
  destruct (turn_heard pass_len _ _ _ _ _ _ _ _ _ (cl_asked _ (so_client _ _ Hok)) He Hc Hh Ht) as (_ & _ & a & body & Ha & Hd).
  exists l, reply, rest, a, body. split_and!; [done..|]. intros Hst Hgood y'' Hlater.
  eapply done_stays; [|by apply Hd]. rewrite <- Hsv. eapply system_grows; [|done].
  eapply step_ok; [exact Hok| |exact Hroom|exact Hstep]. done.
Qed.
End Told.
