(* ===== verification/Examples.v ===== *)
(** * The server at work: instances of the parameters and concrete runs

    A CRC-32 and a sort that satisfy the interfaces of the worker, and the
    properties of the worker at concrete tasks on the in-memory storage. *)

From stdpp Require Import sorting.
From S2P Require Import Prelude CxxString Utils Json Common LockQueue Database Store ApiUtils Worker Promises Pool InMemory.

(** ** CRC-32, bit by bit, with the reflected polynomial *)

Definition crc_step (crc : Z) : Z :=
  if Z.odd crc then Z.lxor (Z.shiftr crc 1) 3988292384 else Z.shiftr crc 1.
Definition crc_byte (crc : Z) (c : ascii) : Z :=
  Nat.iter 8 crc_step (Z.lxor crc (byte_val c)).
Definition crc32_ieee (s : str) : Z := Z.lxor (foldl crc_byte 4294967295 s) 4294967295.

#[export] Instance Crc32_ieee : Crc32 := crc32_ieee.

Example crc32_check : crc32_ieee "123456789" = 3421780262.
Proof. vm_compute. reflexivity. Qed.

(** ** Sorting *)

Definition later (m1 m2 : Message) : Prop := m_ts m2 <= m_ts m1.

#[export] Instance later_dec : RelDecision later.
Proof. intros m1 m2. unfold later. apply _. Defined.
#[export] Instance later_total : Total later.
Proof. intros m1 m2. unfold later. lia. Qed.

#[export] Instance merge_StdSort : StdSort := {|
  std_sort := merge_sort later;
  std_sort_perm l := merge_sort_Permutation later l;
  std_sort_sorted l := Sorted_merge_sort later l |}.

(** ** A run of the server *)

Definition ask (cmd : cmd_t) (p : Params) : Task := mkTask false cmd p (if decide (cmd = USER_CREATE) then "localhost:3306" else []).

Definition create_alice : Task := ask USER_CREATE (set_p_user "alice" (set_p_password "secret_a" Params_default)).
Definition create_bob : Task := ask USER_CREATE (set_p_user "bob" (set_p_password "secret_b" Params_default)).
Definition as_alice : Params := set_p_uid 1 (set_p_password "secret_a" Params_default).
Definition as_bob : Params := set_p_uid 2 (set_p_password "secret_b" Params_default).
Definition create_team : Task := ask CHAT_CREATE (set_p_chat_name "team" as_alice).
Definition add_bob : Task := ask CHAT_ADDUSER (set_p_chat_name "team" (set_p_chat_adduser "bob" as_alice)).
Definition hello_bob : Task := ask MESSAGE_SEND (set_p_to_user "bob" (set_p_message "hello" as_alice)).
Definition hello_team : Task := ask MESSAGE_SEND_CHAT (set_p_chat_name "team" (set_p_message "hi all" as_alice)).
Definition poll_bob : Task := ask IDLE (set_p_ts 5 as_bob).
Definition history_alice_bob : Task := ask USER_HISTORY (set_p_user "bob" (set_p_count 10 as_alice)).

Definition after (now : Z) (tasks : list Task) (s : Storage) : Storage :=
  foldl (fun s t => (process_task now t s).1.2) s tasks.

Definition accounts : Storage := after 10 [create_alice; create_bob; create_team; add_bob] Storage_init.

Lemma step_valid now t s : valid s -> task_fits now t s -> valid (process_task now t s).1.2.
Proof. intros V R. apply (process_task_sound now t s V R). Qed.

(** [task_fits] at a concrete task. *)
Ltac fits := solve [vm_compute; tauto].

Lemma accounts_ok : valid accounts.
Proof. repeat (apply step_valid; [|fits]). exact mem_valid_init. Qed.

Lemma auth_required_witness :
  exists c, is_auth_error c /\
    process_task 11 (ask MESSAGE_SEND (set_p_uid 1 (set_p_password "guess" Params_default))) accounts = (Continue, accounts, [c]).
Proof. apply auth_required; vm_compute; reflexivity. Defined.

Lemma worker_refines_witness :
  rtc db_step (view accounts) (view (process_task 11 hello_bob accounts).1.2).
Proof. apply (worker_refines 11 hello_bob accounts); [apply accounts_ok|fits]. Defined.

Lemma one_reply_witness : length (process_task 11 hello_team accounts).2 = 1%nat.
Proof. apply (one_reply 11 hello_team accounts); [apply accounts_ok|fits]. Defined.

Definition alice : User := mkUser 1 1 "alice" (to_string (crc32 "secret_a")) "localhost:3306" [] [] 0.
Definition bob : User := mkUser 2 2 "bob" (to_string (crc32 "secret_b")) "localhost:3306" [] [] 0.

Lemma message_send_spec_witness :
  exists s', process_task 11 hello_bob accounts = (Done tt, s', [sendOkResponse "{\qstatus\q: 0}"]) /\
    db_log (view s') = [mkMessage UNREAD 1 2 11 "hello"].
Proof.
  destruct (message_send_spec 11 hello_bob accounts alice bob accounts_ok) as (s' & Hr & _ & Hv);
    [done|fits|vm_compute; reflexivity..|].
  exists s'. split; [exact Hr|]. rewrite Hv. vm_compute. reflexivity.
Defined.

(** The storage after the message of alice. *)
Definition told : Storage := (process_task 11 hello_bob accounts).1.2.

Lemma sent_message_is_polled_witness :
  exists msgs, (process_task 12 poll_bob told).2 = [sendMessagesToIdleConn msgs] /\
    mkApiMessage 11 "alice" "bob" "hello" ∈ msgs.
Proof.
  destruct (sent_message_is_polled 11 hello_bob accounts alice bob 12 poll_bob
    (Done tt) told [sendOkResponse "{\qstatus\q: 0}"] accounts_ok) as (msgs & chat & Hr & Hc & Hin);
    [done|first [fits|vm_compute; reflexivity]..|].
  exists msgs. split; [exact Hr|]. vm_compute in Hc. injection Hc as <-. exact Hin.
Defined.

Lemma group_message_is_polled_witness :
  exists msgs, (process_task 12 poll_bob (process_task 11 hello_team accounts).1.2).2 = [sendMessagesToIdleConn msgs] /\
    mkApiMessage 11 "alice" "team" "hi all" ∈ msgs.
Proof.
  destruct (group_message_is_polled 11 hello_team accounts alice (mkChat 3 "team") bob 12 poll_bob
    (Done tt) (process_task 11 hello_team accounts).1.2 [sendOkResponse "{\qstatus\q: 0}"] accounts_ok)
    as (_ & msgs & Hr & Hin); [first [fits|vm_compute; reflexivity]..|].
  exists msgs. split; [exact Hr|exact Hin].
Defined.

Lemma user_history_spec_witness :
  exists mix, process_task 12 history_alice_bob told = (Done tt, told, [sendMessages (db_api_message (view told) <$> mix)]) /\
    mkMessage UNREAD 1 2 11 "hello" ∈ mix.
Proof.
  assert (valid told) as V by (apply step_valid; [apply accounts_ok|fits]).
  destruct (user_history_spec 12 history_alice_bob told alice bob V) as (mix & Hr & _ & _ & _ & Hall);
    [vm_compute; reflexivity..|done|].
  exists mix. split; [exact Hr|]. apply Hall; vm_compute; [done|by left].
Defined.

Lemma register_then_login_witness :
  exists body, (process_task 10 create_alice Storage_init).2 = [sendOkResponse body] /\
    (process_task 11 create_alice (process_task 10 create_alice Storage_init).1.2).2 =
      [sendErrorResponse 409 ERR_CONSTRAINT "user already exists"].
Proof.
  assert (valid Storage_init) as V by exact mem_valid_init.
  destruct (register_then_login 10 create_alice Storage_init (process_task 10 create_alice Storage_init).1.2
    (process_task 10 create_alice Storage_init).2 V) as (u & h & body & -> & _ & _ & _ & _ & H2);
    [vm_compute; reflexivity|fits|vm_compute; reflexivity..|].
  exists body. split; [done|]. vm_compute. reflexivity.
Defined.

Lemma do_idle_spec_witness :
  exists s', do_idle 12 poll_bob told = (Done tt, s', [sendMessagesToIdleConn [mkApiMessage 11 "alice" "bob" "hello"]]).
Proof.
  assert (valid told) as V by (apply step_valid; [apply accounts_ok|fits]).
  destruct (do_idle_spec 12 poll_bob told bob V) as (s' & Hr & _); [fits..|vm_compute; reflexivity|].
  exists s'. rewrite Hr. vm_compute. reflexivity.
Defined.

(** ** Two threads *)

(** Alice writes to bob and to the team, and bob polls; the two threads take
    turns at every access. *)
Definition busy : list (event nat) :=
  [Put 1%nat hello_bob; Put 2%nat poll_bob; Put 1%nat hello_team] ++ concat (replicate 20 [Run 0 11; Run 1 12]).

Definition busy_pool : DatabaseWorker nat Storage := play busy (start 2 accounts).

(** Bob is polled in the middle of the two messages. *)
Example busy_reports :
  (fun r => (r_conn r, t_cmd (r_task r), r_calls r)) <$> reports busy_pool =
    [(1%nat, MESSAGE_SEND, [sendOkResponse "{\qstatus\q: 0}"]);
     (2%nat, IDLE, [sendMessagesToIdleConn [mkApiMessage 11 "alice" "bob" "hello"]]);
     (1%nat, MESSAGE_SEND_CHAT, [sendOkResponse "{\qstatus\q: 0}"])].
Proof. vm_compute. reflexivity. Qed.

Lemma busy_reachable es : es `prefix_of` busy -> rtc roomy_step (start 2 accounts) (play es (start 2 accounts)).
Proof.
  intros [rest E]. apply (play_roomy accounts); [apply start_ok, accounts_ok|constructor|].
  eapply proj1, Forall_app. rewrite <- E.
  repeat constructor; intros now s V; vm_compute; tauto.
Qed.

Lemma pool_refines_witness :
  rtc db_step (view accounts) (view (m_Db busy_pool)) /\ consistent (view (m_Db busy_pool)).
Proof. apply (pool_refines 2 accounts busy_pool accounts_ok). by apply busy_reachable. Defined.

Lemma pool_answers_witness :
  length (r_calls <$> reports busy_pool) = 3%nat /\
  forall r, r ∈ reports busy_pool -> reply_count (t_cmd (r_task r)) (length (r_calls r)).
Proof.
  split; [vm_compute; reflexivity|].
  apply (pool_answers 2 accounts busy_pool accounts_ok). by apply busy_reachable.
Defined.

Lemma pool_keeps_promises_witness :
  promise MESSAGE_SEND_CHAT 11 hello_team (view (m_Db busy_pool)).
Proof.
  apply (pool_keeps_promises 2 accounts busy_pool
    (mkReport 11 1%nat hello_team (Done tt) [sendOkResponse "{\qstatus\q: 0}"]) accounts_ok).
  - by apply busy_reachable.
  - apply (list_elem_of_lookup_2 _ 2). vm_compute. reflexivity.
  - eexists. split; [by left|done].
Defined.

(** After ten events the two messages and the poll are still to be done. *)
Lemma pool_drains_witness :
  let w := play (take 10 busy) (start 2 accounts) in
  length (reports w) = 0%nat /\
  exists w', rtc roomy_step w w' /\ put w ≡ₚ (fun r => (r_conn r, r_task r)) <$> reports w'.
Proof.
  intros w. split; [vm_compute; reflexivity|].
  assert (rtc roomy_step (start 2 accounts) w) as Hr by (apply busy_reachable, prefix_take).
  destruct (pool_drains 1 accounts w 12 accounts_ok Hr) as (w' & Hr' & _ & Hp).
  - vm_compute. reflexivity.
  - apply (fits_ample accounts); [exact (pool_reachable_ok 2 accounts w accounts_ok Hr)|].
    assert (put w = [(1%nat, hello_bob); (2%nat, poll_bob); (1%nat, hello_team)]) as -> by (vm_compute; reflexivity).
    repeat constructor; intros now s V; vm_compute; tauto.
  - by exists w'.
Defined.
