(* ===== verification/EndToEnd.v ===== *)
(** * From a typed line to the screen of the receiver

    The console client, the HTTP connections, the API client of the server,
    the database worker and the storage put together: what one handler
    writes is what the next one reads.  A message is followed from the
    console of its sender over two connections of the server to the screen of
    its receiver. *)

From S2P Require Import Prelude CxxString Utils Json Common LockQueue Database Store ApiUtils Gzip Http ClientUtils Worker ApiClient Client ClientRun InMemory Examples.
Import Input Commands.

(** ** What is carried by a connection *)

Section Carried.
Context `{Zlib}.

(** The bytes of a message, shorter than the address space, are received as
    [reply], whatever the segments they come in and whatever follows them. *)
Definition carried (bytes : str) (reply : HttpReply) : Prop :=
  Z.of_nat (length bytes) < 2 ^ 64 ->
  forall sock rest, stream sock = bytes ++ rest ->
  exists sock', asyncResponse sock = Some (Ret (None, reply, sock')) /\ stream sock' = rest.

Lemma request_carried a body : carried (client_request a body) (request_read a body).
Proof.
  intros Hlen sock rest Hs. apply client_request_received; [|done].
  revert Hlen. unfold client_request, build_request. rewrite !length_app. lia.
Qed.

(** The answer of the server, and the reply that the client gets. *)
Definition answer_read (body : str) : HttpReply := set_body body (response_head 200 (ok_headers body)).

Lemma answer_carried body : carried (buildApiOkResponse body) (answer_read body).
Proof.
  intros Hlen sock rest Hs. apply response_received; [by left|by left| |by rewrite Hs, ok_response_message].
  revert Hlen. unfold buildApiOkResponse. rewrite !length_app. lia.
Qed.
End Carried.

(** ** The two clients *)

Section Delivery.
Context {S : Type} `{ConnectionLaws S} `{Crc32} `{StdSort} (pass_len : Z) `{LocationClient} `{Zlib}.

(** The client is logged in as the user [u] of the storage. *)
Definition logged_in_as (s : S) (c : Client) (u : User) : Prop :=
  db_users (view s) !! m_SelfId c = Some u /\ u_password u = to_string (crc32 (m_Password c)) /\
  in_u 32 (m_SelfId c) /\ good_text (m_Password c).

Lemma logged_in_task s c u task :
  valid s -> logged_in_as s c u -> p_uid (t_request task) = m_SelfId c -> p_password (t_request task) = m_Password c ->
  task_user task s = Some u.
Proof.
  intros V (Hu & Hp & _) Hid Hpass. apply task_user_Some. unfold authenticated, encrypted_pass.
  rewrite law_lookupUserById, Hid, Hu, Hpass by done. simpl. split_and!; [done| |done].
  apply (con_user_key _ (valid_consistent _ V)) in Hu. lia.
Qed.

(** ** The polling connection *)

(** The object of the server for a connection of [c] that polls, before its
    first poll. *)
Definition polling_for (peer : str) (c : Client) (cmd0 : Common.cmd_t) : ApiClient :=
  noted peer IDLE (call_params (StartIdle (m_SelfId c) (m_HeartBit c) (m_Password c)) Params_default) (ApiClient_init cmd0).

(** The receiver's client opens its polling connection: the request it
    writes starts the polling at the server, which puts the user and the
    password of the client on record, and the acknowledgement makes the
    client wait for messages. *)
Definition starts_to_poll (peer : str) (now : Z) (c : Client) (cmd0 : Common.cmd_t) : Prop :=
  exists req reply ack,
    onHttpIdleConnect None c = Ret (c, [idle_asyncRequest req]) /\ carried req reply /\
    requestFromClientReadHandler pass_len peer now None reply (ApiClient_init cmd0) =
      Some (Ret (polling_for peer c cmd0, [asyncRequest (buildApiOkResponse ack) to_nothing; async_wait])) /\
    carried (buildApiOkResponse ack) (answer_read ack) /\
    onHttpIdleRead None (answer_read ack) (set_idle false c) = Ret (set_idle true c, [idle_asyncResponse]).

Lemma polling_started peer now c cmd0 :
  in_u 32 (m_SelfId c) -> in_u 32 (m_HeartBit c) -> good_text (m_Password c) -> starts_to_poll peer now c cmd0.
Proof.
  intros Hid Hh Hp. set (a := StartIdle (m_SelfId c) (m_HeartBit c) (m_Password c)).
  assert (good_call pass_len a) as Ha by done.
  pose proof (call_body_ok pass_len a Ha) as Hb.
  destruct (request_read_handled pass_len a _ peer now [] (ApiClient_init cmd0) Ha ltac:(discriminate) Hb)
    as (actions & (ack & _ & ->) & Hread).
  exists (client_request a (print (JObject (call_fields a)))), (request_read a (print (JObject (call_fields a)))), ack.
  split_and!; [|apply request_carried|exact Hread|apply answer_carried|].
  - unfold onHttpIdleConnect. cbn [call_body a] in Hb. by rewrite Hb.
  - by destruct c.
Qed.

Lemma polling_params peer c cmd0 :
  let d := m_RequestDetails (polling_for peer c cmd0) in
  command d = IDLE /\ p_uid (params d) = m_SelfId c /\ p_password (params d) = m_Password c /\
  p_ts (params d) = m_HeartBit c.
Proof. simpl. by destruct (decide (m_HeartBit c <> 0)) as [?|?%dec_stable]. Qed.

(** The first poll, at the first expiry of the timer. *)
Definition first_poll (ping : bool) (peer : str) (c : Client) (cmd0 : Common.cmd_t) : Task :=
  let task := Task_of (m_RequestDetails (polling_for peer c cmd0)) in
  mkTask ping (t_cmd task) (t_request task) (t_storage task).

Lemma timer_polls peer now c cmd0 :
  in_u 32 (m_HeartBit c) ->
  exists ping b, timerWaitTaskResultHandler false now (polling_for peer c cmd0) =
    Ret (b, [putTask (first_poll ping peer c cmd0); async_wait]).
Proof.
  intros Hh. unfold timerWaitTaskResultHandler. cbv zeta. change (m_NewestMsgTimestamp (polling_for peer c cmd0)) with 0.
  match goal with |- context [u64 ?ts <? 0] => pose proof (wrap_range 64 ts ltac:(lia)) as Hts end.
  rewrite (proj2 (Z.ltb_ge _ 0)) by apply Hts. destruct (5 <? _); by eexists _, _.
Qed.

(** ** The message *)

(** The task of the typed message, on a connection that had the parameters
    [p]. *)
Definition message_task (c : Client) (name text : str) (p : Params) : Task :=
  mkTask false MESSAGE_SEND (call_params (Send (m_SelfId c) name text (m_Password c)) p) [].

(** The sender's side: the line is written as a request, which makes the
    connection [a] of the server put the task. *)
Definition typed_becomes_task (peer : str) (now : Z) (c c' : Client) (a a' : ApiClient) (name text : str) : Prop :=
  exists req reply,
    onUserInput (render (Direct_msg name text)) c = Ret (c', [http_asyncRequest req]) /\ carried req reply /\
    requestFromClientReadHandler pass_len peer now None reply a =
      Some (Ret (a', [putTask (message_task c name text (params (m_RequestDetails a)))])).

Lemma message_typed s peer now c a u name text :
  logged_in_as s c u -> state_mode c <> CHAT_U -> well_typed (Direct_msg name text) -> good_text name -> good_text text ->
  exists c' a', m_LastCmd c' = DIRECT_MSG_USER /\ typed_becomes_task peer now c c' a a' name text.
Proof.
  intros (_ & _ & Hid & Hp) Hm Ht Hn Hx. set (call := Send (m_SelfId c) name text (m_Password c)).
  assert (good_call pass_len call) as Hgood by done.
  pose proof (call_body_ok pass_len call Hgood) as Hb.
  destruct (request_read_handled pass_len call _ peer now [] a Hgood ltac:(discriminate) Hb) as (actions & Hserves & Hread).
  unfold serves in Hserves. simpl in Hserves. subst actions.
  exists (after_sending (Direct_msg name text) c). eexists. split; [done|].
  eexists _, (request_read call (print (JObject (call_fields call)))).
  split_and!; [by apply typed_command_branch|apply request_carried|exact Hread].
Qed.

(** The answer of the worker on the connection [a], shown by the sender. *)
Definition told_ok (now : Z) (body : str) (c : Client) (a : ApiClient) : Prop :=
  exists response h reply,
    worker_calls now (Worker.sendOkResponse body) a = Ret (a, [asyncRequest response h]) /\
    carried response reply /\
    forall idle_open, onHttpRead idle_open None reply c = Ret (c, [timeout_cancel; showMsg "200 OK"]).

Lemma sender_told now body c a : m_LastCmd c = DIRECT_MSG_USER -> told_ok now body c a.
Proof.
  intros Hl. eexists _, _, (answer_read body). split_and!; [done|apply answer_carried|].
  intros idle_open. unfold onHttpRead. cbn [answer_read set_body _status response_head].
  rewrite decide_False by tauto. by rewrite Hl.
Qed.

(** The receiver's side: the messages of a poll are written by the
    connection [b] and shown by the client. *)
Definition shows (now : Z) (msgs : list ApiMessage) (b : ApiClient) (c : Client) (shown : list action) : Prop :=
  exists response h reply,
    worker_calls now (Worker.sendMessagesToIdleConn msgs) b = Ret (b, [asyncRequest response h]) /\
    carried response reply /\ onHttpIdleRead None reply (set_idle true c) = Ret (set_idle true c, shown).

Lemma poll_shown now msgs b c :
  Forall (fun m => in_u 64 (a_ts m)) msgs -> in_u 64 now ->
  shows now msgs b c ((shown_message <$> (as_shown <$> msgs)) ++ [idle_asyncResponse]).
Proof.
  intros Hm Hn. destruct (polled_messages_shown_at (set_idle true c) msgs now Hm Hn) as (body & Hb & Hs).
  eexists (buildApiOkResponse body), _, (answer_read body). split_and!; [|apply answer_carried|].
  - simpl. unfold sendMessagesToIdleConn. by rewrite Hb.
  - exact Hs.
Qed.

(** C2: a line typed by one user appears on the screen of the other.  The
    sender and the receiver are logged in, and the receiver's client has
    opened its polling connection.  Then the line is written as a request,
    read by the server and put in the queue; the worker stores the message
    and the sender is told so; the first poll of the receiver's connection
    finds it, and the receiver's client shows the text as it was typed, with
    the names of its sender and its chat.  The bytes may be cut into any
    segments on each of the connections. *)
Theorem typed_line_shown s u v cs cr a peer_s peer_r cmd0 text now now2 t0 t1 t2 :
  valid s -> logged_in_as s cs u -> logged_in_as s cr v ->
  state_mode cs <> CHAT_U -> well_typed (Direct_msg (u_name v) text) -> good_text (u_name v) -> good_text text ->
  time_fits now -> text_fits text -> time_fits now2 -> since_fits (m_HeartBit cr) ->
  in_u 32 (m_HeartBit cr) -> m_HeartBit cr < now -> in_u 64 t2 ->
  starts_to_poll peer_r t0 cr cmd0 /\
  exists cs' a' s1,
    typed_becomes_task peer_s now cs cs' a a' (u_name v) text /\
    process_task now (message_task cs (u_name v) text (params (m_RequestDetails a))) s =
      (Done tt, s1, [Worker.sendOkResponse "{\qstatus\q: 0}"]) /\
    told_ok now "{\qstatus\q: 0}" cs' a' /\
  exists b poll s2 msgs shown chat,
    timerWaitTaskResultHandler false t1 (polling_for peer_r cr cmd0) = Ret (b, [putTask poll; async_wait]) /\
    process_task now2 poll s1 = (Done tt, s2, [Worker.sendMessagesToIdleConn msgs]) /\
    shows t2 msgs b cr shown /\
    db_chats (view s) !! u_self_chat_id v = Some chat /\
    showMessage (c_str (u_name u)) (c_str (c_name chat)) text ∈ shown.
Proof.
  intros V Hs Hr Hmode Ht Hn Hx Hnow Hf Hnow2 Hsince Hhb Hlt Ht2.
  split; [apply polling_started; [apply Hr|done|apply Hr]|].
  destruct (message_typed s peer_s now cs a u (u_name v) text Hs Hmode Ht Hn Hx) as (cs' & a' & Hl & Htyped).
  set (task := message_task cs (u_name v) text (params (m_RequestDetails a))) in *.
  pose proof (logged_in_task s cs u task V Hs eq_refl eq_refl) as Hu.
  destruct Hr as (Hv & Hpass & Hid & Hp).
  assert (u_id v = m_SelfId cr) as Hvid by by apply (con_user_key _ (valid_consistent _ V)) in Hv as [? _].
  assert (lookupUserByName (u_name v) s = [v]) as Hname by (apply only_user_named; [done|by rewrite Hvid|done]).
  destruct (message_sent now task s u v V eq_refl (conj Hnow Hf) Hu Hname) as (s1 & Hrun & V1 & Hview).
  exists cs', a', s1. split_and!; [done|done|by apply sender_told|].
  destruct (timer_polls peer_r t1 cr cmd0 Hhb) as (ping & b & Htimer).
  set (poll := first_poll ping peer_r cr cmd0) in *.
  destruct (polling_params peer_r cr cmd0) as (Hcmd & Hpid & Hppass & Hpts).
  assert (logged_in_as s1 cr v) as Hr1 by (unfold logged_in_as; by rewrite Hview).
  pose proof (logged_in_task s1 cr v poll V1 Hr1 Hpid Hppass) as Hv1.
  pose proof (con_self _ (valid_consistent _ V) _ _ Hv) as Hself.
  destruct (con_members _ (valid_consistent _ V) _ _ Hself) as [[chat Hchat] _].
  assert (p_ts (t_request poll) = m_HeartBit cr) as Hts by exact Hpts.
  destruct (newest_is_polled now2 poll s1 v (db_log (view s))
    (mkMessage UNREAD (u_id u) (u_self_chat_id v) now text) chat)
    as (s2 & msgs & Hidle & Hin & Hin64); try (by rewrite Hview); try (by rewrite Hts); [done..| |].
  { rewrite Hview. simpl. by rewrite Hvid. }
  eexists b, poll, s2, msgs, _, chat. split_and!; [done| |by apply poll_shown|done|].
  - unfold process_task. change (t_cmd poll) with IDLE. done.
  - apply elem_of_app. left. apply list_elem_of_fmap. eexists. split; [|by apply list_elem_of_fmap_2].
    unfold db_api_message. rewrite Hview. simpl. 
    apply task_user_known in Hu as [Hu Huid]; [|done]. rewrite Huid, Hu, Hchat. simpl.
    unfold shown_message. simpl. rewrite (c_str_id text); [done|apply Hx].
Qed.

(** ** Everything a client writes *)

(** C14: whatever is typed and received and in whatever order, all that a running
    client writes is received by the server as it was written, as the
    request of a call; and when the call keeps to the server's rules for
    names, texts and numbers, the connection serves it. *)
Theorem all_requests_served ok p conn req :
  reachable_by ok p -> (conn, req) ∈ n_sent (p_net p) ->
  exists a body, call_body a = Ret body /\ carried req (request_read a body) /\
    (forall peer now city c, good_call pass_len a -> (call_cmd a = USER_CREATE -> get_city_by_ip peer = Some (Ret city)) ->
       exists actions, serves now city a (params (m_RequestDetails c)) actions /\
         requestFromClientReadHandler pass_len peer now None (request_read a body) c =
           Some (Ret (noted peer (call_cmd a) (task_params city a (params (m_RequestDetails c))) c, actions))).
Proof.
  intros Hp Hs. destruct (written_requests ok p conn req Hp Hs) as (a & body & Hb & ->). exists a, body.
  split_and!; [done|apply request_carried|]. intros peer now city c Ha Hc. by apply request_read_handled.
Qed.
End Delivery.

(** ** Alice writes to bob on the in-memory storage *)

#[local] Instance no_location : LocationClient := fun _ => Some (Throw (runtime_error "connect")).
#[local] Existing Instance no_zlib.

Definition alice_client : Client := set_self 1 1 9 (set_password "secret_a" (Client_init "geo.chat" 7788 [] [])).
Definition bob_client : Client := set_self 2 2 9 (set_password "secret_b" (Client_init "geo.chat" 7788 [] [])).

Lemma alice_typed : well_typed (Direct_msg (u_name bob) "it's quarter past 5").
Proof. by repeat split; try discriminate; vm_compute. Qed.

(** [good_text] of a literal. *)
Ltac text := split; [discriminate|apply (bool_decide_unpack _); vm_compute; exact I].

Lemma alice_ready : logged_in_as accounts alice_client alice.
Proof. split; [vm_compute; reflexivity|]. split; [vm_compute; reflexivity|]. split; [done|text]. Qed.

Lemma bob_ready : logged_in_as accounts bob_client bob.
Proof. split; [vm_compute; reflexivity|]. split; [vm_compute; reflexivity|]. split; [done|text]. Qed.

Lemma typed_line_shown_witness :
  exists msgs b shown, shows 13 msgs b bob_client shown /\
    showMessage "alice" "bob" "it's quarter past 5" ∈ shown.
Proof.
  destruct (typed_line_shown 8 accounts alice bob alice_client bob_client (ApiClient_init USER_LOGIN) "10.0.0.1" "10.0.0.2"
    IDLE "it's quarter past 5" 11 12 10 11 13) as (_ & cs' & a' & s1 & _ & _ & _ & b & poll & s2 & msgs & shown & chat & _ & _ & Hs & Hc & Hin);
    [exact accounts_ok|exact alice_ready|exact bob_ready|by apply (bool_decide_unpack _)|exact alice_typed|text|text|first [fits|done]..|].
  exists msgs, b, shown. split; [exact Hs|]. vm_compute in Hc. injection Hc as <-. exact Hin.
Defined.

(** The message typed in [ClientRun.alice_waits], the third request of the run. *)
Definition alice_message : nat * str :=
  default (0%nat, [] : str) (n_sent (p_net (after_events any_event alice_waits alice_start)) !! 2%nat).

Lemma all_requests_served_witness :
  exists a body, call_body a = Ret body /\ carried alice_message.2 (request_read a body).
Proof.
  destruct (all_requests_served 8 (fun _ _ => True) (after_events any_event alice_waits alice_start) 0 alice_message.2)
    as (a & body & Hb & Hc & _); [apply alice_reaches; [done|apply (bool_decide_unpack _); vm_compute; exact I]| |by exists a, body].
  apply list_elem_of_lookup. exists 2%nat. vm_compute. reflexivity.
Defined.
