(* ===== verification/Start.v ===== *)
(** * The start of the two programs: server/src/main.cpp, client/src/main.cpp

    What [main] does with its options until the server accepts connections
    or the client runs, and how it ends when that fails.  The option parser
    is a library and its result an argument; loading the certificate and the
    key, binding the port and creating a thread are the system's. *)

From S2P Require Import Prelude CxxString Utils Os Connect Tcp ClientUtils Client.

(** ** The server *)

(** The options; [pass_len] is read later, by the connections. *)
Record ServerOptions := mkServerOptions {
  o_help : bool; o_port : Z; o_sert : str; o_run_as : str; o_io_workers : Z }.

(** How a start ends: the process exits with a code, is terminated by the
    runtime or by a signal, or accepts connections. *)
Inductive server_start (A : Type) := Exits (code : Z) | Terminated | ArithmeticSignal | Accepting (a : A).
Arguments Exits {A} code.
Arguments Terminated {A}.
Arguments ArithmeticSignal {A}.
Arguments Accepting {A} a.

Section server.
Context {W : Type} `{Unix W}.

(** The error of OpenSSL for the bytes of a .pem file, the failure to bind a
    port, and a new thread. *)
Class Network := {
  pem_error : str -> option str;
  bind_error : Z -> W -> option str;
  new_thread : W -> cxx unit * W;
  thread_creds : forall w, creds (new_thread w).2 = creds w;
  thread_files : forall name w, file_bytes name (new_thread w).2 = file_bytes name w }.
Context `{Network}.

(** The constructor of [IoThread]: the file is opened and read by the
    process as it is then. *)
Definition IoThread_new (sert : str) : sys W unit :=
  if decide (sert = []) then mret tt
  else
    bytes ← asks (file_bytes (c_str sert));
    match bytes with
    | None => e ← asks errno_message; throws (runtime_error ("use_certificate_chain_file: " ++ e))
    | Some bytes => match pem_error bytes with Some e => throws (runtime_error e) | None => mret tt end
    end.

Record ServerObject := mkServerObject { m_IoPoolSize : Z; bound_port : Z; m_IoThreads : nat }.

(** [Server::Server]; an endpoint takes an [unsigned short]. *)
Definition Server_new (port io_thread_pool_size : Z) (sert : str) : sys W ServerObject :=
  IoThread_new sert ;;
  let endpoint := u16 port in
  e ← asks (bind_error endpoint);
  match e with
  | Some e => throws (runtime_error e)
  | None => mret (mkServerObject io_thread_pool_size endpoint 0)
  end.

(** The loop of [run] that makes the I/O threads. *)
Fixpoint make_threads (n : nat) (sert : str) (sv : ServerObject) : sys W ServerObject :=
  match n with
  | O => mret sv
  | S n =>
      IoThread_new sert ;; new_thread ;;
      make_threads n sert (mkServerObject (m_IoPoolSize sv) (bound_port sv) (S (m_IoThreads sv)))
  end.

(** [DatabaseWorker::run]: the loop that makes the threads of the worker. *)
Fixpoint make_workers (n : nat) : sys W unit :=
  match n with O => mret tt | S n => new_thread ;; make_workers n end.

(** [Server::run] up to the first [startAccept].  The counter of the loop is
    a [size_t] and the pool size an [int].  Once [m_MainIo] has its thread,
    an exception destroys a running thread, and the runtime terminates the
    process. *)
Definition Server_start (sert : str) (sv : ServerObject) (w : W) : server_start ServerObject * W :=
  match new_thread w with
  | (Ret _, w) =>
      match (sv ← make_threads (Z.to_nat (u64 (m_IoPoolSize sv))) sert sv; make_workers 5 ;; mret sv) w with
      | (Ret sv, w) => (if decide (m_IoThreads sv = 0%nat) then ArithmeticSignal else Accepting sv, w)
      | (_, w) => (Terminated, w)
      end
  | (_, w) => (Exits 0, w)
  end.

Definition drop_privileges (run_as : str) : sys W unit :=
  if decide (run_as = []) then mret tt else change_process_privileges (c_str run_as).

(** [None] when the check passes. *)
Definition server_check_config_or_die (opt : ServerOptions) : option Z :=
  if decide (o_sert opt = []) then Some (-1) else None.

Definition server_main (parsed : cxx ServerOptions) (w : W) : server_start ServerObject * W :=
  match parsed with
  | Ret opt =>
      if o_help opt then (Exits 0, w)
      else match server_check_config_or_die opt with
      | Some code => (Exits code, w)
      | None =>
          match (s ← Server_new (o_port opt) (o_io_workers opt) (o_sert opt); drop_privileges (o_run_as opt) ;; mret s) w with
          | (Ret s, w) => Server_start (o_sert opt) s w
          | (_, w) => (Exits 0, w)
          end
      end
  | _ => (Exits (-1), w)
  end.

(** ** A server that accepts connections *)

(** The key file is there for the process as it is. *)
Definition key_readable (sert : str) (w : W) : Prop :=
  exists bytes, file_bytes (c_str sert) w = Some bytes /\ pem_error bytes = None.

Lemma IoThread_new_ok sert w r w' :
  IoThread_new sert w = (r, w') -> w' = w /\ (r = Ret tt -> sert = [] \/ key_readable sert w).
Proof.
  unfold IoThread_new. case_decide as Hs; [intros [= <- <-]; auto|].
  unfold mbind, sys_bind, asks. destruct (file_bytes (c_str sert) w) as [bytes|] eqn:E; [|by intros [= <- <-]].
  destruct (pem_error bytes) eqn:Ep; intros [= <- <-]; split; try done. intros _. right. by exists bytes.
Qed.

Lemma make_threads_ok n sert sv w sv' w' :
  make_threads n sert sv w = (Ret sv', w') ->
  creds w' = creds w /\ (forall name, file_bytes name w' = file_bytes name w) /\
  bound_port sv' = bound_port sv /\ m_IoThreads sv' = (m_IoThreads sv + n)%nat /\ (n <> 0%nat -> sert = [] \/ key_readable sert w).
Proof.
  revert sv w. induction n as [|n IH]; intros sv w E; cbn [make_threads] in E.
  - injection E as <- <-. split_and!; [done|done|done|lia|done].
  - apply sys_bind_ok in E as ([] & w1 & Hio & E). apply sys_bind_ok in E as ([] & w2 & Hth & E).
    destruct (IoThread_new_ok _ _ _ _ Hio) as [-> Hkey]. specialize (Hkey eq_refl).
    pose proof (thread_creds w) as Hc. pose proof (fun name => thread_files name w) as Hf. rewrite Hth in Hc, Hf. simpl in Hc, Hf.
    destruct (IH _ _ E) as (-> & Hf' & -> & -> & _). split_and!; [done| |done|simpl; lia|done].
    intros name. by rewrite Hf'.
Qed.

Lemma make_workers_ok n w w' :
  make_workers n w = (Ret tt, w') -> creds w' = creds w /\ forall name, file_bytes name w' = file_bytes name w.
Proof.
  revert w. induction n as [|n IH]; intros w E; cbn [make_workers] in E; [by injection E as <-|].
  apply sys_bind_ok in E as ([] & w1 & Hth & E). apply IH in E as [-> Hf].
  pose proof (thread_creds w) as Hc. pose proof (fun name => thread_files name w) as Hf1. rewrite Hth in Hc, Hf1.
  split; [exact Hc|]. intros name. by rewrite Hf, <- Hf1.
Qed.

Lemma Server_new_ok port pool sert w sv w' :
  Server_new port pool sert w = (Ret sv, w') -> w' = w /\ sv = mkServerObject pool (u16 port) 0.
Proof.
  intros E. unfold Server_new in E. apply sys_bind_ok in E as ([] & w1 & Hio & E).
  destruct (IoThread_new_ok _ _ _ _ Hio) as [-> _]. cbv zeta in E. apply sys_bind_ok in E as (e & w2 & [= <- <-] & E).
  destruct (bind_error (u16 port) w); [discriminate E|]. by injection E as <- <-.
Qed.
End server.

Section started.
Context {W : Type} `{UnixLaws W} `{!Network}.

Lemma server_started_at opt w sv w' :
  server_main (Ret opt) w = (Accepting sv, w') ->
  bound_port sv = u16 (o_port opt) /\
  m_IoThreads sv = Z.to_nat (u64 (o_io_workers opt)) /\ (0 < m_IoThreads sv)%nat /\
  key_readable (o_sert opt) w' /\
  (o_run_as opt <> [] -> exists pw l, getpwnam (c_str (o_run_as opt)) w = Some pw /\
     creds w' = mkCreds (pw_uid pw) (pw_uid pw) (pw_uid pw) (pw_gid pw) (pw_gid pw) (pw_gid pw) l).
Proof.
  unfold server_main, server_check_config_or_die. destruct (o_help opt); [discriminate|].
  case_decide as Hs; [discriminate|].
  destruct ((s ← Server_new _ _ _; _) w) as [[s| |] w1] eqn:E; try discriminate.
  apply sys_bind_ok in E as (s0 & w0 & Hnew & E). apply Server_new_ok in Hnew as [-> ->].
  apply sys_bind_ok in E as ([] & w2 & Hdrop & [= <- <-]).
  unfold Server_start. pose proof (thread_creds w2) as Hc. pose proof (fun name => thread_files name w2) as Hf.
  destruct (new_thread w2) as [[[]| |] w3]; try discriminate. simpl in Hc, Hf.
  destruct ((sv ← make_threads _ _ _; _) w3) as [[sv'| |] w5] eqn:Em; try discriminate.
  apply sys_bind_ok in Em as (sv1 & w4 & Em & Ew). apply sys_bind_ok in Ew as ([] & w6 & [Hc5 Hf5]%make_workers_ok & [= <- <-]).
  apply make_threads_ok in Em as (Hc4 & Hf4 & Hp & Hn & Hkey). simpl in Hp, Hn, Hkey.
  case_decide as Hz; [discriminate|]. intros [= <- <-]. split_and!; [done|by rewrite Hn|lia| |].
  - destruct Hkey as [?|(bytes & Hb & Hpem)]; [congruence|done|]. exists bytes. by rewrite Hf5, Hf4.
  - intros Hrun. unfold drop_privileges in Hdrop. rewrite decide_False in Hdrop by done.
    apply privileges_dropped_at in Hdrop as (_ & pw & l & Hpw & Hcr). exists pw, l. split; [done|congruence].
Qed.

(** C28: when the server gets to accept connections, it has at least one I/O
    thread, as many as asked for, and its port is the one asked for, modulo
    65536; with [run_as] it has the user and the groups of that user only,
    and the key file can be read by that user: the threads load it again
    after the privileges are dropped, and where root alone may read it the
    server does not start. *)
Theorem server_started opt w sv w' :
  server_main (Ret opt) w = (Accepting sv, w') ->
  bound_port sv = u16 (o_port opt) /\
  m_IoThreads sv = Z.to_nat (u64 (o_io_workers opt)) /\ (0 < m_IoThreads sv)%nat /\
  key_readable (o_sert opt) w' /\
  (o_run_as opt <> [] -> exists pw l, getpwnam (c_str (o_run_as opt)) w = Some pw /\
     creds w' = mkCreds (pw_uid pw) (pw_uid pw) (pw_uid pw) (pw_gid pw) (pw_gid pw) (pw_gid pw) l).
Proof. apply server_started_at. Qed.

(** A start that fails is a success for whoever started the program: the
    exit code is 0, as when the port is taken. *)
Lemma port_taken opt w e :
  o_help opt = false -> o_sert opt <> [] -> bind_error (u16 (o_port opt)) w = Some e ->
  (server_main (Ret opt) w).1 = Exits 0.
Proof.
  intros Hh Hs Hb. unfold server_main, server_check_config_or_die. rewrite Hh, decide_False by done.
  destruct ((s ← Server_new _ _ _; _) w) as [[s| |] w1] eqn:E; [|done..]. exfalso.
  apply sys_bind_ok in E as (s0 & w0 & Hnew & _). unfold Server_new in Hnew.
  apply sys_bind_ok in Hnew as ([] & w2 & Hio & Hnew). apply IoThread_new_ok in Hio as [-> _].
  cbv zeta in Hnew. apply sys_bind_ok in Hnew as (e' & w3 & [= <- <-] & Hnew). by rewrite Hb in Hnew.
Qed.

(** No I/O threads: the first [startAccept] divides by their number. *)
Lemma no_io_workers opt w :
  o_io_workers opt = 0 -> forall sv w', server_main (Ret opt) w <> (Accepting sv, w').
Proof.
  intros Hz sv w' E. destruct (server_started_at _ _ _ _ E) as (_ & Hn & Hpos & _). rewrite Hz in Hn.
  change (Z.to_nat (u64 0)) with 0%nat in Hn. lia.
Qed.
End started.

(** ** A server run as another user *)

#[local] Instance free_ports : Network (W := Process) := {|
  pem_error _ := None;
  bind_error port _ := if decide (port = 22) then Some ("bind: Address already in use" : str) else None;
  new_thread p := (Ret tt, p);
  thread_creds p := eq_refl;
  thread_files name p := eq_refl |}.

Definition host_with (owner : option Z) : Process :=
  mkProcess_ (mkCreds 0 0 0 0 0 0 [0]) [("www" : str, www)] [("/etc/server.pem" : str, (owner, "key" : str))] [] None.
Definition host : Process := host_with (Some 33).
Definition eight_workers (port : Z) : ServerOptions := mkServerOptions false port "/etc/server.pem" "www" 8.
Definition accepting : Process := (server_main (Ret (eight_workers 7788)) host).2.

Lemma server_started_witness :
  (server_main (Ret (eight_workers 7788)) host).1 = Accepting (mkServerObject 8 7788 8) /\
  euid (creds accepting) = 33.
Proof.
  split; [vm_compute; reflexivity|].
  destruct (server_started (eight_workers 7788) host (mkServerObject 8 7788 8) accepting)
    as (_ & _ & _ & _ & Hc); [vm_compute; reflexivity|].
  destruct Hc as (pw & l & Hpw & ->); [discriminate|]. vm_compute in Hpw. injection Hpw as <-. reflexivity.
Defined.

(** The help text allows 65536, which is port 0: any port that is free. *)
Example port_65536 : (server_main (Ret (eight_workers 65536)) host).1 = Accepting (mkServerObject 8 0 8).
Proof. vm_compute. reflexivity. Qed.

(** A key that root alone may read: the server has loaded it once, drops its
    privileges, and is terminated when the threads load it again. *)
Example key_of_root : (server_main (Ret (eight_workers 7788)) (host_with (Some 0))).1 = Terminated.
Proof. vm_compute. reflexivity. Qed.

(** ** The client *)

Record ClientOptions := mkClientOptions { c_help : bool; c_server : str; c_user : str; c_password : str }.

(** [None] when the check passes; otherwise the exit code and what is
    written to the terminal. *)
Definition client_check_config_or_die (opt : ClientOptions) : option (Z * str) :=
  if decide (c_server opt = []) then Some (-1, "server is required" : str)
  else
    match split (c_server opt) ":" with
    | [_; port] => match stoi port with Ret _ => None | _ => Some (-1, "invalid server: server" : str) end
    | _ => Some (-1, "invalid server: server" : str)
    end.

(** What [Client::run] does, in order: the threads of the events and of the
    terminal, the first connect, the timer, the I/O thread; then it waits for
    them. *)
Inductive run_action :=
| events_run | ui_run
| asyncConnect (host : str) (port : Z)
| expires_from_now (ms : Z)
| io_start | ui_join | events_join | io_join.

Definition Client_run (c : Client) : list run_action :=
  [events_run; ui_run; asyncConnect (m_Host c) (m_Port c); expires_from_now 5000; io_start; ui_join; events_join; io_join].

(** The handler of that timer: whether it cancels what is under way on the
    first connection. *)
Definition on_timeout (aborted : bool) : bool := negb aborted.

(** [Client::createConnect]: the two connections of the client. *)
Definition createConnect (use_ssl : bool) : BasicTcpClient := BasicTcpClient_client use_ssl 10.

Inductive client_start := ClientExits (code : Z) | ClientRuns (c : Client) (actions : list run_action).

(** The text is split a second time. *)
Definition client_main (parsed : cxx ClientOptions) : client_start :=
  match parsed with
  | Ret opt =>
      if c_help opt then ClientExits 0
      else match client_check_config_or_die opt with
      | Some (code, _) => ClientExits code
      | None =>
          match split (c_server opt) ":" with
          | host :: port :: _ =>
              match stoi port with
              | Ret port => let c := Client_init host port (c_user opt) (c_password opt) in ClientRuns c (Client_run c)
              | _ => ClientExits 0
              end
          | _ => ClientExits 0
          end
      end
  | _ => ClientExits (-1)
  end.

(** The client starts exactly for a server of two parts at a colon, the
    second of which begins with a number that fits an [int]; a host without
    a colon and a port in decimal are taken as they are. *)
Theorem client_started opt :
  c_help opt = false ->
  (forall c actions, client_main (Ret opt) = ClientRuns c actions <->
     exists host text port, split (c_server opt) ":" = [host; text] /\ stoi text = Ret port /\ c_server opt <> [] /\
       c = Client_init host port (c_user opt) (c_password opt) /\ actions = Client_run c) /\
  (forall host port, (":"%char ∉ host) -> 0 <= port < 2 ^ 31 -> c_server opt = host ++ ":" ++ to_string port ->
     client_main (Ret opt) = ClientRuns (Client_init host port (c_user opt) (c_password opt))
       [events_run; ui_run; asyncConnect host port; expires_from_now 5000; io_start; ui_join; events_join; io_join]).
Proof.
  intros Hh.
  assert (forall c actions, client_main (Ret opt) = ClientRuns c actions <->
     exists host text port, split (c_server opt) ":" = [host; text] /\ stoi text = Ret port /\ c_server opt <> [] /\
       c = Client_init host port (c_user opt) (c_password opt) /\ actions = Client_run c) as Hiff.
  { intros c actions. unfold client_main, client_check_config_or_die. rewrite Hh. case_decide as Hs.
    { split; [discriminate|]. by intros (? & ? & ? & _ & _ & ? & _). }
    destruct (split (c_server opt) ":") as [|h [|t [|x l]]] eqn:E; try (split; [discriminate|]; by intros (? & ? & ? & ? & _)).
    destruct (stoi t) as [p| |] eqn:Ep.
    - split; [intros [= <- <-]; by exists h, t, p|]. intros (h' & t' & p' & [= <- <-] & E' & _ & -> & ->).
      rewrite Ep in E'. by injection E' as <-.
    - split; [discriminate|]. intros (? & ? & ? & [= <- <-] & ? & _). congruence.
    - split; [discriminate|]. intros (? & ? & ? & [= <- <-] & ? & _). congruence. }
  split; [exact Hiff|]. intros host port Hc Hp Hs. apply Hiff. exists host, (to_string port), port. rewrite Hs.
  split_and!; [|apply stoi_to_string; lia|by destruct host|done|done].
  rewrite (split_app ":"%char [] host) by done.
  rewrite (split_absent ":"%char []); [done|]. apply to_string_free; [lia|done].
Qed.

Lemma client_started_witness :
  client_main (Ret (mkClientOptions false "geo.chat:7788" "bob" "secret_b")) =
    ClientRuns (Client_init "geo.chat" 7788 "bob" "secret_b") (Client_run (Client_init "geo.chat" 7788 "bob" "secret_b")).
Proof.
  apply (client_started (mkClientOptions false "geo.chat:7788" "bob" "secret_b") eq_refl); [|lia|reflexivity].
  apply (bool_decide_unpack _). vm_compute. exact I.
Defined.

(** What follows the number is not looked at, nor is its size. *)
Example lenient_port :
  client_main (Ret (mkClientOptions false ":99999abc" [] [])) =
    ClientRuns (Client_init [] 99999 [] []) (Client_run (Client_init [] 99999 [] [])).
Proof. vm_compute. reflexivity. Qed.
