(* ===== verification/MysqlServer.v ===== *)
(** * The workers on the MySQL storage

    The running server gives its workers the storage of Mysql (the
    constructor in server/src/server.cpp asks for [type_t::MYSQL]).  Worker
    is proved for every storage with the laws of the interface; here is what
    is particular to this one: a text longer than its column, the history
    of two users when others write, and a server that does not answer. *)

From S2P Require Import Prelude CxxString Utils Json Common LockQueue Database Store ApiUtils Worker Promises Rows InMemory Mysql SqlTables Examples.

Section Mysql.
Context {D : Type} `{SqlLaws D} `{Crc32} `{StdSort}.

(** C31: a text of more than 512 bytes is refused by the table of the messages,
    the exception is caught in the storage, and the sender is told that the
    message was sent: it is lost. *)
Theorem mysql_long_message_lost now task d u v :
  my_valid d -> t_cmd task = MESSAGE_SEND -> task_user task d = Some u ->
  lookupUserByName (p_to_user (t_request task)) d = [v] ->
  (512 < length (p_message (t_request task)))%nat ->
  process_task now task d = (Done tt, d, [sendOkResponse "{\qstatus\q: 0}"]).
Proof.
  intros V Hc Hu Hv Hlong. unfold process_task. rewrite Hc. unfold do_message_send.
  rewrite with_check_pass, Hu, run_gets, Hv, run_modify. simpl. unfold my_saveMessage, try_sql, update. simpl.
  rewrite sql_insert_message_long; [done|apply V|]. unfold fits_column. lia.
Qed.

(** The history of two users is taken from the latest messages of the whole
    server: the limit, twice the number asked for, is applied before the
    two users are.  Once that many newer messages of others are stored the
    answer is empty, whatever the two have written to each other. *)
Theorem mysql_history_hidden `{!StandardSql D} now task d u v :
  my_valid d -> t_cmd task = USER_HISTORY -> task_user task d = Some u ->
  lookupUserByName (p_user (t_request task)) d = [v] ->
  0 < p_count (t_request task) < 2 ^ 31 ->
  Forall (fun m => ~ between u v m) (take (Z.to_nat (2 * p_count (t_request task))) (rev (db_log (my_view d)))) ->
  process_task now task d = (Done tt, d, [sendMessages []]).
Proof.
  intros V Hc Hu Hv Hcount Hothers. unfold process_task. rewrite Hc. unfold do_user_history.
  assert (valid d) as V0 by exact V. rewrite with_check_pass, Hu, with_named_user, Hv by done.
  rewrite !run_gets, run_bind, to_api_format_run. set (opt := mkOpt 0 _).
  assert (o_max_count opt = 2 * p_count (t_request task)) as Hopt.
  { simpl. rewrite !wrap_small; [lia|..]; split; try rewrite !wrap_small by (split; lia); lia. }
  assert (forall pred, (forall m, pred m = true -> between u v m) -> my_selectMessages pred opt d = []) as Hnone.
  { intros pred Hp. rewrite my_selectMessages_ok by (exact V || rewrite Hopt; lia). unfold latest, limit.
    rewrite decide_False by lia. rewrite Hopt. cbn [take_opt].
    induction Hothers as [|m l Hm Hl IH]; simpl; [done|].
    destruct (pred m) eqn:E; [by destruct (Hm (Hp _ E))|done]. }
  simpl. rewrite !Hnone by (intros m; rewrite sent_by_to_iff; unfold between; tauto).
  unfold mix_from_and_to_messages. simpl.
  assert (std_sort [] = []) as -> by (apply Permutation_nil; symmetry; apply std_sort_perm).
  simpl. by destruct (_ <=? _); rewrite ?take_nil.
Qed.
End Mysql.

(** C18: when the database does not answer, the storage reports that nothing was
    found: every command that needs a password is told that its user does
    not exist, a login the same, and a registration that the name is taken.
    Nothing is stored and nobody learns of the failure. *)
Theorem outage_is_not_found {D} `{SqlConnector D} `{Crc32} `{StdSort} now task d :
  (forall sql ps, executeQuery sql ps d = None) ->
  let r := process_task now task d in
  r.1.2 = d /\
  (needs_auth (t_cmd task) = true -> r.2 = [sendErrorResponse 409 ERR_CONSTRAINT "user does not exist"]) /\
  (t_cmd task = USER_LOGIN -> r.2 = [sendErrorResponse 404 ERR_NOT_FOUND "user does not exist"]) /\
  (t_cmd task = USER_CREATE -> r.2 = [sendErrorResponse 409 ERR_CONSTRAINT "user already exists"]).
Proof.
  intros Hdown r.
  assert (forall id, lookupUserById id d = User_empty) as Hid.
  { intros id. simpl. unfold my_lookupUserById. by rewrite Hdown. }
  assert (forall name, lookupUserByName name d = []) as Hname.
  { intros name. simpl. unfold my_lookupUserByName. by rewrite Hdown. }
  assert (forall name pass stpath ip city, createUser name pass stpath ip city d = (User_empty, d)) as Hcreate.
  { intros *. simpl. unfold my_createUser, try_sql, mbind, Sql_bind, query. by rewrite Hdown. }
  assert (task_user task d = None) as Hu.
  { destruct (task_user task d) as [u|] eqn:E; [|done].
    apply task_user_Some in E as (<- & Hn & _). by rewrite Hid in Hn. }
  unfold r, process_task. destruct (t_cmd task); try done;
    unfold do_idle, do_user_status, do_user_history, do_message_send, do_chat_create, do_chat_adduser,
      do_message_send_chat, do_get_locations, do_chat_with_location;
    try (rewrite with_check_pass, Hu, Hid; done).
  - assert (do_user_create now task d = (Done tt, d, [sendErrorResponse 409 ERR_CONSTRAINT "user already exists"]))
      as -> by (unfold do_user_create; by rewrite run_update, Hcreate). by split_and!; intros.
  - assert (do_user_login now task d = (Continue, d, [sendErrorResponse 404 ERR_NOT_FOUND "user does not exist"]))
      as -> by (unfold do_user_login, lookup_check_pass_by_name; by rewrite run_bind, run_gets, Hname).
    by split_and!; intros.
Qed.

(** ** Concrete runs on the tables of SqlTables *)

Definition my_after (now : Z) (tasks : list Task) (t : Tables) : Tables :=
  foldl (fun t task => (process_task now task t).1.2) t tasks.

Lemma my_step_valid now task (t : Tables) :
  my_valid t -> task_fits now task t -> my_valid (process_task now task t).1.2.
Proof. intros V R. assert (valid t) as V0 by exact V. apply (process_task_sound now task t V0 R). Qed.

(** [task_fits] at a concrete task. *)
Ltac my_fits :=
  match goal with
  | |- task_fits ?now ?task ?t =>
      let P := eval cbn in (task_fits now task t) in
      change P; apply (bool_decide_unpack P); vm_compute; exact I
  end.

Definition create_carol : Task := ask USER_CREATE (set_p_user "carol" (set_p_password "c" Params_default)).
Definition my_accounts : Tables := my_after 10 [create_alice; create_bob; create_carol] no_tables.

Lemma my_accounts_ok : my_valid my_accounts.
Proof. repeat (apply my_step_valid; [|my_fits]). exact no_tables_valid. Qed.

Definition my_alice : User := mkUser 1 1 "alice" (to_string (crc32 "secret_a")) "localhost:3306" [] [] the_time.
Definition my_bob : User := mkUser 2 2 "bob" (to_string (crc32 "secret_b")) "localhost:3306" [] [] the_time.

(** A registration whose address is too long, a message that is too long,
    and a poll. *)
Definition my_refused : Tables :=
  (my_createUser "eve" "1" "/tmp" (replicate 33 "1"%char) "" my_accounts).2.
Definition my_unsent : Tables := my_saveMessage (mkMessage UNREAD 1 2 11 (replicate 513 "x"%char)) my_refused.
Definition my_polled : Tables := (my_getMessages 2 (mkOpt 10 0) my_unsent).2.

Lemma mysql_refines_witness : consistent (my_view my_polled).
Proof.
  apply (mysql_refines my_accounts my_polled); [exact my_accounts_ok|].
  apply rtc_l with my_refused; [apply mc_createUser|].
  apply rtc_l with my_unsent; [|apply rtc_once, (mc_getMessages _ 2 (mkOpt 10 0)); unfold in_u; simpl; lia].
  apply mc_saveMessage; [apply (bool_decide_unpack _); vm_compute; exact I..|]. unfold is_timestamp. simpl. lia.
Defined.

Lemma mysql_createUser_not_atomic_witness :
  exists chat d', createUser "eve" "1" "/tmp" (replicate 33 "1"%char) "" no_tables = (User_empty, d') /\
    db_chats (my_view d') !! chat = Some (mkChat chat "eve").
Proof.
  destruct (mysql_createUser_not_atomic "eve" "1" "/tmp" (replicate 33 "1"%char) "" no_tables) as (chat & d' & E & _ & _ & _ & Hv & _).
  - exact no_tables_valid.
  - intros (i & u & Hu & _). by vm_compute in Hu.
  - unfold fits_column. simpl. lia.
  - unfold fits_column. simpl. intros [_ Hl]. lia.
  - exists chat, d'. split; [exact E|]. rewrite Hv. apply lookup_insert_eq.
Defined.

Definition long_hello : Task := ask MESSAGE_SEND (set_p_to_user "bob" (set_p_message (replicate 513 "x"%char) as_alice)).

Lemma mysql_long_message_lost_witness :
  process_task 11 long_hello my_accounts = (Done tt, my_accounts, [sendOkResponse "{\qstatus\q: 0}"]).
Proof.
  apply (mysql_long_message_lost 11 long_hello my_accounts my_alice my_bob); [exact my_accounts_ok|done|vm_compute; reflexivity..|].
  apply (bool_decide_unpack (512 < length (p_message (t_request long_hello)))%nat). vm_compute. exact I.
Defined.

(** Alice writes to bob, then carol twice to alice. *)
Definition as_carol : Params := set_p_uid 3 (set_p_password "c" Params_default).
Definition to_alice (text : str) : Task := ask MESSAGE_SEND (set_p_to_user "alice" (set_p_message text as_carol)).
Definition my_told : Tables := my_after 11 [hello_bob; to_alice "hi"; to_alice "there"] my_accounts.
Definition history_one : Task := ask USER_HISTORY (set_p_user "bob" (set_p_count 1 as_alice)).

#[local] Instance between_dec u v m : Decision (between u v m).
Proof. unfold between. apply _. Defined.

Lemma my_told_ok : my_valid my_told.
Proof. do 3 (apply my_step_valid; [|my_fits]). exact my_accounts_ok. Qed.

Lemma mysql_history_hidden_witness :
  process_task 12 history_one my_told = (Done tt, my_told, [sendMessages []]) /\
  mkMessage UNREAD 1 2 11 "hello" ∈ db_log (my_view my_told).
Proof.
  split; [|vm_compute; by left].
  apply (mysql_history_hidden 12 history_one my_told my_alice my_bob); [exact my_told_ok|done|vm_compute; reflexivity..| |].
  - simpl. lia.
  - apply (bool_decide_unpack _). vm_compute. exact I.
Defined.

(** A connection whose server is gone. *)
#[local] Instance GoneConnector : SqlConnector unit := {|
  connect := fun _ _ _ => None; setSchema := fun _ d => (None, d);
  ResultRow := unit; getUInt64 := fun _ _ => None; getUInt := fun _ _ => None; getString := fun _ _ => None;
  executeQuery := fun _ _ _ => None; executeUpdate := fun _ _ d => (None, d); result_outlives_statement := true |}.

Lemma outage_is_not_found_witness :
  (process_task 11 hello_bob tt).2 = [sendErrorResponse 409 ERR_CONSTRAINT "user does not exist"].
Proof. apply (outage_is_not_found 11 hello_bob tt); [intros; reflexivity|reflexivity]. Defined.
