(* ===== verification/Scenarios.v ===== *)
(** * Runs of a connection, a worker and the in-memory storage together

    The machines of [ApiClient], [Worker] and [InMemory] composed as the
    server composes them, on concrete sequences of requests. *)

From S2P Require Import Prelude CxxString Utils Json Common LockQueue Database Store ApiUtils Gzip Http ClientUtils Worker Promises Pool InMemory Client ClientRun System Examples ApiClient Server Typing Polling.

(** ** A message that is never delivered *)

(** Alice writes to bob four times between two polls of his. *)
Definition tell_bob (text : str) : Task := ask MESSAGE_SEND (set_p_to_user "bob" (set_p_message text as_alice)).
Definition four_told : Storage :=
  (process_task 14 (tell_bob "four")
    (process_task 13 (tell_bob "three")
      (process_task 12 (tell_bob "two")
        (process_task 11 (tell_bob "one") accounts).1.2).1.2).1.2).1.2.

(** The connection on which bob polls, with the time of his last poll. *)
Definition bob_polling : ApiClient := set_params (set_p_ts 5 as_bob) (ApiClient_init IDLE).

(** One poll: the timer queues a task, the worker executes it, and the
    answer is written without an error. *)
Definition poll_once (now : Z) (c : ApiClient) (s : Storage) : cxx (ApiClient * Storage * list client_call) :=
  '(c, actions) ← timerWaitTaskResultHandler false now c;
  match actions with
  | putTask task :: _ =>
      let '(_, s, calls) := process_task now task s in
      match calls with
      | [Worker.sendMessagesToIdleConn msgs] =>
          '(c, actions) ← worker_calls now (Worker.sendMessagesToIdleConn msgs) c;
          match actions with
          | [asyncRequest _ h] => '(c, _) ← wrote h None c; mret (c, s, calls)
          | _ => mret (c, s, calls)
          end
      | _ => mret (c, s, calls)
      end
  | _ => mret (c, s, [])
  end.

Definition sent (ts : Z) (text : str) : ApiMessage := mkApiMessage ts "alice" "bob" text.

(** Of four messages that come between two polls the first one is never
    shown: the poll brings the three latest, the connection moves its time to
    the latest of them, and from then on asks for later messages only; the
    message stays unread in the storage. *)
Theorem poll_loses_message :
  exists c1 s1 c2 s2,
    poll_once 15 bob_polling four_told =
      Ret (c1, s1, [Worker.sendMessagesToIdleConn [sent 14 "four"; sent 13 "three"; sent 12 "two"]]) /\
    m_NewestMsgTimestamp c1 = 14 /\
    poll_once 16 c1 s1 = Ret (c2, s2, []) /\ p_ts (params (m_RequestDetails c2)) = 14 /\
    mkMessage UNREAD 1 2 11 "one" ∈ db_log (view s2).
Proof.
  eexists _, _, _, _. split_and!; [vm_compute; reflexivity|vm_compute; reflexivity|vm_compute; reflexivity|..].
  - vm_compute. reflexivity.
  - vm_compute. left.
Qed.

(** ** The server with one connection *)

#[local] Instance nowhere : LocationClient := fun _ => Some (Ret ("Moscow" : str)).

(** The request by which bob starts to poll. *)
Definition idle_request (pass : str) : HttpReply :=
  match call_body (StartIdle 2 5 pass) with
  | Ret body => set_body body (request_head "/v1/idle" "application/json" body)
  | _ => no_reply
  end.

(** Bob connects, asks for the idle mode, and has it acknowledged. *)
Definition bob_connects (pass : str) : list server_event :=
  [Accepted "10.0.0.2" IDLE; Handshaken 0 None; Received 0 12 None (idle_request pass); Written 0 None].

(** The timer fires; two threads work for a while, in turns. *)
Definition tick : server_event := Fired 0 false 14.
Definition work : list server_event := concat (replicate 14 [Thread 0 14; Thread 1 14]).

(** The answer that shows bob the message of alice. *)
Definition hello_answer : str :=
  match ok_body_msgs [sent 11 "hello"] 14 with Ret body => buildApiOkResponse body | _ => [] end.

(** The timer of a polling connection does not wait for the poll before: when
    the worker is slow, two polls ask for the same messages.  Both answers
    are written to the connection, the second while the first is still under
    way, and the message is shown twice. *)
Theorem polls_overlap :
  (sv ← serves 8 (bob_connects "secret_b" ++ [tick; tick] ++ work) (Server_run told);
   c ← s_conns sv !! 0%nat; Some (c_writes c)) =
  Some [(hello_answer, to_idle 11); (hello_answer, to_idle 11)].
Proof. vm_compute. reflexivity. Qed.

(** A request to poll is acknowledged before its password is looked at, and
    every poll of the timer is then refused on its own, without an end.  After
    each refusal the connection reads again, so that reads pile up: here two
    are under way on one socket after two polls, and one more after the
    third. *)
Theorem refused_polls_pile_up :
  let poll := [tick] ++ work ++ [Written 0 None] in
  let reads es := (sv ← serves 8 (bob_connects "guess" ++ es) (Server_run told);
                   c ← s_conns sv !! 0%nat; Some (c_reads c, c_waits c)) in
  reads [] = Some (0%nat, 1%nat) /\
  reads (poll ++ poll) = Some (2%nat, 1%nat) /\
  reads (poll ++ poll ++ poll) = Some (3%nat, 1%nat).
Proof. vm_compute. by split_and!. Qed.

(** A message from alice, as a request. *)
Definition hello_request : HttpReply :=
  match call_body (Send 1 "bob" "hello again" "secret_a") with
  | Ret body => set_body body (request_head "/v1/message/send" "application/json" body)
  | _ => no_reply
  end.

(** When a poll was refused, the connection reads the next request: here a
    message, which is executed and answered, and then executed again each
    time the timer fires, and stored each time ([request_repeated]). *)
Lemma message_repeated :
  let refused := [tick] ++ work ++ [Written 0 None] in
  let stored es := (sv ← serves 8 (bob_connects "guess" ++ refused ++ [Received 0 13 None hello_request] ++ work ++ es)
                           (Server_run accounts);
                    Some (m_message <$> db_log (view (m_Db (s_worker sv))))) in
  stored [] = Some ["hello again" : str] /\
  stored ([tick] ++ work) = Some ["hello again" : str; "hello again"] /\
  stored ([tick] ++ work ++ [tick] ++ work) = Some ["hello again" : str; "hello again"; "hello again"].
Proof. vm_compute. by split_and!. Qed.

(** The server when bob's connection, whose poll was refused, is about to read
    the message of alice. *)
Definition refused_poll : list server_event := bob_connects "guess" ++ [tick] ++ work ++ [Written 0 None].
Definition before_message : Server Storage := default (Server_run accounts) (serves 8 refused_poll (Server_run accounts)).
Definition hello : api_call := Send 1 "bob" "hello again" "secret_a".
Definition hello_body : str := match call_body hello with Ret body => body | _ => [] end.
Definition hello_event : server_event := Received 0 13 None (request_read hello hello_body).
Definition after_message : Server Storage := default before_message (serve 8 hello_event before_message).
Definition two_ticks : list server_event := work ++ [tick] ++ work ++ [tick].
Definition after_ticks : Server Storage := default after_message (serves 8 two_ticks after_message).

Lemma is_there {A} (o : option A) : (if o is Some _ then true else false) = true -> is_Some o.
Proof. destruct o; [by eexists|done]. Qed.

Lemma from_default {A} (o : option A) d : is_Some o -> o = Some (default d o).
Proof. by intros [x ->]. Qed.

Ltac goes := apply from_default, is_there; vm_compute; reflexivity.

Lemma hello_good : good_call 8 hello.
Proof.
  split; [by vm_compute|].
  split_and!; (split; [discriminate|apply (bool_decide_unpack _); vm_compute; exact I]).
Qed.

Lemma request_repeated_witness :
  exists again task,
    tasks_on 0 (put (s_worker after_ticks)) = tasks_on 0 (put (s_worker before_message)) ++ [task] ++ again /\
    t_cmd task = MESSAGE_SEND /\ p_message (t_request task) = "hello again" /\
    Forall (asks_for MESSAGE_SEND (t_request task)) again /\ length again = 2%nat.
Proof.
  destruct (s_conns before_message !! 0%nat) as [c|] eqn:Hc;
    [|exfalso; assert ((fun _ => tt) <$> s_conns before_message !! 0%nat = Some tt) as E by (vm_compute; reflexivity);
      by rewrite Hc in E].
  destruct (request_repeated 8 refused_poll accounts before_message 0 c hello hello_body [] 13 after_message two_ticks after_ticks)
    as (again & E & Hf & Hl & _).
  - goes.
  - exact Hc.
  - assert (c_waits <$> s_conns before_message !! 0%nat = Some 1%nat) as E by (vm_compute; reflexivity).
    rewrite Hc in E. injection E as ->. discriminate.
  - exact hello_good.
  - discriminate.
  - vm_compute. reflexivity.
  - discriminate.
  - goes.
  - goes.
  - repeat constructor; discriminate.
  - exists again, (mkTask false MESSAGE_SEND (task_params [] hello (params (m_RequestDetails (c_client c)))) []).
    split_and!; [exact E|done|done|exact Hf|]. rewrite Hl. vm_compute. reflexivity.
Defined.



(** The same connection with a command instead: one read at the end. *)
Definition one_command : list server_event :=
  [Accepted "10.0.0.1" IDLE; Handshaken 0 None; Received 0 12 None hello_request] ++ work.

Definition served : Server Storage := default (Server_run told) (serves 8 one_command (Server_run told)).

Lemma served_ok : serves 8 one_command (Server_run told) = Some served.
Proof.
  unfold served. destruct (serves 8 one_command (Server_run told)) as [sv|] eqn:E; [done|].
  assert (is_Some (serves 8 one_command (Server_run told))) as [sv Hsv]; [|congruence].
  apply (not_eq_None_Some (serves 8 one_command (Server_run told))). by vm_compute.
Qed.

Lemma told_ok : valid told.
Proof. apply step_valid; [apply accounts_ok|fits]. Qed.

Lemma server_refines_witness :
  length (reports (s_worker served)) = 1%nat /\ consistent (view (m_Db (s_worker served))).
Proof.
  split; [vm_compute; reflexivity|].
  apply (server_refines 8 told served told_ok), (serves_roomy 8 told one_command); [apply told_ok|apply served_ok|].
  assert (put (s_worker served) = [(0%nat, ask MESSAGE_SEND (set_p_to_user "bob" (set_p_message "hello again" as_alice)))])
    as -> by (vm_compute; reflexivity).
  repeat constructor; intros now s V; vm_compute; tauto.
Defined.

(** The answer to the command is being written, and nothing else. *)
Lemma one_thing_under_way_witness :
  exists c, s_conns served !! 0%nat = Some c /\ length (c_writes c) = 1%nat /\ (under_way 0 c (s_worker served) <= 1)%nat.
Proof.
  destruct (s_conns served !! 0%nat) as [c|] eqn:Hc.
  - exists c. split; [done|]. split.
    + assert (length ∘ c_writes <$> s_conns served !! 0%nat = Some 1%nat) as Hw by (vm_compute; reflexivity).
      rewrite Hc in Hw. by injection Hw.
    + apply (one_thing_under_way 8 0 told served c); [|exact Hc].
      apply (serves_rtc 8 (fun e => ~ starts_polling 0 e) one_command); [apply served_ok|].
      repeat constructor; vm_compute; tauto || (intros [_ E]; discriminate E).
  - exfalso. assert ((fun _ => tt) <$> s_conns served !! 0%nat = Some tt) as Hw by (vm_compute; reflexivity).
    rewrite Hc in Hw. discriminate.
Defined.

Lemma tasks_typed_witness :
  let task := ask MESSAGE_SEND (set_p_to_user "bob" (set_p_message "hello again" as_alice)) in
  typed_task task /\ good_task 8 task.
Proof.
  intros task. destruct (tasks_typed 8 one_command told served 0 task) as [H1 H2].
  - intros ip city [= <-]. apply (bool_decide_unpack _). vm_compute. exact I.
  - exact served_ok.
  - apply (list_elem_of_lookup_2 _ 0). vm_compute. reflexivity.
  - split; [exact H1|]. apply H2. repeat constructor; vm_compute; tauto || (intros [_ E]; discriminate E).
Defined.

(** ** Alice's client and the server *)

#[local] Existing Instance no_zlib.

Definition server_works : list sys_event := ServerMoves <$> work.

(** Her client connects and logs in; she writes to bob, and the answer is on
    its way. *)
Definition alice_talks : list sys_event :=
  [ Accepts 0 "10.0.0.1" IDLE; ServerMoves (Handshaken 0 None); ClientMoves (Completed 0 (Shaken None)); ServerHears 12;
    ClientMoves (Completed 0 (ClientRun.Written None)) ] ++ server_works ++
  [ ClientHears 0 false true; ServerMoves (Server.Written 0 None); ClientMoves Terminal; ClientMoves Work; ServerHears 13;
    ClientMoves (Completed 1 (ClientRun.Written None)) ] ++ server_works.

Definition before_talk : System Storage := sys_start accounts alice_start.
Definition alice_waits_for_answer : System Storage := default before_talk (plays 8 alice_talks before_talk).
Definition alice_told : System Storage :=
  default before_talk (sys_step 8 (ClientHears 1 false true) alice_waits_for_answer).

Lemma default_Some {A} (o : option A) d : is_Some o -> o = Some (default d o).
Proof. by intros [x ->]. Qed.

Lemma alice_talks_ok : plays 8 alice_talks before_talk = Some alice_waits_for_answer.
Proof. apply default_Some, (not_eq_None_Some (plays 8 alice_talks before_talk)). by vm_compute. Qed.

Lemma alice_told_ok : sys_step 8 (ClientHears 1 false true) alice_waits_for_answer = Some alice_told.
Proof.
  apply default_Some, (not_eq_None_Some (sys_step 8 (ClientHears 1 false true) alice_waits_for_answer)). by vm_compute.
Qed.

Lemma alice_talk_fits : Forall fits_any (put (s_worker (y_server alice_waits_for_answer))).
Proof.
  assert (t_cmd ∘ snd <$> put (s_worker (y_server alice_waits_for_answer)) = [USER_LOGIN; MESSAGE_SEND]) as Hc
    by (vm_compute; reflexivity).
  destruct (put _) as [|[k1 t1] [|[k2 t2] [|]]]; try discriminate Hc. injection Hc as H1 H2.
  repeat constructor; intros now s V; unfold task_fits; cbn [snd]; by rewrite ?H1, ?H2.
Qed.

Lemma told_is_done_witness :
  (l ← y_link alice_waits_for_answer; '(reply, _) ← heard (l_down l); Some (_status reply)) = Some 200 /\
  exists l reply rest a body,
    y_link alice_waits_for_answer = Some l /\ heard (l_down l) = Some (reply, rest) /\
    asking (p_net (y_client alice_waits_for_answer)) (m_LastCmd (p_client (y_client alice_waits_for_answer))) a body /\
    (_status reply = 200 -> good_call 8 a -> forall y, rtc (sys_next 8) alice_told y ->
       done_in a (view (m_Db (s_worker (y_server y))))).
Proof.
  split; [vm_compute; reflexivity|].
  pose proof (start_sys_ok 8 accounts "geo" 7788 "alice" "secret_a" ["direct_msg bob hi" : str] accounts_ok) as Hok.
  pose proof (plays_steps 8 accounts alice_talks _ _ Hok alice_talks_ok alice_talk_fits) as Hr.
  apply (told_is_done 8 accounts "geo" 7788 "alice" "secret_a" ["direct_msg bob hi" : str] alice_waits_for_answer 1 false true).
  - exact accounts_ok.
  - exact Hr.
  - apply (fits_room 8 accounts); [by eapply sys_reachable_ok|exact alice_talk_fits].
  - exact alice_told_ok.
Defined.
