(* ===== verification/Stop.v ===== *)
(** * The end of the server: server/src/server.cpp, common/io_thread.hpp

    [Server::run] starts the thread of the acceptor and of the signals, the
    I/O threads and the workers, and then waits for all of them.  A signal to
    stop is a handler on the first of these threads: it sets [g_NeedStop] and
    stops the services of the threads that are there.  The steps of all
    threads are interleaved; the handler is one step.  What is proved is when
    the server comes to its end: exactly when the signal is handled after the
    last I/O thread was started. *)

From S2P Require Import Prelude CxxString Utils Common LockQueue Database Store ApiUtils Worker Promises Pool Server InMemory Examples.

(** ** common/io_thread.hpp *)

(** Where the thread of the object is: not started, in the loop of [run], or
    behind it. *)
Inductive thread_at := NotStarted | Looping | Left.

#[export] Instance thread_at_eq_dec : EqDecision thread_at.
Proof. solve_decision. Defined.

(** Where [m_Thread] is, and whether [m_IoService] is stopped. *)
Record IoThread := mkIo { io_stopped : bool; io_at : thread_at }.

Definition io_fresh : IoThread := mkIo false NotStarted.
(** [start] makes the service run again before it starts the thread. *)
Definition io_start (t : IoThread) : IoThread := mkIo false Looping.
Definition io_stop (t : IoThread) : IoThread := mkIo true (io_at t).

(** [join] has returned: a thread that was not started is not joinable. *)
Definition io_joined (t : IoThread) : bool := negb (bool_decide (io_at t = Looping)).

(** The test of the loop of [run]; between two tests the handlers run. *)
Definition io_leave (t : IoThread) : option IoThread :=
  if bool_decide (io_at t = Looping) && io_stopped t then Some (mkIo (io_stopped t) Left) else None.

(** ** Server::run and the signals *)

(** What the main thread does next in [run].  [ToStartIo more]: the threads
    that are still to be started; [ToJoinIo i]: the next to wait for. *)
Inductive stage :=
| ToStartMain | ToStartIo (more : nat) | ToRunDb | ToAccept | ToJoinDb | ToJoinMain | ToJoinIo (i : nat) | Returned.

Section Stop.
Context {C S : Type} `{AbstractConnection S} `{Crc32} `{StdSort} (pool_size workers : nat).

(** [g_NeedStop] is the flag of [g_db]. *)
Record ServerProcess := mkServerProcess {
  g_stage : stage;
  g_main : IoThread;
  g_io : list IoThread;
  g_db : DatabaseWorker C S }.

Definition set_stage (st : stage) (p : ServerProcess) : ServerProcess := mkServerProcess st (g_main p) (g_io p) (g_db p).

Definition has_ended (t : thread C S) : bool := match t with Ended => true | _ => false end.

(** [DatabaseWorker::run] and [DatabaseWorker::join]. *)
Definition db_run (w : DatabaseWorker C S) : DatabaseWorker C S := set_threads (replicate workers AtTest) w.
Definition db_joined (w : DatabaseWorker C S) : bool := forallb has_ended (m_Threads w).

(** The next step of the main thread; [None]: it waits, has returned, or was
    killed by the remainder by zero in [startAccept]. *)
Definition Server_run_step (p : ServerProcess) : option ServerProcess :=
  match g_stage p with
  | ToStartMain => Some (mkServerProcess (ToStartIo pool_size) (io_start (g_main p)) [] (g_db p))
  | ToStartIo (Datatypes.S k) => Some (mkServerProcess (ToStartIo k) (g_main p) (g_io p ++ [io_start io_fresh]) (g_db p))
  | ToStartIo O => Some (set_stage ToRunDb p)
  | ToRunDb => Some (mkServerProcess ToAccept (g_main p) (g_io p) (db_run (g_db p)))
  | ToAccept => if decide (g_io p = []) then None else Some (set_stage ToJoinDb p)
  | ToJoinDb => if db_joined (g_db p) then Some (set_stage ToJoinMain p) else None
  | ToJoinMain => if io_joined (g_main p) then Some (set_stage (ToJoinIo 0) p) else None
  | ToJoinIo i =>
      match g_io p !! i with
      | None => Some (set_stage Returned p)
      | Some t => if io_joined t then Some (set_stage (ToJoinIo (Datatypes.S i)) p) else None
      end
  | Returned => None
  end.

Definition set_need_stop (w : DatabaseWorker C S) : DatabaseWorker C S :=
  mkWorker true (m_Db w) (m_Tasks w) (m_Threads w) (aborted w) (put w) (reports w).

Definition handleStop (p : ServerProcess) : ServerProcess :=
  mkServerProcess (g_stage p) (io_stop (g_main p)) (io_stop <$> g_io p) (set_need_stop (g_db p)).

(** The signal is ignored. *)
Definition handleHUP (p : ServerProcess) : ServerProcess := p.

(** A thread is in its loop and its service is not stopped: handlers run. *)
Definition serving (t : IoThread) : bool := bool_decide (io_at t = Looping) && negb (io_stopped t).

Inductive stop_event :=
| MainThread
| MainIoLeaves
| IoLeaves (i : nat)
| WorkerStep (i : nat) (now : Z)
| PutsTask (i : nat) (conn : C) (task : Task)   (* a handler on I/O thread [i] *)
| Stop_signal
| Hup_signal.

(** [None]: the event cannot happen. *)
Definition happens (e : stop_event) (p : ServerProcess) : option ServerProcess :=
  if aborted (g_db p) then None
  else match e with
  | MainThread => Server_run_step p
  | MainIoLeaves => t ← io_leave (g_main p); Some (mkServerProcess (g_stage p) t (g_io p) (g_db p))
  | IoLeaves i =>
      t ← g_io p !! i;
      t' ← io_leave t;
      Some (mkServerProcess (g_stage p) (g_main p) (<[i := t']> (g_io p)) (g_db p))
  | WorkerStep i now =>
      t ← m_Threads (g_db p) !! i;
      if has_ended t then None
      else Some (mkServerProcess (g_stage p) (g_main p) (g_io p) (advance i now (g_db p)))
  | PutsTask i conn task =>
      t ← g_io p !! i;
      if serving t then Some (mkServerProcess (g_stage p) (g_main p) (g_io p) (putTask conn task (g_db p))) else None
  | Stop_signal => if serving (g_main p) then Some (handleStop p) else None
  | Hup_signal => if serving (g_main p) then Some (handleHUP p) else None
  end.

(** Before [run]. *)
Definition not_running (s : S) : ServerProcess := mkServerProcess ToStartMain io_fresh [] (start 0 s).

Definition goes (p p' : ServerProcess) : Prop := exists e, happens e p = Some p'.

(** The I/O threads that are still to be started. *)
Definition to_start (st : stage) : nat :=
  match st with ToStartMain => pool_size | ToStartIo more => more | _ => 0%nat end.
End Stop.
Arguments ServerProcess : clear implicits.
Arguments stop_event : clear implicits.

(** ** Steps of the workers come to an end *)

(** A list of which one element at a time goes down a well-founded order. *)
Definition one_down {A} (R : A -> A -> Prop) (l' l : list A) : Prop :=
  exists i x y, l !! i = Some x /\ R y x /\ l' = <[i:=y]> l.

Lemma one_down_wf {A} (R : A -> A -> Prop) : well_founded R -> well_founded (one_down R).
Proof.
  intros HR.
  assert (forall x, Acc R x -> forall l, Acc (one_down R) l -> Acc (one_down R) (x :: l)) as Hcons.
  { induction 1 as [x _ IHx]. induction 1 as [l Hl IHl]. constructor. intros l' (i & a & b & Hi & Hab & ->).
    destruct i as [|i]; simpl in *; [injection Hi as ->; apply IHx; [done|by constructor]|].
    apply IHl. by exists i, a, b. }
  intros l. induction l as [|x l IH]; [constructor; intros l' (i & a & b & Hi & _); done|auto].
Qed.

Section Ends.
Context {C S : Type} `{AbstractConnection S} `{Crc32} `{StdSort}.
Implicit Types w : DatabaseWorker C S.

(** A step of a thread when the server is to stop. *)
Inductive moves : thread C S -> thread C S -> Prop :=
| from_test : moves Ended AtTest
| from_queue : moves AtTest AtQueue
| takes now conn task : moves (InTask now conn task [] (process_task now task)) AtQueue
| accesses now conn task said f next s :
    moves (InTask now conn task said (next s)) (InTask now conn task said (Access f next))
| calls now conn task said c next : moves (InTask now conn task (said ++ [c]) next) (InTask now conn task said (Emit c next))
| finishes now conn task said o : moves AtTest (InTask now conn task said (Finish o)).

Lemma moves_wf : well_founded moves.
Proof.
  assert (Acc moves Ended) as He by (constructor; intros t Ht; inversion Ht).
  assert (Acc moves AtTest) as Ht by (constructor; intros t Ht; by inversion Ht).
  assert (forall rest now conn task said, Acc moves (InTask now conn task said rest)) as Hi.
  { induction rest as [o|f next IH|c next IH]; intros now conn task said; constructor; intros t Hm; inversion Hm; subst; auto. }
  intros [| |now conn task said rest|]; [done| |by apply Hi|done]. constructor. intros t Hm. inversion Hm; subst; auto.
Qed.

(** A step of a thread that has not ended moves it, or stops the process. *)
Lemma advance_moves i now w t :
  need_stop w = true -> m_Threads w !! i = Some t -> has_ended t = false ->
  aborted (advance i now w) = true \/ one_down moves (m_Threads (advance i now w)) (m_Threads w).
Proof.
  intros Hn Hi Ht. unfold advance. rewrite Hi.
  assert (forall t' w0, m_Threads w0 = <[i:=t']> (m_Threads w) -> moves t' t -> aborted w0 = true \/ one_down moves (m_Threads w0) (m_Threads w)) as Hgo
    by (intros t' w0 -> Hm; right; by exists i, t, t').
  destruct t as [| |tnow conn task said rest|]; [| | |done].
  - rewrite Hn. eapply Hgo; [done|constructor].
  - destruct (getTask (m_Tasks w)) as [[[conn task]|] q]; (eapply Hgo; [done|constructor]).
  - destruct rest as [[a| |]|f next|c next]; try (by left); (eapply Hgo; [done|constructor]).
Qed.

Lemma advance_keeps i now w : need_stop (advance i now w) = need_stop w.
Proof.
  unfold advance. destruct (m_Threads w !! i) as [[| |tnow conn task said [[a| |]|f next|c next]|]|]; try done.
  by destruct (getTask (m_Tasks w)) as [[[conn task]|] q].
Qed.
End Ends.

(** ** A signal that comes in time *)

Section Stops.
Context {C S : Type} `{AbstractConnection S} `{Crc32} `{StdSort} (pool_size workers : nat).
Implicit Types p : ServerProcess C S.
#[local] Abbreviation occurs := (happens pool_size workers).
#[local] Abbreviation goes := (goes pool_size workers).

(** The threads are started and their services stopped. *)
Record stopping p : Prop := {
  st_flag : need_stop (g_db p) = true;
  st_main : io_stopped (g_main p) = true;
  st_io : Forall (fun t => io_stopped t = true) (g_io p);
  st_started : to_start pool_size (g_stage p) = 0%nat /\ g_stage p <> ToStartMain;
  st_size : g_io p <> [] }.

Lemma io_leave_Some t t' : io_leave t = Some t' -> io_stopped t = true /\ io_at t = Looping /\ t' = mkIo true Left.
Proof.
  unfold io_leave. destruct (_ && _) eqn:E; [|done]. apply andb_true_iff in E as [Hl%bool_decide_eq_true Hs].
  rewrite Hs. by intros [= <-].
Qed.

Lemma stopped_not_serving t : io_stopped t = true -> serving t = false.
Proof. unfold serving. intros ->. by rewrite andb_false_r. Qed.

(** What the main thread has still to do, and the loops still to be left. *)
Definition main_left (st : stage) (threads : nat) : nat :=
  match st with
  | ToStartMain | ToStartIo _ => 6 + threads
  | ToRunDb => 5 + threads
  | ToAccept => 4 + threads
  | ToJoinDb => 3 + threads
  | ToJoinMain => 2 + threads
  | ToJoinIo i => 1 + (threads - i)
  | Returned => 0
  end.
Definition loops (t : IoThread) : nat := if decide (io_at t = Looping) then 1 else 0.
Definition still p : nat :=
  (main_left (g_stage p) (length (g_io p)) + loops (g_main p) + list_sum (loops <$> g_io p))%nat.

Definition closer p' p : Prop :=
  (still p' < still p)%nat \/ still p' = still p /\ one_down moves (m_Threads (g_db p')) (m_Threads (g_db p)).

Lemma leave_lower (ts : list IoThread) i t t' :
  ts !! i = Some t -> io_leave t = Some t' -> (list_sum (loops <$> <[i:=t']> ts) < list_sum (loops <$> ts))%nat.
Proof.
  intros Hi (_ & Hl & ->)%io_leave_Some. pose proof (sum_insert loops ts i t (mkIo true Left) Hi) as E.
  unfold loops in E at 2 4. rewrite Hl in E. simpl in E. lia.
Qed.

Lemma run_step_stopping p p' :
  stopping p -> Server_run_step pool_size workers p = Some p' -> stopping p' /\ (still p' < still p)%nat.
Proof.
  intros [Hf Hm Hi [Hs Hne] Hz] E. unfold Server_run_step in E. unfold still.
  destruct (g_stage p) as [|[|k]| | | | |i|] eqn:Est; try done.
  - injection E as <-. split; [by split|]. simpl. lia.
  - injection E as <-. split; [by split|]. simpl. lia.
  - case_decide; [done|]. injection E as <-. split; [by split|]. simpl. lia.
  - destruct (db_joined _); [|done]. injection E as <-. split; [by split|]. simpl. lia.
  - destruct (io_joined _); [|done]. injection E as <-. split; [by split|]. simpl. lia.
  - destruct (g_io p !! i) as [t|] eqn:Ht.
    + destruct (io_joined t); [|done]. injection E as <-. split; [by split|]. apply lookup_lt_Some in Ht. simpl. lia.
    + injection E as <-. split; [by split|]. simpl. lia.
Qed.

Lemma stopping_goes e p p' :
  stopping p -> occurs e p = Some p' -> stopping p' /\ (aborted (g_db p') = true \/ closer p' p).
Proof.
  intros Hst E. pose proof Hst as [Hf Hm Hi Hs Hz]. unfold happens in E. destruct (aborted (g_db p)); [done|].
  destruct e as [| |i|i now|i conn task| |].
  - apply run_step_stopping in E as [? ?]; [|done]. split; [done|]. right. by left.
  - destruct (io_leave (g_main p)) as [t|] eqn:Hl; [|done]. injection E as <-.
    apply io_leave_Some in Hl as (_ & Hl & ->). split; [by split|]. right. left. unfold still. cbn [g_stage g_main g_io].
    assert (loops (g_main p) = 1%nat) as -> by (unfold loops; by rewrite Hl).
    change (loops (mkIo true Left)) with 0%nat. lia.
  - destruct (g_io p !! i) as [t|] eqn:Hi'; [|done]. cbn [mbind option_bind] in E.
    destruct (io_leave t) as [t'|] eqn:Hl; [|done]. injection E as <-.
    pose proof (leave_lower _ _ _ _ Hi' Hl). split.
    + split; cbn; try done; [|by intros Hn%(f_equal length); rewrite length_insert in Hn; destruct (g_io p)].
      apply Forall_insert; [done|]. by apply io_leave_Some in Hl as (_ & _ & ->).
    + right. left. unfold still. cbn [g_stage g_main g_io]. rewrite length_insert. lia.
  - destruct (m_Threads (g_db p) !! i) as [t|] eqn:Ht; [|done]. cbn [mbind option_bind] in E.
    destruct (has_ended t) eqn:He; [done|]. injection E as <-. split; [split; cbn; try done; by rewrite advance_keeps|].
    destruct (advance_moves i now _ _ Hf Ht He) as [Ha|Ha]; [by left|]. right. by right.
  - destruct (g_io p !! i) as [t|] eqn:Hi'; [|done]. cbn [mbind option_bind] in E.
    pose proof (Forall_lookup_1 _ _ _ _ Hi Hi') as Hs'. cbn in Hs'. by rewrite (stopped_not_serving _ Hs') in E.
  - by rewrite (stopped_not_serving _ Hm) in E.
  - by rewrite (stopped_not_serving _ Hm) in E.
Qed.

Lemma aborted_stays e p : aborted (g_db p) = true -> occurs e p = None.
Proof. unfold happens. by intros ->. Qed.

(** From then on every run ends. *)
Lemma stopping_ends p : stopping p -> Acc (flip goes) p.
Proof.
  remember (still p) as n eqn:En. revert p En. induction n as [n IHn] using lt_wf_ind. intros p.
  remember (m_Threads (g_db p)) as ts eqn:Ets. revert p Ets.
  induction ts as [ts IHts] using (well_founded_induction (one_down_wf moves moves_wf)).
  intros p -> -> Hst. constructor. intros p' [e He]. destruct (stopping_goes _ _ _ Hst He) as [Hst' [Ha|[Hlt|[Heq Hd]]]].
  - constructor. intros p2 [e2 He2]. by rewrite aborted_stays in He2.
  - by eapply IHn.
  - by eapply IHts.
Qed.

(** And it ends only when [run] has returned, or an assertion failed. *)
Lemma stopping_done p :
  stopping p -> (forall e, occurs e p = None) -> g_stage p = Returned \/ aborted (g_db p) = true.
Proof.
  intros [Hf Hm Hi [Hs Hne] Hz] Hno. destruct (aborted (g_db p)) eqn:Ha; [by right|left].
  assert (forall t, io_stopped t = true -> io_leave t = None -> io_joined t = true) as Hj.
  { intros t Ht Hl. unfold io_leave in Hl. rewrite Ht, andb_true_r in Hl. unfold io_joined. by destruct (bool_decide _). }
  pose proof (Hno MainThread) as Hmain. unfold happens in Hmain. rewrite Ha in Hmain. unfold Server_run_step in Hmain.
  destruct (g_stage p) as [|[|k]| | | | |i|] eqn:Est; try done.
  - by rewrite decide_False in Hmain.
  - exfalso. assert (db_joined (g_db p) = true) as E; [|by rewrite E in Hmain].
    apply forallb_forall. intros t [i Ht]%list_elem_of_In%list_elem_of_lookup.
    specialize (Hno (WorkerStep i 0)). unfold happens in Hno. rewrite Ha, Ht in Hno. cbn in Hno. by destruct (has_ended t).
  - exfalso. specialize (Hno MainIoLeaves). unfold happens in Hno. rewrite Ha in Hno.
    destruct (io_leave (g_main p)) eqn:El; [done|]. by rewrite (Hj _ Hm El) in Hmain.
  - exfalso. destruct (g_io p !! i) as [t|] eqn:Ht; [|done]. specialize (Hno (IoLeaves i)). unfold happens in Hno.
    rewrite Ha, Ht in Hno. cbn [mbind option_bind] in Hno. destruct (io_leave t) eqn:El; [done|].
    pose proof (Forall_lookup_1 _ _ _ _ Hi Ht) as Hst. by rewrite (Hj _ Hst El) in Hmain.
Qed.

(** ** A signal that comes too early *)

(** What holds at every moment. *)
Record reached p : Prop := {
  re_fresh : g_stage p = ToStartMain -> g_main p = io_fresh;
  re_count : (length (g_io p) + to_start pool_size (g_stage p))%nat = pool_size;
  re_joined : match g_stage p with
    | ToJoinIo i => Forall (fun t => io_at t <> Looping) (take i (g_io p))
    | Returned => Forall (fun t => io_at t <> Looping) (g_io p)
    | _ => True
    end }.

Lemma run_step_reached p p' : reached p -> Server_run_step pool_size workers p = Some p' -> reached p'.
Proof.
  intros [Hf Hc Hj] E. unfold Server_run_step in E. destruct (g_stage p) as [|[|k]| | | | |i|] eqn:Est; try done.
  - injection E as <-. by split.
  - injection E as <-. by split.
  - injection E as <-. split; cbn; [done| |done]. rewrite length_app. simpl in *. lia.
  - injection E as <-. by split.
  - case_decide; [done|]. injection E as <-. by split.
  - destruct (db_joined _); [|done]. injection E as <-. by split.
  - destruct (io_joined _); [|done]. injection E as <-. split; cbn; [done|done|]. rewrite take_0. constructor.
  - destruct (g_io p !! i) as [t|] eqn:Ht.
    + destruct (io_joined t) eqn:Hjt; [|done]. injection E as <-. split; cbn; [done|done|].
      rewrite (take_S_r _ _ _ Ht). apply Forall_app. split; [done|]. repeat constructor.
      unfold io_joined in Hjt. by case_bool_decide.
    + injection E as <-. split; cbn; [done|done|]. rewrite take_ge in Hj; [done|]. by apply lookup_ge_None.
Qed.

Lemma Forall_take_insert {A} (P : A -> Prop) n i x (l : list A) :
  P x -> Forall P (take n l) -> Forall P (take n (<[i:=x]> l)).
Proof.
  intros Hx Hl. destruct (decide (i < n)%nat).
  - rewrite take_insert_lt by done. by apply Forall_insert.
  - by rewrite take_insert_ge by lia.
Qed.

(** A thread that leaves its loop, and the signals, change no stage. *)
Lemma reached_threads p g io w :
  reached p -> (g_stage p = ToStartMain -> g = g_main p) -> length io = length (g_io p) ->
  (forall n, Forall (fun t => io_at t <> Looping) (take n (g_io p)) -> Forall (fun t => io_at t <> Looping) (take n io)) ->
  reached (mkServerProcess (g_stage p) g io w).
Proof.
  intros [Hf Hc Hj] Hg Hl Hio. split; cbn.
  - intros E. rewrite Hg by done. by apply Hf.
  - by rewrite Hl.
  - destruct (g_stage p); try done; [by apply Hio|].
    specialize (Hio (length (g_io p))). rewrite firstn_all, <- Hl, firstn_all in Hio. by apply Hio.
Qed.

Lemma reached_goes e p p' : reached p -> occurs e p = Some p' -> reached p'.
Proof.
  intros Hr E. unfold happens in E. destruct (aborted (g_db p)); [done|].
  destruct e as [| |i|i now|i conn task| |].
  - by eapply run_step_reached.
  - destruct (io_leave (g_main p)) as [t|] eqn:Hl; [|done]. injection E as <-. apply reached_threads; try done.
    intros Hs. apply io_leave_Some in Hl as (_ & Hl & _). by rewrite (re_fresh _ Hr Hs) in Hl.
  - destruct (g_io p !! i) as [t|] eqn:Hi; [|done]. cbn [mbind option_bind] in E.
    destruct (io_leave t) as [t'|] eqn:Hl; [|done]. injection E as <-. apply io_leave_Some in Hl as (_ & _ & ->).
    apply reached_threads; try done; [by rewrite length_insert|]. intros n. by apply Forall_take_insert.
  - destruct (m_Threads (g_db p) !! i) as [t|]; [|done]. cbn [mbind option_bind] in E.
    destruct (has_ended t); [done|]. injection E as <-. by apply reached_threads.
  - destruct (g_io p !! i) as [t|]; [|done]. cbn [mbind option_bind] in E.
    destruct (serving t); [|done]. injection E as <-. by apply reached_threads.
  - destruct (serving (g_main p)) eqn:Hs; [|done]. injection E as <-. apply reached_threads; try done.
    + intros Hst. rewrite (re_fresh _ Hr Hst) in Hs. done.
    + by rewrite length_fmap.
    + intros n Hn. rewrite <- fmap_take. apply Forall_fmap. eapply Forall_impl; [exact Hn|done].
  - destruct (serving (g_main p)); [|done]. by injection E as <-.
Qed.

Lemma reachable_reached s p : rtc goes (not_running s) p -> reached p.
Proof.
  intros Hr. assert (reached (not_running s)) as Hstart by by split. remember (not_running s) as p0 eqn:E0. clear E0.
  induction Hr as [|p0 p1 p2 [e He] _ IH]; [done|]. apply IH. by eapply reached_goes.
Qed.

(** The service of the signals is stopped, and a thread is in its loop whose
    service is not, or will be. *)
Record overlooked p : Prop := {
  ov_main : io_stopped (g_main p) = true;
  ov_started : g_stage p <> ToStartMain;
  ov_thread : (exists k, g_stage p = ToStartIo (Datatypes.S k)) \/ mkIo false Looping ∈ g_io p }.

Lemma overlooked_goes e p p' : overlooked p -> reached p -> occurs e p = Some p' -> overlooked p'.
Proof.
  intros [Hm Hs Ht] Hr E. unfold happens in E. destruct (aborted (g_db p)); [done|].
  destruct e as [| |i|i now|i conn task| |].
  - unfold Server_run_step in E. destruct Ht as [[k Hk]|Ht].
    + rewrite Hk in E. injection E as <-. split; cbn; [done|done|]. right. apply elem_of_app. right. by left.
    + destruct (g_stage p) as [|[|k]| | | | |i|]; try done; try (injection E as <-; split; cbn; [done|done|by right]).
      * injection E as <-. split; cbn; [done|done|]. right. apply elem_of_app. by left.
      * case_decide; [done|]. injection E as <-. split; cbn; [done|done|by right].
      * destruct (db_joined _); [|done]. injection E as <-. split; cbn; [done|done|by right].
      * destruct (io_joined _); [|done]. injection E as <-. split; cbn; [done|done|by right].
      * destruct (g_io p !! i) as [t|]; [destruct (io_joined t); [|done]|]; injection E as <-; split; cbn; (done || by right).
  - destruct (io_leave (g_main p)) as [t|] eqn:Hl; [|done]. injection E as <-. apply io_leave_Some in Hl as (_ & _ & ->).
    by split.
  - destruct (g_io p !! i) as [t|] eqn:Hi; [|done]. cbn [mbind option_bind] in E.
    destruct (io_leave t) as [t'|] eqn:Hl; [|done]. injection E as <-. split; cbn; [done|done|].
    destruct Ht as [Ht|[j Hj]%list_elem_of_lookup]; [by left|right]. apply list_elem_of_lookup. exists j.
    rewrite list_lookup_insert_ne; [done|]. intros ->. rewrite Hj in Hi. injection Hi as <-. done.
  - destruct (m_Threads (g_db p) !! i) as [t|]; [|done]. cbn [mbind option_bind] in E.
    destruct (has_ended t); [done|]. injection E as <-. by split.
  - destruct (g_io p !! i) as [t|]; [|done]. cbn [mbind option_bind] in E.
    destruct (serving t); [|done]. injection E as <-. by split.
  - by rewrite (stopped_not_serving _ Hm) in E.
  - by rewrite (stopped_not_serving _ Hm) in E.
Qed.

Lemma overlooked_waits p : overlooked p -> reached p -> g_stage p <> Returned /\ occurs Stop_signal p = None.
Proof.
  intros [Hm Hs Ht] [_ _ Hj]. split.
  - intros E. rewrite E in Hj, Ht. destruct Ht as [[k Hk]|Ht]; [done|]. rewrite Forall_forall in Hj. by apply (Hj _ Ht).
  - unfold happens. destruct (aborted _); [done|]. by rewrite (stopped_not_serving _ Hm).
Qed.

(** C22: the end of the server.  When the signal to stop is handled after the
    last of the I/O threads was started, every run from there ends, whatever
    the order of the threads, and ends with the return of [Server::run] (or
    at a failed assertion).  When it is handled before, the threads that are
    started later are never stopped: [Server::run] never returns, and no
    other signal is handled. *)
Theorem stop_signal s p p1 :
  (0 < pool_size)%nat -> rtc goes (not_running s) p -> occurs Stop_signal p = Some p1 ->
  match to_start pool_size (g_stage p) with
  | O => Acc (flip goes) p1 /\
      forall p2, rtc goes p1 p2 -> (forall e, occurs e p2 = None) -> g_stage p2 = Returned \/ aborted (g_db p2) = true
  | Datatypes.S _ => forall p2, rtc goes p1 p2 -> g_stage p2 <> Returned /\ occurs Stop_signal p2 = None
  end.
Proof.
  intros Hn Hr%reachable_reached E. pose proof (reached_goes _ _ _ Hr E) as Hr1.
  unfold happens in E. destruct (aborted (g_db p)); [done|]. destruct (serving (g_main p)) eqn:Hs; [|done]. injection E as <-.
  assert (g_stage p <> ToStartMain) as Hst by (intros Hst; by rewrite (re_fresh _ Hr Hst) in Hs).
  destruct (to_start pool_size (g_stage p)) as [|k] eqn:Hk.
  - assert (stopping (handleStop p)) as Hp1.
    { split; cbn; [done..| |done|].
      - apply Forall_fmap, Forall_true. done.
      - pose proof (re_count _ Hr) as Hc. rewrite Hk in Hc. intros Hnil%fmap_nil_inv. rewrite Hnil in Hc. simpl in Hc. lia. }
    split; [by apply stopping_ends|]. intros p2 Hp2. apply stopping_done.
    induction Hp2 as [|p0 p1 p2 [e He] _ IH]; [done|]. apply IH; [by eapply reached_goes|by eapply stopping_goes].
  - assert (overlooked (handleStop p)) as Hp1.
    { split; cbn; [done..|]. left. destruct (g_stage p); try done. simpl in Hk. subst. by exists k. }
    intros p2 Hp2. induction Hp2 as [p1|p0 p1 p2 [e He] _ IH]; [by apply overlooked_waits|].
    apply IH; [by eapply reached_goes|by eapply overlooked_goes].
Qed.
End Stops.

(** ** Two I/O threads and a worker *)

Definition started_by (es : list (stop_event nat)) : option (ServerProcess nat Storage) :=
  foldl (fun p e => p ≫= happens 2 1 e) (Some (not_running accounts)) es.

Lemma started_reached es p : started_by es = Some p -> rtc (goes 2 1) (not_running accounts) p.
Proof.
  revert p. induction es as [|e es IH] using rev_ind; intros p E; [injection E as <-; apply rtc_refl|].
  unfold started_by in E. rewrite foldl_app in E. cbn [foldl] in E. fold (started_by es) in E.
  destruct (started_by es) as [p1|]; [|done]. eapply rtc_r; [by apply IH|]. by exists e.
Qed.

(** The first signal comes when everything is started; the second when one
    of the I/O threads is. *)
Definition in_time : list (stop_event nat) := replicate 6 MainThread.
Definition too_early : list (stop_event nat) := replicate 2 MainThread.

Lemma stop_signal_witness :
  (exists p1, started_by (in_time ++ [Stop_signal]) = Some p1 /\ Acc (flip (goes 2 1)) p1) /\
  (exists p1, started_by (too_early ++ [Stop_signal]) = Some p1 /\
     forall p2, rtc (goes 2 1) p1 p2 -> g_stage p2 <> Returned /\ happens 2 1 Stop_signal p2 = None).
Proof.
  split.
  - destruct (started_by in_time) as [p|] eqn:E; [|vm_compute in E; discriminate E].
    destruct (happens 2 1 Stop_signal p) as [p1|] eqn:E1; [|vm_compute in E; injection E as <-; vm_compute in E1; discriminate E1].
    exists p1. split.
    + unfold started_by. rewrite foldl_app. fold (started_by in_time). rewrite E. exact E1.
    + pose proof (stop_signal 2 1 accounts p p1 ltac:(lia) (started_reached _ _ E) E1) as Hstop.
      vm_compute in E. injection E as <-. apply Hstop.
  - destruct (started_by too_early) as [p|] eqn:E; [|vm_compute in E; discriminate E].
    destruct (happens 2 1 Stop_signal p) as [p1|] eqn:E1; [|vm_compute in E; injection E as <-; vm_compute in E1; discriminate E1].
    exists p1. split.
    + unfold started_by. rewrite foldl_app. fold (started_by too_early). rewrite E. exact E1.
    + pose proof (stop_signal 2 1 accounts p p1 ltac:(lia) (started_reached _ _ E) E1) as Hstop.
      vm_compute in E. injection E as <-. exact Hstop.
Defined.
